(** * A segregated-free-list allocator (mm.c): shallow embedding and proofs

    The allocator of [mm.c] manages one contiguous heap obtained from the
    heap primitive [mem_sbrk].  Its state is the heap memory together with
    the two global anchors [heap_listp] and [seg_free_listp].  The embedding
    below follows the C text function by function:

    - memory is byte addressed; a 4-byte access ([GET]/[PUT]) and an 8-byte
      access ([GET_8B]/[PUT_8B], the link macros) are little-endian
      compositions of byte accesses, as on the x86-64 target of the lab;
    - [size_t] values are integers with the 64-bit wrap-around written out
      where the C arithmetic can wrap; [unsigned int] stores truncate to 32
      bits; addresses are integers (pointer arithmetic that leaves the
      address space is undefined in C and is not wrapped here);
    - the loops that walk a bucket list take a fuel argument and return
      [None] when it runs out; [realloc] also has no result when its
      [memcpy] would leave the heap arena. *)

From Stdlib Require Import ZArith Lia List Bool.
Import ListNotations.
Local Open Scope Z_scope.

(** ** Memory *)

Definition memory := Z -> Z.

Definition wrap32 (v : Z) : Z := v mod 2 ^ 32.
Definition wrap64 (v : Z) : Z := v mod 2 ^ 64.

Definition load1 (m : memory) (a : Z) : Z := m a mod 256.

Definition store1 (m : memory) (a v : Z) : memory :=
  fun x => if x =? a then v mod 256 else m x.

Definition load4 (m : memory) (a : Z) : Z :=
  load1 m a + 2 ^ 8 * load1 m (a + 1) + 2 ^ 16 * load1 m (a + 2)
  + 2 ^ 24 * load1 m (a + 3).

Definition store4 (m : memory) (a v : Z) : memory :=
  store1 (store1 (store1 (store1 m a v) (a + 1) (v / 2 ^ 8))
                 (a + 2) (v / 2 ^ 16)) (a + 3) (v / 2 ^ 24).

Definition load8 (m : memory) (a : Z) : Z :=
  load4 m a + 2 ^ 32 * load4 m (a + 4).

Definition store8 (m : memory) (a v : Z) : memory :=
  store4 (store4 m a v) (a + 4) (v / 2 ^ 32).

(** [memcpy(dst, src, n)] and [memset(dst, c, n)] of the C library, as
    functions on the memory.  [memcpy] reads its source from the memory
    before the copy, as the C function does on regions that do not
    overlap.  The memory is total: a store through a wild pointer shows as
    changed bytes, not as a fault. *)
Definition memcpy (m : memory) (dst src n : Z) : memory :=
  fun x => if (dst <=? x) && (x <? dst + n) then load1 m (src + (x - dst))
           else m x.

Definition memset (m : memory) (dst c n : Z) : memory :=
  fun x => if (dst <=? x) && (x <? dst + n) then c mod 256 else m x.

(** ** Allocator state *)

Record state := mkState {
  mem : memory;            (* the bytes of the address space *)
  heap_listp : Z;          (* static char *heap_listp *)
  seg_free_listp : Z;      (* static char *seg_free_listp *)
  mem_brk : Z;             (* heap primitive: current break *)
  mem_max_addr : Z         (* heap primitive: largest legal break *)
}.

Definition set_mem (st : state) (m : memory) : state :=
  mkState m (heap_listp st) (seg_free_listp st) (mem_brk st) (mem_max_addr st).

Definition set_heap_listp (st : state) (p : Z) : state :=
  mkState (mem st) p (seg_free_listp st) (mem_brk st) (mem_max_addr st).

Definition set_seg_free_listp (st : state) (p : Z) : state :=
  mkState (mem st) (heap_listp st) p (mem_brk st) (mem_max_addr st).

(** Modelled from the spec: the heap primitive [mem_sbrk] lives in memlib.c,
    which is not part of the sources.  The spec describes it as extending
    the heap by [n] bytes and "returning the pre-extension break pointer, or
    a failure sentinel equivalent to (void* )-1"; the heap can only grow.  It
    refuses an extension that would pass [mem_max_addr]. *)
Definition mem_sbrk (st : state) (incr : Z) : Z * state :=
  if (incr <? 0) || (mem_max_addr st <? mem_brk st + incr) then (-1, st)
  else (mem_brk st,
        mkState (mem st) (heap_listp st) (seg_free_listp st)
                (mem_brk st + incr) (mem_max_addr st)).

(** ** Constants and macros *)

Definition NULL : Z := 0.
Definition WSIZE : Z := 4.
Definition DSIZE : Z := 8.
Definition CHUNKSIZE : Z := 4096.        (* 1<<12 *)
Definition MINBLOCKSIZE : Z := 3 * DSIZE.
Definition SIZE_T_SIZE : Z := 8.         (* ALIGN(sizeof(size_t)) *)

Definition PACK (size alloc : Z) : Z := Z.lor size alloc.

Definition GET (st : state) (p : Z) : Z := load4 (mem st) p.
Definition PUT (st : state) (p v : Z) : state := set_mem st (store4 (mem st) p v).
Definition GET_8B (st : state) (p : Z) : Z := load8 (mem st) p.
Definition PUT_8B (st : state) (p v : Z) : state := set_mem st (store8 (mem st) p v).

(* ~0x7 is the int -8; on a 32-bit word it clears the three low bits. *)
Definition GET_SIZE (st : state) (p : Z) : Z := Z.land (GET st p) (Z.lnot 7).
Definition GET_ALLOC (st : state) (p : Z) : Z := Z.land (GET st p) 1.
Definition GET_PREV_ALLOC (st : state) (p : Z) : Z := Z.land (GET st p) 2.

Definition HDRP (bp : Z) : Z := bp - WSIZE.
Definition FTRP (st : state) (bp : Z) : Z := bp + GET_SIZE st (HDRP bp) - DSIZE.
Definition PREV_FTRP (bp : Z) : Z := bp - DSIZE.
Definition NEXT_BLKP (st : state) (bp : Z) : Z := bp + GET_SIZE st (bp - WSIZE).
Definition PREV_BLKP (st : state) (bp : Z) : Z := bp - GET_SIZE st (bp - DSIZE).

Definition GET_PREVP (st : state) (p : Z) : Z := load8 (mem st) p.
Definition GET_NEXTP (st : state) (p : Z) : Z := load8 (mem st) (p + 8).
Definition SET_PREVP (st : state) (p v : Z) : state := PUT_8B st p v.
Definition SET_NEXTP (st : state) (p v : Z) : state := PUT_8B st (p + 8) v.

Definition SIZE_PTR (p : Z) : Z := p - SIZE_T_SIZE.

(** Option monad for the fuelled loops. *)
Definition obind {A B} (o : option A) (f : A -> option B) : option B :=
  match o with Some a => f a | None => None end.
Notation "x <- c ;; k" := (obind c (fun x => k))
  (at level 61, c at next level, right associativity).
Notation "' ( x , y ) <- c ;; k" := (obind c (fun xy => let '(x, y) := xy in k))
  (at level 61, c at next level, x name, y name, right associativity).

(** ** Segregated free list *)

Definition get_root_index (size : Z) : Z :=
  if size <=? 32 then 0
  else if size <=? 64 then 1
  else if size <=? 128 then 2
  else if size <=? 256 then 3
  else if size <=? 512 then 4
  else if size <=? 1024 then 5
  else if size <=? 2048 then 6
  else if size <=? 4096 then 7
  else if size <=? 8192 then 8
  else 9.

Definition get_root (st : state) (size : Z) : Z :=
  seg_free_listp st + get_root_index size * DSIZE.

Definition remove_from_free_list (st : state) (bp : Z) : state :=
  if (bp =? NULL) || negb (GET_ALLOC st (HDRP bp) =? 0) then st
  else
    let root := get_root st (GET_SIZE st (HDRP bp)) in
    let prev := GET_PREVP st bp in
    let next := GET_NEXTP st bp in
    let st := SET_PREVP st bp NULL in
    let st := SET_NEXTP st bp NULL in
    if (prev =? NULL) && (next =? NULL) then
      PUT_8B st root NULL
    else if negb (prev =? NULL) && (next =? NULL) then
      SET_NEXTP st prev NULL
    else if (prev =? NULL) && negb (next =? NULL) then
      let st := SET_PREVP st next NULL in
      PUT_8B st root next
    else
      let st := SET_PREVP st next prev in
      SET_NEXTP st prev next.

(** The sorting loop of [insert_to_free_list]: returns the final
    [(prev, next)] pair. *)
Fixpoint insert_scan (fuel : nat) (st : state) (size prev next : Z)
  : option (Z * Z) :=
  if next =? NULL then Some (prev, next)
  else match fuel with
       | O => None
       | S fuel' =>
           let next_size := GET_SIZE st (HDRP next) in
           if next_size >=? size then Some (prev, next)
           else insert_scan fuel' st size next (GET_NEXTP st next)
       end.

Definition insert_to_free_list (fuel : nat) (st : state) (bp : Z)
  : option state :=
  if bp =? NULL then Some st
  else
    let size := GET_SIZE st (HDRP bp) in
    let root := get_root st size in
    '(prev, next) <- insert_scan fuel st size root (GET_8B st root) ;;
    if (prev =? root) && (next =? NULL) then
      let st := PUT_8B st root bp in
      let st := SET_PREVP st bp NULL in
      Some (SET_NEXTP st bp next)
    else if negb (prev =? root) && (next =? NULL) then
      let st := SET_PREVP st bp prev in
      let st := SET_NEXTP st bp next in
      Some (SET_NEXTP st prev bp)
    else if (prev =? root) && negb (next =? NULL) then
      let st := PUT_8B st root bp in
      let st := SET_PREVP st bp NULL in
      let st := SET_NEXTP st bp next in
      Some (SET_PREVP st next bp)
    else
      let st := SET_PREVP st bp prev in
      let st := SET_NEXTP st bp next in
      let st := SET_NEXTP st prev bp in
      Some (SET_PREVP st next bp).

(** ** Coalescing and heap extension *)

Definition coalesce (fuel : nat) (st : state) (bp : Z) : option (Z * state) :=
  let prev_alloc := GET_PREV_ALLOC st (HDRP bp) in
  let next_alloc := GET_ALLOC st (HDRP (NEXT_BLKP st bp)) in
  let size := GET_SIZE st (HDRP bp) in
  let prev_bp := PREV_BLKP st bp in
  let next_bp := NEXT_BLKP st bp in
  let '(bp, st) :=
    if negb (prev_alloc =? 0) && negb (next_alloc =? 0) then (bp, st)
    else if negb (prev_alloc =? 0) && (next_alloc =? 0) then
      let st := remove_from_free_list st next_bp in
      let next_size := GET_SIZE st (HDRP (NEXT_BLKP st bp)) in
      let size := size + next_size in
      let st := PUT st (HDRP bp) (PACK size 2) in
      let st := PUT st (FTRP st bp) (GET st (HDRP bp)) in
      (bp, st)
    else if (prev_alloc =? 0) && negb (next_alloc =? 0) then
      let st := remove_from_free_list st prev_bp in
      let prev_size := GET_SIZE st (HDRP prev_bp) in
      let size := size + prev_size in
      let bp := prev_bp in
      let st := PUT st (HDRP bp) (PACK size (GET_PREV_ALLOC st (HDRP prev_bp))) in
      let st := PUT st (FTRP st bp) (GET st (HDRP bp)) in
      (bp, st)
    else
      let st := remove_from_free_list st prev_bp in
      let st := remove_from_free_list st next_bp in
      let prev_size := GET_SIZE st (HDRP prev_bp) in
      let next_size := GET_SIZE st (HDRP next_bp) in
      let size := size + (prev_size + next_size) in
      let bp := prev_bp in
      let st := PUT st (HDRP prev_bp)
                    (PACK size (GET_PREV_ALLOC st (HDRP prev_bp))) in
      let st := PUT st (FTRP st prev_bp) (GET st (HDRP bp)) in
      (bp, st) in
  st <- insert_to_free_list fuel st bp ;;
  Some (bp, st).

Definition extend_heap (fuel : nat) (st : state) (words : Z)
  : option (Z * state) :=
  let size := if negb (words mod 2 =? 0) then wrap64 ((words + 1) * WSIZE)
              else wrap64 (words * WSIZE) in
  let '(bp, st) := mem_sbrk st size in
  if bp =? -1 then Some (NULL, st)
  else
    let st := PUT st (HDRP bp) (PACK size (GET_PREV_ALLOC st (HDRP bp))) in
    let st := PUT st (FTRP st bp) (GET st (HDRP bp)) in
    let st := PUT st (HDRP (NEXT_BLKP st bp)) (PACK 0 1) in
    let st := SET_PREVP st bp NULL in
    let st := SET_NEXTP st bp NULL in
    coalesce fuel st bp.

(** ** Initialisation; the [int] result is the first component. *)

Definition mm_init (fuel : nat) (st : state) : option (Z * state) :=
  let '(p, st) := mem_sbrk st (12 * DSIZE) in
  let st := set_heap_listp st p in
  if p =? -1 then Some (-1, st)
  else
    let st := PUT_8B st (heap_listp st) NULL in
    let st := PUT_8B st (heap_listp st + 1 * DSIZE) NULL in
    let st := PUT_8B st (heap_listp st + 2 * DSIZE) NULL in
    let st := PUT_8B st (heap_listp st + 3 * DSIZE) NULL in
    let st := PUT_8B st (heap_listp st + 4 * DSIZE) NULL in
    let st := PUT_8B st (heap_listp st + 5 * DSIZE) NULL in
    let st := PUT_8B st (heap_listp st + 6 * DSIZE) NULL in
    let st := PUT_8B st (heap_listp st + 7 * DSIZE) NULL in
    let st := PUT_8B st (heap_listp st + 8 * DSIZE) NULL in
    let st := PUT_8B st (heap_listp st + 9 * DSIZE) NULL in
    let st := PUT st (heap_listp st + 10 * DSIZE) 0 in
    let st := PUT st (heap_listp st + (10 * DSIZE + WSIZE)) (PACK DSIZE 1) in
    let st := PUT st (heap_listp st + 11 * DSIZE) (PACK DSIZE 1) in
    let st := PUT st (heap_listp st + (11 * DSIZE + WSIZE)) (PACK 0 3) in
    let st := set_seg_free_listp st (heap_listp st) in
    let st := set_heap_listp st (heap_listp st + 11 * DSIZE) in
    '(bp, st) <- extend_heap fuel st (CHUNKSIZE / WSIZE) ;;
    if bp =? NULL then Some (-1, st) else Some (0, st).

(** ** Placement *)

Fixpoint find_fit_list (fuel : nat) (st : state) (asize bp : Z) : option Z :=
  if bp =? NULL then Some NULL
  else match fuel with
       | O => None
       | S fuel' =>
           if GET_SIZE st (HDRP bp) >=? asize then Some bp
           else find_fit_list fuel' st asize (GET_NEXTP st bp)
       end.

Fixpoint find_fit_roots (fuel : nat) (st : state) (asize root : Z)
  : option Z :=
  if root =? heap_listp st - DSIZE then Some NULL
  else match fuel with
       | O => None
       | S fuel' =>
           bp <- find_fit_list fuel st asize (GET_8B st root) ;;
           if negb (bp =? NULL) then Some bp
           else find_fit_roots fuel' st asize (root + DSIZE)
       end.

Definition find_fit (fuel : nat) (st : state) (asize : Z) : option Z :=
  find_fit_roots fuel st asize (get_root st asize).

Definition place (fuel : nat) (st : state) (bp asize : Z) : option state :=
  let csize := GET_SIZE st (HDRP bp) in
  let st := remove_from_free_list st bp in
  let rsize := wrap64 (csize - asize) in
  if rsize >=? MINBLOCKSIZE then
    let st := PUT st (HDRP bp) (PACK asize (Z.lor (GET_PREV_ALLOC st (HDRP bp)) 1)) in
    let new_bp := NEXT_BLKP st bp in
    let st := PUT st (HDRP new_bp) (PACK rsize 2) in
    let st := PUT st (FTRP st new_bp) (PACK rsize 2) in
    let st := SET_PREVP st new_bp NULL in
    let st := SET_NEXTP st new_bp NULL in
    insert_to_free_list fuel st new_bp
  else
    let st := PUT st (HDRP bp) (PACK csize (Z.lor (GET_PREV_ALLOC st (HDRP bp)) 1)) in
    let next_bp := NEXT_BLKP st bp in
    let st := PUT st (HDRP next_bp) (Z.lor (GET st (HDRP next_bp)) 2) in
    if GET_ALLOC st (HDRP next_bp) =? 0 then
      Some (PUT st (FTRP st next_bp) (GET st (HDRP next_bp)))
    else Some st.

(** ** Public interface *)

(** The adjusted block size computed at the start of [malloc]. *)
Definition adjust_size (size : Z) : Z :=
  if size <=? 2 * DSIZE then MINBLOCKSIZE
  else wrap64 (DSIZE * (wrap64 (size + WSIZE + (DSIZE - 1)) / DSIZE)).

Definition malloc (fuel : nat) (st : state) (size : Z) : option (Z * state) :=
  st <- (if heap_listp st =? 0
         then '(_, st') <- mm_init fuel st ;; Some st'
         else Some st) ;;
  if size =? 0 then Some (NULL, st)
  else
    let asize := adjust_size size in
    bp <- find_fit fuel st asize ;;
    if negb (bp =? NULL) then
      st <- place fuel st bp asize ;;
      Some (bp, st)
    else
      let extendsize := Z.max asize CHUNKSIZE in
      '(bp, st) <- extend_heap fuel st (extendsize / WSIZE) ;;
      if bp =? NULL then Some (NULL, st)
      else
        st <- place fuel st bp asize ;;
        Some (bp, st).

Definition free (fuel : nat) (st : state) (bp : Z) : option state :=
  if bp =? NULL then Some st
  else
    let next_bp := NEXT_BLKP st bp in
    let st := PUT st (HDRP bp)
                  (Z.lor (GET_SIZE st (HDRP bp)) (GET_PREV_ALLOC st (HDRP bp))) in
    let st := PUT st (FTRP st bp) (GET st (HDRP bp)) in
    let st := SET_PREVP st bp NULL in
    let st := SET_NEXTP st bp NULL in
    let st := PUT st (HDRP next_bp)
                  (Z.lor (GET_SIZE st (HDRP next_bp)) (GET_ALLOC st (HDRP next_bp))) in
    '(_, st) <- coalesce fuel st bp ;;
    Some st.

(** The C library's [memcpy] has a defined result only when the bytes it
    reads and the bytes it writes belong to an object.  The one object this
    program works on is the heap arena that the heap primitive hands out
    piece by piece: it starts at the first break, which [mm_init] keeps in
    [seg_free_listp], and ends at [mem_max_addr].  [in_arena st a n] says
    that the [n] bytes from [a] on lie in the arena. *)
Definition in_arena (st : state) (a n : Z) : bool :=
  (seg_free_listp st <=? a) && (a + n <=? mem_max_addr st).

(** [realloc] copies [min(size, oldsize)] bytes, where [oldsize] is the
    8-byte word in front of the old payload.  A copy that leaves the arena
    has no defined result in C (in practice the process is killed); the
    model then yields no result either. *)
Definition realloc (fuel : nat) (st : state) (oldptr size : Z)
  : option (Z * state) :=
  if size =? 0 then
    st <- free fuel st oldptr ;;
    Some (0, st)
  else if oldptr =? NULL then malloc fuel st size
  else
    '(newptr, st) <- malloc fuel st size ;;
    if newptr =? 0 then Some (0, st)
    else
      let oldsize := load8 (mem st) (SIZE_PTR oldptr) in
      let oldsize := if size <? oldsize then size else oldsize in
      if in_arena st newptr oldsize && in_arena st oldptr oldsize then
        let st := set_mem st (memcpy (mem st) newptr oldptr oldsize) in
        st <- free fuel st oldptr ;;
        Some (newptr, st)
      else None.

(** [calloc] hands the result of [malloc] to [memset] without testing it.
    The store is modelled as it is written, also through a null pointer, so
    that the bytes such a call overwrites can be named. *)
Definition calloc (fuel : nat) (st : state) (nmemb size : Z)
  : option (Z * state) :=
  let bytes := wrap64 (nmemb * size) in
  '(newptr, st) <- malloc fuel st bytes ;;
  let st := set_mem st (memset (mem st) newptr 0 bytes) in
  Some (newptr, st).


(** ** The heap checker *)

(** [ALIGN(p)]: the mask [~0x7] is the [int] -8, which clears the three low
    bits of the [size_t] sum. *)
Definition ALIGN (p : Z) : Z := Z.land (wrap64 (p + 7)) (Z.lnot 7).

Definition aligned (p : Z) : bool := ALIGN p =? p.

(** The lines [mm_checkheap] prints with [printf], each with the block
    pointer it reports.  (The [dbg_printf] lines are compiled out unless
    [DEBUG] is defined.) *)
Inductive complaint :=
| NotAligned (bp : Z)      (* bp %p is not aligned *)
| NotInHeap (bp : Z)       (* bp %p is not in heap *)
| PrevBothFree (bp : Z)    (* bp %p and previous block are both free *)
| NextBothFree (bp : Z)    (* bp %p and next block are both free *)
| SizeMismatch (bp : Z)    (* size in free block %p's header and footer
                              does not match *)
| NextMismatch (bp : Z)    (* pointer %p mismatch with next block *)
| PrevMismatch (bp : Z)    (* pointer %p mismatch with previous block *)
| WrongClass (bp : Z)      (* Bp %p is in the wrong size class. *)
| WrongOrder (bp : Z).     (* Bp %p is in the wrong order. *)

(** The size range the checker expects in bucket [i] (the [switch] of
    [mm_checkheap]); [1<<31] is stored in an [unsigned int]. *)
Definition class_bounds (i : Z) : Z * Z :=
  match i with
  | 0 => (0, 32)
  | 1 => (33, 64)
  | 2 => (65, 128)
  | 3 => (129, 256)
  | 4 => (257, 512)
  | 5 => (513, 1024)
  | 6 => (1025, 2048)
  | 7 => (2049, 4096)
  | 8 => (4097, 8192)
  | 9 => (8193, 2 ^ 31)
  | _ => (0, 0)
  end.

Section Checker.
(** [in_heap] compares with [mem_heap_lo()] and [mem_heap_hi()] of
    memlib.c, which is not part of the sources: the checker is modelled for
    any two such bounds. *)
Variables mem_heap_lo mem_heap_hi : state -> Z.

Definition in_heap (st : state) (p : Z) : bool :=
  (p <=? mem_heap_hi st) && (p >=? mem_heap_lo st).

(** The body of the heap loop for the block [ptr]. *)
Definition check_block (st : state) (ptr : Z) : list complaint :=
  (if negb (aligned ptr) then [NotAligned ptr] else [])
  ++ (if negb (in_heap st ptr) then [NotInHeap ptr] else [])
  ++ (if (GET_ALLOC st (HDRP ptr) =? 0) && (GET_PREV_ALLOC st (HDRP ptr) =? 0)
      then [PrevBothFree ptr] else [])
  ++ (if (GET_ALLOC st (HDRP ptr) =? 0)
         && (GET_ALLOC st (HDRP (NEXT_BLKP st ptr)) =? 0)
      then [NextBothFree ptr] else [])
  ++ (if GET_ALLOC st (HDRP ptr) =? 0 then
        (if negb (GET_SIZE st (HDRP ptr) =? GET_SIZE st (FTRP st ptr))
         then [SizeMismatch ptr] else [])
        ++ (if (GET_NEXTP st ptr =? NULL) || (GET_PREVP st ptr =? NULL) then []
            else
              (if negb (ptr =? GET_PREVP st (GET_NEXTP st ptr))
               then [NextMismatch ptr] else [])
              ++ (if negb (ptr =? GET_NEXTP st (GET_PREVP st ptr))
                  then [PrevMismatch ptr] else []))
      else []).

(** The heap loop: from [ptr] on while the size in the header is
    positive. *)
Fixpoint check_blocks (fuel : nat) (st : state) (ptr : Z)
  : option (list complaint) :=
  if GET_SIZE st (HDRP ptr) >? 0 then
    match fuel with
    | O => None
    | S fuel' =>
        out <- check_blocks fuel' st (NEXT_BLKP st ptr) ;;
        Some (check_block st ptr ++ out)
    end
  else Some [].

(** The walk along one bucket list. *)
Fixpoint check_list (fuel : nat) (st : state) (min max ptr : Z)
  : option (list complaint) :=
  if ptr =? NULL then Some []
  else match fuel with
       | O => None
       | S fuel' =>
           let fbsize := GET_SIZE st (HDRP ptr) in
           let c1 := if (fbsize >? max) || (fbsize <? min)
                     then [WrongClass ptr] else [] in
           let c2 := if negb (GET_NEXTP st ptr =? NULL) then
                       let nxsize := GET_SIZE st (HDRP (GET_NEXTP st ptr)) in
                       if fbsize >? nxsize then [WrongOrder ptr] else []
                     else [] in
           out <- check_list fuel' st min max (GET_NEXTP st ptr) ;;
           Some (c1 ++ c2 ++ out)
       end.

(** The loop over the buckets [i], [i+1], ..., taking [n] of them. *)
Fixpoint check_classes (fuel : nat) (st : state) (i : Z) (n : nat)
  : option (list complaint) :=
  match n with
  | O => Some []
  | S n' =>
      let '(min, max) := class_bounds i in
      out1 <- check_list fuel st min max (GET_8B st (seg_free_listp st + i * DSIZE)) ;;
      out2 <- check_classes fuel st (i + 1) n' ;;
      Some (out1 ++ out2)
  end.

(** [mm_checkheap] reads the heap and prints; the result is what it
    printed.  The argument [lineno] is not used. *)
Definition mm_checkheap (fuel : nat) (st : state) (lineno : Z)
  : option (list complaint) :=
  out1 <- check_blocks fuel st (heap_listp st) ;;
  out2 <- check_classes fuel st 0 10 ;;
  Some (out1 ++ out2).
End Checker.

(** * Specification vocabulary *)

(** ** The request size adjustment of [malloc] *)

(** [a] is the smallest multiple of 8 that is at least [size + 4] and at
    least 24. *)
Definition is_align_request (size a : Z) : Prop :=
  a mod 8 = 0 /\ size + 4 <= a /\ 24 <= a /\
  forall b, b mod 8 = 0 -> size + 4 <= b -> 24 <= b -> a <= b.

(** Largest value of a [size_t]. *)
Definition SIZE_MAX : Z := 2 ^ 64 - 1.

(** ** Heap layout *)

(** A block in heap order: total size in bytes and allocated flag. *)
Definition blk := (Z * bool)%type.

(** The header word encoding (size, prev-alloc, alloc). *)
Definition hdr_word (size : Z) (prev_alloc alloc : bool) : Z :=
  size + 2 * Z.b2z prev_alloc + Z.b2z alloc.

Fixpoint span (bl : list blk) : Z :=
  match bl with
  | [] => 0
  | (s, _) :: bl' => s + span bl'
  end.

(** Allocated flag of the last block of [bl], or [pa] for the empty list. *)
Fixpoint last_alloc (pa : bool) (bl : list blk) : bool :=
  match bl with
  | [] => pa
  | (_, al) :: bl' => last_alloc al bl'
  end.

(** Size and allocated flag of the block that follows a position: those of
    the first block of [bl], or of the epilogue (size 0, allocated) when
    [bl] is empty. *)
Definition hd_size (bl : list blk) : Z :=
  match bl with [] => 0 | (s, _) :: _ => s end.

Definition hd_alloc (bl : list blk) : bool :=
  match bl with [] => true | (_, al) :: _ => al end.

(** Payload addresses of the blocks of [bl] laid out from payload address
    [a]. *)
Fixpoint layout (a : Z) (bl : list blk) : list (Z * blk) :=
  match bl with
  | [] => []
  | (s, al) :: bl' => (a, (s, al)) :: layout (a + s) bl'
  end.

(** Every block size is a multiple of 8 and at least the minimum. *)
Definition wf_sizes (bl : list blk) : Prop :=
  Forall (fun b : blk => 24 <= fst b /\ fst b mod 8 = 0) bl.

(** The memory holds the blocks [bl] back to back from payload address [a];
    [pa] is the allocated flag of the block before [a].  Every header is
    exact; a free block carries its size in its footer. *)
Fixpoint tseg (m : memory) (a : Z) (pa : bool) (bl : list blk) : Prop :=
  match bl with
  | [] => True
  | (s, al) :: bl' =>
      24 <= s /\ s mod 8 = 0 /\
      load4 m (a - 4) = hdr_word s pa al /\
      (al = false -> Z.land (load4 m (a + s - 8)) (Z.lnot 7) = s) /\
      tseg m (a + s) al bl'
  end.

(** No two neighbouring blocks are both free; [pa] is the flag of the block
    before the list. *)
Fixpoint naf (pa : bool) (bl : list blk) : Prop :=
  match bl with
  | [] => True
  | (_, al) :: bl' => (pa = true \/ al = true) /\ naf al bl'
  end.

(** ** Bucket lists *)

(** A doubly linked segment: [first] is the pointer that enters the
    segment, [prev] the back link stored in its first node; [last] is the
    last node of the segment (or [prev] when it is empty) and [next] the
    pointer that leaves it. *)
Fixpoint lseg (m : memory) (prev first : Z) (l : list Z) (last next : Z)
  : Prop :=
  match l with
  | [] => last = prev /\ next = first
  | p :: l' =>
      first = p /\ p <> 0 /\ load8 m p = prev /\
      lseg m p (load8 m (p + 8)) l' last next
  end.

(** A whole bucket list: entered through [first], null terminated, the
    first node's back link is null. *)
Definition dll (m : memory) (first : Z) (l : list Z) : Prop :=
  exists last, lseg m 0 first l last 0.

(** The link areas (16 bytes from the payload pointer) of the nodes of a
    list do not overlap. *)
Fixpoint sep_list (l : list Z) : Prop :=
  match l with
  | [] => True
  | q :: l' => (forall q', In q' l' -> q + 16 <= q' \/ q' + 16 <= q)
               /\ sep_list l'
  end.

(** Both states have the same anchors and the same primitive state. *)
Definition same_globals (st st' : state) : Prop :=
  heap_listp st' = heap_listp st /\
  seg_free_listp st' = seg_free_listp st /\
  mem_brk st' = mem_brk st /\ mem_max_addr st' = mem_max_addr st.

(** Block size as the code reads it from the header of [p]. *)
Definition size_at (m : memory) (p : Z) : Z :=
  Z.land (load4 m (p - 4)) (Z.lnot 7).

(** The nodes of a bucket list are in non-decreasing size order. *)
Fixpoint sorted_by (f : Z -> Z) (l : list Z) : Prop :=
  match l with
  | [] => True
  | p :: l' => (forall q, In q l' -> f p <= f q) /\ sorted_by f l'
  end.

(** First node of [l] of size at least [asize], or null. *)
Fixpoint first_fit (f : Z -> Z) (asize : Z) (l : list Z) : Z :=
  match l with
  | [] => 0
  | p :: l' => if f p >=? asize then p else first_fit f asize l'
  end.

(** First fit over the buckets [i], [i+1], ..., taking [n] buckets. *)
Fixpoint first_fit_from (f : Z -> Z) (asize : Z) (fl : Z -> list Z)
  (i : Z) (n : nat) : Z :=
  match n with
  | O => 0
  | S n' =>
      let r := first_fit f asize (fl i) in
      if negb (r =? 0) then r else first_fit_from f asize fl (i + 1) n'
  end.

(** Where the sorting loop of [insert_to_free_list] stops: the nodes
    strictly smaller than [size], and the rest. *)
Fixpoint scan_split (f : Z -> Z) (size : Z) (l : list Z) : list Z * list Z :=
  match l with
  | [] => ([], [])
  | p :: l' => if f p >=? size then ([], p :: l')
               else let '(l1, l2) := scan_split f size l' in (p :: l1, l2)
  end.

(** Sorted insertion position: the nodes strictly smaller than [size] stay
    in front. *)
Fixpoint insert_sorted (f : Z -> Z) (size bp : Z) (l : list Z) : list Z :=
  match l with
  | [] => [bp]
  | p :: l' => if f p >=? size then bp :: p :: l'
               else p :: insert_sorted f size bp l'
  end.

Fixpoint remove_one (bp : Z) (l : list Z) : list Z :=
  match l with
  | [] => []
  | p :: l' => if p =? bp then l' else p :: remove_one bp l'
  end.

(** The four linking cases at the end of [insert_to_free_list], once the
    sorting loop has stopped at [(prev, next)]. *)
Definition link_in (st : state) (bp root prev next : Z) : state :=
  if (prev =? root) && (next =? NULL) then
    let st := PUT_8B st root bp in
    let st := SET_PREVP st bp NULL in
    SET_NEXTP st bp next
  else if negb (prev =? root) && (next =? NULL) then
    let st := SET_PREVP st bp prev in
    let st := SET_NEXTP st bp next in
    SET_NEXTP st prev bp
  else if (prev =? root) && negb (next =? NULL) then
    let st := PUT_8B st root bp in
    let st := SET_PREVP st bp NULL in
    let st := SET_NEXTP st bp next in
    SET_PREVP st next bp
  else
    let st := SET_PREVP st bp prev in
    let st := SET_NEXTP st bp next in
    let st := SET_NEXTP st prev bp in
    SET_PREVP st next bp.

(** The header and footer rewrite that ends the merging cases of
    [coalesce]: the header of [a] gets [(size, f)] and the footer, found
    through the new header, a copy of it. *)
Definition write_hf (st : state) (a size f : Z) : state :=
  let st := PUT st (HDRP a) (PACK size f) in
  PUT st (FTRP st a) (GET st (HDRP a)).

(** The stores of [free] before it calls [coalesce]: the block's header
    loses its alloc bit, the footer is written, the links are cleared and
    the successor's prev-alloc bit is cleared. *)
Definition mark_free (st : state) (bp : Z) : state :=
  let next_bp := NEXT_BLKP st bp in
  let st := PUT st (HDRP bp)
                (Z.lor (GET_SIZE st (HDRP bp)) (GET_PREV_ALLOC st (HDRP bp))) in
  let st := PUT st (FTRP st bp) (GET st (HDRP bp)) in
  let st := SET_PREVP st bp NULL in
  let st := SET_NEXTP st bp NULL in
  PUT st (HDRP next_bp)
      (Z.lor (GET_SIZE st (HDRP next_bp)) (GET_ALLOC st (HDRP next_bp))).

(** The stores of the splitting branch of [place], before the remainder is
    inserted. *)
Definition split_block (st : state) (bp asize rsize : Z) : state :=
  let st := PUT st (HDRP bp)
                (PACK asize (Z.lor (GET_PREV_ALLOC st (HDRP bp)) 1)) in
  let new_bp := NEXT_BLKP st bp in
  let st := PUT st (HDRP new_bp) (PACK rsize 2) in
  let st := PUT st (FTRP st new_bp) (PACK rsize 2) in
  let st := SET_PREVP st new_bp NULL in
  SET_NEXTP st new_bp NULL.

(** The two header stores of the non-splitting branch of [place]. *)
Definition take_block (st : state) (bp csize : Z) : state :=
  let st := PUT st (HDRP bp)
                (PACK csize (Z.lor (GET_PREV_ALLOC st (HDRP bp)) 1)) in
  let next_bp := NEXT_BLKP st bp in
  PUT st (HDRP next_bp) (Z.lor (GET st (HDRP next_bp)) 2).

(** The stores of [extend_heap] on the fresh region that starts at [bp],
    before it calls [coalesce]. *)
Definition carve_block (st : state) (bp size : Z) : state :=
  let st := PUT st (HDRP bp) (PACK size (GET_PREV_ALLOC st (HDRP bp))) in
  let st := PUT st (FTRP st bp) (GET st (HDRP bp)) in
  let st := PUT st (HDRP (NEXT_BLKP st bp)) (PACK 0 1) in
  let st := SET_PREVP st bp NULL in
  SET_NEXTP st bp NULL.

(** The byte count [extend_heap] asks the primitive for. *)
Definition extend_size (words : Z) : Z :=
  if negb (words mod 2 =? 0) then wrap64 ((words + 1) * WSIZE)
  else wrap64 (words * WSIZE).

(** The anchors and the heap limit are the same; the break may have
    grown. *)
Definition same_anchors (st st' : state) : Prop :=
  heap_listp st' = heap_listp st /\
  seg_free_listp st' = seg_free_listp st /\
  mem_max_addr st' = mem_max_addr st /\
  mem_brk st <= mem_brk st'.

(** The state [mm_init] has built on the 12 double-words starting at [p]
    when it calls [extend_heap]: ten null roots, the pad, the prologue and
    the first epilogue, and both anchors set. *)
Definition init_prefix (st : state) (p : Z) : state :=
  let st := set_heap_listp st p in
  let st := PUT_8B st (heap_listp st) NULL in
  let st := PUT_8B st (heap_listp st + 1 * DSIZE) NULL in
  let st := PUT_8B st (heap_listp st + 2 * DSIZE) NULL in
  let st := PUT_8B st (heap_listp st + 3 * DSIZE) NULL in
  let st := PUT_8B st (heap_listp st + 4 * DSIZE) NULL in
  let st := PUT_8B st (heap_listp st + 5 * DSIZE) NULL in
  let st := PUT_8B st (heap_listp st + 6 * DSIZE) NULL in
  let st := PUT_8B st (heap_listp st + 7 * DSIZE) NULL in
  let st := PUT_8B st (heap_listp st + 8 * DSIZE) NULL in
  let st := PUT_8B st (heap_listp st + 9 * DSIZE) NULL in
  let st := PUT st (heap_listp st + 10 * DSIZE) 0 in
  let st := PUT st (heap_listp st + (10 * DSIZE + WSIZE)) (PACK DSIZE 1) in
  let st := PUT st (heap_listp st + 11 * DSIZE) (PACK DSIZE 1) in
  let st := PUT st (heap_listp st + (11 * DSIZE + WSIZE)) (PACK 0 3) in
  let st := set_seg_free_listp st (heap_listp st) in
  set_heap_listp st (heap_listp st + 11 * DSIZE).

(** Update of one bucket. *)
Definition set_bucket (fl : Z -> list Z) (i : Z) (l : list Z) : Z -> list Z :=
  fun j => if j =? i then l else fl j.

(** ** Representation invariant *)

(** Address of the first payload, given the base of the root array. *)
Definition first_bp (st : state) : Z := seg_free_listp st + 96.

Record heap_rep (st : state) (bl : list blk) (fl : Z -> list Z) : Prop := {
  rep_align : seg_free_listp st mod 8 = 0;
  rep_pos : 0 < seg_free_listp st;
  rep_listp : heap_listp st = seg_free_listp st + 88;
  rep_brk : mem_brk st = first_bp st + span bl;
  rep_max : mem_brk st <= mem_max_addr st;
  rep_bound : mem_max_addr st < seg_free_listp st + 2 ^ 32;
  rep_addr : mem_max_addr st < 2 ^ 64;
  rep_prologue : load4 (mem st) (seg_free_listp st + 84) = 9 /\
                 load4 (mem st) (seg_free_listp st + 88) = 9;
  rep_tiling : tseg (mem st) (first_bp st) true bl;
  rep_epilogue : load4 (mem st) (mem_brk st - 4)
                 = hdr_word 0 (last_alloc true bl) true;
  rep_lists : forall i, 0 <= i < 10 ->
      dll (mem st) (load8 (mem st) (seg_free_listp st + 8 * i)) (fl i);
  rep_nodup : forall i, 0 <= i < 10 -> NoDup (fl i);
  rep_members : forall i p, 0 <= i < 10 -> In p (fl i) ->
      exists s, In (p, (s, false)) (layout (first_bp st) bl)
                /\ get_root_index s = i
}.

(** The bytes of the allocated payloads of [bl] are the same in [st']
    as in [st]. *)
Definition payload_kept (st st' : state) (bl : list blk) : Prop :=
  forall p s x, In (p, (s, true)) (layout (first_bp st) bl) ->
                p <= x < p + s - 4 ->
                load1 (mem st') x = load1 (mem st) x.

(** Every free block, except those listed in [ex], is in the bucket of its
    size. *)
Definition covered (ex : list Z) (st : state) (bl : list blk)
  (fl : Z -> list Z) : Prop :=
  forall p s, In (p, (s, false)) (layout (first_bp st) bl) ->
              In p ex \/ In p (fl (get_root_index s)).

(** The state just before the final [insert_to_free_list] of an operation:
    all is in order except that the free block [r] of size [sz] is not
    linked into its bucket yet. *)
Definition insert_ready (st : state) (bl : list blk) (fl : Z -> list Z)
  (r sz : Z) : Prop :=
  heap_rep st bl fl /\
  In (r, (sz, false)) (layout (first_bp st) bl) /\
  ~ In r (fl (get_root_index sz)) /\
  covered [r] st bl fl /\ naf true bl.

(** Both layouts have the same allocated blocks. *)
Definition same_allocated (a : Z) (bl bl' : list blk) : Prop :=
  forall p sz, In (p, (sz, true)) (layout a bl)
               <-> In (p, (sz, true)) (layout a bl').

(** [coalesce] on the unlisted free block [bp] of size [s] amounts to
    merging it with its free neighbours, which leaves a state [st2] that is
    [insert_ready] for the merged block [r] of size [s'] in the layout
    [bl'], and inserting [r].  When nothing was merged [st2] is [st];
    otherwise the footer of the merged block is a copy of its header. *)
Definition coalesce_shape_at (fuel : nat) (st : state) (bl : list blk)
  (fl : Z -> list Z) (bp s r : Z) (bl' : list blk) (s' : Z) : Prop :=
  exists st2 fl1,
    coalesce fuel st bp
    = (st3 <- insert_to_free_list fuel st2 r ;; Some (r, st3)) /\
    insert_ready st2 bl' fl1 r s' /\ s <= s' /\
    same_globals st st2 /\ payload_kept st st2 bl /\
    same_allocated (first_bp st) bl bl' /\
    (forall j, (length (fl1 j) <= length (fl j))%nat) /\
    (s' = s -> st2 = st) /\
    (s < s' -> load4 (mem st2) (r + s' - 8) = load4 (mem st2) (r - 4)).

Definition coalesce_shape (fuel : nat) (st : state) (bl : list blk)
  (fl : Z -> list Z) (bp s : Z) : Prop :=
  exists r bl' s', coalesce_shape_at fuel st bl fl bp s r bl' s'.

(** Every bucket list is in non-decreasing order of the block sizes the
    headers hold. *)
Definition sorted_buckets (st : state) (fl : Z -> list Z) : Prop :=
  forall j, 0 <= j < 10 -> sorted_by (size_at (mem st)) (fl j).

(** The same as a property of the state: whatever lists represent the
    buckets, they are sorted. *)
Definition ordered (st : state) : Prop :=
  forall bl fl, heap_rep st bl fl -> sorted_buckets st fl.

(** [coalesce_shape_at] together with the order of the buckets: merging
    keeps them sorted. *)
Definition coalesce_shape_ordered (fuel : nat) (st : state) (bl : list blk)
  (fl : Z -> list Z) (bp s r : Z) (bl' : list blk) (s' : Z) : Prop :=
  exists st2 fl1,
    coalesce fuel st bp
    = (st3 <- insert_to_free_list fuel st2 r ;; Some (r, st3)) /\
    insert_ready st2 bl' fl1 r s' /\ s <= s' /\
    same_globals st st2 /\ payload_kept st st2 bl /\
    same_allocated (first_bp st) bl bl' /\
    (forall j, (length (fl1 j) <= length (fl j))%nat) /\
    (s' = s -> st2 = st) /\
    (s < s' -> load4 (mem st2) (r + s' - 8) = load4 (mem st2) (r - 4)) /\
    (ordered st -> ordered st2).

(** The invariant that holds between public calls. *)
Definition heap_ok (st : state) (bl : list blk) (fl : Z -> list Z) : Prop :=
  heap_rep st bl fl /\ covered [] st bl fl /\ naf true bl.

(** What [place] leaves behind. *)
Definition place_post (st : state) (bl : list blk) (fl : Z -> list Z)
  (bp asize : Z) (st' : state) : Prop :=
  exists bl' fl' sa,
    heap_ok st' bl' fl' /\ same_globals st st' /\ payload_kept st st' bl /\
    In (bp, (sa, true)) (layout (first_bp st') bl') /\ asize <= sa /\
    (forall p sz, In (p, (sz, true)) (layout (first_bp st) bl) ->
                  In (p, (sz, true)) (layout (first_bp st') bl')) /\
    (forall p sz, In (p, (sz, true)) (layout (first_bp st') bl') ->
                  p = bp \/ In (p, (sz, true)) (layout (first_bp st) bl)) /\
    (forall j, (length (fl' j) <= Datatypes.S (length (fl j)))%nat).


(** What a call of [malloc] that returned [r] leaves behind; no bucket has
    grown by more than [n] nodes. *)
Definition malloc_post_n (n : nat) (st : state) (bl : list blk)
  (fl : Z -> list Z) (size r : Z) (st' : state) : Prop :=
  exists bl' fl',
    heap_ok st' bl' fl' /\ same_anchors st st' /\ payload_kept st st' bl /\
    (forall p sz, In (p, (sz, true)) (layout (first_bp st) bl) ->
                  In (p, (sz, true)) (layout (first_bp st') bl')) /\
    (forall p sz, In (p, (sz, true)) (layout (first_bp st') bl') ->
                  (p = r /\ r <> 0) \/ In (p, (sz, true)) (layout (first_bp st) bl)) /\
    (r = 0 -> st' = st) /\
    (r <> 0 -> (exists sa, In (r, (sa, true)) (layout (first_bp st') bl')
                           /\ size + 4 <= sa) /\
               forall sz b, ~ In (r, (sz, b)) (layout (first_bp st) bl)
                            \/ b = false) /\
    (forall j, (length (fl' j) <= length (fl j) + n)%nat).

Definition malloc_post := malloc_post_n 2.

(** The pointers the client holds are exactly the allocated blocks. *)
Definition tracks (st : state) (bl : list blk) (live : list Z) : Prop :=
  forall p, In p live <-> exists s, In (p, (s, true)) (layout (first_bp st) bl).

(** What [realloc] of the allocated block [p] of size [s] to [size] > 0
    bytes leaves behind when it returned [q]. *)
Definition realloc_post (st : state) (bl : list blk) (fl : Z -> list Z)
  (p s size q : Z) (st' : state) : Prop :=
  (q = 0 /\ st' = st) \/
  (q <> 0 /\ q <> p /\
   exists bl' fl' sa,
     heap_ok st' bl' fl' /\ same_anchors st st' /\
     In (q, (sa, true)) (layout (first_bp st') bl') /\ size + 4 <= sa /\
     (forall p' sz, In (p', (sz, true)) (layout (first_bp st) bl) -> p' <> p ->
                    In (p', (sz, true)) (layout (first_bp st') bl')) /\
     (forall p' sz, In (p', (sz, true)) (layout (first_bp st') bl') ->
                    p' = q \/
                    (In (p', (sz, true)) (layout (first_bp st) bl) /\ p' <> p)) /\
     (forall i, 0 <= i < Z.min size (s - 4) ->
                load1 (mem st') (q + i) = load1 (mem st) (p + i)) /\
     (forall p' sz x, In (p', (sz, true)) (layout (first_bp st) bl) ->
                      p' <> p -> p' <= x < p' + sz - 4 ->
                      load1 (mem st') x = load1 (mem st) x) /\
     (forall j, (length (fl' j) <= length (fl j) + 3)%nat)).

(** ** The heap as the checker walks it *)

(** Block pointers visited by the walk of [mm_checkheap]: it starts at
    [heap_listp] and moves to [NEXT_BLKP] while the size is positive. *)
Inductive heap_block (st : state) : Z -> Prop :=
| hb_first : heap_block st (heap_listp st)
| hb_next p : heap_block st p -> GET_SIZE st (HDRP p) > 0 ->
              heap_block st (NEXT_BLKP st p).

(** The checker's "bp and next block are both free". *)
Definition both_free (st : state) (p : Z) : Prop :=
  GET_ALLOC st (HDRP p) = 0 /\ GET_ALLOC st (HDRP (NEXT_BLKP st p)) = 0.

(** The checker's "bp and previous block are both free", read from the
    prev-alloc bit. *)
Definition prev_both_free (st : state) (p : Z) : Prop :=
  GET_ALLOC st (HDRP p) = 0 /\ GET_PREV_ALLOC st (HDRP p) = 0.

(** The nodes of bucket [i] as [find_fit] and [mm_checkheap] walk them:
    from the root along the next links, up to the first null. *)
Inductive bucket_node (st : state) (i : Z) : Z -> Prop :=
| bn_first :
    GET_8B st (seg_free_listp st + i * DSIZE) <> NULL ->
    bucket_node st i (GET_8B st (seg_free_listp st + i * DSIZE))
| bn_next p :
    bucket_node st i p -> GET_NEXTP st p <> NULL ->
    bucket_node st i (GET_NEXTP st p).

(** ** Call sequences *)

Inductive call :=
| Malloc (size : Z)
| Free (p : Z)
| Realloc (p size : Z)
| Calloc (nmemb size : Z).

(** Result pointer (null for [free]) and new state. *)
Definition run_call (fuel : nat) (st : state) (c : call) : option (Z * state) :=
  match c with
  | Malloc size => malloc fuel st size
  | Free p => st' <- free fuel st p ;; Some (NULL, st')
  | Realloc p size => realloc fuel st p size
  | Calloc n size => calloc fuel st n size
  end.

(** A request size whose adjustment does not wrap around 64 bits. *)
Definition size_ok (size : Z) : Prop := 0 <= size <= SIZE_MAX - 11.

(** The client contract: [free] and [realloc] receive null or a pointer
    that is currently allocated, and request sizes are [size_ok]. *)
Definition valid_call (live : list Z) (c : call) : Prop :=
  match c with
  | Malloc size => size_ok size
  | Free p => p = 0 \/ In p live
  | Realloc p size => (p = 0 \/ In p live) /\ size_ok size
  | Calloc n size => 0 <= n <= SIZE_MAX /\ 0 <= size <= SIZE_MAX
                     /\ size_ok (wrap64 (n * size))
  end.

Definition remove_ptr (p : Z) (live : list Z) : list Z :=
  filter (fun q => negb (q =? p)) live.

(** The pointers the client holds after call [c] returned [r]. *)
Definition live_after (live : list Z) (c : call) (r : Z) : list Z :=
  match c with
  | Malloc _ | Calloc _ _ => if r =? 0 then live else r :: live
  | Free p => remove_ptr p live
  | Realloc p size =>
      if size =? 0 then remove_ptr p live
      else if r =? 0 then live
      else r :: remove_ptr p live
  end.

(** [calloc] clears through the pointer [malloc] returned without testing
    it; a call sequence continues past a [calloc] only when that pointer was
    not null or nothing was to be cleared. *)
Definition survives (c : call) (r : Z) : Prop :=
  match c with
  | Calloc n size => r <> 0 \/ wrap64 (n * size) = 0
  | _ => True
  end.

(** What the heap primitive hands to [mm_init]: an 8-aligned, non-null
    break and a heap limit that keeps every block size in 32 bits. *)
Definition fresh_heap (st : state) : Prop :=
  0 < mem_brk st /\ mem_brk st mod 8 = 0 /\
  mem_max_addr st < mem_brk st + 2 ^ 32 /\ mem_max_addr st < 2 ^ 64.

(** States reached from a successful [mm_init] by valid calls, with the
    pointers the client holds. *)
Inductive reachable : state -> list Z -> Prop :=
| reach_init st0 fuel st :
    fresh_heap st0 -> mm_init fuel st0 = Some (0, st) -> reachable st []
| reach_call st live fuel c r st' :
    reachable st live -> valid_call live c ->
    run_call fuel st c = Some (r, st') -> survives c r ->
    reachable st' (live_after live c r).

(** The client also stores into the blocks it holds.  The payload of the
    allocated block at [p] are the bytes from [p] up to the header of the
    next block: the block size less the header word. *)
Definition client_store (st : state) (a v : Z) : state :=
  set_mem st (store1 (mem st) a v).

(** States reached from a successful [mm_init] by valid calls and by
    stores of the client into the payloads of the blocks it holds. *)
Inductive client_state : state -> list Z -> Prop :=
| client_init st0 fuel st :
    fresh_heap st0 -> mm_init fuel st0 = Some (0, st) -> client_state st []
| client_call st live fuel c r st' :
    client_state st live -> valid_call live c ->
    run_call fuel st c = Some (r, st') -> survives c r ->
    client_state st' (live_after live c r)
| client_write st live p i v :
    client_state st live -> In p live ->
    0 <= i < GET_SIZE st (HDRP p) - WSIZE ->
    client_state (client_store st (p + i) v) live.

(** The calls whose library copies stay inside blocks.  [malloc] and
    [free] call neither [memcpy] nor [memset].  A [realloc] that does not
    grow its block reads inside the old block and writes inside the new
    one.  [calloc] clears inside the new block when its [malloc] can serve
    the request, from a free block of the heap or by extending it, and
    clears nothing for a request of 0 bytes. *)
Definition copies_in_blocks (st : state) (c : call) : Prop :=
  match c with
  | Malloc _ | Free _ => True
  | Realloc p size => p = NULL \/ size <= GET_SIZE st (HDRP p) - WSIZE
  | Calloc n size =>
      wrap64 (n * size) = 0 \/
      mem_brk st + Z.max (adjust_size (wrap64 (n * size))) CHUNKSIZE
        <= mem_max_addr st \/
      exists p, heap_block st p /\ GET_ALLOC st (HDRP p) = 0 /\
                adjust_size (wrap64 (n * size)) <= GET_SIZE st (HDRP p)
  end.

(** ** Concrete states used in the examples *)

(** An uninitialised address space (every byte 0xFF) whose heap may grow
    from [base] up to [limit]. *)
Definition raw_state (base limit : Z) : state :=
  mkState (fun _ => 255) 0 0 base limit.

Definition state_of (o : option (Z * state)) (d : state) : state :=
  match o with Some (_, st) => st | None => d end.

Definition result_of (o : option (Z * state)) : Z :=
  match o with Some (r, _) => r | None => -1 end.

(** The same for the functions without a result value ([free], [place],
    [insert_to_free_list]): whether the call returned, and its final
    state. *)
Definition returned {A : Type} (o : option A) : bool :=
  match o with Some _ => true | None => false end.

Definition final_state (o : option state) (d : state) : state :=
  match o with Some st => st | None => d end.

(** A heap of one page after [mm_init]; the primitive has no room left. *)
Definition small_heap : state :=
  state_of (mm_init 16 (raw_state 4096 (4096 + 96 + 4096))) (raw_state 0 0).

(** The same with room for further extensions. *)
Definition roomy_heap : state :=
  state_of (mm_init 16 (raw_state 4096 1048576)) (raw_state 0 0).

(** [roomy_heap] after [malloc(16)], which returned 4192. *)
Definition one_block_heap : state :=
  state_of (malloc 16 roomy_heap 16) roomy_heap.

(** [roomy_heap] after [p = malloc(SIZE_MAX)], which returned 4192. *)
Definition wrapped_heap : state :=
  state_of (malloc 16 roomy_heap SIZE_MAX) roomy_heap.

(** [wrapped_heap] after [free(p)]. *)
Definition wrapped_freed_heap : state :=
  match free 16 wrapped_heap 4192 with
  | Some st => st
  | None => raw_state 0 0
  end.

(** The buckets of [roomy_heap]: the one free block, of 4096 bytes, is in
    bucket 7. *)
Definition roomy_buckets (j : Z) : list Z :=
  if j =? 7 then [4192] else [].

(** [one_block_heap] after a second [malloc(16)], which returned 4216. *)
Definition two_block_heap : state :=
  state_of (malloc 16 one_block_heap 16) one_block_heap.

(** [two_block_heap] with the block 4192 marked free by hand: its header
    says (24, prev-alloc, free), its footer carries the size 24 without the
    prev-alloc bit, and the header of the next block has the prev-alloc bit
    cleared.  The block is in no bucket. *)
Definition unmatched_heap : state :=
  let st := PUT two_block_heap (HDRP 4192) (PACK 24 2) in
  let st := PUT st (4192 + 24 - DSIZE) 24 in
  PUT st (HDRP 4216) (PACK 24 1).

(** The buckets of [two_block_heap] and of [unmatched_heap]: the free
    block of 4048 bytes at 4240 is in bucket 7. *)
Definition unmatched_buckets (j : Z) : list Z :=
  if j =? 7 then [4240] else [].







(** [one_block_heap] after the client stored the byte 7 at offset 3 of its
    block 4192. *)
Definition stored_heap : state := client_store one_block_heap (4192 + 3) 7.
(** * Proofs *)

(** ** Bytes and words *)

Ltac norm_pow :=
  change (2 ^ 8) with 256 in *; change (2 ^ 16) with 65536 in *;
  change (2 ^ 24) with 16777216 in *; change (2 ^ 32) with 4294967296 in *;
  change (2 ^ 64) with 18446744073709551616 in *.

Ltac zdm := norm_pow; Z.div_mod_to_equations; lia.

Lemma load1_range m a : 0 <= load1 m a < 256.
Proof. unfold load1. apply Z.mod_pos_bound. lia. Qed.

Lemma load4_range m a : 0 <= load4 m a < 2 ^ 32.
Proof.
  unfold load4.
  pose proof (load1_range m a). pose proof (load1_range m (a + 1)).
  pose proof (load1_range m (a + 2)). pose proof (load1_range m (a + 3)).
  norm_pow. lia.
Qed.

Lemma load8_range m a : 0 <= load8 m a < 2 ^ 64.
Proof.
  unfold load8.
  pose proof (load4_range m a). pose proof (load4_range m (a + 4)).
  norm_pow. lia.
Qed.

Lemma load1_store1 m a v b :
  load1 (store1 m a v) b = if b =? a then v mod 256 else load1 m b.
Proof.
  unfold load1, store1. destruct (b =? a); [apply Z.mod_mod; lia | reflexivity].
Qed.

Lemma load1_store4_other m a v b :
  b < a \/ a + 4 <= b -> load1 (store4 m a v) b = load1 m b.
Proof.
  intros H. unfold store4. rewrite !load1_store1.
  repeat match goal with
         | |- context [?x =? ?y] => destruct (Z.eqb_spec x y); [lia |]
         end.
  reflexivity.
Qed.

Lemma load4_store4_same m a v : load4 (store4 m a v) a = wrap32 v.
Proof.
  unfold load4, store4, wrap32. rewrite !load1_store1.
  repeat match goal with
         | |- context [?x =? ?y] =>
             destruct (Z.eqb_spec x y); try lia
         end.
  zdm.
Qed.

Lemma load4_store4_other m a v b :
  b + 4 <= a \/ a + 4 <= b -> load4 (store4 m a v) b = load4 m b.
Proof.
  intros H. unfold load4. rewrite !load1_store4_other by lia. reflexivity.
Qed.

Lemma load4_store8_other m a v b :
  b + 4 <= a \/ a + 8 <= b -> load4 (store8 m a v) b = load4 m b.
Proof.
  intros H. unfold store8. rewrite !load4_store4_other by lia. reflexivity.
Qed.

Lemma load4_store8_lo m a v : load4 (store8 m a v) a = wrap32 v.
Proof.
  unfold store8. rewrite load4_store4_other by lia. apply load4_store4_same.
Qed.

Lemma load4_store8_hi m a v : load4 (store8 m a v) (a + 4) = wrap32 (v / 2 ^ 32).
Proof. unfold store8. apply load4_store4_same. Qed.

Lemma load8_store8_same m a v : load8 (store8 m a v) a = wrap64 v.
Proof.
  unfold load8. rewrite load4_store8_lo, load4_store8_hi.
  unfold wrap32, wrap64. zdm.
Qed.

Lemma load8_store8_other m a v b :
  b + 8 <= a \/ a + 8 <= b -> load8 (store8 m a v) b = load8 m b.
Proof.
  intros H. unfold load8. rewrite !load4_store8_other by lia. reflexivity.
Qed.

Lemma load8_store4_other m a v b :
  b + 8 <= a \/ a + 4 <= b -> load8 (store4 m a v) b = load8 m b.
Proof.
  intros H. unfold load8. rewrite !load4_store4_other by lia. reflexivity.
Qed.

Lemma wrap32_small v : 0 <= v < 2 ^ 32 -> wrap32 v = v.
Proof. intros. unfold wrap32. apply Z.mod_small. assumption. Qed.

Lemma wrap64_small v : 0 <= v < 2 ^ 64 -> wrap64 v = v.
Proof. intros. unfold wrap64. apply Z.mod_small. assumption. Qed.

(** ** Header words *)

Lemma land_lnot7 w : 0 <= w -> Z.land w (Z.lnot 7) = 8 * (w / 8).
Proof.
  intros. change (Z.lnot 7) with (Z.lnot (Z.ones 3)).
  rewrite <- Z.ldiff_land, Z.ldiff_ones_r by lia.
  rewrite Z.shiftr_div_pow2, Z.shiftl_mul_pow2 by lia.
  change (2 ^ 3) with 8. lia.
Qed.

Lemma land_1 w : Z.land w 1 = w mod 2.
Proof. change 1 with (Z.ones 1). rewrite Z.land_ones by lia. reflexivity. Qed.

Lemma land_2 w : Z.land w 2 = 2 * ((w / 2) mod 2).
Proof.
  replace (2 * ((w / 2) mod 2)) with (Z.shiftl (Z.land (Z.shiftr w 1) 1) 1).
  2:{ rewrite Z.shiftl_mul_pow2, Z.shiftr_div_pow2 by lia.
      change 1 with (Z.ones 1) at 2. rewrite Z.land_ones by lia.
      change (2 ^ 1) with 2. lia. }
  apply Z.bits_inj'. intros n Hn.
  rewrite Z.land_spec, Z.shiftl_spec by lia.
  destruct (Z.eq_dec n 0) as [-> | Hn0].
  { rewrite (Z.testbit_neg_r (Z.land (Z.shiftr w 1) 1) (0 - 1)) by lia. apply andb_false_r. }
  rewrite Z.land_spec, Z.shiftr_spec by lia.
  replace (n - 1 + 1) with n by lia. f_equal.
  destruct (Z.eq_dec n 1) as [-> | Hn1]; [reflexivity|].
  destruct n as [|p|p]; try lia.
  destruct p; try lia; cbn; try reflexivity.
  all: destruct p; reflexivity.
Qed.

Lemma lor_flags s f : s mod 8 = 0 -> 0 <= f < 8 -> Z.lor s f = s + f.
Proof.
  intros Hs Hf.
  assert (Z.land s f = 0) as H0.
  { apply Z.bits_inj'. intros n Hn. rewrite Z.land_spec, Z.bits_0.
    destruct (Z_lt_dec n 3).
    - replace s with (s / 8 * 2 ^ 3) by (change (2 ^ 3) with 8; zdm).
      rewrite Z.mul_pow2_bits_low by lia. reflexivity.
    - replace f with (f mod 2 ^ 3) by (change (2 ^ 3) with 8; zdm).
      rewrite Z.mod_pow2_bits_high by lia. apply andb_false_r. }
  pose proof (Z.add_lor_land s f). lia.
Qed.

(** ** Header encoding *)

Lemma b2z_range b : 0 <= Z.b2z b <= 1.
Proof. destruct b; cbn; lia. Qed.

Section Header.
Variables (s : Z) (pa al : bool).
Hypothesis Hs8 : s mod 8 = 0.
Hypothesis Hs0 : 0 <= s.

Lemma hdr_size : Z.land (hdr_word s pa al) (Z.lnot 7) = s.
Proof.
  unfold hdr_word. pose proof (b2z_range pa). pose proof (b2z_range al).
  rewrite land_lnot7 by lia. zdm.
Qed.

Lemma hdr_alloc : Z.land (hdr_word s pa al) 1 = Z.b2z al.
Proof.
  unfold hdr_word. pose proof (b2z_range pa). pose proof (b2z_range al).
  rewrite land_1. zdm.
Qed.

Lemma hdr_prev_alloc : Z.land (hdr_word s pa al) 2 = 2 * Z.b2z pa.
Proof.
  unfold hdr_word. pose proof (b2z_range pa). pose proof (b2z_range al).
  rewrite land_2. zdm.
Qed.

Lemma hdr_wrap : s + 3 < 2 ^ 32 -> wrap32 (hdr_word s pa al) = hdr_word s pa al.
Proof.
  intros. apply wrap32_small. unfold hdr_word.
  pose proof (b2z_range pa). pose proof (b2z_range al). lia.
Qed.

Lemma pack_hdr f : f = 2 * Z.b2z pa + Z.b2z al -> PACK s f = hdr_word s pa al.
Proof.
  intros ->. unfold PACK, hdr_word.
  pose proof (b2z_range pa). pose proof (b2z_range al).
  rewrite lor_flags by lia. lia.
Qed.
End Header.

(** ** Layout *)

Lemma span_app l1 l2 : span (l1 ++ l2) = span l1 + span l2.
Proof. induction l1 as [| [s al] l1 IH]; cbn; lia. Qed.

Lemma span_nonneg bl : wf_sizes bl -> 0 <= span bl.
Proof.
  induction 1 as [| [s al] bl [H1 H2] _ IH]; cbn in *; lia.
Qed.

Lemma wf_sizes_app l1 l2 : wf_sizes (l1 ++ l2) <-> wf_sizes l1 /\ wf_sizes l2.
Proof. apply Forall_app. Qed.

Lemma last_alloc_app pa l1 l2 :
  last_alloc pa (l1 ++ l2) = last_alloc (last_alloc pa l1) l2.
Proof. revert pa. induction l1 as [| [s al] l1 IH]; intros; cbn; auto. Qed.

Lemma layout_app a l1 l2 :
  layout a (l1 ++ l2) = layout a l1 ++ layout (a + span l1) l2.
Proof.
  revert a. induction l1 as [| [s al] l1 IH]; intros a; cbn.
  - f_equal. lia.
  - rewrite IH. do 3 f_equal. lia.
Qed.

Lemma tseg_sizes m a pa bl : tseg m a pa bl -> wf_sizes bl.
Proof.
  revert a pa. induction bl as [| [s al] bl IH]; intros a pa H.
  - constructor.
  - destruct H as (H1 & H2 & _ & _ & H). constructor; [cbn; split; assumption | eapply IH; exact H].
Qed.

Lemma tseg_app m a pa l1 l2 :
  tseg m a pa (l1 ++ l2) <->
  tseg m a pa l1 /\ tseg m (a + span l1) (last_alloc pa l1) l2.
Proof.
  revert a pa. induction l1 as [| [s al] l1 IH]; intros a pa; cbn.
  - replace (a + 0) with a by lia. tauto.
  - rewrite IH. replace (a + (s + span l1)) with (a + s + span l1) by lia.
    tauto.
Qed.

Lemma layout_bounds a bl p b :
  wf_sizes bl -> In (p, b) (layout a bl) ->
  24 <= fst b /\ fst b mod 8 = 0 /\ a <= p /\ p + fst b <= a + span bl
  /\ (p - a) mod 8 = 0.
Proof.
  intros Hwf. revert a. induction Hwf as [| [s al] bl [H1 H2] Hwf IH];
    intros a Hin; cbn in *.
  - contradiction.
  - pose proof (span_nonneg _ Hwf). destruct Hin as [E | Hin].
    + inversion E; subst. cbn. replace (p - p) with 0 by lia.
      repeat split; try lia; try reflexivity.
    + specialize (IH _ Hin). destruct IH as (? & ? & ? & ? & ?).
      repeat split; try lia. zdm.
Qed.

Lemma layout_split a bl p b :
  In (p, b) (layout a bl) ->
  exists l1 l2, bl = l1 ++ b :: l2 /\ p = a + span l1.
Proof.
  revert a. induction bl as [| [s al] bl IH]; intros a Hin; cbn in *.
  - contradiction.
  - destruct Hin as [E | Hin].
    + inversion E; subst. exists [], bl. split; [reflexivity | cbn; lia].
    + destruct (IH _ Hin) as (l1 & l2 & -> & ->).
      exists ((s, al) :: l1), l2. split; [reflexivity | cbn; lia].
Qed.

Lemma layout_mid a l1 b l2 :
  In (a + span l1, b) (layout a (l1 ++ b :: l2)).
Proof.
  rewrite layout_app. apply in_or_app. right. destruct b. left. reflexivity.
Qed.

Lemma layout_sep a bl p1 b1 p2 b2 :
  wf_sizes bl -> In (p1, b1) (layout a bl) -> In (p2, b2) (layout a bl) ->
  (p1 = p2 /\ b1 = b2) \/ p1 + fst b1 <= p2 \/ p2 + fst b2 <= p1.
Proof.
  intros Hwf. revert a. induction Hwf as [| [s al] bl [H1 H2] Hwf IH];
    intros a Hin1 Hin2; cbn in *.
  - contradiction.
  - destruct Hin1 as [E1 | Hin1], Hin2 as [E2 | Hin2].
    + inversion E1; inversion E2; subst. left. split; congruence.
    + inversion E1; subst. cbn.
      pose proof (layout_bounds _ _ _ _ Hwf Hin2). lia.
    + inversion E2; subst. cbn.
      pose proof (layout_bounds _ _ _ _ Hwf Hin1). lia.
    + eauto.
Qed.

Lemma layout_fun a bl p b1 b2 :
  wf_sizes bl -> In (p, b1) (layout a bl) -> In (p, b2) (layout a bl) ->
  b1 = b2.
Proof.
  intros Hwf H1 H2.
  pose proof (layout_bounds _ _ _ _ Hwf H1).
  pose proof (layout_bounds _ _ _ _ Hwf H2).
  destruct (layout_sep _ _ _ _ _ _ Hwf H1 H2) as [[_ E] | Hd]; [exact E | lia].
Qed.

(** The header of a block of the tiling, with the flag of its
    predecessor. *)
Lemma tseg_lookup m a pa bl p s al :
  tseg m a pa bl -> In (p, (s, al)) (layout a bl) ->
  exists pa', load4 m (p - 4) = hdr_word s pa' al /\
              (al = false -> Z.land (load4 m (p + s - 8)) (Z.lnot 7) = s).
Proof.
  revert a pa. induction bl as [| [s0 al0] bl IH]; intros a pa Ht Hin;
    cbn in *.
  - contradiction.
  - destruct Ht as (_ & _ & Hh & Hf & Ht). destruct Hin as [E | Hin].
    + inversion E; subst. eauto.
    + eauto.
Qed.

Lemma tseg_frame m m' a pa bl :
  (forall p s al, In (p, (s, al)) (layout a bl) ->
     load4 m' (p - 4) = load4 m (p - 4) /\
     (al = false -> load4 m' (p + s - 8) = load4 m (p + s - 8))) ->
  tseg m a pa bl -> tseg m' a pa bl.
Proof.
  revert a pa. induction bl as [| [s al] bl IH]; intros a pa Hfr Ht;
    cbn in *.
  - exact I.
  - destruct Ht as (H1 & H2 & Hh & Hf & Ht).
    destruct (Hfr a s al) as [E1 E2]; [left; reflexivity |].
    repeat split; try assumption.
    + rewrite E1. exact Hh.
    + intros Hal. rewrite (E2 Hal). auto.
    + apply IH; [| exact Ht]. intros. apply Hfr. right. assumption.
Qed.

Lemma size_at_block m a pa bl p s al :
  tseg m a pa bl -> In (p, (s, al)) (layout a bl) -> size_at m p = s.
Proof.
  intros Ht Hin. destruct (tseg_lookup _ _ _ _ _ _ _ Ht Hin) as (pa' & Hh & _).
  pose proof (layout_bounds _ _ _ _ (tseg_sizes _ _ _ _ Ht) Hin) as (? & ? & _).
  cbn in *. unfold size_at. rewrite Hh. apply hdr_size; lia.
Qed.

Lemma alloc_at_block m a pa bl p s al :
  tseg m a pa bl -> In (p, (s, al)) (layout a bl) ->
  Z.land (load4 m (p - 4)) 1 = Z.b2z al.
Proof.
  intros Ht Hin. destruct (tseg_lookup _ _ _ _ _ _ _ Ht Hin) as (pa' & Hh & _).
  pose proof (layout_bounds _ _ _ _ (tseg_sizes _ _ _ _ Ht) Hin) as (? & ? & _).
  cbn in *. rewrite Hh. apply hdr_alloc; lia.
Qed.

(** ** Doubly linked segments *)

Lemma lseg_app m prev first l1 l2 last next :
  lseg m prev first (l1 ++ l2) last next <->
  exists mid_last mid,
    lseg m prev first l1 mid_last mid /\ lseg m mid_last mid l2 last next.
Proof.
  revert prev first. induction l1 as [| p l1 IH]; intros prev first; cbn.
  - split.
    + intros H. exists prev, first. auto.
    + intros (ml & mid & [-> ->] & H). exact H.
  - rewrite IH. split.
    + intros (E & Hp & Hl & ml & mid & H1 & H2). exists ml, mid. tauto.
    + intros (ml & mid & (E & Hp & Hl & H1) & H2). eauto 10.
Qed.

Lemma lseg_frame m m' prev first l last next :
  (forall p, In p l -> load8 m' p = load8 m p /\
                       load8 m' (p + 8) = load8 m (p + 8)) ->
  lseg m prev first l last next -> lseg m' prev first l last next.
Proof.
  revert prev first. induction l as [| p l IH]; intros prev first Hfr H;
    cbn in *.
  - exact H.
  - destruct H as (E & Hp & Hl & H).
    destruct (Hfr p) as [E1 E2]; [left; reflexivity |].
    rewrite E1, E2. repeat split; try assumption.
    apply IH; [| exact H]. intros. apply Hfr. right. assumption.
Qed.

Lemma last_default (l : list Z) d d' : l <> [] -> List.last l d = List.last l d'.
Proof.
  induction l as [| p l IH]; intros H; [contradiction |].
  destruct l as [| q l]; [reflexivity |].
  change (List.last (q :: l) d = List.last (q :: l) d'). apply IH. discriminate.
Qed.

Lemma lseg_last m prev first l last next :
  lseg m prev first l last next -> last = List.last l prev.
Proof.
  revert prev first. induction l as [| p l IH]; intros prev first H; cbn in *.
  - tauto.
  - destruct H as (_ & _ & _ & H). apply IH in H. rewrite H.
    destruct l as [| q l]; [reflexivity |].
    change (List.last (q :: l) p = List.last (q :: l) prev).
    apply last_default. discriminate.
Qed.

Lemma lseg_nonnull m prev first l last next p :
  lseg m prev first l last next -> In p l -> p <> 0.
Proof.
  revert prev first. induction l as [| q l IH]; intros prev first H Hin;
    cbn in *.
  - contradiction.
  - destruct H as (_ & Hq & _ & H). destruct Hin as [-> | Hin]; eauto.
Qed.

Lemma lseg_first m prev first l last next :
  lseg m prev first l last next -> first = hd next l.
Proof. destruct l; cbn; intuition congruence. Qed.

Lemma dll_nil m first : dll m first [] <-> first = 0.
Proof.
  unfold dll; cbn. split.
  - intros (l & _ & H). auto.
  - intros ->. exists 0. auto.
Qed.

(** ** Separated lists *)

Lemma sep_list_app l1 l2 :
  sep_list (l1 ++ l2) <->
  sep_list l1 /\ sep_list l2 /\
  (forall q q', In q l1 -> In q' l2 -> q + 16 <= q' \/ q' + 16 <= q).
Proof.
  induction l1 as [| p l1 IH]; cbn.
  - intuition.
  - rewrite IH. split.
    + intros (H1 & H2 & H3 & H4). repeat split; auto.
      * intros q' Hq'. apply H1. apply in_or_app. auto.
      * intros q q' [-> | Hq] Hq'; [apply H1; apply in_or_app; auto | auto].
    + intros ((H1 & H2) & H3 & H4). repeat split; auto.
      intros q' Hq'. apply in_app_or in Hq'. destruct Hq'; auto.
Qed.

Lemma sep_list_NoDup l : sep_list l -> NoDup l.
Proof.
  induction l as [| p l IH]; cbn; intros H; constructor.
  - intros Hin. destruct H as [H _]. specialize (H _ Hin). lia.
  - apply IH. tauto.
Qed.

Lemma sep_list_pair l q q' :
  sep_list l -> In q l -> In q' l -> q = q' \/ q + 16 <= q' \/ q' + 16 <= q.
Proof.
  induction l as [| p l IH]; cbn; intros Hs Hq Hq'; [contradiction |].
  destruct Hs as [H1 H2].
  destruct Hq as [E | Hq], Hq' as [E' | Hq']; subst; auto.
  all: right; first [specialize (H1 _ Hq) | specialize (H1 _ Hq')]; lia.
Qed.

(** ** Bytes, words and frames *)

Lemma load4_bytes m m' x :
  (forall i, 0 <= i < 4 -> load1 m' (x + i) = load1 m (x + i)) ->
  load4 m' x = load4 m x.
Proof.
  intros H. unfold load4.
  rewrite <- (Z.add_0_r x) at 1 5. rewrite !H by lia. reflexivity.
Qed.

Lemma load8_bytes m m' x :
  (forall i, 0 <= i < 8 -> load1 m' (x + i) = load1 m (x + i)) ->
  load8 m' x = load8 m x.
Proof.
  intros H. unfold load8. f_equal; [| f_equal]; apply load4_bytes; intros i Hi.
  - apply H. lia.
  - replace (x + 4 + i) with (x + (4 + i)) by lia. apply H. lia.
Qed.

Lemma load1_store8_other m a v b :
  b < a \/ a + 8 <= b -> load1 (store8 m a v) b = load1 m b.
Proof.
  intros H. unfold store8. rewrite !load1_store4_other by lia. reflexivity.
Qed.

Lemma load8_zero_range v : 0 <= v < 2 ^ 64 -> wrap64 v = v.
Proof. apply wrap64_small. Qed.

(** Instantiate every hypothesis quantified over the members of the list
    that hypothesis [H] speaks about. *)
Ltac use_in H :=
  match type of H with
  | In ?q ?L =>
      repeat match goal with
      | Hall : (forall x, In x L -> _) |- _ =>
          let T := type of (Hall q H) in
          lazymatch goal with
          | _ : T |- _ => fail
          | _ => pose proof (Hall q H)
          end
      end
  end.

Ltac mem_simp :=
  repeat first
    [ rewrite load8_store8_same
    | rewrite load8_store8_other by lia
    | rewrite load4_store8_other by lia
    | rewrite load8_store4_other by lia
    | rewrite load4_store4_same
    | rewrite load4_store4_other by lia
    | rewrite load1_store8_other by lia
    | rewrite load1_store4_other by lia ].

(** ** Globals are untouched by the list operations *)

Lemma same_globals_refl st : same_globals st st.
Proof. repeat split. Qed.

Lemma same_globals_trans st1 st2 st3 :
  same_globals st1 st2 -> same_globals st2 st3 -> same_globals st1 st3.
Proof. unfold same_globals. intuition congruence. Qed.

Lemma same_globals_set_mem st m : same_globals st (set_mem st m).
Proof. repeat split. Qed.

Lemma remove_globals st bp : same_globals st (remove_from_free_list st bp).
Proof.
  unfold remove_from_free_list.
  repeat match goal with
         | |- context [if ?c then _ else _] => destruct c
         end; repeat split.
Qed.

(** ** Unlinking a node *)

Section Remove.
Variables (st : state) (r p : Z) (l1 l2 : list Z).
Let m := mem st.
Let st' := remove_from_free_list st p.

Hypothesis Hdll : dll m (load8 m r) (l1 ++ p :: l2).
Hypothesis Hsep : sep_list (l1 ++ p :: l2).
Hypothesis Hroot : forall q, In q (l1 ++ p :: l2) -> r + 8 <= q.
Hypothesis Hfree : GET_ALLOC st (HDRP p) = 0.
Hypothesis Hr : get_root st (GET_SIZE st (HDRP p)) = r.

Lemma remove_links :
  load8 m p = List.last l1 0 /\ load8 m (p + 8) = hd 0 l2 /\ p <> 0.
Proof.
  destruct Hdll as (last & H). apply lseg_app in H.
  destruct H as (ml & mid & H1 & H2). cbn in H2.
  destruct H2 as (-> & Hp & Hprev & H2).
  apply lseg_last in H1. apply lseg_first in H2. subst ml.
  repeat split; assumption.
Qed.

Lemma remove_frame x :
  (x < r \/ r + 8 <= x) ->
  (forall q, In q (l1 ++ p :: l2) -> x < q \/ q + 16 <= x) ->
  load1 (mem st') x = load1 m x.
Proof.
  intros Hx Hq. destruct remove_links as (Hprev & Hnext & Hp).
  assert (In p (l1 ++ p :: l2)) as Hinp by (apply in_or_app; right; left; reflexivity).
  pose proof (Hq _ Hinp) as Hxp.
  assert (List.last l1 0 <> 0 -> In (List.last l1 0) (l1 ++ p :: l2)) as Hinprev.
  { intros Hne. apply in_or_app. left.
    destruct l1 as [| a l]; [cbn in Hne; congruence |].
    destruct (exists_last (l := a :: l)) as (l' & z & E); [discriminate |].
    rewrite E. rewrite last_last. apply in_or_app. right. left. reflexivity. }
  assert (hd 0 l2 <> 0 -> In (hd 0 l2) (l1 ++ p :: l2)) as Hinnext.
  { intros Hne. apply in_or_app. right. right.
    destruct l2; [cbn in Hne; congruence | left; reflexivity]. }
  subst st'. unfold remove_from_free_list.
  destruct (Z.eqb_spec p NULL) as [E | _]; [contradiction |].
  rewrite Hfree, Hr. cbn [orb negb Z.eqb].
  unfold GET_PREVP, GET_NEXTP, SET_PREVP, SET_NEXTP, PUT_8B, NULL.
  cbn [mem set_mem]. fold m. rewrite Hprev, Hnext.
  destruct (Z.eqb_spec (List.last l1 0) 0) as [E1 | E1],
           (Z.eqb_spec (hd 0 l2) 0) as [E2 | E2];
    cbn [andb negb mem set_mem];
    try (specialize (Hinprev E1); apply Hq in Hinprev);
    try (specialize (Hinnext E2); apply Hq in Hinnext);
    mem_simp; reflexivity.
Qed.

Lemma remove_dll : dll (mem st') (load8 (mem st') r) (l1 ++ l2).
Proof.
  destruct remove_links as (Hprev & Hnext & Hp).
  destruct Hdll as (last & H). apply lseg_app in H.
  destruct H as (ml & mid & H1 & H2). cbn in H2.
  destruct H2 as (-> & _ & Hprev' & H2).
  apply sep_list_app in Hsep. destruct Hsep as (Hs1 & Hs2 & Hs12).
  cbn in Hs2. destruct Hs2 as (Hsp & Hs2).
  assert (forall q, In q l1 -> q + 16 <= p \/ p + 16 <= q) as Hs1p.
  { intros q Hq. apply Hs12; [assumption | left; reflexivity]. }
  assert (forall q q', In q l1 -> In q' l2 -> q + 16 <= q' \/ q' + 16 <= q)
    as Hs1l2.
  { intros q q' Hq Hq'. apply Hs12; [assumption | right; assumption]. }
  assert (forall q, In q l1 -> r + 8 <= q) as Hr1.
  { intros q Hq. apply Hroot. apply in_or_app. auto. }
  assert (forall q, In q l2 -> r + 8 <= q) as Hr2.
  { intros q Hq. apply Hroot. apply in_or_app. right. right. assumption. }
  assert (r + 8 <= p) as Hrp.
  { apply Hroot. apply in_or_app. right. left. reflexivity. }
  subst st'. unfold remove_from_free_list.
  destruct (Z.eqb_spec p NULL) as [E | _]; [contradiction |].
  rewrite Hfree, Hr. cbn [orb negb Z.eqb].
  unfold GET_PREVP, GET_NEXTP, SET_PREVP, SET_NEXTP, PUT_8B, NULL.
  cbn [mem set_mem]. fold m. rewrite Hprev, Hnext.
  pose proof (load8_range m p) as Rp. pose proof (load8_range m (p + 8)) as Rn.
  rewrite Hprev in Rp. rewrite Hnext in Rn.
  destruct l1 as [| a l1'] using rev_ind; [| clear IHl1'];
    destruct l2 as [| n l2'].
  - (* only node *)
    cbn in *. destruct H1 as [-> E1]. 
    cbn [andb negb mem set_mem]. mem_simp. exists 0. split; reflexivity.
  - (* first node, followed by n *)
    cbn in H1, H2 |- *. cbn [hd] in Rn. destruct H1 as [-> E1].
    destruct H2 as (En & Hn & Hpn & H2).
    destruct (Z.eqb_spec n 0) as [E | _]; [contradiction |].
    cbn [andb negb mem set_mem].
    assert (p + 16 <= n \/ n + 16 <= p) as Hpn' by (apply Hsp; left; reflexivity).
    assert (r + 8 <= n) by (apply Hr2; left; reflexivity).
    mem_simp. rewrite (wrap64_small n) by assumption.
    exists last. cbn. repeat split; try assumption.
    + mem_simp. reflexivity.
    + mem_simp. eapply lseg_frame; [| exact H2].
      cbn in Hs2. destruct Hs2 as [Hsn _].
      intros q Hq. use_in Hq.
      assert (In q (n :: l2')) as Hq' by (right; assumption).
      use_in Hq'. mem_simp. auto.
  - (* last node, after a *)
    rewrite last_last in *. cbn in H2 |- *. destruct H2 as [-> E2].
    apply lseg_app in H1. destruct H1 as (ml' & mid' & H1 & Ha).
    cbn in Ha. destruct Ha as (-> & Ha & Hpa & Eml & Hna).
    destruct (Z.eqb_spec a 0) as [E | _]; [contradiction |].
    cbn [andb negb mem set_mem]. rewrite app_nil_r.
    assert (a + 16 <= p \/ p + 16 <= a) as Hap
        by (apply Hs1p; apply in_or_app; right; left; reflexivity).
    assert (r + 8 <= a) by (apply Hr1; apply in_or_app; right; left; reflexivity).
    apply sep_list_app in Hs1. destruct Hs1 as (Hs1 & _ & Hs1a).
    mem_simp. exists a. apply lseg_app. exists ml', a. split.
    + eapply lseg_frame; [| exact H1].
      intros q Hq.
      assert (In q (l1' ++ [a])) as Hq' by (apply in_or_app; auto).
      use_in Hq'. specialize (Hs1a q a Hq (or_introl eq_refl)).
      mem_simp. auto.
    + cbn. repeat split; try assumption; mem_simp; try assumption; reflexivity.
  - (* between a and n *)
    rewrite last_last in *. cbn in H2 |- *. cbn [hd] in Rn.
    destruct H2 as (En & Hn & Hpn & H2).
    apply lseg_app in H1. destruct H1 as (ml' & mid' & H1 & Ha).
    cbn in Ha. destruct Ha as (-> & Ha & Hpa & Eml & Hna).
    destruct (Z.eqb_spec a 0) as [E | _]; [contradiction |].
    destruct (Z.eqb_spec n 0) as [E | _]; [contradiction |].
    cbn [andb negb mem set_mem].
    assert (a + 16 <= p \/ p + 16 <= a) as Hap
        by (apply Hs1p; apply in_or_app; right; left; reflexivity).
    assert (p + 16 <= n \/ n + 16 <= p) as Hpn' by (apply Hsp; left; reflexivity).
    assert (a + 16 <= n \/ n + 16 <= a) as Han.
    { apply Hs1l2; [apply in_or_app; right; left; reflexivity | left; reflexivity]. }
    assert (r + 8 <= a) by (apply Hr1; apply in_or_app; right; left; reflexivity).
    assert (r + 8 <= n) by (apply Hr2; left; reflexivity).
    apply sep_list_app in Hs1. destruct Hs1 as (Hs1 & _ & Hs1a).
    cbn in Hs2. destruct Hs2 as [Hsn Hs2].
    mem_simp. exists last. rewrite <- app_assoc. apply lseg_app.
    exists ml', a. split.
    + eapply lseg_frame; [| exact H1].
      intros q Hq.
      assert (In q (l1' ++ [a])) as Hq' by (apply in_or_app; auto).
      use_in Hq'. specialize (Hs1a q a Hq (or_introl eq_refl)).
      specialize (Hs1l2 q n Hq' (or_introl eq_refl)).
      mem_simp. auto.
    + cbn.
      repeat split; try assumption; mem_simp;
        rewrite ?(wrap64_small n), ?(wrap64_small a) by assumption;
        try assumption; try reflexivity.
      eapply lseg_frame; [| exact H2].
      intros q Hq. use_in Hq.
      assert (In q (n :: l2')) as Hq' by (right; assumption).
      use_in Hq'.
      assert (In a (l1' ++ [a])) as Hina
          by (apply in_or_app; right; left; reflexivity).
      specialize (Hs1l2 a q Hina Hq').
      mem_simp. auto.
Qed.
End Remove.

(** ** Walking a bucket list *)

Lemma lseg_range m prev first l last next q :
  lseg m prev first l last next -> 0 <= first < 2 ^ 64 ->
  In q l -> 0 <= q < 2 ^ 64.
Proof.
  revert prev first. induction l as [| p l IH]; intros prev first H Hf Hin;
    cbn in *.
  - contradiction.
  - destruct H as (-> & _ & _ & H). destruct Hin as [-> | Hin]; [assumption |].
    eapply IH; [exact H | apply load8_range | assumption].
Qed.

Lemma scan_split_app f size l :
  l = fst (scan_split f size l) ++ snd (scan_split f size l).
Proof.
  induction l as [| p l IH]; cbn; [reflexivity |].
  destruct (f p >=? size); [reflexivity |].
  destruct (scan_split f size l) as [l1 l2]. cbn in *. congruence.
Qed.

Lemma insert_sorted_split f size bp l :
  insert_sorted f size bp l
  = fst (scan_split f size l) ++ bp :: snd (scan_split f size l).
Proof.
  induction l as [| p l IH]; cbn; [reflexivity |].
  destruct (f p >=? size); [reflexivity |].
  destruct (scan_split f size l) as [l1 l2]. cbn in *. congruence.
Qed.

Lemma insert_scan_spec st size l :
  forall fuel prev first pv last,
    lseg (mem st) prev first l last 0 ->
    (length l <= fuel)%nat ->
    insert_scan fuel st size pv first
    = Some (List.last (fst (scan_split (size_at (mem st)) size l)) pv,
            hd 0 (snd (scan_split (size_at (mem st)) size l))).
Proof.
  induction l as [| p l IH]; intros fuel prev first pv last H Hlen; cbn in *.
  - destruct H as [_ <-]. destruct fuel; reflexivity.
  - destruct H as (-> & Hp & _ & H).
    destruct fuel as [| fuel]; [lia |]. cbn.
    destruct (Z.eqb_spec p NULL) as [E | _]; [contradiction |].
    change (GET_SIZE st (HDRP p)) with (size_at (mem st) p).
    destruct (size_at (mem st) p >=? size); [reflexivity |].
    unfold GET_NEXTP. erewrite IH; [| exact H | lia].
    destruct (scan_split (size_at (mem st)) size l) as [l1 l2].
    cbn [fst snd]. do 2 f_equal.
    destruct l1 as [| z l1]; [reflexivity |].
    change (List.last (z :: l1) p = List.last (z :: l1) pv).
    apply last_default. discriminate.
Qed.

Lemma insert_scan_sound st size l :
  forall fuel prev first pv last r,
    lseg (mem st) prev first l last 0 ->
    insert_scan fuel st size pv first = Some r ->
    r = (List.last (fst (scan_split (size_at (mem st)) size l)) pv,
         hd 0 (snd (scan_split (size_at (mem st)) size l))).
Proof.
  induction l as [| p l IH]; intros fuel prev first pv last r H Hr; cbn in *.
  - destruct H as [_ <-]. destruct fuel; cbn in Hr; injection Hr as <-; reflexivity.
  - destruct H as (-> & Hp & _ & H).
    destruct fuel as [| fuel]; cbn in Hr;
      destruct (Z.eqb_spec p NULL) as [E | _]; try contradiction;
      try discriminate.
    change (GET_SIZE st (HDRP p)) with (size_at (mem st) p) in Hr.
    destruct (size_at (mem st) p >=? size); [cbn; congruence |].
    unfold GET_NEXTP in Hr. eapply IH in Hr; [| exact H]. rewrite Hr.
    destruct (scan_split (size_at (mem st)) size l) as [l1 l2].
    cbn [fst snd]. f_equal.
    destruct l1 as [| z l1]; [reflexivity |].
    change (List.last (z :: l1) p = List.last (z :: l1) pv).
    apply last_default. discriminate.
Qed.

Lemma find_fit_list_spec st asize l :
  forall fuel prev first last,
    lseg (mem st) prev first l last 0 ->
    (length l <= fuel)%nat ->
    find_fit_list fuel st asize first
    = Some (first_fit (size_at (mem st)) asize l).
Proof.
  induction l as [| p l IH]; intros fuel prev first last H Hlen; cbn in *.
  - destruct H as [_ <-]. destruct fuel; reflexivity.
  - destruct H as (-> & Hp & _ & H).
    destruct fuel as [| fuel]; [lia |]. cbn.
    destruct (Z.eqb_spec p NULL) as [E | _]; [contradiction |].
    change (GET_SIZE st (HDRP p)) with (size_at (mem st) p).
    destruct (size_at (mem st) p >=? asize); [reflexivity |].
    unfold GET_NEXTP. eapply IH; [exact H | lia].
Qed.

Lemma find_fit_list_sound st asize l :
  forall fuel prev first last r,
    lseg (mem st) prev first l last 0 ->
    find_fit_list fuel st asize first = Some r ->
    r = first_fit (size_at (mem st)) asize l.
Proof.
  induction l as [| p l IH]; intros fuel prev first last r H Hr; cbn in *.
  - destruct H as [_ <-]. destruct fuel; cbn in Hr; unfold NULL in *; congruence.
  - destruct H as (-> & Hp & _ & H).
    destruct fuel as [| fuel]; cbn in Hr;
      destruct (Z.eqb_spec p NULL) as [E | _]; try contradiction;
      try discriminate.
    change (GET_SIZE st (HDRP p)) with (size_at (mem st) p) in Hr.
    destruct (size_at (mem st) p >=? asize); [cbn; congruence |].
    unfold GET_NEXTP in Hr. eapply IH; [exact H | exact Hr].
Qed.

Lemma first_fit_in f asize l :
  first_fit f asize l <> 0 ->
  In (first_fit f asize l) l /\ f (first_fit f asize l) >= asize.
Proof.
  induction l as [| p l IH]; cbn; intros H; [congruence |].
  destruct (Z.geb_spec (f p) asize).
  - split; [left; reflexivity | lia].
  - destruct (IH H). split; [right; assumption | assumption].
Qed.

Lemma first_fit_none f asize l :
  (forall q, In q l -> q <> 0) ->
  first_fit f asize l = 0 -> forall q, In q l -> f q < asize.
Proof.
  induction l as [| p l IH]; cbn; intros Hnz H q Hq; [contradiction |].
  destruct (Z.geb_spec (f p) asize).
  - exfalso. apply (Hnz p); auto.
  - destruct Hq as [-> | Hq]; [assumption |]. apply IH; auto.
Qed.

(** ** Linking a node in *)

Lemma insert_unfold fuel st bp :
  bp <> 0 ->
  insert_to_free_list fuel st bp =
  ('(prev, next) <- insert_scan fuel st (GET_SIZE st (HDRP bp))
                      (get_root st (GET_SIZE st (HDRP bp)))
                      (GET_8B st (get_root st (GET_SIZE st (HDRP bp)))) ;;
   Some (link_in st bp (get_root st (GET_SIZE st (HDRP bp))) prev next)).
Proof.
  intros H. unfold insert_to_free_list.
  destruct (Z.eqb_spec bp NULL) as [E | _]; [contradiction |].
  destruct (insert_scan _ _ _ _ _) as [[prev next] |]; [| reflexivity].
  cbn [obind]. unfold link_in.
  repeat match goal with
         | |- context [if ?c then _ else _] => destruct c
         end; reflexivity.
Qed.

Lemma link_in_globals st bp r prev next :
  same_globals st (link_in st bp r prev next).
Proof.
  unfold link_in.
  repeat match goal with
         | |- context [if ?c then _ else _] => destruct c
         end; repeat split.
Qed.

Section Link.
Variables (st : state) (r bp : Z) (l1 l2 : list Z).
Let m := mem st.
Let st' := link_in st bp r (List.last l1 r) (hd 0 l2).

Hypothesis Hdll : dll m (load8 m r) (l1 ++ l2).
Hypothesis Hbp : 0 < bp < 2 ^ 64.
Hypothesis Hsep : sep_list (bp :: l1 ++ l2).
Hypothesis Hroot : forall q, In q (bp :: l1 ++ l2) -> r + 8 <= q.

Lemma link_in_frame x :
  (x < r \/ r + 8 <= x) ->
  (forall q, In q (bp :: l1 ++ l2) -> x < q \/ q + 16 <= x) ->
  load1 (mem st') x = load1 m x.
Proof.
  intros Hx Hq.
  assert (x < bp \/ bp + 16 <= x) as Hxb by (apply Hq; left; reflexivity).
  assert (l1 <> [] -> x < List.last l1 r \/ List.last l1 r + 16 <= x) as Hxa.
  { intros Hne. apply Hq. right. apply in_or_app. left.
    destruct (exists_last Hne) as (l' & z & ->). rewrite last_last.
    apply in_or_app. right. left. reflexivity. }
  assert (l2 <> [] -> x < hd 0 l2 \/ hd 0 l2 + 16 <= x) as Hxn.
  { intros Hne. apply Hq. right. apply in_or_app. right.
    destruct l2; [congruence | left; reflexivity]. }
  subst st'. unfold link_in, SET_PREVP, SET_NEXTP, PUT_8B, NULL.
  destruct l1 as [| a0 l1'] eqn:E1; [| rewrite <- E1 in *];
    destruct l2 as [| n l2'] eqn:E2.
  all: try (assert (l1 <> []) as Hne1 by (rewrite E1; discriminate);
            specialize (Hxa Hne1)).
  all: try (specialize (Hxn ltac:(discriminate))).
  all: cbn [List.last hd] in *.
  all: repeat match goal with
         | |- context [?a =? ?b] => destruct (Z.eqb_spec a b)
         end; cbn [andb negb mem set_mem]; mem_simp; reflexivity.
Qed.

Lemma link_in_dll : dll (mem st') (load8 (mem st') r) (l1 ++ bp :: l2).
Proof.
  destruct Hdll as (last & H). apply lseg_app in H.
  destruct H as (ml & mid & H1 & H2).
  cbn in Hsep. destruct Hsep as (Hsb & Hs).
  apply sep_list_app in Hs. destruct Hs as (Hs1 & Hs2 & Hs12).
  assert (forall q, In q l1 -> bp + 16 <= q \/ q + 16 <= bp) as Hb1.
  { intros q Hq. apply Hsb. apply in_or_app. auto. }
  assert (forall q, In q l2 -> bp + 16 <= q \/ q + 16 <= bp) as Hb2.
  { intros q Hq. apply Hsb. apply in_or_app. auto. }
  assert (forall q, In q l1 -> r + 8 <= q) as Hr1.
  { intros q Hq. apply Hroot. right. apply in_or_app. auto. }
  assert (forall q, In q l2 -> r + 8 <= q) as Hr2.
  { intros q Hq. apply Hroot. right. apply in_or_app. auto. }
  assert (r + 8 <= bp) as Hrb by (apply Hroot; left; reflexivity).
  assert (forall q, In q (l1 ++ l2) -> 0 <= q < 2 ^ 64) as Hrange.
  { intros q Hq. eapply lseg_range with (l := l1 ++ l2).
    - apply lseg_app. eauto.
    - apply load8_range.
    - assumption. }
  assert (wrap64 bp = bp) as Wb by (apply wrap64_small; lia).
  subst st'. unfold link_in, SET_PREVP, SET_NEXTP, PUT_8B, NULL.
  destruct l1 as [| a l1'] using rev_ind; [| clear IHl1'];
    destruct l2 as [| n l2'].
  - (* empty list *)
    cbn in *. destruct H1 as [-> E1]. destruct H2 as [_ E2].
    rewrite Z.eqb_refl. cbn [andb negb mem set_mem]. mem_simp.
    exists bp. cbn. rewrite Wb. repeat split; try lia; mem_simp; reflexivity.
  - (* new first node, before n *)
    cbn in H1, H2 |- *. destruct H1 as [-> E1].
    destruct H2 as (En & Hn & Hpn & H2).
    rewrite Z.eqb_refl.
    destruct (Z.eqb_spec n 0) as [E | _]; [contradiction |].
    cbn [andb negb mem set_mem].
    assert (bp + 16 <= n \/ n + 16 <= bp) as Hbn by (apply Hb2; left; reflexivity).
    assert (r + 8 <= n) by (apply Hr2; left; reflexivity).
    assert (wrap64 n = n) as Wn
        by (apply wrap64_small; apply Hrange; left; reflexivity).
    mem_simp. rewrite Wb. exists last. cbn.
    repeat split; try lia; mem_simp; rewrite ?Wn, ?Wb; try reflexivity.
    repeat split; try assumption.
    eapply lseg_frame; [| exact H2].
    cbn in Hs2. destruct Hs2 as [Hsn _].
    intros q Hq. use_in Hq.
    assert (In q (n :: l2')) as Hq' by (right; assumption).
    use_in Hq'. mem_simp. auto.
  - (* new last node, after a *)
    rewrite last_last in *. rewrite app_nil_r in *. cbn in H2 |- *.
    destruct H2 as [-> E2].
    apply lseg_app in H1. destruct H1 as (ml' & mid' & H1 & Ha).
    cbn in Ha. destruct Ha as (-> & Ha & Hpa & Eml & Hna).
    assert (r + 8 <= a) by (apply Hr1; apply in_or_app; right; left; reflexivity).
    assert (bp + 16 <= a \/ a + 16 <= bp) as Hba
        by (apply Hb1; apply in_or_app; right; left; reflexivity).
    destruct (Z.eqb_spec a r) as [E | _]; [lia |].
    cbn [andb negb mem set_mem].
    assert (wrap64 a = a) as Wa.
    { apply wrap64_small. apply Hrange. apply in_or_app. right. left.
      reflexivity. }
    apply sep_list_app in Hs1. destruct Hs1 as (Hs1 & _ & Hs1a).
    mem_simp. exists bp. rewrite <- app_assoc. apply lseg_app.
    exists ml', a. split.
    + eapply lseg_frame; [| exact H1].
      intros q Hq.
      assert (In q (l1' ++ [a])) as Hq' by (apply in_or_app; auto).
      use_in Hq'. specialize (Hs1a q a Hq (or_introl eq_refl)).
      mem_simp. auto.
    + cbn. repeat split; try assumption; try lia; mem_simp;
        rewrite ?Wa, ?Wb; try assumption; reflexivity.
  - (* between a and n *)
    rewrite last_last in *. cbn in H2 |- *.
    destruct H2 as (En & Hn & Hpn & H2).
    apply lseg_app in H1. destruct H1 as (ml' & mid' & H1 & Ha).
    cbn in Ha. destruct Ha as (-> & Ha & Hpa & Eml & Hna).
    assert (r + 8 <= a) by (apply Hr1; apply in_or_app; right; left; reflexivity).
    assert (r + 8 <= n) by (apply Hr2; left; reflexivity).
    assert (bp + 16 <= a \/ a + 16 <= bp) as Hba
        by (apply Hb1; apply in_or_app; right; left; reflexivity).
    assert (bp + 16 <= n \/ n + 16 <= bp) as Hbn by (apply Hb2; left; reflexivity).
    assert (In a (l1' ++ [a])) as Hina
        by (apply in_or_app; right; left; reflexivity).
    assert (a + 16 <= n \/ n + 16 <= a) as Han
        by (apply Hs12; [exact Hina | left; reflexivity]).
    destruct (Z.eqb_spec a r) as [E | _]; [lia |].
    destruct (Z.eqb_spec n 0) as [E | _]; [contradiction |].
    cbn [andb negb mem set_mem].
    assert (wrap64 a = a) as Wa.
    { apply wrap64_small. apply Hrange. apply in_or_app. left. exact Hina. }
    assert (wrap64 n = n) as Wn.
    { apply wrap64_small. apply Hrange. apply in_or_app. right. left.
      reflexivity. }
    apply sep_list_app in Hs1. destruct Hs1 as (Hs1 & _ & Hs1a).
    cbn in Hs2. destruct Hs2 as [Hsn Hs2].
    mem_simp. exists last. rewrite <- app_assoc. apply lseg_app.
    exists ml', a. split.
    + eapply lseg_frame; [| exact H1].
      intros q Hq.
      assert (In q (l1' ++ [a])) as Hq' by (apply in_or_app; auto).
      use_in Hq'. specialize (Hs1a q a Hq (or_introl eq_refl)).
      specialize (Hs12 q n Hq' (or_introl eq_refl)).
      mem_simp. auto.
    + cbn. repeat split; try assumption; try lia; mem_simp;
        rewrite ?Wa, ?Wb, ?Wn; try assumption; try reflexivity.
      eapply lseg_frame; [| exact H2].
      intros q Hq. use_in Hq.
      assert (In q (n :: l2')) as Hq' by (right; assumption).
      use_in Hq'. specialize (Hs12 a q Hina Hq').
      mem_simp. auto.
Qed.
End Link.

(** ** Consequences of the representation invariant *)

Lemma get_root_index_range s : 0 <= get_root_index s < 10.
Proof.
  unfold get_root_index.
  repeat match goal with
         | |- context [if ?c then _ else _] => destruct c
         end; lia.
Qed.

Section RepFacts.
Variables (st : state) (bl : list blk) (fl : Z -> list Z).
Hypothesis Hrep : heap_rep st bl fl.
Let m := mem st.

Lemma rep_wf : wf_sizes bl.
Proof. eapply tseg_sizes. apply (rep_tiling _ _ _ Hrep). Qed.

Lemma rep_block p b :
  In (p, b) (layout (first_bp st) bl) ->
  24 <= fst b /\ fst b mod 8 = 0 /\ seg_free_listp st + 96 <= p /\ p + fst b <= mem_brk st
  /\ p mod 8 = 0 /\ p + fst b < 2 ^ 64 /\ fst b + 96 < 2 ^ 32.
Proof.
  intros Hin. pose proof (layout_bounds _ _ _ _ rep_wf Hin) as (H1 & H2 & H3 & H4 & H5).
  pose proof (rep_brk _ _ _ Hrep). pose proof (rep_max _ _ _ Hrep).
  pose proof (rep_bound _ _ _ Hrep). pose proof (rep_addr _ _ _ Hrep).
  pose proof (rep_align _ _ _ Hrep). pose proof (rep_pos _ _ _ Hrep).
  unfold first_bp in *.
  repeat split; try lia. zdm.
Qed.

Lemma rep_member i p :
  0 <= i < 10 -> In p (fl i) ->
  exists s, In (p, (s, false)) (layout (first_bp st) bl) /\
            get_root_index s = i /\ 24 <= s /\ seg_free_listp st + 96 <= p /\
            p + s <= mem_brk st /\ 0 < p < 2 ^ 64.
Proof.
  intros Hi Hin. destruct (rep_members _ _ _ Hrep i p Hi Hin) as (s & Hb & Hc).
  exists s. pose proof (rep_block _ _ Hb) as Bp.
  pose proof (rep_pos _ _ _ Hrep). cbn in Bp.
  repeat split; try assumption; lia.
Qed.

Lemma rep_free_sep p s p' s' :
  In (p, (s, false)) (layout (first_bp st) bl) ->
  In (p', (s', false)) (layout (first_bp st) bl) ->
  p = p' \/ p + 24 <= p' \/ p' + 24 <= p.
Proof.
  intros H1 H2.
  pose proof (rep_block _ _ H1) as B1. pose proof (rep_block _ _ H2) as B2.
  destruct (layout_sep _ _ _ _ _ _ rep_wf H1 H2) as [[E _] | Hd]; cbn in *;
    [auto | lia].
Qed.

Lemma rep_buckets_disjoint i j p :
  0 <= i < 10 -> 0 <= j < 10 -> In p (fl i) -> In p (fl j) -> i = j.
Proof.
  intros Hi Hj H1 H2.
  destruct (rep_member i p Hi H1) as (s1 & Hb1 & E1 & _).
  destruct (rep_member j p Hj H2) as (s2 & Hb2 & E2 & _).
  pose proof (layout_fun _ _ _ _ _ rep_wf Hb1 Hb2) as E.
  inversion E; subst. reflexivity.
Qed.

Lemma rep_members_sep i j p p' :
  0 <= i < 10 -> 0 <= j < 10 -> In p (fl i) -> In p' (fl j) ->
  p = p' \/ p + 24 <= p' \/ p' + 24 <= p.
Proof.
  intros Hi Hj H1 H2.
  destruct (rep_member i p Hi H1) as (s1 & Hb1 & _).
  destruct (rep_member j p' Hj H2) as (s2 & Hb2 & _).
  eapply rep_free_sep; eassumption.
Qed.
End RepFacts.

Lemma sep_list_of_NoDup l :
  NoDup l ->
  (forall q q', In q l -> In q' l -> q = q' \/ q + 16 <= q' \/ q' + 16 <= q) ->
  sep_list l.
Proof.
  induction 1 as [| p l Hnin Hnd IH]; intros Hsep; cbn; [exact I |].
  split.
  - intros q' Hq'. destruct (Hsep p q') as [E | H]; [left; reflexivity | right; assumption | | exact H].
    subst. contradiction.
  - apply IH. intros q q' Hq Hq'. apply Hsep; right; assumption.
Qed.

Lemma remove_one_split p l1 l2 :
  ~ In p l1 -> remove_one p (l1 ++ p :: l2) = l1 ++ l2.
Proof.
  induction l1 as [| a l1 IH]; cbn; intros H.
  - rewrite Z.eqb_refl. reflexivity.
  - destruct (Z.eqb_spec a p) as [E | _]; [exfalso; auto |].
    rewrite IH; auto.
Qed.

Lemma set_bucket_same fl i l : set_bucket fl i l i = l.
Proof. unfold set_bucket. rewrite Z.eqb_refl. reflexivity. Qed.

Lemma set_bucket_other fl i l j : j <> i -> set_bucket fl i l j = fl j.
Proof.
  intros H. unfold set_bucket. destruct (Z.eqb_spec j i); [contradiction | reflexivity].
Qed.

(** ** Re-linking one bucket *)

(** A state change confined to the root cell of bucket [i] and to the link
    areas of free blocks [L] of that bucket keeps the representation, with
    the new list [l'] in bucket [i]. *)
Lemma rep_update_list st st' bl fl i L l' :
  heap_rep st bl fl -> same_globals st st' -> 0 <= i < 10 ->
  (forall q, In q L -> exists s, In (q, (s, false)) (layout (first_bp st) bl)
                                 /\ get_root_index s = i) ->
  (forall x,
      (x < seg_free_listp st + 8 * i \/ seg_free_listp st + 8 * i + 8 <= x) ->
      (forall q, In q L -> x < q \/ q + 16 <= x) ->
      load1 (mem st') x = load1 (mem st) x) ->
  dll (mem st') (load8 (mem st') (seg_free_listp st + 8 * i)) l' ->
  NoDup l' -> (forall q, In q l' -> In q L) ->
  heap_rep st' bl (set_bucket fl i l').
Proof.
  intros Hrep (G1 & G2 & G3 & G4) Hi HL Hfr Hdll Hnd Hsub.
  pose proof (rep_wf _ _ _ Hrep) as Hwf.
  assert (first_bp st' = first_bp st) as Gf by (unfold first_bp; congruence).
  assert (forall q, In q L -> seg_free_listp st + 96 <= q) as HLlo.
  { intros q Hq. destruct (HL q Hq) as (s & Hb & _).
    apply (rep_block _ _ _ Hrep) in Hb. tauto. }
  (* words outside the root array and outside free blocks' link areas *)
  assert (forall x, seg_free_listp st + 80 <= x ->
                    (forall q s, In (q, (s, false)) (layout (first_bp st) bl) ->
                                 x + 4 <= q \/ q + 16 <= x) ->
                    load4 (mem st') x = load4 (mem st) x) as Hw.
  { intros x Hx Hq. apply load4_bytes. intros k Hk. apply Hfr; [lia |].
    intros q HqL. destruct (HL q HqL) as (s & Hb & _).
    specialize (Hq _ _ Hb). lia. }
  constructor; rewrite ?G1, ?G2, ?G3, ?G4, ?Gf.
  - apply (rep_align _ _ _ Hrep).
  - apply (rep_pos _ _ _ Hrep).
  - apply (rep_listp _ _ _ Hrep).
  - apply (rep_brk _ _ _ Hrep).
  - apply (rep_max _ _ _ Hrep).
  - apply (rep_bound _ _ _ Hrep).
  - apply (rep_addr _ _ _ Hrep).
  - destruct (rep_prologue _ _ _ Hrep) as [P1 P2].
    rewrite !Hw; [auto | lia | | lia |].
    all: intros q s Hb; apply (rep_block _ _ _ Hrep) in Hb; lia.
  - eapply tseg_frame; [| apply (rep_tiling _ _ _ Hrep)].
    intros p s al Hb. pose proof (rep_block _ _ _ Hrep _ _ Hb) as Bp. cbn in Bp.
    split; [| intros ->]; apply Hw; try lia; intros q s' Hq;
      pose proof (rep_block _ _ _ Hrep _ _ Hq) as Bq; cbn in Bq;
      destruct (layout_sep _ _ _ _ _ _ Hwf Hb Hq) as [[E _] | Hd];
      try (cbn in Hd); lia.
  - rewrite Hw; [apply (rep_epilogue _ _ _ Hrep) | |].
    + pose proof (rep_brk _ _ _ Hrep). pose proof (span_nonneg _ Hwf).
      unfold first_bp in *. lia.
    + intros q s Hb. apply (rep_block _ _ _ Hrep) in Hb. cbn in Hb. lia.
  - intros j Hj. destruct (Z.eq_dec j i) as [-> | Hne].
    + rewrite set_bucket_same. exact Hdll.
    + rewrite set_bucket_other by assumption.
      assert (load8 (mem st') (seg_free_listp st + 8 * j)
              = load8 (mem st) (seg_free_listp st + 8 * j)) as ->.
      { apply load8_bytes. intros k Hk. apply Hfr; [lia |].
        intros q Hq. apply HLlo in Hq. lia. }
      destruct (rep_lists _ _ _ Hrep j Hj) as (last & Hl). exists last.
      eapply lseg_frame; [| exact Hl].
      intros p Hp.
      destruct (rep_member _ _ _ Hrep j p Hj Hp) as (s & Hb & Ej & ? & ? & ? & ?).
      assert (forall x, p <= x < p + 16 -> load1 (mem st') x = load1 (mem st) x) as Hbytes.
      { intros x Hx. apply Hfr; [lia |].
        intros q Hq. destruct (HL q Hq) as (s' & Hb' & Ei).
        destruct (rep_free_sep _ _ _ Hrep _ _ _ _ Hb Hb') as [E | Hd]; [| lia].
        subst q. pose proof (layout_fun _ _ _ _ _ Hwf Hb Hb') as E.
        inversion E; subst. congruence. }
      split; apply load8_bytes; intros k Hk; apply Hbytes; lia.
  - intros j Hj. destruct (Z.eq_dec j i) as [-> | Hne].
    + rewrite set_bucket_same. exact Hnd.
    + rewrite set_bucket_other by assumption. apply (rep_nodup _ _ _ Hrep j Hj).
  - intros j p Hj. destruct (Z.eq_dec j i) as [-> | Hne].
    + rewrite set_bucket_same. intros Hp. apply HL. apply Hsub. exact Hp.
    + rewrite set_bucket_other by assumption. apply (rep_members _ _ _ Hrep j p Hj).
Qed.

(** The same change touches no allocated payload. *)
Lemma list_update_payload st st' bl fl L :
  heap_rep st bl fl ->
  (forall q, In q L -> exists s, In (q, (s, false)) (layout (first_bp st) bl)) ->
  (forall x,
      seg_free_listp st + 80 <= x ->
      (forall q, In q L -> x < q \/ q + 16 <= x) ->
      load1 (mem st') x = load1 (mem st) x) ->
  payload_kept st st' bl.
Proof.
  intros Hrep HL Hfr p s x Hb Hx.
  pose proof (rep_block _ _ _ Hrep _ _ Hb) as Bp. cbn in Bp.
  apply Hfr; [lia |]. intros q Hq. destruct (HL q Hq) as (s' & Hb').
  pose proof (rep_block _ _ _ Hrep _ _ Hb') as Bq. cbn in Bq.
  destruct (layout_sep _ _ _ _ _ _ (rep_wf _ _ _ Hrep) Hb Hb') as [[_ E] | Hd];
    [discriminate | cbn in Hd; lia].
Qed.

(** ** The free-list operations keep the representation *)

Section Relink.
Variables (st : state) (bl : list blk) (fl : Z -> list Z).
Hypothesis Hrep : heap_rep st bl fl.

Lemma rep_bucket_sep i : 0 <= i < 10 -> sep_list (fl i).
Proof.
  intros Hi. apply sep_list_of_NoDup; [apply (rep_nodup _ _ _ Hrep i Hi) |].
  intros q q' Hq Hq'.
  destruct (rep_members_sep _ _ _ Hrep i i q q' Hi Hi Hq Hq') as [E | H]; [auto | lia].
Qed.

Lemma rep_bucket_root i q :
  0 <= i < 10 -> In q (fl i) -> seg_free_listp st + 8 * i + 8 <= q.
Proof.
  intros Hi Hq. destruct (rep_member _ _ _ Hrep i q Hi Hq) as (s & _ & _ & _ & H & _).
  lia.
Qed.

Lemma rep_get_size p s al :
  In (p, (s, al)) (layout (first_bp st) bl) -> GET_SIZE st (HDRP p) = s.
Proof. intros H. eapply size_at_block; [apply (rep_tiling _ _ _ Hrep) | exact H]. Qed.

Lemma rep_get_alloc p s al :
  In (p, (s, al)) (layout (first_bp st) bl) ->
  GET_ALLOC st (HDRP p) = Z.b2z al.
Proof. intros H. eapply alloc_at_block; [apply (rep_tiling _ _ _ Hrep) | exact H]. Qed.

Lemma rep_get_root s :
  get_root st s = seg_free_listp st + 8 * get_root_index s.
Proof. unfold get_root, DSIZE. lia. Qed.

Lemma rep_remove p s :
  In (p, (s, false)) (layout (first_bp st) bl) ->
  In p (fl (get_root_index s)) ->
  heap_rep (remove_from_free_list st p) bl
           (set_bucket fl (get_root_index s)
                       (remove_one p (fl (get_root_index s)))) /\
  payload_kept st (remove_from_free_list st p) bl.
Proof.
  intros Hb Hin. set (i := get_root_index s) in *.
  pose proof (get_root_index_range s) as Hi. fold i in Hi.
  destruct (in_split _ _ Hin) as (l1 & l2 & E).
  pose proof (rep_nodup _ _ _ Hrep i Hi) as Hnd.
  pose proof (rep_bucket_sep i Hi) as Hsep.
  rewrite E in Hnd, Hsep.
  assert (~ In p l1) as Hnin.
  { apply NoDup_remove_2 in Hnd. intros H. apply Hnd. apply in_or_app. auto. }
  assert (dll (mem st) (load8 (mem st) (seg_free_listp st + 8 * i)) (l1 ++ p :: l2)) as Hdll.
  { rewrite <- E. apply (rep_lists _ _ _ Hrep i Hi). }
  assert (forall q, In q (l1 ++ p :: l2) -> seg_free_listp st + 8 * i + 8 <= q) as Hroot.
  { intros q Hq. rewrite <- E in Hq. apply rep_bucket_root; assumption. }
  assert (GET_ALLOC st (HDRP p) = 0) as Hfree by (apply (rep_get_alloc _ _ _ Hb)).
  assert (get_root st (GET_SIZE st (HDRP p)) = seg_free_listp st + 8 * i) as Hr.
  { rewrite (rep_get_size _ _ _ Hb). apply rep_get_root. }
  pose proof (remove_frame st _ p l1 l2 Hdll Hsep Hroot Hfree Hr) as Hfr.
  rewrite <- E in Hfr.
  split.
  - rewrite E. rewrite remove_one_split by assumption.
    eapply rep_update_list with (L := fl i); try eassumption.
    + apply remove_globals.
    + intros q Hq. destruct (rep_member _ _ _ Hrep i q Hi Hq) as (s' & ? & ? & _).
      eauto.
    + apply remove_dll; assumption.
    + apply NoDup_remove_1 in Hnd. exact Hnd.
    + intros q Hq. rewrite E. apply in_app_or in Hq. apply in_or_app.
      destruct Hq; [left | right; right]; assumption.
  - eapply list_update_payload with (L := fl i); [exact Hrep | |].
    + intros q Hq. destruct (rep_member _ _ _ Hrep i q Hi Hq) as (s' & ? & _).
      eauto.
    + intros x Hx Hq. apply Hfr; [lia | exact Hq].
Qed.

Section Insert.
Variables (bp s : Z).
Hypothesis Hb : In (bp, (s, false)) (layout (first_bp st) bl).
Hypothesis Hnew : ~ In bp (fl (get_root_index s)).
Let i := get_root_index s.
Let r := seg_free_listp st + 8 * i.

Lemma insert_total fuel :
  (length (fl i) <= fuel)%nat ->
  exists st', insert_to_free_list fuel st bp = Some st'.
Proof.
  intros Hlen. pose proof (get_root_index_range s) as Hi. fold i in Hi.
  pose proof (rep_block _ _ _ Hrep _ _ Hb) as Bb. cbn in Bb.
  pose proof (rep_pos _ _ _ Hrep).
  rewrite insert_unfold by lia.
  rewrite (rep_get_size _ _ _ Hb), rep_get_root. fold i.
  destruct (rep_lists _ _ _ Hrep i Hi) as (last & Hl).
  unfold GET_8B. erewrite insert_scan_spec; [| exact Hl | exact Hlen].
  cbn [obind]. eauto.
Qed.

Lemma rep_insert fuel st' :
  insert_to_free_list fuel st bp = Some st' ->
  heap_rep st' bl
           (set_bucket fl i (insert_sorted (size_at (mem st)) s bp (fl i))) /\
  payload_kept st st' bl /\ same_globals st st'.
Proof.
  intros Hins. pose proof (get_root_index_range s) as Hi. fold i in Hi.
  pose proof (rep_block _ _ _ Hrep _ _ Hb) as Bb. cbn in Bb.
  pose proof (rep_pos _ _ _ Hrep) as Hpos.
  pose proof (rep_addr _ _ _ Hrep) as Haddr.
  pose proof (rep_max _ _ _ Hrep) as Hmax.
  rewrite insert_unfold in Hins by lia.
  rewrite (rep_get_size _ _ _ Hb), rep_get_root in Hins. fold i r in Hins.
  destruct (rep_lists _ _ _ Hrep i Hi) as (last & Hl). fold r in Hl.
  unfold GET_8B in Hins.
  destruct (insert_scan fuel st s r (load8 (mem st) r)) as [[prev next] |] eqn:Hscan;
    [| discriminate].
  apply (insert_scan_sound _ _ _ _ _ _ _ _ _ Hl) in Hscan.
  cbn [obind] in Hins. injection Hins as <-. injection Hscan as -> ->.
  rewrite insert_sorted_split.
  pose proof (scan_split_app (size_at (mem st)) s (fl i)) as Esplit.
  set (l1 := fst (scan_split (size_at (mem st)) s (fl i))) in *.
  set (l2 := snd (scan_split (size_at (mem st)) s (fl i))) in *.
  assert (dll (mem st) (load8 (mem st) r) (l1 ++ l2)) as Hdll.
  { rewrite <- Esplit. exists last. exact Hl. }
  assert (0 < bp < 2 ^ 64) as Hbp by lia.
  assert (sep_list (bp :: l1 ++ l2)) as Hsep.
  { rewrite <- Esplit. cbn. split; [| apply rep_bucket_sep; assumption].
    intros q Hq.
    destruct (rep_member _ _ _ Hrep i q Hi Hq) as (s' & Hq' & _).
    destruct (rep_free_sep _ _ _ Hrep _ _ _ _ Hb Hq') as [E | Hd]; [| lia].
    subst q. contradiction. }
  assert (forall q, In q (bp :: l1 ++ l2) -> r + 8 <= q) as Hroot.
  { rewrite <- Esplit. intros q [<- | Hq]; [unfold r; lia |].
    apply rep_bucket_root; assumption. }
  assert (forall q, In q (bp :: fl i) ->
            exists s0, In (q, (s0, false)) (layout (first_bp st) bl)
                       /\ get_root_index s0 = i) as HL.
  { intros q [<- | Hq]; [eauto |].
    destruct (rep_member _ _ _ Hrep i q Hi Hq) as (s' & ? & ? & _). eauto. }
  pose proof (link_in_frame st r bp l1 l2 Hdll Hsep Hroot) as Hfr.
  rewrite <- Esplit in Hfr.
  split; [| split].
  - eapply rep_update_list with (L := bp :: fl i); try eassumption.
    + apply link_in_globals.
    + apply link_in_dll; assumption.
    + apply sep_list_NoDup. apply sep_list_app.
      cbn in Hsep. destruct Hsep as [Hsb Hs]. apply sep_list_app in Hs.
      destruct Hs as (Hs1 & Hs2 & Hs12). repeat split; try assumption.
      * intros q' Hq'. apply Hsb. apply in_or_app. auto.
      * intros q q' Hq [<- | Hq'].
        -- specialize (Hsb q (in_or_app _ _ _ (or_introl Hq))). lia.
        -- auto.
    + intros q Hq. rewrite Esplit. apply in_app_or in Hq.
      destruct Hq as [Hq | [<- | Hq]]; [right | left | right];
        try reflexivity; apply in_or_app; auto.
  - eapply list_update_payload with (L := bp :: fl i); [exact Hrep | |].
    + intros q Hq. destruct (HL q Hq) as (s' & ? & _). eauto.
    + intros x Hx Hq. apply Hfr; [unfold r; lia | exact Hq].
  - apply link_in_globals.
Qed.
(** The insertion writes the root of the bucket and link fields of
    free blocks only. *)
Lemma insert_frame fuel st' x :
  insert_to_free_list fuel st bp = Some st' ->
  seg_free_listp st + 80 <= x ->
  (forall q sq, In (q, (sq, false)) (layout (first_bp st) bl) ->
                x < q \/ q + 16 <= x) ->
  load1 (mem st') x = load1 (mem st) x.
Proof.
  intros Hins Hx Hout. pose proof (get_root_index_range s) as Hi. fold i in Hi.
  pose proof (rep_block _ _ _ Hrep _ _ Hb) as Bb. cbn in Bb.
  pose proof (rep_pos _ _ _ Hrep) as Hpos.
  rewrite insert_unfold in Hins by lia.
  rewrite (rep_get_size _ _ _ Hb), rep_get_root in Hins. fold i r in Hins.
  destruct (rep_lists _ _ _ Hrep i Hi) as (last & Hl). fold r in Hl.
  unfold GET_8B in Hins.
  destruct (insert_scan fuel st s r (load8 (mem st) r)) as [[prev next] |] eqn:Hscan;
    [| discriminate].
  apply (insert_scan_sound _ _ _ _ _ _ _ _ _ Hl) in Hscan.
  cbn [obind] in Hins. injection Hins as <-. injection Hscan as -> ->.
  pose proof (scan_split_app (size_at (mem st)) s (fl i)) as Esplit.
  set (l1 := fst (scan_split (size_at (mem st)) s (fl i))) in *.
  set (l2 := snd (scan_split (size_at (mem st)) s (fl i))) in *.
  assert (dll (mem st) (load8 (mem st) r) (l1 ++ l2)) as Hdll.
  { rewrite <- Esplit. exists last. exact Hl. }
  assert (sep_list (bp :: l1 ++ l2)) as Hsep.
  { rewrite <- Esplit. cbn. split; [| apply rep_bucket_sep; assumption].
    intros q Hq.
    destruct (rep_member _ _ _ Hrep i q Hi Hq) as (s' & Hq' & _).
    destruct (rep_free_sep _ _ _ Hrep _ _ _ _ Hb Hq') as [E | Hd]; [| lia].
    subst q. contradiction. }
  assert (forall q, In q (bp :: l1 ++ l2) -> r + 8 <= q) as Hroot.
  { rewrite <- Esplit. intros q [<- | Hq]; [unfold r; lia |].
    apply rep_bucket_root; assumption. }
  pose proof (link_in_frame st r bp l1 l2 Hdll Hsep Hroot) as Hfr.
  rewrite <- Esplit in Hfr.
  apply Hfr; [unfold r; lia |].
  intros q [<- | Hq]; [eapply Hout; exact Hb |].
  destruct (rep_member _ _ _ Hrep i q Hi Hq) as (s' & Hq' & _).
  eapply Hout; exact Hq'.
Qed.
End Insert.
End Relink.

(** ** Rewriting a run of blocks *)

Lemma last_alloc_nonempty pa pa' bl :
  bl <> [] -> last_alloc pa bl = last_alloc pa' bl.
Proof. destruct bl as [| [s al] bl]; [contradiction | reflexivity]. Qed.

Lemma layout_app_in a l1 l2 p b :
  In (p, b) (layout a (l1 ++ l2)) <->
  In (p, b) (layout a l1) \/ In (p, b) (layout (a + span l1) l2).
Proof. rewrite layout_app. apply in_app_iff. Qed.

(** The header that follows a tiled run. *)
Lemma rep_succ_hdr st bl1 bl2 fl :
  heap_rep st (bl1 ++ bl2) fl ->
  load4 (mem st) (first_bp st + span bl1 - 4)
  = hdr_word (hd_size bl2) (last_alloc true bl1) (hd_alloc bl2).
Proof.
  intros Hrep. destruct bl2 as [| [s al] bl2].
  - pose proof (rep_epilogue _ _ _ Hrep) as H. rewrite app_nil_r in *.
    rewrite (rep_brk _ _ _ Hrep) in H. exact H.
  - pose proof (rep_tiling _ _ _ Hrep) as H. apply tseg_app in H.
    destruct H as (_ & H). cbn in H. tauto.
Qed.

Section Replace.
Variables (st st' : state) (fl : Z -> list Z) (bl1 mid mid' bl2 : list blk).
Let a := first_bp st + span bl1.
Let pa := last_alloc true bl1.

Hypothesis Hrep : heap_rep st (bl1 ++ mid ++ bl2) fl.
Hypothesis Hglob : same_globals st st'.
Hypothesis Hspan : span mid' = span mid.
Hypothesis Hframe : forall x, x < a - 4 \/ a + span mid <= x ->
                              load1 (mem st') x = load1 (mem st) x.
Hypothesis Hmid : tseg (mem st') a pa mid'.
Hypothesis Hsucc : load4 (mem st') (a + span mid - 4)
                   = hdr_word (hd_size bl2) (last_alloc pa mid') (hd_alloc bl2).
Hypothesis Hout : forall j q b, 0 <= j < 10 -> In q (fl j) ->
                                ~ In (q, b) (layout a mid).

Let Hwf := rep_wf _ _ _ Hrep.

Lemma replace_wf : wf_sizes bl1 /\ wf_sizes mid /\ wf_sizes bl2 /\ wf_sizes mid'.
Proof.
  pose proof Hwf as H. apply wf_sizes_app in H. destruct H as [H1 H].
  apply wf_sizes_app in H. destruct H as [H2 H3].
  repeat split; try assumption. eapply tseg_sizes. exact Hmid.
Qed.

Lemma replace_geom :
  seg_free_listp st + 96 <= a /\ 0 <= span mid /\ 0 <= span bl2 /\
  mem_brk st = a + span mid + span bl2.
Proof.
  destruct replace_wf as (W1 & W2 & W3 & _).
  pose proof (span_nonneg _ W1). pose proof (span_nonneg _ W2).
  pose proof (span_nonneg _ W3). pose proof (rep_brk _ _ _ Hrep) as Hb.
  rewrite !span_app in Hb. unfold a, first_bp in *. lia.
Qed.

Lemma replace_word_lo x :
  x + 4 <= a - 4 -> load4 (mem st') x = load4 (mem st) x.
Proof. intros H. apply load4_bytes. intros k Hk. apply Hframe. lia. Qed.

Lemma replace_word_hi x :
  a + span mid <= x -> load4 (mem st') x = load4 (mem st) x.
Proof. intros H. apply load4_bytes. intros k Hk. apply Hframe. lia. Qed.

(** A bucket member lies in the untouched part of the layout. *)
Lemma replace_member j q :
  0 <= j < 10 -> In q (fl j) ->
  exists s, get_root_index s = j /\
    In (q, (s, false)) (layout (first_bp st) (bl1 ++ mid ++ bl2)) /\
    In (q, (s, false)) (layout (first_bp st) (bl1 ++ mid' ++ bl2)) /\
    (q + s <= a \/ a + span mid <= q) /\ 24 <= s.
Proof.
  intros Hj Hq. destruct (rep_member _ _ _ Hrep j q Hj Hq) as (s & Hb & Hc & Hs & _).
  destruct replace_wf as (W1 & W2 & W3 & _).
  exists s. split; [exact Hc |]. split; [exact Hb |].
  apply layout_app_in in Hb. destruct Hb as [Hb | Hb].
  - pose proof (layout_bounds _ _ _ _ W1 Hb) as B. cbn in B.
    split; [| split; [fold a in B; lia | exact Hs]].
    apply layout_app_in. auto.
  - apply layout_app_in in Hb. fold a in Hb. destruct Hb as [Hb | Hb].
    + exfalso. eapply Hout; eassumption.
    + pose proof (layout_bounds _ _ _ _ W3 Hb) as B. cbn in B.
      split; [| split; [lia | exact Hs]].
      apply layout_app_in. right. apply layout_app_in. right.
      fold a. rewrite Hspan. exact Hb.
Qed.

Lemma rep_replace : heap_rep st' (bl1 ++ mid' ++ bl2) fl.
Proof.
  destruct Hglob as (G1 & G2 & G3 & G4).
  assert (first_bp st' = first_bp st) as Gf by (unfold first_bp; congruence).
  destruct replace_wf as (W1 & W2 & W3 & W4).
  destruct replace_geom as (Ga & Gm & Gb & Gbrk).
  pose proof (rep_tiling _ _ _ Hrep) as Ht. apply tseg_app in Ht.
  destruct Ht as (Ht1 & Ht). apply tseg_app in Ht. destruct Ht as (_ & Ht2).
  fold a pa in Ht2.
  constructor; rewrite ?G1, ?G2, ?G3, ?G4, ?Gf.
  - apply (rep_align _ _ _ Hrep).
  - apply (rep_pos _ _ _ Hrep).
  - apply (rep_listp _ _ _ Hrep).
  - rewrite (rep_brk _ _ _ Hrep), !span_app. lia.
  - apply (rep_max _ _ _ Hrep).
  - apply (rep_bound _ _ _ Hrep).
  - apply (rep_addr _ _ _ Hrep).
  - destruct (rep_prologue _ _ _ Hrep) as [P1 P2].
    rewrite !replace_word_lo by lia. auto.
  - apply tseg_app. split; [| apply tseg_app; split].
    + eapply tseg_frame; [| exact Ht1]. intros p s al Hb.
      pose proof (layout_bounds _ _ _ _ W1 Hb) as B. cbn in B. fold a in B.
      split; [| intros _]; apply replace_word_lo; lia.
    + exact Hmid.
    + fold a pa. rewrite Hspan. destruct bl2 as [| [s2 al2] bl2'].
      * exact I.
      * cbn in Ht2 |- *. destruct Ht2 as (S1 & S2 & _ & Sf & Ht2).
        cbn in Hsucc.
        split; [exact S1 |]. split; [exact S2 |]. split; [exact Hsucc |].
        split.
        -- intros Hal. rewrite replace_word_hi by lia. auto.
        -- eapply tseg_frame; [| exact Ht2]. intros p s al Hb.
           inversion W3 as [| ? ? _ W3']; subst.
           pose proof (layout_bounds _ _ _ _ W3' Hb) as B. cbn in B.
           split; [| intros _]; apply replace_word_hi; lia.
  - rewrite !last_alloc_app. fold pa.
    destruct bl2 as [| [s2 al2] bl2'].
    + cbn [last_alloc]. rewrite Gbrk. cbn [span]. rewrite Z.add_0_r.
      exact Hsucc.
    + pose proof (rep_epilogue _ _ _ Hrep) as He.
      rewrite !last_alloc_app in He. cbn [last_alloc] in He |- *.
      inversion W3 as [| ? ? [? ?] W3']; subst. cbn in *.
      pose proof (span_nonneg _ W3').
      rewrite replace_word_hi by lia. exact He.
  - intros j Hj.
    assert (load8 (mem st') (seg_free_listp st + 8 * j)
            = load8 (mem st) (seg_free_listp st + 8 * j)) as ->.
    { apply load8_bytes. intros k Hk. apply Hframe. lia. }
    destruct (rep_lists _ _ _ Hrep j Hj) as (last & Hl). exists last.
    eapply lseg_frame; [| exact Hl]. intros q Hq.
    destruct (replace_member j q Hj Hq) as (s & _ & _ & _ & Hpos & Hs).
    split; apply load8_bytes; intros k Hk; apply Hframe; lia.
  - apply (rep_nodup _ _ _ Hrep).
  - intros j q Hj Hq.
    destruct (replace_member j q Hj Hq) as (s & Hc & _ & Hb & _). eauto.
Qed.

(** Allocated payloads outside the rewritten run keep their bytes. *)
Lemma replace_payload p s x :
  In (p, (s, true)) (layout (first_bp st) (bl1 ++ mid ++ bl2)) ->
  ~ In (p, (s, true)) (layout a mid) ->
  p <= x < p + s - 4 -> load1 (mem st') x = load1 (mem st) x.
Proof.
  intros Hb Hnot Hx.
  pose proof Hwf as W. apply wf_sizes_app in W. destruct W as [W1 W].
  apply wf_sizes_app in W. destruct W as [W2 W3].
  apply layout_app_in in Hb. destruct Hb as [Hb | Hb].
  - pose proof (layout_bounds _ _ _ _ W1 Hb) as B. cbn in B. fold a in B.
    apply Hframe. lia.
  - apply layout_app_in in Hb. fold a in Hb. destruct Hb as [Hb | Hb].
    + contradiction.
    + pose proof (layout_bounds _ _ _ _ W3 Hb) as B. cbn in B.
      apply Hframe. lia.
Qed.
End Replace.

(** ** Merging a run of free blocks *)

Lemma span_all_free_last pa mid :
  mid <> [] -> Forall (fun b : blk => snd b = false) mid ->
  last_alloc pa mid = false.
Proof.
  intros Hne Hall. revert pa. induction Hall as [| [s al] mid Hal Hall IH];
    intros pa; [contradiction |].
  cbn in *. subst al. destruct mid as [| b mid]; [reflexivity |].
  apply IH. discriminate.
Qed.

Lemma wf_span_mod8 bl : wf_sizes bl -> span bl mod 8 = 0.
Proof.
  induction 1 as [| [s al] bl [H1 H2] _ IH]; cbn in *; [reflexivity | zdm].
Qed.

Lemma wf_span_min bl : wf_sizes bl -> bl <> [] -> 24 <= span bl.
Proof.
  intros H Hne. destruct H as [| [s al] bl [H1 H2] Hwf]; [contradiction |].
  pose proof (span_nonneg _ Hwf). cbn in *. lia.
Qed.

Lemma rep_span_bound st bl1 mid bl2 fl :
  heap_rep st (bl1 ++ mid ++ bl2) fl ->
  0 <= span mid /\ span mid + 96 < 2 ^ 32 /\
  first_bp st + span bl1 + span mid < 2 ^ 64 /\
  seg_free_listp st + 96 <= first_bp st + span bl1.
Proof.
  intros Hrep. pose proof (rep_wf _ _ _ Hrep) as W.
  apply wf_sizes_app in W. destruct W as [W1 W]. apply wf_sizes_app in W.
  destruct W as [W2 W3].
  pose proof (span_nonneg _ W1). pose proof (span_nonneg _ W2).
  pose proof (span_nonneg _ W3).
  pose proof (rep_brk _ _ _ Hrep) as Hb. rewrite !span_app in Hb.
  pose proof (rep_max _ _ _ Hrep). pose proof (rep_bound _ _ _ Hrep).
  pose proof (rep_addr _ _ _ Hrep). pose proof (rep_pos _ _ _ Hrep).
  unfold first_bp in *. lia.
Qed.

(** Header reads in a state that satisfies the representation. *)
Lemma rep_hdr_at st bl1 s al bl2 fl :
  heap_rep st (bl1 ++ (s, al) :: bl2) fl ->
  load4 (mem st) (first_bp st + span bl1 - 4)
  = hdr_word s (last_alloc true bl1) al.
Proof. intros H. apply (rep_succ_hdr st bl1 ((s, al) :: bl2) fl H). Qed.

Section Merge.
Variables (st : state) (fl : Z -> list Z) (bl1 mid bl2 : list blk) (f : Z).
Let a := first_bp st + span bl1.
Let pa := last_alloc true bl1.
Let size := span mid.
Let st1 := PUT st (HDRP a) (PACK size f).
Let st2 := PUT st1 (FTRP st1 a) (GET st1 (HDRP a)).

Hypothesis Hrep : heap_rep st (bl1 ++ mid ++ bl2) fl.
Hypothesis Hne : mid <> [].
Hypothesis Hfree : Forall (fun b : blk => snd b = false) mid.
Hypothesis Hf : f = 2 * Z.b2z pa.
Hypothesis Hout : forall j q b, 0 <= j < 10 -> In q (fl j) ->
                                ~ In (q, b) (layout a mid).

Lemma merge_size : 24 <= size /\ size mod 8 = 0 /\ size + 96 < 2 ^ 32.
Proof.
  pose proof (rep_wf _ _ _ Hrep) as W.
  apply wf_sizes_app in W. destruct W as [_ W]. apply wf_sizes_app in W.
  destruct W as [W2 _].
  pose proof (rep_span_bound _ _ _ _ _ Hrep) as (? & ? & _).
  repeat split; [apply wf_span_min | apply wf_span_mod8 |]; assumption.
Qed.

Lemma merge_mem :
  mem st2 = store4 (store4 (mem st) (a - 4) (hdr_word size pa false))
                   (a + size - 8) (hdr_word size pa false).
Proof.
  destruct merge_size as (S1 & S2 & S3).
  assert (PACK size f = hdr_word size pa false) as Ep.
  { apply pack_hdr; [assumption | rewrite Hf; cbn [Z.b2z]; lia]. }
  assert (GET st1 (HDRP a) = hdr_word size pa false) as Eg.
  { unfold st1, GET, PUT, HDRP, WSIZE. cbn [mem set_mem].
    rewrite load4_store4_same, Ep. apply hdr_wrap; lia. }
  unfold st2, PUT at 1. cbn [mem set_mem]. rewrite Eg.
  unfold FTRP, GET_SIZE. rewrite Eg. rewrite hdr_size by lia.
  unfold st1, PUT, HDRP, WSIZE, DSIZE. cbn [mem set_mem]. rewrite Ep.
  reflexivity.
Qed.

Lemma merge_globals : same_globals st st2.
Proof. repeat split. Qed.

Lemma merge_frame x :
  x < a - 4 \/ a + size <= x -> load1 (mem st2) x = load1 (mem st) x.
Proof.
  intros Hx. destruct merge_size as (S1 & S2 & S3).
  rewrite merge_mem. mem_simp. reflexivity.
Qed.

Lemma rep_merge : heap_rep st2 (bl1 ++ [(size, false)] ++ bl2) fl.
Proof.
  destruct merge_size as (S1 & S2 & S3).
  assert (wrap32 (hdr_word size pa false) = hdr_word size pa false) as Ew
      by (apply hdr_wrap; lia).
  apply (rep_replace st st2 fl bl1 mid [(size, false)] bl2 Hrep merge_globals).
  - cbn. unfold size. lia.
  - apply merge_frame.
  - fold a pa. rewrite merge_mem. cbn.
    repeat split; try assumption.
    + mem_simp. exact Ew.
    + intros _. mem_simp. rewrite Ew. apply hdr_size; lia.
  - fold a pa size. rewrite merge_mem. mem_simp. cbn [last_alloc].
    pose proof (rep_succ_hdr st (bl1 ++ mid) bl2 fl) as Hs.
    rewrite <- app_assoc in Hs. specialize (Hs Hrep).
    rewrite span_app, last_alloc_app in Hs.
    rewrite (span_all_free_last _ _ Hne Hfree) in Hs.
    rewrite <- Hs. f_equal. unfold a, size. lia.
  - exact Hout.
Qed.

Lemma merge_payload p s x :
  In (p, (s, true)) (layout (first_bp st) (bl1 ++ mid ++ bl2)) ->
  p <= x < p + s - 4 -> load1 (mem st2) x = load1 (mem st) x.
Proof.
  intros Hb Hx.
  eapply (replace_payload st st2 fl bl1 mid bl2 Hrep); try eassumption.
  - apply merge_frame.
  - intros Hin.
    rewrite Forall_forall in Hfree.
    pose proof (layout_split _ _ _ _ Hin) as (l1 & l2 & E & _).
    specialize (Hfree (s, true)). rewrite E in Hfree.
    assert (snd (s, true) = false) as Hc.
    { apply Hfree. apply in_or_app. right. left. reflexivity. }
    discriminate.
Qed.
End Merge.

(** ** The four cases of [coalesce] *)

Section CoalesceCases.
Variables (fuel : nat) (st : state) (bp : Z).
Let prev_alloc := GET_PREV_ALLOC st (HDRP bp).
Let next_alloc := GET_ALLOC st (HDRP (NEXT_BLKP st bp)).
Let size := GET_SIZE st (HDRP bp).
Let prev_bp := PREV_BLKP st bp.
Let next_bp := NEXT_BLKP st bp.

Lemma coalesce_case1 :
  prev_alloc <> 0 -> next_alloc <> 0 ->
  coalesce fuel st bp
  = (st' <- insert_to_free_list fuel st bp ;; Some (bp, st')).
Proof.
  intros H1 H2. unfold coalesce. fold prev_alloc next_alloc.
  destruct (Z.eqb_spec prev_alloc 0); [contradiction |].
  destruct (Z.eqb_spec next_alloc 0); [contradiction |].
  reflexivity.
Qed.

Lemma coalesce_case2 :
  prev_alloc <> 0 -> next_alloc = 0 ->
  coalesce fuel st bp
  = (let st1 := remove_from_free_list st next_bp in
     let st2 := write_hf st1 bp
                  (size + GET_SIZE st1 (HDRP (NEXT_BLKP st1 bp))) 2 in
     st' <- insert_to_free_list fuel st2 bp ;; Some (bp, st')).
Proof.
  intros H1 H2. unfold coalesce. fold prev_alloc next_alloc.
  destruct (Z.eqb_spec prev_alloc 0); [contradiction |].
  rewrite H2. reflexivity.
Qed.

Lemma coalesce_case3 :
  prev_alloc = 0 -> next_alloc <> 0 ->
  coalesce fuel st bp
  = (let st1 := remove_from_free_list st prev_bp in
     let st2 := write_hf st1 prev_bp
                  (size + GET_SIZE st1 (HDRP prev_bp))
                  (GET_PREV_ALLOC st1 (HDRP prev_bp)) in
     st' <- insert_to_free_list fuel st2 prev_bp ;; Some (prev_bp, st')).
Proof.
  intros H1 H2. unfold coalesce. fold prev_alloc next_alloc.
  rewrite H1.
  destruct (Z.eqb_spec next_alloc 0); [contradiction |].
  reflexivity.
Qed.

Lemma coalesce_case4 :
  prev_alloc = 0 -> next_alloc = 0 ->
  coalesce fuel st bp
  = (let st1 := remove_from_free_list st prev_bp in
     let st1 := remove_from_free_list st1 next_bp in
     let st2 := write_hf st1 prev_bp
                  (size + (GET_SIZE st1 (HDRP prev_bp)
                           + GET_SIZE st1 (HDRP next_bp)))
                  (GET_PREV_ALLOC st1 (HDRP prev_bp)) in
     st' <- insert_to_free_list fuel st2 prev_bp ;; Some (prev_bp, st')).
Proof.
  intros H1 H2. unfold coalesce. fold prev_alloc next_alloc.
  rewrite H1, H2. reflexivity.
Qed.
End CoalesceCases.

(** ** Bookkeeping lemmas *)

Lemma insert_sorted_in f size bp l p :
  In p (insert_sorted f size bp l) <-> p = bp \/ In p l.
Proof.
  induction l as [| q l IH]; cbn.
  - intuition.
  - destruct (f q >=? size); cbn; [intuition |]. rewrite IH. intuition.
Qed.

Lemma remove_one_in bp l p : In p (remove_one bp l) -> In p l.
Proof.
  induction l as [| q l IH]; cbn; [auto |].
  destruct (q =? bp); cbn; intuition.
Qed.

Lemma remove_one_keeps bp l p : p <> bp -> In p l -> In p (remove_one bp l).
Proof.
  intros Hne. induction l as [| q l IH]; cbn; [auto |].
  intros [-> | Hin].
  - destruct (Z.eqb_spec p bp); [contradiction | left; reflexivity].
  - destruct (q =? bp); [assumption | right; auto].
Qed.

Lemma remove_one_gone bp l : NoDup l -> ~ In bp (remove_one bp l).
Proof.
  induction 1 as [| q l Hnin Hnd IH]; cbn; [auto |].
  destruct (Z.eqb_spec q bp) as [-> | Hne]; [assumption |].
  intros [E | Hin]; [contradiction | auto].
Qed.

Lemma naf_app pa l1 l2 :
  naf pa (l1 ++ l2) <-> naf pa l1 /\ naf (last_alloc pa l1) l2.
Proof.
  revert pa. induction l1 as [| [s al] l1 IH]; intros pa; cbn.
  - tauto.
  - rewrite IH. tauto.
Qed.

Lemma naf_weaken pa bl : naf pa bl -> naf true bl.
Proof. destruct bl as [| [s al] bl]; cbn; tauto. Qed.

Lemma payload_kept_refl st bl : payload_kept st st bl.
Proof. intros p s x _ _. reflexivity. Qed.

Lemma payload_kept_trans st st1 st2 bl bl' :
  payload_kept st st1 bl -> payload_kept st1 st2 bl' ->
  (forall p s, In (p, (s, true)) (layout (first_bp st) bl) ->
               In (p, (s, true)) (layout (first_bp st1) bl')) ->
  payload_kept st st2 bl.
Proof.
  intros H1 H2 Hsub p s x Hb Hx.
  rewrite (H2 p s x (Hsub _ _ Hb) Hx). apply (H1 p s x Hb Hx).
Qed.

Lemma first_bp_same st st' : same_globals st st' -> first_bp st' = first_bp st.
Proof. intros (_ & H & _). unfold first_bp. congruence. Qed.

(** Blocks outside a rewritten run are blocks of the new layout. *)
Lemma layout_replace_in a bl1 mid mid' bl2 x :
  span mid' = span mid ->
  In x (layout a (bl1 ++ mid ++ bl2)) ->
  In x (layout (a + span bl1) mid)
  \/ In x (layout a (bl1 ++ mid' ++ bl2)).
Proof.
  intros Hs Hin. destruct x as [p b].
  apply layout_app_in in Hin. destruct Hin as [Hin | Hin].
  - right. apply layout_app_in. auto.
  - apply layout_app_in in Hin. destruct Hin as [Hin | Hin]; [auto |].
    right. apply layout_app_in. right. apply layout_app_in. right.
    rewrite Hs. exact Hin.
Qed.

Lemma layout_all_free a mid p s :
  Forall (fun b : blk => snd b = false) mid ->
  ~ In (p, (s, true)) (layout a mid).
Proof.
  intros Hall Hin. destruct (layout_split _ _ _ _ Hin) as (l1 & l2 & -> & _).
  apply Forall_app in Hall. destruct Hall as [_ Hall].
  inversion Hall; subst. discriminate.
Qed.

(** ** Inserting the last unlisted free block restores the invariant *)

Lemma insert_heap_ok fuel st bl fl r sz st' :
  insert_ready st bl fl r sz ->
  insert_to_free_list fuel st r = Some st' ->
  heap_ok st' bl (set_bucket fl (get_root_index sz)
                    (insert_sorted (size_at (mem st)) sz r
                                   (fl (get_root_index sz)))) /\
  payload_kept st st' bl /\ same_globals st st'.
Proof.
  intros (Hrep & Hb & Hnew & Hcov & Hnaf) Hins.
  destruct (rep_insert st bl fl Hrep r sz Hb Hnew fuel st' Hins) as (Hrep' & Hpay & Hg).
  split; [| split; assumption].
  split; [exact Hrep' | split; [| exact Hnaf]].
  intros p s Hp. right. rewrite (first_bp_same _ _ Hg) in Hp.
  destruct (Hcov p s Hp) as [[<- | []] | Hin].
  - pose proof (layout_fun _ _ _ _ _ (rep_wf _ _ _ Hrep) Hb Hp) as E.
    inversion E; subst. rewrite set_bucket_same. apply insert_sorted_in. auto.
  - destruct (Z.eq_dec (get_root_index s) (get_root_index sz)) as [E | Hne].
    + rewrite E in *. rewrite set_bucket_same. apply insert_sorted_in. auto.
    + rewrite set_bucket_other by assumption. exact Hin.
Qed.

Lemma same_allocated_refl a bl : same_allocated a bl bl.
Proof. intros p sz. tauto. Qed.

Lemma same_allocated_trans a bl1 bl2 bl3 :
  same_allocated a bl1 bl2 -> same_allocated a bl2 bl3 ->
  same_allocated a bl1 bl3.
Proof. intros H1 H2 p sz. rewrite (H1 p sz). apply H2. Qed.

Lemma insert_heap_total fuel st bl fl r sz :
  insert_ready st bl fl r sz ->
  (length (fl (get_root_index sz)) <= fuel)%nat ->
  exists st', insert_to_free_list fuel st r = Some st'.
Proof. intros (Hrep & Hb & _) Hlen. eapply insert_total; eassumption. Qed.

(** ** One unlinking step, with its bookkeeping *)

Lemma remove_step st bl fl q sq :
  heap_rep st bl fl ->
  In (q, (sq, false)) (layout (first_bp st) bl) ->
  In q (fl (get_root_index sq)) ->
  exists fl1,
    heap_rep (remove_from_free_list st q) bl fl1 /\
    same_globals st (remove_from_free_list st q) /\
    payload_kept st (remove_from_free_list st q) bl /\
    (forall j, 0 <= j < 10 -> ~ In q (fl1 j)) /\
    (forall j p, In p (fl1 j) -> In p (fl j)) /\
    (forall j p, In p (fl j) -> p <> q -> In p (fl1 j)) /\
    (forall j, (length (fl1 j) <= length (fl j))%nat).
Proof.
  intros Hrep Hb Hin.
  destruct (rep_remove st bl fl Hrep q sq Hb Hin) as [Hrep1 Hpay].
  pose proof (get_root_index_range sq) as Hi.
  eexists. split; [exact Hrep1 |]. split; [apply remove_globals |].
  split; [exact Hpay |]. repeat split.
  - intros j Hj. destruct (Z.eq_dec j (get_root_index sq)) as [-> | Hne].
    + rewrite set_bucket_same. apply remove_one_gone.
      apply (rep_nodup _ _ _ Hrep). assumption.
    + rewrite set_bucket_other by assumption. intros Hq.
      apply Hne. apply (rep_buckets_disjoint st bl fl Hrep j (get_root_index sq) q Hj Hi Hq Hin).
  - intros j p. destruct (Z.eq_dec j (get_root_index sq)) as [-> | Hne].
    + rewrite set_bucket_same. apply remove_one_in.
    + rewrite set_bucket_other by assumption. auto.
  - intros j p Hp Hne'. destruct (Z.eq_dec j (get_root_index sq)) as [-> | Hne].
    + rewrite set_bucket_same. apply remove_one_keeps; assumption.
    + rewrite set_bucket_other by assumption. assumption.
  - intros j. destruct (Z.eq_dec j (get_root_index sq)) as [-> | Hne].
    + rewrite set_bucket_same. clear. induction (fl (get_root_index sq)) as [| x l IH];
        cbn; [lia |]. destruct (x =? q); cbn; lia.
    + rewrite set_bucket_other by assumption. lia.
Qed.

(** ** Writing the merged header *)

Section MergeReady.
Variables (st : state) (fl : Z -> list Z).
Variables (bl1 mid bl2 : list blk) (f : Z).
Let a := first_bp st + span bl1.
Let size := span mid.
Let bl' := bl1 ++ [(size, false)] ++ bl2.

Hypothesis Hrep : heap_rep st (bl1 ++ mid ++ bl2) fl.
Hypothesis Hne : mid <> [].
Hypothesis Hfree : Forall (fun b : blk => snd b = false) mid.
Hypothesis Hf : f = 2 * Z.b2z (last_alloc true bl1).
Hypothesis Hout : forall j q b, 0 <= j < 10 -> In q (fl j) ->
                                ~ In (q, b) (layout a mid).
Hypothesis Hcov : forall p sp,
    In (p, (sp, false)) (layout (first_bp st) (bl1 ++ mid ++ bl2)) ->
    In (p, (sp, false)) (layout a mid) \/ In p (fl (get_root_index sp)).
Hypothesis Hnaf : naf true bl'.

Lemma merge_ready :
  insert_ready (write_hf st a size f) bl' fl a size /\
  payload_kept st (write_hf st a size f) (bl1 ++ mid ++ bl2) /\
  same_allocated (first_bp st) (bl1 ++ mid ++ bl2) bl' /\
  load4 (mem (write_hf st a size f)) (a + size - 8)
  = load4 (mem (write_hf st a size f)) (a - 4).
Proof.
  pose proof (rep_merge st fl bl1 mid bl2 f Hrep Hne Hfree Hf Hout) as Hrep2.
  fold a size in Hrep2.
  set (st2 := write_hf st a size f) in *.
  assert (first_bp st2 = first_bp st) as Hf2 by reflexivity.
  assert (In (a, (size, false)) (layout (first_bp st2) bl')) as Hin.
  { rewrite Hf2. unfold bl', a. apply layout_mid. }
  assert (span [(size, false)] = span mid) as Hspan by (cbn; unfold size; lia).
  assert (~ In a (fl (get_root_index size))) as Hnew.
  { intros Hq. destruct mid as [| [s0 al0] mid0] eqn:Em; [contradiction |].
    pose proof (get_root_index_range size).
    eapply (Hout _ a (s0, al0)); [eassumption | exact Hq |].
    left. reflexivity. }
  assert (covered [a] st2 bl' fl) as Hcov2.
  { pose proof (rep_wf _ _ _ Hrep) as W. apply wf_sizes_app in W.
    destruct W as [W1 W]. apply wf_sizes_app in W. destruct W as [W2 W3].
    intros p sp Hp. rewrite Hf2 in Hp. unfold bl' in Hp.
    apply layout_app_in in Hp. destruct Hp as [Hp | Hp].
    - pose proof (layout_bounds _ _ _ _ W1 Hp) as B. cbn in B. fold a in B.
      destruct (Hcov p sp) as [Hm | Hl]; [apply layout_app_in; auto | | auto].
      pose proof (layout_bounds _ _ _ _ W2 Hm) as B'. cbn in B'. lia.
    - apply layout_app_in in Hp. fold a in Hp. destruct Hp as [Hp | Hp].
      + cbn in Hp. destruct Hp as [E | []]. inversion E; subst. left. left.
        reflexivity.
      + rewrite Hspan in Hp.
        pose proof (layout_bounds _ _ _ _ W3 Hp) as B. cbn in B.
        destruct (Hcov p sp) as [Hm | Hl]; [| | auto].
        * apply layout_app_in. right. apply layout_app_in. right. exact Hp.
        * pose proof (layout_bounds _ _ _ _ W2 Hm) as B'. cbn in B'. lia. }
  split; [exact (conj Hrep2 (conj Hin (conj Hnew (conj Hcov2 Hnaf)))) |].
  split; [| split].
  - intros p sz x Hp Hx. unfold st2, write_hf, a, size.
    eapply merge_payload; eassumption.
  - intros p sz. split; intros Hp.
    + destruct (layout_replace_in _ bl1 mid [(size, false)] bl2 _ Hspan Hp)
        as [Hm | Ho]; [| exact Ho].
      exfalso. eapply layout_all_free; eassumption.
    + destruct (layout_replace_in _ bl1 [(size, false)] mid bl2 _ (eq_sym Hspan) Hp)
        as [Hm | Ho]; [| exact Ho].
      cbn in Hm. destruct Hm as [E | []]. discriminate.
  - pose proof (merge_size st fl bl1 mid bl2 Hrep Hne) as (S1 & S2 & S3).
    unfold st2, write_hf, a, size. cbv zeta.
    rewrite (merge_mem st fl bl1 mid bl2 f Hrep Hne Hf).
    rewrite load4_store4_same.
    rewrite load4_store4_other by lia. rewrite load4_store4_same.
    reflexivity.
Qed.
End MergeReady.

(** ** What the code reads around a block *)

Lemma hd_size_wf bl : wf_sizes bl -> hd_size bl mod 8 = 0 /\ 0 <= hd_size bl.
Proof.
  intros H. destruct H as [| [s al] bl [H1 H2] _]; cbn in *; [split; [reflexivity | lia] |].
  split; [assumption | lia].
Qed.

Section Reads.
Variables (st : state) (fl : Z -> list Z) (bl1 bl2 : list blk).
Variables (s : Z) (al : bool).
Hypothesis Hrep : heap_rep st (bl1 ++ (s, al) :: bl2) fl.
Let bp := first_bp st + span bl1.

Lemma read_wf :
  24 <= s /\ s mod 8 = 0 /\ hd_size bl2 mod 8 = 0 /\ 0 <= hd_size bl2 /\
  seg_free_listp st + 96 <= bp /\ bp + s <= mem_brk st /\ bp mod 8 = 0 /\
  0 < bp /\ bp + s < 2 ^ 64 /\ s + 96 < 2 ^ 32 /\ hd_size bl2 + 96 < 2 ^ 32.
Proof.
  pose proof (rep_wf _ _ _ Hrep) as W. apply wf_sizes_app in W.
  destruct W as [W1 W]. inversion W as [| ? ? [S1 S2] W2]; subst. cbn in S1, S2.
  destruct (hd_size_wf _ W2) as [H1 H2].
  pose proof (rep_block _ _ _ Hrep _ _ (layout_mid (first_bp st) bl1 (s, al) bl2)) as B.
  cbn in B. fold bp in B. pose proof (rep_pos _ _ _ Hrep).
  assert (hd_size bl2 + 96 < 2 ^ 32).
  { pose proof (rep_span_bound st (bl1 ++ [(s, al)]) bl2 [] fl) as Hb.
    rewrite app_nil_r, <- app_assoc in Hb. specialize (Hb Hrep).
    destruct W2 as [| [s2 al2] l [? ?] W2']; cbn in *; [lia |].
    pose proof (span_nonneg _ W2'). lia. }
  repeat split; try assumption; lia.
Qed.

Lemma read_hdr : GET st (HDRP bp) = hdr_word s (last_alloc true bl1) al.
Proof. apply (rep_hdr_at _ _ _ _ _ _ Hrep). Qed.

Lemma read_size : GET_SIZE st (HDRP bp) = s.
Proof.
  destruct read_wf as (? & ? & _). unfold GET_SIZE. rewrite read_hdr.
  apply hdr_size; lia.
Qed.

Lemma read_alloc : GET_ALLOC st (HDRP bp) = Z.b2z al.
Proof.
  destruct read_wf as (? & ? & _). unfold GET_ALLOC. rewrite read_hdr.
  apply hdr_alloc; lia.
Qed.

Lemma read_prev_alloc :
  GET_PREV_ALLOC st (HDRP bp) = 2 * Z.b2z (last_alloc true bl1).
Proof.
  destruct read_wf as (? & ? & _). unfold GET_PREV_ALLOC. rewrite read_hdr.
  apply hdr_prev_alloc; lia.
Qed.

Lemma read_next : NEXT_BLKP st bp = bp + s.
Proof. unfold NEXT_BLKP. fold (HDRP bp). rewrite read_size. reflexivity. Qed.

Lemma read_ftrp : FTRP st bp = bp + s - 8.
Proof. unfold FTRP, DSIZE. rewrite read_size. reflexivity. Qed.

Lemma read_next_hdr :
  GET st (HDRP (bp + s)) = hdr_word (hd_size bl2) al (hd_alloc bl2).
Proof.
  pose proof (rep_succ_hdr st (bl1 ++ [(s, al)]) bl2 fl) as H.
  rewrite <- app_assoc in H. specialize (H Hrep).
  rewrite span_app, last_alloc_app in H. cbn in H.
  unfold GET, HDRP, WSIZE. rewrite <- H. f_equal. unfold bp. lia.
Qed.

Lemma read_next_alloc : GET_ALLOC st (HDRP (bp + s)) = Z.b2z (hd_alloc bl2).
Proof.
  destruct read_wf as (_ & _ & ? & ? & _). unfold GET_ALLOC.
  rewrite read_next_hdr. apply hdr_alloc; lia.
Qed.

Lemma read_next_size : GET_SIZE st (HDRP (bp + s)) = hd_size bl2.
Proof.
  destruct read_wf as (_ & _ & ? & ? & _). unfold GET_SIZE.
  rewrite read_next_hdr. apply hdr_size; lia.
Qed.
End Reads.

Lemma read_prev st fl bl1 s1 bl2 bp :
  heap_rep st (bl1 ++ (s1, false) :: bl2) fl ->
  bp = first_bp st + span bl1 + s1 ->
  PREV_BLKP st bp = first_bp st + span bl1.
Proof.
  intros Hrep ->. pose proof (rep_tiling _ _ _ Hrep) as Ht.
  apply tseg_app in Ht. destruct Ht as [_ Ht]. cbn in Ht.
  destruct Ht as (_ & _ & _ & Hf & _). specialize (Hf eq_refl).
  unfold PREV_BLKP, GET_SIZE, GET, DSIZE.
  change (Z.lnot 7) with (-8). rewrite Hf. lia.
Qed.

Lemma last_alloc_false_split bl :
  last_alloc true bl = false ->
  exists bl' s1, bl = bl' ++ [(s1, false)].
Proof.
  intros H. destruct bl as [| b bl] using rev_ind; [discriminate |].
  rewrite last_alloc_app in H. destruct b as [s1 al]. cbn in H. subst al.
  eauto.
Qed.

Lemma hd_alloc_false_split bl :
  hd_alloc bl = false -> exists s2 bl', bl = (s2, false) :: bl'.
Proof.
  destruct bl as [| [s2 al] bl]; cbn; intros H; [discriminate |].
  subst. eauto.
Qed.

Lemma naf_free_next bl : hd_alloc bl = true -> naf true bl -> naf false bl.
Proof.
  destruct bl as [| [s al] bl]; cbn; [auto |]. intros -> [_ H]. auto.
Qed.

(** ** The representation of a state is unique *)

Lemma tseg_unique m :
  forall bl bl2 a pa pa2,
    tseg m a pa bl -> tseg m a pa2 bl2 -> span bl = span bl2 -> bl = bl2.
Proof.
  induction bl as [| [s al] bl IH]; intros [| [s2 al2] bl2] a pa pa2 T1 T2 Hs.
  - reflexivity.
  - pose proof (span_nonneg _ (tseg_sizes _ _ _ _ T2)) as H. cbn in H, Hs.
    destruct T2 as (B1 & _ & _ & _ & T2).
    pose proof (span_nonneg _ (tseg_sizes _ _ _ _ T2)). lia.
  - pose proof (span_nonneg _ (tseg_sizes _ _ _ _ T1)) as H. cbn in H, Hs.
    destruct T1 as (B1 & _ & _ & _ & T1).
    pose proof (span_nonneg _ (tseg_sizes _ _ _ _ T1)). lia.
  - cbn in T1, T2, Hs.
    destruct T1 as (A1 & A2 & A3 & _ & A5), T2 as (B1 & B2 & B3 & _ & B5).
    rewrite A3 in B3.
    assert (s = s2) as <-.
    { apply (f_equal (fun w => Z.land w (Z.lnot 7))) in B3.
      rewrite !hdr_size in B3 by (assumption || lia). exact B3. }
    assert (al = al2) as <-.
    { apply (f_equal (fun w => Z.land w 1)) in B3.
      rewrite !hdr_alloc in B3 by (assumption || lia).
      destruct al, al2; cbn in B3; congruence. }
    f_equal. apply (IH bl2 (a + s) al al); [assumption | assumption | lia].
Qed.

Lemma lseg_unique m :
  forall l l2 prev first last last2,
    lseg m prev first l last 0 -> lseg m prev first l2 last2 0 -> l = l2.
Proof.
  induction l as [| p l IH]; intros [| p2 l2] prev first last last2 L1 L2.
  - reflexivity.
  - cbn in L1, L2. destruct L1 as [_ E], L2 as (E2 & N & _). congruence.
  - cbn in L1, L2. destruct L2 as [_ E], L1 as (E2 & N & _). congruence.
  - cbn in L1, L2. destruct L1 as (E1 & _ & _ & L1), L2 as (E2 & _ & _ & L2).
    assert (p = p2) as <- by congruence.
    f_equal. eapply IH; eassumption.
Qed.

Lemma rep_unique st bl fl bl2 fl2 :
  heap_rep st bl fl -> heap_rep st bl2 fl2 ->
  bl = bl2 /\ forall j, 0 <= j < 10 -> fl j = fl2 j.
Proof.
  intros H1 H2. split.
  - apply (tseg_unique (mem st) bl bl2 (first_bp st) true true).
    + apply (rep_tiling _ _ _ H1).
    + apply (rep_tiling _ _ _ H2).
    + pose proof (rep_brk _ _ _ H1). pose proof (rep_brk _ _ _ H2). lia.
  - intros j Hj.
    destruct (rep_lists _ _ _ H1 j Hj) as (l1 & L1).
    destruct (rep_lists _ _ _ H2 j Hj) as (l2 & L2).
    eapply lseg_unique; eassumption.
Qed.

(** ** Sorted buckets *)

Lemma sorted_by_ext f g (l : list Z) :
  (forall q, In q l -> g q = f q) -> sorted_by f l -> sorted_by g l.
Proof.
  induction l as [| p l IH]; cbn; [auto |]. intros He [H1 H2]. split.
  - intros q Hq. rewrite (He p), (He q) by auto. apply H1. exact Hq.
  - apply IH; [intros q Hq; apply He; auto | exact H2].
Qed.

Lemma remove_one_sorted f bp l : sorted_by f l -> sorted_by f (remove_one bp l).
Proof.
  induction l as [| p l IH]; cbn; [auto |]. intros [H1 H2].
  destruct (p =? bp); [exact H2 |]. cbn. split.
  - intros q Hq. apply H1. eapply remove_one_in. exact Hq.
  - apply IH. exact H2.
Qed.

Lemma insert_sorted_sorted f s bp l :
  f bp = s -> sorted_by f l -> sorted_by f (insert_sorted f s bp l).
Proof.
  intros Hs. induction l as [| p l IH]; cbn;
    [intros _; split; [intros q [] | exact I] |].
  intros [H1 H2].
  destruct (Z.geb_spec (f p) s) as [Hge | Hlt]; cbn.
  - split; [| split; assumption].
    intros q [<- | Hq]; [lia |]. specialize (H1 q Hq). lia.
  - split; [| apply IH; exact H2].
    intros q Hq. apply insert_sorted_in in Hq. destruct Hq as [-> | Hq];
      [lia | apply H1; exact Hq].
Qed.

Lemma ordered_intro st bl fl :
  heap_rep st bl fl -> sorted_buckets st fl -> ordered st.
Proof.
  intros Hrep Hs bl2 fl2 Hrep2 j Hj.
  destruct (rep_unique _ _ _ _ _ Hrep Hrep2) as [_ E].
  rewrite <- (E j Hj). apply Hs. exact Hj.
Qed.

(** A block of the layout has the same size in two states with that
    layout. *)
Lemma rep_size_same st st' bl bl' fl fl' q s al al' :
  heap_rep st bl fl -> heap_rep st' bl' fl' ->
  In (q, (s, al)) (layout (first_bp st) bl) ->
  In (q, (s, al')) (layout (first_bp st') bl') ->
  size_at (mem st') q = size_at (mem st) q.
Proof.
  intros H1 H2 Hb Hb'.
  rewrite (size_at_block _ _ _ _ _ _ _ (rep_tiling _ _ _ H1) Hb).
  rewrite (size_at_block _ _ _ _ _ _ _ (rep_tiling _ _ _ H2) Hb').
  reflexivity.
Qed.

(** The lists stay sorted when they stay the same and their nodes keep
    their entries in the layout. *)
Lemma ordered_same st st' bl bl' fl :
  heap_rep st bl fl -> heap_rep st' bl' fl ->
  (forall j q, 0 <= j < 10 -> In q (fl j) ->
     exists s, In (q, (s, false)) (layout (first_bp st) bl) /\
               In (q, (s, false)) (layout (first_bp st') bl')) ->
  ordered st -> ordered st'.
Proof.
  intros H1 H2 Hkeep Hord. apply (ordered_intro _ _ _ H2). intros j Hj.
  apply (sorted_by_ext (size_at (mem st))); [| apply (Hord _ _ H1 j Hj)].
  intros q Hq. destruct (Hkeep j q Hj Hq) as (s & Hb & Hb').
  eapply rep_size_same; eassumption.
Qed.

(** Rewriting a run of blocks none of which is listed. *)
Lemma ordered_replace st st' fl bl1 mid mid' bl2 :
  heap_rep st (bl1 ++ mid ++ bl2) fl ->
  heap_rep st' (bl1 ++ mid' ++ bl2) fl ->
  first_bp st' = first_bp st -> span mid' = span mid ->
  (forall j q b, 0 <= j < 10 -> In q (fl j) ->
                 ~ In (q, b) (layout (first_bp st + span bl1) mid)) ->
  ordered st -> ordered st'.
Proof.
  intros H1 H2 Ef Hspan Hout. apply (ordered_same _ _ _ _ _ H1 H2).
  intros j q Hj Hq.
  destruct (rep_members _ _ _ H1 j q Hj Hq) as (s & Hb & _).
  exists s. split; [exact Hb |]. rewrite Ef.
  destruct (layout_replace_in _ bl1 mid mid' bl2 _ Hspan Hb) as [Hm | Ho];
    [| exact Ho].
  exfalso. exact (Hout j q _ Hj Hq Hm).
Qed.

Lemma remove_ordered st bl fl p s :
  heap_rep st bl fl -> In (p, (s, false)) (layout (first_bp st) bl) ->
  In p (fl (get_root_index s)) ->
  ordered st -> ordered (remove_from_free_list st p).
Proof.
  intros Hrep Hb Hin Hord.
  destruct (rep_remove st bl fl Hrep p s Hb Hin) as [Hrep1 _].
  apply (ordered_intro _ _ _ Hrep1). intros j Hj.
  pose proof (first_bp_same _ _ (remove_globals st p)) as E1.
  assert (sorted_by (size_at (mem (remove_from_free_list st p))) (fl j)) as Hs.
  { apply (sorted_by_ext (size_at (mem st))); [| apply (Hord _ _ Hrep j Hj)].
    intros q Hq. destruct (rep_members _ _ _ Hrep j q Hj Hq) as (sq & Hbq & _).
    eapply rep_size_same; [exact Hrep | exact Hrep1 | exact Hbq |].
    rewrite E1. exact Hbq. }
  unfold set_bucket. destruct (Z.eqb_spec j (get_root_index s)) as [-> | _];
    [apply remove_one_sorted |]; exact Hs.
Qed.

Lemma insert_ordered fuel st bl fl bp s st' :
  heap_rep st bl fl -> In (bp, (s, false)) (layout (first_bp st) bl) ->
  ~ In bp (fl (get_root_index s)) -> ordered st ->
  insert_to_free_list fuel st bp = Some st' -> ordered st'.
Proof.
  intros Hrep Hb Hnew Hord Hins.
  destruct (rep_insert st bl fl Hrep bp s Hb Hnew fuel st' Hins)
    as (Hrep' & _ & Hg).
  pose proof (first_bp_same _ _ Hg) as E1.
  pose proof (get_root_index_range s) as Hi.
  apply (ordered_intro _ _ _ Hrep'). intros j Hj.
  apply (sorted_by_ext (size_at (mem st))).
  - intros q Hq.
    destruct (rep_members _ _ _ Hrep' j q Hj Hq) as (sq & Hbq & _).
    symmetry. eapply rep_size_same; [exact Hrep' | exact Hrep | exact Hbq |].
    rewrite <- E1. exact Hbq.
  - unfold set_bucket. destruct (Z.eqb_spec j (get_root_index s)) as [-> | _].
    + apply insert_sorted_sorted; [| apply (Hord _ _ Hrep _ Hi)].
      apply (size_at_block _ _ _ _ _ _ _ (rep_tiling _ _ _ Hrep) Hb).
    + apply (Hord _ _ Hrep j Hj).
Qed.

Lemma insert_ready_ordered fuel st bl fl r sz st' :
  insert_ready st bl fl r sz -> ordered st ->
  insert_to_free_list fuel st r = Some st' -> ordered st'.
Proof.
  intros (Hrep & Hb & Hnew & _) Hord Hins.
  eapply insert_ordered; eassumption.
Qed.

(** ** [coalesce] up to its final insertion *)

Lemma write_hf_globals st a size f : same_globals st (write_hf st a size f).
Proof. repeat split. Qed.

Lemma payload_kept_same st st1 st2 bl :
  payload_kept st st1 bl -> same_globals st st1 ->
  payload_kept st1 st2 bl -> payload_kept st st2 bl.
Proof.
  intros H1 Hg H2. eapply payload_kept_trans; [exact H1 | exact H2 |].
  intros p s Hp. rewrite (first_bp_same _ _ Hg). exact Hp.
Qed.

(** Writing the merged header keeps the buckets sorted. *)
Lemma merge_ordered st fl bl1 mid bl2 f :
  heap_rep st (bl1 ++ mid ++ bl2) fl -> mid <> [] ->
  Forall (fun b : blk => snd b = false) mid ->
  f = 2 * Z.b2z (last_alloc true bl1) ->
  (forall j q b, 0 <= j < 10 -> In q (fl j) ->
                 ~ In (q, b) (layout (first_bp st + span bl1) mid)) ->
  ordered st -> ordered (write_hf st (first_bp st + span bl1) (span mid) f).
Proof.
  intros Hrep Hne Hfree Hf Hout.
  apply (ordered_replace st _ fl bl1 mid [(span mid, false)] bl2 Hrep).
  - apply (rep_merge st fl bl1 mid bl2 f Hrep Hne Hfree Hf Hout).
  - reflexivity.
  - cbn. lia.
  - exact Hout.
Qed.

Lemma coalesce_shape_weaken fuel st bl fl bp s r bl' s' :
  coalesce_shape_ordered fuel st bl fl bp s r bl' s' ->
  coalesce_shape_at fuel st bl fl bp s r bl' s'.
Proof.
  intros (st2 & fl1 & H1 & H2 & H3 & H4 & H5 & H6 & H7 & H8 & H9 & _).
  exists st2, fl1. tauto.
Qed.

Lemma coalesce_ordered_1 fuel st fl bl1 s bl2 :
  heap_rep st (bl1 ++ (s, false) :: bl2) fl ->
  (forall j, 0 <= j < 10 -> ~ In (first_bp st + span bl1) (fl j)) ->
  covered [first_bp st + span bl1] st (bl1 ++ (s, false) :: bl2) fl ->
  naf true (bl1 ++ (s, true) :: bl2) ->
  last_alloc true bl1 = true -> hd_alloc bl2 = true ->
  coalesce_shape_ordered fuel st (bl1 ++ (s, false) :: bl2) fl
                    (first_bp st + span bl1) s
                    (first_bp st + span bl1) (bl1 ++ (s, false) :: bl2) s.
Proof.
  intros Hrep Hunlisted Hcov Hnaf Hpa Hna.
  set (bl := bl1 ++ (s, false) :: bl2) in *.
  set (bp := first_bp st + span bl1) in *.
  exists st, fl.
  split; [| split; [| split; [| split; [| split; [| split; [| split; [| split; [| split]]]]]]]].
  - apply coalesce_case1.
    + unfold bp. rewrite (read_prev_alloc _ _ _ _ _ _ Hrep), Hpa. discriminate.
    + unfold bp. rewrite (read_next _ _ _ _ _ _ Hrep).
      rewrite (read_next_alloc _ _ _ _ _ _ Hrep), Hna. discriminate.
  - split; [exact Hrep |]. split; [apply layout_mid |].
    split; [apply Hunlisted; apply get_root_index_range |].
    split; [exact Hcov |].
    apply naf_app in Hnaf. destruct Hnaf as [N1 N2]. cbn in N2.
    apply naf_app. split; [exact N1 |]. cbn. rewrite Hpa.
    split; [auto |]. apply naf_free_next; tauto.
  - lia.
  - apply same_globals_refl.
  - apply payload_kept_refl.
  - apply same_allocated_refl.
  - intros j. lia.
  - reflexivity.
  - lia.
  - auto.
Qed.

Lemma coalesce_shape_1 fuel st fl bl1 s bl2 :
  heap_rep st (bl1 ++ (s, false) :: bl2) fl ->
  (forall j, 0 <= j < 10 -> ~ In (first_bp st + span bl1) (fl j)) ->
  covered [first_bp st + span bl1] st (bl1 ++ (s, false) :: bl2) fl ->
  naf true (bl1 ++ (s, true) :: bl2) ->
  last_alloc true bl1 = true -> hd_alloc bl2 = true ->
  coalesce_shape_at fuel st (bl1 ++ (s, false) :: bl2) fl
                    (first_bp st + span bl1) s
                    (first_bp st + span bl1) (bl1 ++ (s, false) :: bl2) s.
Proof.
  intros. apply coalesce_shape_weaken. apply coalesce_ordered_1; assumption.
Qed.

Lemma coalesce_ordered_2 fuel st fl bl1 s s2 bl2' :
  heap_rep st (bl1 ++ (s, false) :: (s2, false) :: bl2') fl ->
  (forall j, 0 <= j < 10 -> ~ In (first_bp st + span bl1) (fl j)) ->
  covered [first_bp st + span bl1] st
          (bl1 ++ (s, false) :: (s2, false) :: bl2') fl ->
  naf true (bl1 ++ (s, true) :: (s2, false) :: bl2') ->
  last_alloc true bl1 = true ->
  coalesce_shape_ordered fuel st (bl1 ++ (s, false) :: (s2, false) :: bl2') fl
    (first_bp st + span bl1) s
    (first_bp st + span bl1)
    (bl1 ++ [(span [(s, false); (s2, false)], false)] ++ bl2')
    (span [(s, false); (s2, false)]).
Proof.
  intros Hrep Hunlisted Hcov Hnaf Hpa.
  set (bl := bl1 ++ (s, false) :: (s2, false) :: bl2') in *.
  set (bp := first_bp st + span bl1) in *.
  pose proof (read_wf _ _ _ _ _ _ Hrep) as Wf. cbn [hd_size] in Wf. fold bp in Wf.
  assert (In (bp + s, (s2, false)) (layout (first_bp st) bl)) as Hbn.
  { pose proof (layout_mid (first_bp st) (bl1 ++ [(s, false)]) (s2, false) bl2') as H.
    rewrite <- app_assoc, span_app in H. cbn in H.
    replace (first_bp st + (span bl1 + (s + 0))) with (bp + s) in H
      by (unfold bp; lia). exact H. }
  assert (In (bp + s) (fl (get_root_index s2))) as Hin.
  { destruct (Hcov _ _ Hbn) as [[E | []] | H]; [lia | exact H]. }
  destruct (remove_step st bl fl (bp + s) s2 Hrep Hbn Hin)
    as (fl1 & Hrep1 & Hg1 & Hpay1 & Hgone & Hsub & Hkeep & Hlen).
  set (st1 := remove_from_free_list st (bp + s)) in *.
  pose proof (first_bp_same _ _ Hg1) as E1.
  pose proof (read_next _ _ _ _ _ _ Hrep1) as Rn1. rewrite E1 in Rn1. fold bp in Rn1.
  pose proof (read_next_size _ _ _ _ _ _ Hrep1) as Rs1. rewrite E1 in Rs1.
  fold bp in Rs1. cbn [hd_size] in Rs1.
  assert (Forall (fun b : blk => snd b = false) [(s, false); (s2, false)]) as Hfree
      by (repeat constructor).
  assert (forall j q b, 0 <= j < 10 -> In q (fl1 j) ->
            ~ In (q, b) (layout (first_bp st1 + span bl1)
                                [(s, false); (s2, false)])) as Hout.
  { rewrite E1. fold bp. intros j q b Hj Hq [E | [E | []]]; inversion E; subst.
    + apply (Hunlisted j Hj). apply (Hsub _ _ Hq).
    + apply (Hgone j Hj). exact Hq. }
  destruct (merge_ready st1 fl1 bl1 [(s, false); (s2, false)] bl2' 2)
    as (Hready & Hpay2 & Hal & Hfoot).
  - exact Hrep1.
  - discriminate.
  - exact Hfree.
  - rewrite Hpa. reflexivity.
  - exact Hout.
  - rewrite E1. fold bp. intros p sp Hp.
    destruct (Z.eq_dec p bp) as [-> | Hne1].
    { left. left.
      pose proof (layout_fun _ _ _ _ _ (rep_wf _ _ _ Hrep) Hp
                    (layout_mid (first_bp st) bl1 (s, false) _)) as E.
      inversion E; subst. reflexivity. }
    destruct (Z.eq_dec p (bp + s)) as [-> | Hne2].
    { left. right. left.
      pose proof (layout_fun _ _ _ _ _ (rep_wf _ _ _ Hrep) Hp Hbn) as E.
      inversion E; subst. reflexivity. }
    right. destruct (Hcov _ _ Hp) as [[E | []] | H]; [congruence |].
    apply Hkeep; assumption.
  - apply naf_app in Hnaf. destruct Hnaf as [N1 N2]. cbn in N2.
    apply naf_app. split; [exact N1 |]. cbn. rewrite Hpa. tauto.
  - rewrite E1 in Hready, Hal, Hpay2, Hfoot. fold bp in Hready, Hpay2, Hfoot.
    exists (write_hf st1 bp (span [(s, false); (s2, false)]) 2), fl1.
    split; [| split; [| split; [| split; [| split; [| split; [| split; [| split; [| split]]]]]]]].
    + pose proof (read_next _ _ _ _ _ _ Hrep) as Rn. fold bp in Rn.
      pose proof (read_size _ _ _ _ _ _ Hrep) as Rsz. fold bp in Rsz.
      pose proof (read_prev_alloc _ _ _ _ _ _ Hrep) as Rpa. fold bp in Rpa.
      pose proof (read_next_alloc _ _ _ _ _ _ Hrep) as Rna. fold bp in Rna.
      rewrite coalesce_case2.
      * cbv zeta. rewrite !Rn. fold st1. rewrite Rn1, Rs1, Rsz.
        cbn [span]. rewrite Z.add_0_r. reflexivity.
      * rewrite Rpa, Hpa. discriminate.
      * rewrite Rn, Rna. reflexivity.
    + exact Hready.
    + cbn. lia.
    + eapply same_globals_trans; [exact Hg1 | apply write_hf_globals].
    + eapply payload_kept_same; [exact Hpay1 | exact Hg1 |]. exact Hpay2.
    + exact Hal.
    + exact Hlen.
    + intros E. pose proof (rep_block _ _ _ Hrep _ _ Hbn) as Bn. cbn in Bn, E. lia.
    + intros _. exact Hfoot.
    + intros Hord.
      pose proof (merge_ordered st1 fl1 bl1 [(s, false); (s2, false)] bl2' 2 Hrep1
                    ltac:(discriminate) Hfree ltac:(rewrite Hpa; reflexivity) Hout
                    (remove_ordered st bl fl (bp + s) s2 Hrep Hbn Hin Hord)) as H.
      rewrite E1 in H. exact H.
Qed.

Lemma coalesce_shape_2 fuel st fl bl1 s s2 bl2' :
  heap_rep st (bl1 ++ (s, false) :: (s2, false) :: bl2') fl ->
  (forall j, 0 <= j < 10 -> ~ In (first_bp st + span bl1) (fl j)) ->
  covered [first_bp st + span bl1] st
          (bl1 ++ (s, false) :: (s2, false) :: bl2') fl ->
  naf true (bl1 ++ (s, true) :: (s2, false) :: bl2') ->
  last_alloc true bl1 = true ->
  coalesce_shape_at fuel st (bl1 ++ (s, false) :: (s2, false) :: bl2') fl
    (first_bp st + span bl1) s
    (first_bp st + span bl1)
    (bl1 ++ [(span [(s, false); (s2, false)], false)] ++ bl2')
    (span [(s, false); (s2, false)]).
Proof.
  intros. apply coalesce_shape_weaken. apply coalesce_ordered_2; assumption.
Qed.

Lemma coalesce_ordered_3 fuel st fl bl1 s1 s bl2 :
  heap_rep st (bl1 ++ (s1, false) :: (s, false) :: bl2) fl ->
  (forall j, 0 <= j < 10 -> ~ In (first_bp st + span bl1 + s1) (fl j)) ->
  covered [first_bp st + span bl1 + s1] st
          (bl1 ++ (s1, false) :: (s, false) :: bl2) fl ->
  naf true (bl1 ++ (s1, false) :: (s, true) :: bl2) ->
  hd_alloc bl2 = true ->
  coalesce_shape_ordered fuel st (bl1 ++ (s1, false) :: (s, false) :: bl2) fl
    (first_bp st + span bl1 + s1) s
    (first_bp st + span bl1)
    (bl1 ++ [(span [(s1, false); (s, false)], false)] ++ bl2)
    (span [(s1, false); (s, false)]).
Proof.
  intros Hrep Hunlisted Hcov Hnaf Hna.
  set (bl := bl1 ++ (s1, false) :: (s, false) :: bl2) in *.
  set (prev := first_bp st + span bl1) in *.
  set (bp := prev + s1) in *.
  assert (bl = (bl1 ++ [(s1, false)]) ++ (s, false) :: bl2) as Ebl
      by (unfold bl; rewrite <- app_assoc; reflexivity).
  assert (first_bp st + span (bl1 ++ [(s1, false)]) = bp) as Ebp
      by (rewrite span_app; cbn; unfold bp, prev; lia).
  pose proof Hrep as Hrep'. rewrite Ebl in Hrep'.
  pose proof (read_wf _ _ _ _ _ _ Hrep) as Wp. cbn [hd_size] in Wp. fold prev in Wp.
  pose proof (read_wf _ _ _ _ _ _ Hrep') as Wb. rewrite Ebp in Wb.
  assert (In (prev, (s1, false)) (layout (first_bp st) bl)) as Hbp
      by apply layout_mid.
  assert (In (bp, (s, false)) (layout (first_bp st) bl)) as Hbb.
  { rewrite Ebl, <- Ebp. apply layout_mid. }
  assert (In prev (fl (get_root_index s1))) as Hin.
  { destruct (Hcov _ _ Hbp) as [[E | []] | H]; [unfold bp in E; lia | exact H]. }
  destruct (remove_step st bl fl prev s1 Hrep Hbp Hin)
    as (fl1 & Hrep1 & Hg1 & Hpay1 & Hgone & Hsub & Hkeep & Hlen).
  set (st1 := remove_from_free_list st prev) in *.
  pose proof (first_bp_same _ _ Hg1) as E1.
  pose proof (read_size _ _ _ _ _ _ Hrep1) as Rs1. rewrite E1 in Rs1. fold prev in Rs1.
  pose proof (read_prev_alloc _ _ _ _ _ _ Hrep1) as Rp1. rewrite E1 in Rp1.
  fold prev in Rp1.
  assert (Forall (fun b : blk => snd b = false) [(s1, false); (s, false)]) as Hfree
      by (repeat constructor).
  assert (forall j q b, 0 <= j < 10 -> In q (fl1 j) ->
            ~ In (q, b) (layout (first_bp st1 + span bl1)
                                [(s1, false); (s, false)])) as Hout.
  { rewrite E1. fold prev. intros j q b Hj Hq [E | [E | []]]; inversion E; subst.
    + apply (Hgone j Hj). exact Hq.
    + apply (Hunlisted j Hj). apply (Hsub _ _ Hq). }
  destruct (merge_ready st1 fl1 bl1 [(s1, false); (s, false)] bl2
              (2 * Z.b2z (last_alloc true bl1)))
    as (Hready & Hpay2 & Hal & Hfoot).
  - exact Hrep1.
  - discriminate.
  - exact Hfree.
  - reflexivity.
  - exact Hout.
  - rewrite E1. fold prev. intros p sp Hp.
    destruct (Z.eq_dec p prev) as [-> | Hne1].
    { left. left.
      pose proof (layout_fun _ _ _ _ _ (rep_wf _ _ _ Hrep) Hp Hbp) as E.
      inversion E; subst. reflexivity. }
    destruct (Z.eq_dec p bp) as [-> | Hne2].
    { left. right. left.
      pose proof (layout_fun _ _ _ _ _ (rep_wf _ _ _ Hrep) Hp Hbb) as E.
      inversion E; subst. reflexivity. }
    right. destruct (Hcov _ _ Hp) as [[E | []] | H]; [congruence |].
    apply Hkeep; assumption.
  - apply naf_app in Hnaf. destruct Hnaf as [N1 N2]. cbn in N2.
    apply naf_app. split; [exact N1 |]. cbn.
    split; [tauto |]. apply naf_free_next; tauto.
  - rewrite E1 in Hready, Hal, Hpay2, Hfoot. fold prev in Hready, Hpay2, Hfoot.
    exists (write_hf st1 prev (span [(s1, false); (s, false)])
                     (2 * Z.b2z (last_alloc true bl1))), fl1.
    split; [| split; [| split; [| split; [| split; [| split; [| split; [| split; [| split]]]]]]]].
    + pose proof (read_size _ _ _ _ _ _ Hrep') as Rsz. rewrite Ebp in Rsz.
      pose proof (read_prev_alloc _ _ _ _ _ _ Hrep') as Rpa. rewrite Ebp in Rpa.
      rewrite last_alloc_app in Rpa. cbn in Rpa.
      pose proof (read_next _ _ _ _ _ _ Hrep') as Rn. rewrite Ebp in Rn.
      pose proof (read_next_alloc _ _ _ _ _ _ Hrep') as Rna. rewrite Ebp in Rna.
      assert (PREV_BLKP st bp = prev) as Rpv.
      { apply (read_prev st fl bl1 s1 _ bp Hrep). reflexivity. }
      rewrite coalesce_case3.
      * cbv zeta. rewrite !Rpv. fold st1. rewrite Rs1, Rp1, Rsz.
        replace (s + s1) with (span [(s1, false); (s, false)]) by (cbn; lia).
        reflexivity.
      * rewrite Rpa. reflexivity.
      * rewrite Rn, Rna, Hna. discriminate.
    + exact Hready.
    + cbn. lia.
    + eapply same_globals_trans; [exact Hg1 | apply write_hf_globals].
    + eapply payload_kept_same; [exact Hpay1 | exact Hg1 |]. exact Hpay2.
    + exact Hal.
    + exact Hlen.
    + intros E. cbn in E. lia.
    + intros _. exact Hfoot.
    + intros Hord.
      pose proof (merge_ordered st1 fl1 bl1 [(s1, false); (s, false)] bl2
                    (2 * Z.b2z (last_alloc true bl1)) Hrep1
                    ltac:(discriminate) Hfree eq_refl Hout
                    (remove_ordered st bl fl prev s1 Hrep Hbp Hin Hord)) as H.
      rewrite E1 in H. exact H.
Qed.

Lemma coalesce_shape_3 fuel st fl bl1 s1 s bl2 :
  heap_rep st (bl1 ++ (s1, false) :: (s, false) :: bl2) fl ->
  (forall j, 0 <= j < 10 -> ~ In (first_bp st + span bl1 + s1) (fl j)) ->
  covered [first_bp st + span bl1 + s1] st
          (bl1 ++ (s1, false) :: (s, false) :: bl2) fl ->
  naf true (bl1 ++ (s1, false) :: (s, true) :: bl2) ->
  hd_alloc bl2 = true ->
  coalesce_shape_at fuel st (bl1 ++ (s1, false) :: (s, false) :: bl2) fl
    (first_bp st + span bl1 + s1) s
    (first_bp st + span bl1)
    (bl1 ++ [(span [(s1, false); (s, false)], false)] ++ bl2)
    (span [(s1, false); (s, false)]).
Proof.
  intros. apply coalesce_shape_weaken. apply coalesce_ordered_3; assumption.
Qed.

Lemma coalesce_ordered_4 fuel st fl bl1 s1 s s2 bl2 :
  heap_rep st (bl1 ++ (s1, false) :: (s, false) :: (s2, false) :: bl2) fl ->
  (forall j, 0 <= j < 10 -> ~ In (first_bp st + span bl1 + s1) (fl j)) ->
  covered [first_bp st + span bl1 + s1] st
          (bl1 ++ (s1, false) :: (s, false) :: (s2, false) :: bl2) fl ->
  naf true (bl1 ++ (s1, false) :: (s, true) :: (s2, false) :: bl2) ->
  coalesce_shape_ordered fuel st
    (bl1 ++ (s1, false) :: (s, false) :: (s2, false) :: bl2) fl
    (first_bp st + span bl1 + s1) s
    (first_bp st + span bl1)
    (bl1 ++ [(span [(s1, false); (s, false); (s2, false)], false)] ++ bl2)
    (span [(s1, false); (s, false); (s2, false)]).
Proof.
  intros Hrep Hunlisted Hcov Hnaf.
  set (bl := bl1 ++ (s1, false) :: (s, false) :: (s2, false) :: bl2) in *.
  set (prev := first_bp st + span bl1) in *.
  set (bp := prev + s1) in *.
  set (next := bp + s).
  assert (bl = (bl1 ++ [(s1, false)]) ++ (s, false) :: (s2, false) :: bl2) as Ebl
      by (unfold bl; rewrite <- app_assoc; reflexivity).
  assert (first_bp st + span (bl1 ++ [(s1, false)]) = bp) as Ebp
      by (rewrite span_app; cbn; unfold bp, prev; lia).
  assert (bl = (bl1 ++ [(s1, false); (s, false)]) ++ (s2, false) :: bl2) as Ebl2
      by (unfold bl; rewrite <- app_assoc; reflexivity).
  assert (first_bp st + span (bl1 ++ [(s1, false); (s, false)]) = next) as Enx
      by (rewrite span_app; cbn; unfold next, bp, prev; lia).
  pose proof Hrep as Hrep'. rewrite Ebl in Hrep'.
  pose proof (read_wf _ _ _ _ _ _ Hrep) as Wp. cbn [hd_size] in Wp. fold prev in Wp.
  pose proof (read_wf _ _ _ _ _ _ Hrep') as Wb. rewrite Ebp in Wb.
  cbn [hd_size] in Wb.
  assert (In (prev, (s1, false)) (layout (first_bp st) bl)) as Hbp
      by apply layout_mid.
  assert (In (bp, (s, false)) (layout (first_bp st) bl)) as Hbb.
  { rewrite Ebl, <- Ebp. apply layout_mid. }
  assert (In (next, (s2, false)) (layout (first_bp st) bl)) as Hbn.
  { rewrite Ebl2, <- Enx. apply layout_mid. }
  assert (In prev (fl (get_root_index s1))) as Hin.
  { destruct (Hcov _ _ Hbp) as [[E | []] | H]; [unfold bp in E; lia | exact H]. }
  assert (In next (fl (get_root_index s2))) as Hinn.
  { destruct (Hcov _ _ Hbn) as [[E | []] | H]; [unfold next in E; lia | exact H]. }
  destruct (remove_step st bl fl prev s1 Hrep Hbp Hin)
    as (fl1 & Hrep1 & Hg1 & Hpay1 & Hgone1 & Hsub1 & Hkeep1 & Hlen1).
  set (st1 := remove_from_free_list st prev) in *.
  pose proof (first_bp_same _ _ Hg1) as E1.
  assert (In next (fl1 (get_root_index s2))) as Hinn1.
  { apply Hkeep1; [exact Hinn | unfold next, bp; lia]. }
  rewrite <- E1 in Hbn.
  destruct (remove_step st1 bl fl1 next s2 Hrep1 Hbn Hinn1)
    as (fl2 & Hrep2 & Hg2 & Hpay2 & Hgone2 & Hsub2 & Hkeep2 & Hlen2).
  set (st2 := remove_from_free_list st1 next) in *.
  rewrite E1 in Hbn.
  pose proof (first_bp_same _ _ Hg2) as E2. rewrite E1 in E2.
  pose proof (read_size _ _ _ _ _ _ Hrep2) as Rs1. rewrite E2 in Rs1. fold prev in Rs1.
  pose proof (read_prev_alloc _ _ _ _ _ _ Hrep2) as Rp1. rewrite E2 in Rp1.
  fold prev in Rp1.
  pose proof Hrep2 as Hrep2'. rewrite Ebl in Hrep2'.
  pose proof (read_next_size _ _ _ _ _ _ Hrep2') as Rs2. rewrite E2, Ebp in Rs2.
  cbn [hd_size] in Rs2. fold next in Rs2.
  assert (Forall (fun b : blk => snd b = false)
                 [(s1, false); (s, false); (s2, false)]) as Hfree
      by (repeat constructor).
  assert (forall j q b, 0 <= j < 10 -> In q (fl2 j) ->
            ~ In (q, b) (layout (first_bp st2 + span bl1)
                                [(s1, false); (s, false); (s2, false)])) as Hout.
  { rewrite E2. fold prev. intros j q b Hj Hq [E | [E | [E | []]]];
      inversion E; subst q b.
    + apply (Hgone1 j Hj). apply (Hsub2 _ _ Hq).
    + apply (Hunlisted j Hj). apply (Hsub1 _ _ (Hsub2 _ _ Hq)).
    + apply (Hgone2 j Hj). exact Hq. }
  destruct (merge_ready st2 fl2 bl1 [(s1, false); (s, false); (s2, false)] bl2
              (2 * Z.b2z (last_alloc true bl1)))
    as (Hready & Hpay3 & Hal & Hfoot).
  - exact Hrep2.
  - discriminate.
  - exact Hfree.
  - reflexivity.
  - exact Hout.
  - rewrite E2. fold prev. intros p sp Hp.
    destruct (Z.eq_dec p prev) as [-> | Hne1].
    { left. left.
      pose proof (layout_fun _ _ _ _ _ (rep_wf _ _ _ Hrep) Hp Hbp) as E.
      inversion E; subst sp. reflexivity. }
    destruct (Z.eq_dec p bp) as [-> | Hne2].
    { left. right. left.
      pose proof (layout_fun _ _ _ _ _ (rep_wf _ _ _ Hrep) Hp Hbb) as E.
      inversion E; subst sp. reflexivity. }
    destruct (Z.eq_dec p next) as [-> | Hne3].
    { left. right. right. left.
      pose proof (layout_fun _ _ _ _ _ (rep_wf _ _ _ Hrep) Hp Hbn) as E.
      inversion E; subst sp. reflexivity. }
    right. destruct (Hcov _ _ Hp) as [[E | []] | H]; [congruence |].
    apply Hkeep2; [apply Hkeep1 |]; assumption.
  - apply naf_app in Hnaf. destruct Hnaf as [N1 N2]. cbn in N2.
    apply naf_app. split; [exact N1 |]. cbn. tauto.
  - rewrite E2 in Hready, Hal, Hpay3, Hfoot. fold prev in Hready, Hpay3, Hfoot.
    exists (write_hf st2 prev (span [(s1, false); (s, false); (s2, false)])
                     (2 * Z.b2z (last_alloc true bl1))), fl2.
    split; [| split; [| split; [| split; [| split; [| split; [| split; [| split; [| split]]]]]]]].
    + pose proof (read_size _ _ _ _ _ _ Hrep') as Rsz. rewrite Ebp in Rsz.
      pose proof (read_prev_alloc _ _ _ _ _ _ Hrep') as Rpa. rewrite Ebp in Rpa.
      rewrite last_alloc_app in Rpa. cbn in Rpa.
      pose proof (read_next _ _ _ _ _ _ Hrep') as Rn. rewrite Ebp in Rn.
      fold next in Rn.
      pose proof (read_next_alloc _ _ _ _ _ _ Hrep') as Rna. rewrite Ebp in Rna.
      fold next in Rna.
      assert (PREV_BLKP st bp = prev) as Rpv.
      { apply (read_prev st fl bl1 s1 _ bp Hrep). reflexivity. }
      rewrite coalesce_case4.
      * cbv zeta. rewrite !Rpv, !Rn. fold st1. fold st2. rewrite Rs1, Rp1, Rs2, Rsz.
        replace (s + (s1 + s2))
          with (span [(s1, false); (s, false); (s2, false)]) by (cbn; lia).
        reflexivity.
      * rewrite Rpa. reflexivity.
      * rewrite Rn, Rna. reflexivity.
    + exact Hready.
    + cbn. lia.
    + eapply same_globals_trans; [exact Hg1 |].
      eapply same_globals_trans; [exact Hg2 | apply write_hf_globals].
    + eapply payload_kept_same; [exact Hpay1 | exact Hg1 |].
      eapply payload_kept_same; [exact Hpay2 | exact Hg2 |]. exact Hpay3.
    + exact Hal.
    + intros j. specialize (Hlen1 j). specialize (Hlen2 j). lia.
    + intros E. cbn in E. lia.
    + intros _. exact Hfoot.
    + intros Hord.
      pose proof Hbn as Hbn1. rewrite <- E1 in Hbn1.
      pose proof (merge_ordered st2 fl2 bl1 [(s1, false); (s, false); (s2, false)]
                    bl2 (2 * Z.b2z (last_alloc true bl1)) Hrep2
                    ltac:(discriminate) Hfree eq_refl Hout
                    (remove_ordered st1 bl fl1 next s2 Hrep1 Hbn1 Hinn1
                       (remove_ordered st bl fl prev s1 Hrep Hbp Hin Hord))) as H.
      rewrite E2 in H. exact H.
Qed.

Lemma coalesce_shape_4 fuel st fl bl1 s1 s s2 bl2 :
  heap_rep st (bl1 ++ (s1, false) :: (s, false) :: (s2, false) :: bl2) fl ->
  (forall j, 0 <= j < 10 -> ~ In (first_bp st + span bl1 + s1) (fl j)) ->
  covered [first_bp st + span bl1 + s1] st
          (bl1 ++ (s1, false) :: (s, false) :: (s2, false) :: bl2) fl ->
  naf true (bl1 ++ (s1, false) :: (s, true) :: (s2, false) :: bl2) ->
  coalesce_shape_at fuel st
    (bl1 ++ (s1, false) :: (s, false) :: (s2, false) :: bl2) fl
    (first_bp st + span bl1 + s1) s
    (first_bp st + span bl1)
    (bl1 ++ [(span [(s1, false); (s, false); (s2, false)], false)] ++ bl2)
    (span [(s1, false); (s, false); (s2, false)]).
Proof.
  intros. apply coalesce_shape_weaken. apply coalesce_ordered_4; assumption.
Qed.

(** ** [coalesce]: the invariant is restored *)

Lemma coalesce_shape_all fuel st fl bl1 s bl2 :
  heap_rep st (bl1 ++ (s, false) :: bl2) fl ->
  (forall j, 0 <= j < 10 -> ~ In (first_bp st + span bl1) (fl j)) ->
  covered [first_bp st + span bl1] st (bl1 ++ (s, false) :: bl2) fl ->
  naf true (bl1 ++ (s, true) :: bl2) ->
  coalesce_shape fuel st (bl1 ++ (s, false) :: bl2) fl
                 (first_bp st + span bl1) s.
Proof.
  intros Hrep Hun Hcov Hnaf.
  destruct (last_alloc true bl1) eqn:Hpa, (hd_alloc bl2) eqn:Hna.
  - eexists _, _, _. apply coalesce_shape_1; assumption.
  - destruct (hd_alloc_false_split _ Hna) as (s2 & bl2' & ->).
    eexists _, _, _. apply coalesce_shape_2; assumption.
  - destruct (last_alloc_false_split _ Hpa) as (bl1' & s1 & ->).
    assert (first_bp st + span (bl1' ++ [(s1, false)])
            = first_bp st + span bl1' + s1) as E
        by (rewrite span_app; cbn; lia).
    rewrite E in *. rewrite <- !app_assoc in *. cbn [app] in *.
    eexists _, _, _. apply coalesce_shape_3; assumption.
  - destruct (last_alloc_false_split _ Hpa) as (bl1' & s1 & ->).
    destruct (hd_alloc_false_split _ Hna) as (s2 & bl2' & ->).
    assert (first_bp st + span (bl1' ++ [(s1, false)])
            = first_bp st + span bl1' + s1) as E
        by (rewrite span_app; cbn; lia).
    rewrite E in *. rewrite <- !app_assoc in *. cbn [app] in *.
    eexists _, _, _. apply coalesce_shape_4; assumption.
Qed.

Lemma insert_sorted_length f size bp l :
  length (insert_sorted f size bp l) = Datatypes.S (length l).
Proof.
  induction l as [| q l IH]; cbn; [reflexivity |].
  destruct (f q >=? size); cbn; [reflexivity | rewrite IH; reflexivity].
Qed.

Lemma set_bucket_length (fl fl0 : Z -> list Z) i l j :
  (length (fl j) <= length (fl0 j))%nat ->
  (length l <= Datatypes.S (length (fl0 i)))%nat ->
  (length (set_bucket fl i l j) <= Datatypes.S (length (fl0 j)))%nat.
Proof.
  intros H1 H2. unfold set_bucket. destruct (Z.eqb_spec j i); subst; lia.
Qed.

Section CoalesceFinal.
Variables (fuel : nat) (st : state) (fl : Z -> list Z).
Variables (bl1 bl2 : list blk) (s : Z).
Let bl := bl1 ++ (s, false) :: bl2.
Let bp := first_bp st + span bl1.

Hypothesis Hrep : heap_rep st bl fl.
Hypothesis Hunlisted : forall j, 0 <= j < 10 -> ~ In bp (fl j).
Hypothesis Hcov : covered [bp] st bl fl.
Hypothesis Hnaf : naf true (bl1 ++ (s, true) :: bl2).

Lemma coalesce_sound r st' :
  coalesce fuel st bp = Some (r, st') ->
  exists bl' fl' s',
    heap_ok st' bl' fl' /\ same_globals st st' /\
    payload_kept st st' bl /\ same_allocated (first_bp st) bl bl' /\
    In (r, (s', false)) (layout (first_bp st') bl') /\ s <= s' /\
    (forall j, (length (fl' j) <= Datatypes.S (length (fl j)))%nat).
Proof.
  intros Hc.
  destruct (coalesce_shape_all fuel st fl bl1 s bl2 Hrep Hunlisted Hcov Hnaf)
    as (r' & bl' & s' & st2 & fl1 & Heq & Hready & Hs & Hg & Hpay & Hal & Hlen & _ & _).
  fold bp in Heq. rewrite Heq in Hc.
  destruct (insert_to_free_list fuel st2 r') as [st3 |] eqn:Hins;
    [| discriminate].
  cbn in Hc. injection Hc as <- <-.
  destruct (insert_heap_ok _ _ _ _ _ _ _ Hready Hins) as (Hok & Hpay' & Hg').
  destruct Hready as (Hrep2 & Hin & _).
  eexists bl', _, s'. split; [exact Hok |].
  split; [exact (same_globals_trans _ _ _ Hg Hg') |].
  split; [| split; [exact Hal | split; [| split; [exact Hs |]]]].
  - eapply payload_kept_trans; [exact Hpay | exact Hpay' |].
    intros p sz Hp. rewrite (first_bp_same _ _ Hg). apply Hal. exact Hp.
  - rewrite (first_bp_same _ _ Hg'). exact Hin.
  - intros j. apply set_bucket_length; [apply Hlen |].
    rewrite insert_sorted_length. specialize (Hlen (get_root_index s')). lia.
Qed.

Lemma coalesce_total :
  (forall j, 0 <= j < 10 -> (length (fl j) <= fuel)%nat) ->
  exists r st', coalesce fuel st bp = Some (r, st').
Proof.
  intros Hfuel.
  destruct (coalesce_shape_all fuel st fl bl1 s bl2 Hrep Hunlisted Hcov Hnaf)
    as (r' & bl' & s' & st2 & fl1 & Heq & Hready & Hs & Hg & Hpay & Hal & Hlen & _ & _).
  fold bp in Heq. rewrite Heq.
  destruct (insert_heap_total fuel st2 bl' fl1 r' s' Hready) as (st3 & Hins).
  - specialize (Hlen (get_root_index s')).
    specialize (Hfuel _ (get_root_index_range s')). lia.
  - rewrite Hins. cbn. eauto.
Qed.
End CoalesceFinal.

(** ** [free] *)

Lemma free_unfold fuel st bp :
  bp <> 0 ->
  free fuel st bp
  = ('(_, st') <- coalesce fuel (mark_free st bp) bp ;; Some st').
Proof.
  intros H. unfold free. destruct (Z.eqb_spec bp NULL) as [E | _]; [contradiction |].
  reflexivity.
Qed.

Lemma mark_free_globals st bp : same_globals st (mark_free st bp).
Proof. repeat split. Qed.

Section MarkFree.
Variables (st : state) (fl : Z -> list Z) (bl1 bl2 : list blk) (s : Z).
Let bl := bl1 ++ (s, true) :: bl2.
Let bl' := bl1 ++ (s, false) :: bl2.
Let bp := first_bp st + span bl1.
Let pa := last_alloc true bl1.
Let h := hdr_word s pa false.
Let h2 := hdr_word (hd_size bl2) false (hd_alloc bl2).

Hypothesis Hrep : heap_rep st bl fl.

Lemma mark_free_mem :
  mem (mark_free st bp)
  = store4 (store8 (store8 (store4 (store4 (mem st) (bp - 4) h)
                                   (bp + s - 8) h) bp 0) (bp + 8) 0)
           (bp + s - 4) h2.
Proof.
  pose proof (read_wf _ _ _ _ _ _ Hrep) as Wf. fold bp in Wf.
  destruct Wf as (S1 & S2 & S3 & S4 & B1 & B2 & B3 & B4 & B5 & B6 & B7).
  pose proof (read_size _ _ _ _ _ _ Hrep) as Rs. fold bp in Rs.
  pose proof (read_prev_alloc _ _ _ _ _ _ Hrep) as Rp. fold bp pa in Rp.
  pose proof (read_next _ _ _ _ _ _ Hrep) as Rn. fold bp in Rn.
  pose proof (read_next_hdr _ _ _ _ _ _ Hrep) as Rh. fold bp in Rh.
  assert (wrap32 h = h) as Wh by (apply hdr_wrap; lia).
  unfold mark_free. rewrite Rn, Rs, Rp.
  change (Z.lor s (2 * Z.b2z pa)) with (PACK s (2 * Z.b2z pa)).
  rewrite (pack_hdr s pa false) by (try assumption; cbn; lia). fold h.
  set (st1 := PUT st (HDRP bp) h).
  assert (GET st1 (HDRP bp) = h) as G1.
  { unfold st1, GET, PUT, HDRP, WSIZE. cbn [mem set_mem].
    rewrite load4_store4_same. exact Wh. }
  assert (FTRP st1 bp = bp + s - 8) as F1.
  { unfold FTRP, GET_SIZE, DSIZE. rewrite G1. unfold h.
    rewrite hdr_size by lia. reflexivity. }
  rewrite G1, F1.
  set (st4 := SET_NEXTP (SET_PREVP (PUT st1 (bp + s - 8) h) bp NULL) bp NULL).
  assert (GET st4 (HDRP (bp + s)) = hdr_word (hd_size bl2) true (hd_alloc bl2)) as G4.
  { rewrite <- Rh. unfold st4, st1, GET, SET_NEXTP, SET_PREVP, PUT_8B, PUT, HDRP, WSIZE.
    cbn [mem set_mem]. mem_simp. reflexivity. }
  unfold GET_SIZE, GET_ALLOC. rewrite G4.
  rewrite hdr_size, hdr_alloc by lia.
  change (Z.lor (hd_size bl2) (Z.b2z (hd_alloc bl2)))
    with (PACK (hd_size bl2) (Z.b2z (hd_alloc bl2))).
  rewrite (pack_hdr (hd_size bl2) false (hd_alloc bl2)) by (try assumption; cbn; lia).
  fold h2. unfold st4, st1, SET_NEXTP, SET_PREVP, PUT_8B, PUT, HDRP, WSIZE, NULL.
  cbn [mem set_mem]. reflexivity.
Qed.

Lemma mark_free_frame x :
  x < bp - 4 \/ bp + s <= x ->
  load1 (mem (mark_free st bp)) x = load1 (mem st) x.
Proof.
  intros Hx. pose proof (read_wf _ _ _ _ _ _ Hrep) as Wf. fold bp in Wf.
  rewrite mark_free_mem. mem_simp. reflexivity.
Qed.

Lemma mark_free_unlisted j : 0 <= j < 10 -> ~ In bp (fl j).
Proof.
  intros Hj Hin. destruct (rep_member _ _ _ Hrep j bp Hj Hin) as (s' & Hb & _).
  pose proof (layout_fun _ _ _ _ _ (rep_wf _ _ _ Hrep) Hb
                (layout_mid (first_bp st) bl1 (s, true) bl2)) as E.
  discriminate.
Qed.

Lemma mark_free_rep : heap_rep (mark_free st bp) bl' fl.
Proof.
  pose proof (read_wf _ _ _ _ _ _ Hrep) as Wf. fold bp in Wf.
  destruct Wf as (S1 & S2 & S3 & S4 & B1 & B2 & B3 & B4 & B5 & B6 & B7).
  assert (wrap32 h = h) as Wh by (apply hdr_wrap; lia).
  assert (wrap32 h2 = h2) as Wh2 by (apply hdr_wrap; lia).
  apply (rep_replace st (mark_free st bp) fl bl1 [(s, true)] [(s, false)] bl2).
  - exact Hrep.
  - apply mark_free_globals.
  - reflexivity.
  - cbn [span]. rewrite Z.add_0_r. apply mark_free_frame.
  - fold bp pa. rewrite mark_free_mem. cbn.
    split; [exact S1 |]. split; [exact S2 |]. split; [| split; [| exact I]].
    + mem_simp. exact Wh.
    + intros _. mem_simp. rewrite Wh. apply hdr_size; lia.
  - fold bp pa. cbn [span last_alloc]. rewrite Z.add_0_r.
    rewrite mark_free_mem. mem_simp. exact Wh2.
  - fold bp. intros j q b Hj Hq [E | []]. inversion E; subst q b.
    apply (mark_free_unlisted j Hj Hq).
Qed.

Lemma mark_free_payload p sz x :
  In (p, (sz, true)) (layout (first_bp st) bl) -> p <> bp ->
  p <= x < p + sz - 4 ->
  load1 (mem (mark_free st bp)) x = load1 (mem st) x.
Proof.
  intros Hp Hne Hx.
  eapply (replace_payload st (mark_free st bp) fl bl1 [(s, true)] bl2 Hrep);
    try eassumption.
  - cbn [span]. rewrite Z.add_0_r. apply mark_free_frame.
  - fold bp. intros [E | []]. inversion E. congruence.
Qed.

Lemma mark_free_covered :
  covered [] st bl fl -> covered [bp] (mark_free st bp) bl' fl.
Proof.
  intros Hcov p sp Hp.
  change (first_bp (mark_free st bp)) with (first_bp st) in Hp.
  destruct (layout_replace_in _ bl1 [(s, false)] [(s, true)] bl2 _ eq_refl Hp)
    as [Hm | Ho].
  - fold bp in Hm. destruct Hm as [E | []]. inversion E. left. left. reflexivity.
  - right. destruct (Hcov _ _ Ho) as [[] | H]. exact H.
Qed.
End MarkFree.

Lemma free_sound fuel st bl fl bp s st' :
  heap_ok st bl fl -> In (bp, (s, true)) (layout (first_bp st) bl) ->
  free fuel st bp = Some st' ->
  exists bl' fl',
    heap_ok st' bl' fl' /\ same_globals st st' /\
    (forall p sz, In (p, (sz, true)) (layout (first_bp st) bl) -> p <> bp ->
        In (p, (sz, true)) (layout (first_bp st') bl') /\
        forall x, p <= x < p + sz - 4 ->
                  load1 (mem st') x = load1 (mem st) x) /\
    (forall p sz, In (p, (sz, true)) (layout (first_bp st') bl') ->
        In (p, (sz, true)) (layout (first_bp st) bl) /\ p <> bp) /\
    (forall j, (length (fl' j) <= Datatypes.S (length (fl j)))%nat).
Proof.
  intros (Hrep & Hcov & Hnaf) Hb Hfree.
  destruct (layout_split _ _ _ _ Hb) as (bl1 & bl2 & -> & ->).
  pose proof (read_wf _ _ _ _ _ _ Hrep) as Wf.
  rewrite free_unfold in Hfree by lia.
  set (bp := first_bp st + span bl1) in *.
  destruct (coalesce fuel (mark_free st bp) bp) as [[r st3] |] eqn:Hc;
    [| discriminate].
  cbn in Hfree. injection Hfree as <-.
  pose proof (mark_free_rep st fl bl1 bl2 s Hrep) as Hrep1. fold bp in Hrep1.
  destruct (coalesce_sound fuel (mark_free st bp) fl bl1 bl2 s Hrep1) with (r := r) (st' := st3)
    as (bl' & fl' & s' & Hok & Hg & Hpay & Hal & Hin & Hs & Hlen).
  - intros j Hj. apply (mark_free_unlisted st fl bl1 bl2 s Hrep j Hj).
  - apply (mark_free_covered st fl bl1 bl2 s Hcov).
  - exact Hnaf.
  - exact Hc.
  - pose proof (first_bp_same _ _ Hg) as E3.
    change (first_bp (mark_free st bp)) with (first_bp st) in *.
    exists bl', fl'. split; [exact Hok |]. split; [exact Hg |].
    split; [| split; [| exact Hlen]].
    + intros p sz Hp Hne.
      assert (In (p, (sz, true)) (layout (first_bp st) (bl1 ++ (s, false) :: bl2))) as Hp1.
      { destruct (layout_replace_in _ bl1 [(s, true)] [(s, false)] bl2 _ eq_refl Hp)
          as [Hm | Ho]; [| exact Ho].
        destruct Hm as [E | []]. inversion E as [[E1 E2]].
        exfalso. apply Hne. rewrite <- E1. reflexivity. }
      split.
      * rewrite E3. apply Hal. exact Hp1.
      * intros x Hx. rewrite (Hpay p sz x Hp1 Hx).
        apply (mark_free_payload st fl bl1 bl2 s Hrep p sz x Hp Hne Hx).
    + intros p sz Hp. rewrite E3 in Hp. apply Hal in Hp.
      assert (p <> bp) as Hne.
      { intros ->.
        pose proof (layout_fun _ _ _ _ _ (rep_wf _ _ _ Hrep1) Hp
                      (layout_mid (first_bp st) bl1 (s, false) bl2)) as E.
        discriminate. }
      split; [| exact Hne].
      destruct (layout_replace_in _ bl1 [(s, false)] [(s, true)] bl2 _ eq_refl Hp)
        as [Hm | Ho]; [| exact Ho].
      destruct Hm as [E | []]. inversion E.
Qed.

Lemma free_total fuel st bl fl bp s :
  heap_ok st bl fl -> In (bp, (s, true)) (layout (first_bp st) bl) ->
  (forall j, 0 <= j < 10 -> (length (fl j) <= fuel)%nat) ->
  exists st', free fuel st bp = Some st'.
Proof.
  intros (Hrep & Hcov & Hnaf) Hb Hfuel.
  destruct (layout_split _ _ _ _ Hb) as (bl1 & bl2 & -> & ->).
  pose proof (read_wf _ _ _ _ _ _ Hrep) as Wf.
  rewrite free_unfold by lia.
  set (bp := first_bp st + span bl1) in *.
  pose proof (mark_free_rep st fl bl1 bl2 s Hrep) as Hrep1. fold bp in Hrep1.
  destruct (coalesce_total fuel (mark_free st bp) fl bl1 bl2 s Hrep1) as (r & st3 & Hc).
  - intros j Hj. apply (mark_free_unlisted st fl bl1 bl2 s Hrep j Hj).
  - apply (mark_free_covered st fl bl1 bl2 s Hcov).
  - exact Hnaf.
  - exact Hfuel.
  - change (first_bp (mark_free st bp) + span bl1) with bp in Hc.
    rewrite Hc. cbn. eauto.
Qed.

(** ** [place] *)

Lemma lor_pa_1 pa : Z.lor (2 * Z.b2z pa) 1 = 2 * Z.b2z pa + 1.
Proof. destruct pa; reflexivity. Qed.

Lemma lor_hdr_2 s al :
  s mod 8 = 0 -> Z.lor (hdr_word s false al) 2 = hdr_word s true al.
Proof.
  intros Hs. unfold hdr_word. cbn [Z.b2z].
  replace (s + 2 * 0 + Z.b2z al) with (Z.lor s (Z.b2z al)).
  2:{ rewrite lor_flags; [lia | assumption | destruct al; cbn; lia]. }
  rewrite <- Z.lor_assoc.
  replace (Z.lor (Z.b2z al) 2) with (2 + Z.b2z al) by (destruct al; reflexivity).
  rewrite lor_flags; [lia | assumption | destruct al; cbn; lia].
Qed.

Lemma place_unfold fuel st bp asize :
  place fuel st bp asize
  = (let csize := GET_SIZE st (HDRP bp) in
     let st1 := remove_from_free_list st bp in
     let rsize := wrap64 (csize - asize) in
     if rsize >=? MINBLOCKSIZE then
       insert_to_free_list fuel (split_block st1 bp asize rsize)
         (NEXT_BLKP (PUT st1 (HDRP bp)
                      (PACK asize (Z.lor (GET_PREV_ALLOC st1 (HDRP bp)) 1))) bp)
     else
       let st3 := take_block st1 bp csize in
       let next_bp :=
         NEXT_BLKP (PUT st1 (HDRP bp)
                      (PACK csize (Z.lor (GET_PREV_ALLOC st1 (HDRP bp)) 1))) bp in
       if GET_ALLOC st3 (HDRP next_bp) =? 0 then
         Some (PUT st3 (FTRP st3 next_bp) (GET st3 (HDRP next_bp)))
       else Some st3).
Proof. reflexivity. Qed.

Lemma split_block_globals st bp asize rsize :
  same_globals st (split_block st bp asize rsize).
Proof. repeat split. Qed.

Lemma take_block_globals st bp csize : same_globals st (take_block st bp csize).
Proof. repeat split. Qed.

Section PlaceStores.
Variables (st : state) (fl : Z -> list Z) (bl1 bl2 : list blk) (s : Z).
Let bl := bl1 ++ (s, false) :: bl2.
Let bp := first_bp st + span bl1.
Let pa := last_alloc true bl1.

Hypothesis Hrep : heap_rep st bl fl.
Hypothesis Hun : forall j, 0 <= j < 10 -> ~ In bp (fl j).

Section Split.
Variables (asize : Z).
Let rsize := s - asize.
Let ha := hdr_word asize pa true.
Let hr := hdr_word rsize true false.
Hypothesis Ha : 24 <= asize /\ asize mod 8 = 0.
Hypothesis Hr : 24 <= rsize.

Lemma split_next :
  NEXT_BLKP (PUT st (HDRP bp)
               (PACK asize (Z.lor (GET_PREV_ALLOC st (HDRP bp)) 1))) bp
  = bp + asize.
Proof.
  pose proof (read_wf _ _ _ _ _ _ Hrep) as Wf. fold bp in Wf.
  pose proof (read_prev_alloc _ _ _ _ _ _ Hrep) as Rp. fold bp pa in Rp.
  rewrite Rp, lor_pa_1.
  rewrite (pack_hdr asize pa true) by (try tauto; cbn; lia).
  unfold NEXT_BLKP, GET_SIZE, GET, PUT, HDRP, WSIZE. cbn [mem set_mem].
  rewrite load4_store4_same, hdr_wrap, hdr_size by (unfold rsize in *; lia).
  reflexivity.
Qed.

Lemma split_mem :
  mem (split_block st bp asize rsize)
  = store8 (store8 (store4 (store4 (store4 (mem st) (bp - 4) ha)
                                   (bp + asize - 4) hr)
                           (bp + s - 8) hr) (bp + asize) 0)
           (bp + asize + 8) 0.
Proof.
  pose proof (read_wf _ _ _ _ _ _ Hrep) as Wf. fold bp in Wf.
  destruct Wf as (S1 & S2 & S3 & S4 & B1 & B2 & B3 & B4 & B5 & B6 & B7).
  destruct Ha as [A1 A2].
  assert (rsize mod 8 = 0) as R2 by (unfold rsize; zdm).
  pose proof split_next as Hn.
  pose proof (read_prev_alloc _ _ _ _ _ _ Hrep) as Rp. fold bp pa in Rp.
  unfold split_block. rewrite Hn. rewrite Rp, lor_pa_1.
  rewrite (pack_hdr asize pa true) by (try assumption; cbn; lia). fold ha.
  rewrite (pack_hdr rsize true false) by (try assumption; cbn; lia). fold hr.
  set (st3 := PUT (PUT st (HDRP bp) ha) (HDRP (bp + asize)) hr).
  assert (FTRP st3 (bp + asize) = bp + s - 8) as F.
  { unfold FTRP, GET_SIZE, GET, st3, PUT, HDRP, WSIZE, DSIZE.
    cbn [mem set_mem]. rewrite load4_store4_same.
    unfold hr. rewrite hdr_wrap, hdr_size by (unfold rsize in *; lia).
    unfold rsize. lia. }
  rewrite F. unfold st3, SET_NEXTP, SET_PREVP, PUT_8B, PUT, HDRP, WSIZE, NULL.
  cbn [mem set_mem]. reflexivity.
Qed.

Lemma split_frame x :
  x < bp - 4 \/ bp + s <= x ->
  load1 (mem (split_block st bp asize rsize)) x = load1 (mem st) x.
Proof.
  intros Hx. pose proof (read_wf _ _ _ _ _ _ Hrep) as Wf. fold bp in Wf.
  rewrite split_mem. unfold rsize in *. mem_simp. reflexivity.
Qed.

Lemma split_rep :
  heap_rep (split_block st bp asize rsize)
           (bl1 ++ [(asize, true); (rsize, false)] ++ bl2) fl.
Proof.
  pose proof (read_wf _ _ _ _ _ _ Hrep) as Wf. fold bp in Wf.
  destruct Wf as (S1 & S2 & S3 & S4 & B1 & B2 & B3 & B4 & B5 & B6 & B7).
  destruct Ha as [A1 A2].
  assert (rsize mod 8 = 0) as R2 by (unfold rsize; zdm).
  assert (wrap32 ha = ha) as Wa by (apply hdr_wrap; unfold rsize in *; lia).
  assert (wrap32 hr = hr) as Wr by (apply hdr_wrap; unfold rsize in *; lia).
  apply (rep_replace st (split_block st bp asize rsize) fl bl1 [(s, false)]
                     [(asize, true); (rsize, false)] bl2).
  - exact Hrep.
  - apply split_block_globals.
  - cbn. unfold rsize. lia.
  - cbn [span]. rewrite Z.add_0_r. apply split_frame.
  - fold bp pa. rewrite split_mem. cbn.
    split; [exact A1 |]. split; [exact A2 |]. split; [| split; [discriminate |]].
    + unfold rsize in *. mem_simp. exact Wa.
    + split; [exact Hr |]. split; [exact R2 |]. split; [| split; [| exact I]].
      * unfold rsize in *. mem_simp. exact Wr.
      * intros _. replace (bp + asize + rsize - 8) with (bp + s - 8)
          by (unfold rsize; lia).
        unfold rsize in *. mem_simp. rewrite Wr. apply hdr_size; lia.
  - fold bp pa. cbn [span last_alloc]. rewrite Z.add_0_r.
    rewrite split_mem. unfold rsize in *. mem_simp.
    pose proof (read_next_hdr _ _ _ _ _ _ Hrep) as Rh. fold bp in Rh.
    exact Rh.
  - fold bp. intros j q b Hj Hq [E | []]. inversion E; subst q b.
    apply (Hun j Hj Hq).
Qed.

Lemma split_payload p sz x :
  In (p, (sz, true)) (layout (first_bp st) bl) -> p <= x < p + sz - 4 ->
  load1 (mem (split_block st bp asize rsize)) x = load1 (mem st) x.
Proof.
  intros Hp Hx.
  eapply (replace_payload st _ fl bl1 [(s, false)] bl2 Hrep); try eassumption.
  - cbn [span]. rewrite Z.add_0_r. apply split_frame.
  - fold bp. intros [E | []]. inversion E.
Qed.
End Split.

Section Take.
Let h := hdr_word s pa true.
Let h2 := hdr_word (hd_size bl2) true (hd_alloc bl2).

Lemma take_next :
  NEXT_BLKP (PUT st (HDRP bp)
               (PACK s (Z.lor (GET_PREV_ALLOC st (HDRP bp)) 1))) bp
  = bp + s.
Proof.
  pose proof (read_wf _ _ _ _ _ _ Hrep) as Wf. fold bp in Wf.
  pose proof (read_prev_alloc _ _ _ _ _ _ Hrep) as Rp. fold bp pa in Rp.
  rewrite Rp, lor_pa_1.
  rewrite (pack_hdr s pa true) by (try tauto; cbn; lia).
  unfold NEXT_BLKP, GET_SIZE, GET, PUT, HDRP, WSIZE. cbn [mem set_mem].
  rewrite load4_store4_same, hdr_wrap, hdr_size by lia.
  reflexivity.
Qed.

Lemma take_mem :
  mem (take_block st bp s)
  = store4 (store4 (mem st) (bp - 4) h) (bp + s - 4) h2.
Proof.
  pose proof (read_wf _ _ _ _ _ _ Hrep) as Wf. fold bp in Wf.
  destruct Wf as (S1 & S2 & S3 & S4 & B1 & B2 & B3 & B4 & B5 & B6 & B7).
  pose proof take_next as Hn.
  pose proof (read_prev_alloc _ _ _ _ _ _ Hrep) as Rp. fold bp pa in Rp.
  pose proof (read_next_hdr _ _ _ _ _ _ Hrep) as Rh. fold bp in Rh.
  unfold take_block. rewrite Hn. rewrite Rp, lor_pa_1.
  rewrite (pack_hdr s pa true) by (try assumption; cbn; lia).
  fold h.
  assert (GET (PUT st (HDRP bp) h) (HDRP (bp + s))
          = hdr_word (hd_size bl2) false (hd_alloc bl2)) as G.
  { rewrite <- Rh. unfold GET, PUT, HDRP, WSIZE. cbn [mem set_mem].
    mem_simp. reflexivity. }
  rewrite G, lor_hdr_2 by assumption. fold h2.
  unfold PUT, HDRP, WSIZE. cbn [mem set_mem]. reflexivity.
Qed.

Lemma take_frame x :
  x < bp - 4 \/ bp + s <= x ->
  load1 (mem (take_block st bp s)) x = load1 (mem st) x.
Proof.
  intros Hx. pose proof (read_wf _ _ _ _ _ _ Hrep) as Wf. fold bp in Wf.
  rewrite take_mem. mem_simp. reflexivity.
Qed.

Lemma take_rep : heap_rep (take_block st bp s) (bl1 ++ [(s, true)] ++ bl2) fl.
Proof.
  pose proof (read_wf _ _ _ _ _ _ Hrep) as Wf. fold bp in Wf.
  destruct Wf as (S1 & S2 & S3 & S4 & B1 & B2 & B3 & B4 & B5 & B6 & B7).
  assert (wrap32 h = h) as Wh by (apply hdr_wrap; lia).
  assert (wrap32 h2 = h2) as Wh2 by (apply hdr_wrap; lia).
  apply (rep_replace st (take_block st bp s) fl bl1 [(s, false)]
                     [(s, true)] bl2).
  - exact Hrep.
  - apply take_block_globals.
  - reflexivity.
  - cbn [span]. rewrite Z.add_0_r. apply take_frame.
  - fold bp pa. rewrite take_mem. cbn.
    split; [exact S1 |]. split; [exact S2 |]. split; [| split; [discriminate | exact I]].
    mem_simp. exact Wh.
  - fold bp pa. cbn [span last_alloc]. rewrite Z.add_0_r.
    rewrite take_mem. mem_simp. exact Wh2.
  - fold bp. intros j q b Hj Hq [E | []]. inversion E; subst q b.
    apply (Hun j Hj Hq).
Qed.

Lemma take_payload p sz x :
  In (p, (sz, true)) (layout (first_bp st) bl) -> p <= x < p + sz - 4 ->
  load1 (mem (take_block st bp s)) x = load1 (mem st) x.
Proof.
  intros Hp Hx.
  eapply (replace_payload st _ fl bl1 [(s, false)] bl2 Hrep); try eassumption.
  - cbn [span]. rewrite Z.add_0_r. apply take_frame.
  - fold bp. intros [E | []]. inversion E.
Qed.

Lemma take_next_alloc :
  GET_ALLOC (take_block st bp s) (HDRP (bp + s)) = Z.b2z (hd_alloc bl2).
Proof.
  pose proof (read_wf _ _ _ _ _ _ Hrep) as Wf. fold bp in Wf.
  destruct Wf as (S1 & S2 & S3 & S4 & B1 & B2 & B3 & B4 & B5 & B6 & B7).
  unfold GET_ALLOC, GET, HDRP, WSIZE. rewrite take_mem.
  rewrite load4_store4_same. unfold h2. rewrite hdr_wrap by lia.
  apply hdr_alloc. assumption.
Qed.
End Take.
End PlaceStores.

Lemma naf_false_hd bl : naf false bl -> hd_alloc bl = true.
Proof. destruct bl as [| [s al] bl]; cbn; [reflexivity |]. intros [[H | H] _]; congruence. Qed.

Section Place.
Variables (fuel : nat) (st : state) (fl : Z -> list Z).
Variables (bl1 bl2 : list blk) (s asize : Z).
Let bl := bl1 ++ (s, false) :: bl2.
Let bp := first_bp st + span bl1.

Hypothesis Hok : heap_ok st bl fl.
Hypothesis Ha : 24 <= asize /\ asize mod 8 = 0.
Hypothesis Hfit : asize <= s.

(** [place] is the unlinking of [bp], the header stores, and for a split
    the insertion of the remainder. *)
Lemma place_shape :
  exists fl1,
    let st1 := remove_from_free_list st bp in
    heap_rep st1 bl fl1 /\ same_globals st st1 /\ payload_kept st st1 bl /\
    (forall j, 0 <= j < 10 -> ~ In bp (fl1 j)) /\
    (forall j p, In p (fl1 j) -> In p (fl j)) /\
    (forall j p, In p (fl j) -> p <> bp -> In p (fl1 j)) /\
    (forall j, (length (fl1 j) <= length (fl j))%nat) /\
    last_alloc true bl1 = true /\ hd_alloc bl2 = true /\
    place fuel st bp asize
    = (if s - asize >=? 24
       then insert_to_free_list fuel (split_block st1 bp asize (s - asize))
                                (bp + asize)
       else Some (take_block st1 bp s)).
Proof.
  destruct Hok as (Hrep & Hcov & Hnaf).
  pose proof (read_wf _ _ _ _ _ _ Hrep) as Wf. fold bp in Wf.
  destruct Wf as (S1 & S2 & S3 & S4 & B1 & B2 & B3 & B4 & B5 & B6 & B7).
  assert (In (bp, (s, false)) (layout (first_bp st) bl)) as Hb by apply layout_mid.
  assert (In bp (fl (get_root_index s))) as Hin.
  { destruct (Hcov _ _ Hb) as [[] | H]. exact H. }
  apply naf_app in Hnaf. destruct Hnaf as [N1 N2]. cbn in N2.
  destruct N2 as [[Hpa | ?] N2]; [| discriminate].
  pose proof (naf_false_hd _ N2) as Hna.
  destruct (remove_step st bl fl bp s Hrep Hb Hin)
    as (fl1 & Hrep1 & Hg1 & Hpay1 & Hgone & Hsub & Hkeep & Hlen).
  exists fl1. cbv zeta. set (st1 := remove_from_free_list st bp) in *.
  pose proof (first_bp_same _ _ Hg1) as E1.
  do 9 (split; [assumption |]).
  rewrite place_unfold. cbv zeta. fold st1.
  pose proof (read_size _ _ _ _ _ _ Hrep) as Rs. fold bp in Rs. rewrite Rs.
  rewrite (wrap64_small (s - asize)) by lia.
  unfold MINBLOCKSIZE, DSIZE. change (3 * 8) with 24.
  destruct (Z.geb_spec (s - asize) 24) as [Hr | Hr].
  - pose proof (split_next st1 fl1 bl1 bl2 s Hrep1 asize Ha) as Hn.
    rewrite E1 in Hn. fold bp in Hn. rewrite Hn by lia. reflexivity.
  - pose proof (take_next st1 fl1 bl1 bl2 s Hrep1) as Hn.
    rewrite E1 in Hn. fold bp in Hn. rewrite Hn.
    pose proof (take_next_alloc st1 fl1 bl1 bl2 s Hrep1) as Hal.
    rewrite E1 in Hal. fold bp in Hal. rewrite Hal, Hna. reflexivity.
Qed.
End Place.

Section PlaceSound.
Variables (fuel : nat) (st : state) (fl : Z -> list Z).
Variables (bl1 bl2 : list blk) (s asize : Z).
Let bl := bl1 ++ (s, false) :: bl2.
Let bp := first_bp st + span bl1.

Hypothesis Hok : heap_ok st bl fl.
Hypothesis Ha : 24 <= asize /\ asize mod 8 = 0.
Hypothesis Hfit : asize <= s.

Lemma place_sound_split fl1 st' :
  let st1 := remove_from_free_list st bp in
  heap_rep st1 bl fl1 -> same_globals st st1 -> payload_kept st st1 bl ->
  (forall j, 0 <= j < 10 -> ~ In bp (fl1 j)) ->
  (forall j p, In p (fl1 j) -> In p (fl j)) ->
  (forall j p, In p (fl j) -> p <> bp -> In p (fl1 j)) ->
  (forall j, (length (fl1 j) <= length (fl j))%nat) ->
  hd_alloc bl2 = true -> 24 <= s - asize ->
  insert_to_free_list fuel (split_block st1 bp asize (s - asize)) (bp + asize)
  = Some st' ->
  place_post st bl fl bp asize st'.
Proof.
  intros st1 Hrep1 Hg1 Hpay1 Hgone Hsub Hkeep Hlen Hna Hr Hins.
  destruct Hok as (Hrep & Hcov & Hnaf).
  pose proof (read_wf _ _ _ _ _ _ Hrep) as Wf. fold bp in Wf.
  destruct Wf as (S1 & S2 & S3 & S4 & B1 & B2 & B3 & B4 & B5 & B6 & B7).
  pose proof (first_bp_same _ _ Hg1) as E1.
  set (rsize := s - asize) in *.
  set (bl' := bl1 ++ [(asize, true); (rsize, false)] ++ bl2).
  set (st6 := split_block st1 bp asize rsize) in *.
  assert (forall j, 0 <= j < 10 -> ~ In (first_bp st1 + span bl1) (fl1 j)) as Hun1.
  { rewrite E1. exact Hgone. }
  pose proof (split_rep st1 fl1 bl1 bl2 s Hrep1 Hun1 asize Ha Hr) as Hrep6.
  rewrite E1 in Hrep6. fold bp rsize st6 bl' in Hrep6.
  assert (first_bp st6 = first_bp st) as E6 by exact E1.
  assert (span [(asize, true); (rsize, false)] = span [(s, false)]) as Hspan
      by (cbn; unfold rsize; lia).
  assert (In (bp + asize, (rsize, false)) (layout (first_bp st) bl')) as Hbr.
  { pose proof (layout_mid (first_bp st) (bl1 ++ [(asize, true)])
                  (rsize, false) bl2) as H.
    rewrite <- app_assoc, span_app in H. cbn in H.
    replace (first_bp st + (span bl1 + (asize + 0))) with (bp + asize) in H
      by (unfold bp; lia). exact H. }
  assert (In (bp, (asize, true)) (layout (first_bp st) bl')) as Hba
      by apply layout_mid.
  assert (In (bp, (s, false)) (layout (first_bp st) bl)) as Hb by apply layout_mid.
  assert (insert_ready st6 bl' fl1 (bp + asize) rsize) as Hready.
  { split; [exact Hrep6 |]. split; [rewrite E6; exact Hbr |].
    split; [| split].
    - intros Hq. pose proof (get_root_index_range rsize) as Hj.
      destruct (rep_member _ _ _ Hrep1 _ _ Hj Hq) as (sq & Hbq & _ & Hsq & _).
      rewrite E1 in Hbq. destruct Ha as [A1 A2].
      destruct (layout_sep _ _ _ _ _ _ (rep_wf _ _ _ Hrep) Hbq Hb)
        as [[E _] | Hd]; [| cbn [fst] in Hd]; unfold rsize in *; lia.
    - intros p sp Hp. rewrite E6 in Hp.
      destruct (layout_replace_in _ bl1 [(asize, true); (rsize, false)]
                  [(s, false)] bl2 _ (eq_sym Hspan) Hp) as [Hm | Ho].
      + fold bp in Hm. cbn in Hm. destruct Hm as [E | [E | []]];
          inversion E. left. left. reflexivity.
      + right. destruct (Hcov _ _ Ho) as [[] | H].
        apply Hkeep; [exact H |]. intros ->.
        pose proof (layout_fun _ _ _ _ _ (rep_wf _ _ _ Hrep6) Hp Hba) as E.
        discriminate.
    - apply naf_app in Hnaf. destruct Hnaf as [N1 N2]. cbn in N2.
      apply naf_app. split; [exact N1 |]. cbn. tauto. }
  destruct (insert_heap_ok _ _ _ _ _ _ _ Hready Hins) as (Hok' & Hpay' & Hg').
  pose proof (first_bp_same _ _ Hg') as E'. rewrite E6 in E'.
  assert (forall p sz, In (p, (sz, true)) (layout (first_bp st) bl) ->
                       In (p, (sz, true)) (layout (first_bp st) bl')) as Hfwd.
  { intros p sz Hp.
    destruct (layout_replace_in _ bl1 [(s, false)]
                [(asize, true); (rsize, false)] bl2 _ Hspan Hp) as [Hm | Ho];
      [| exact Ho].
    destruct Hm as [E | []]. inversion E. }
  eexists bl', _, asize. split; [exact Hok' |].
  split; [| split; [| split; [| split; [| split; [| split]]]]].
  - eapply same_globals_trans; [exact Hg1 |].
    eapply same_globals_trans; [apply split_block_globals | exact Hg'].
  - eapply payload_kept_same; [exact Hpay1 | exact Hg1 |].
    eapply payload_kept_trans; [| exact Hpay' |].
    + intros p sz x Hp Hx. rewrite E1 in Hp.
      pose proof (split_payload st1 fl1 bl1 bl2 s Hrep1 asize Ha Hr p sz x) as H.
      rewrite E1 in H. apply H; assumption.
    + intros p sz Hp. rewrite E6. rewrite E1 in Hp. apply Hfwd. exact Hp.
  - rewrite E'. exact Hba.
  - lia.
  - intros p sz Hp. rewrite E'. apply Hfwd. exact Hp.
  - intros p sz Hp. rewrite E' in Hp.
    destruct (layout_replace_in _ bl1 [(asize, true); (rsize, false)]
                [(s, false)] bl2 _ (eq_sym Hspan) Hp) as [Hm | Ho].
    + fold bp in Hm. cbn in Hm. destruct Hm as [E | [E | []]]; inversion E.
      left. reflexivity.
    + right. exact Ho.
  - intros j. apply set_bucket_length; [apply Hlen |].
    rewrite insert_sorted_length. specialize (Hlen (get_root_index rsize)). lia.
Qed.

Lemma place_sound_take fl1 :
  let st1 := remove_from_free_list st bp in
  heap_rep st1 bl fl1 -> same_globals st st1 -> payload_kept st st1 bl ->
  (forall j, 0 <= j < 10 -> ~ In bp (fl1 j)) ->
  (forall j p, In p (fl j) -> p <> bp -> In p (fl1 j)) ->
  (forall j, (length (fl1 j) <= length (fl j))%nat) ->
  last_alloc true bl1 = true ->
  place_post st bl fl bp asize (take_block st1 bp s).
Proof.
  intros st1 Hrep1 Hg1 Hpay1 Hgone Hkeep Hlen Hpa.
  destruct Hok as (Hrep & Hcov & Hnaf).
  pose proof (first_bp_same _ _ Hg1) as E1.
  set (bl' := bl1 ++ [(s, true)] ++ bl2).
  set (st3 := take_block st1 bp s) in *.
  assert (forall j, 0 <= j < 10 -> ~ In (first_bp st1 + span bl1) (fl1 j)) as Hun1.
  { rewrite E1. exact Hgone. }
  pose proof (take_rep st1 fl1 bl1 bl2 s Hrep1 Hun1) as Hrep3.
  rewrite E1 in Hrep3. fold bp st3 bl' in Hrep3.
  assert (first_bp st3 = first_bp st) as E3 by exact E1.
  assert (In (bp, (s, true)) (layout (first_bp st) bl')) as Hba
      by apply layout_mid.
  assert (forall p sz, In (p, (sz, true)) (layout (first_bp st) bl) ->
                       In (p, (sz, true)) (layout (first_bp st) bl')) as Hfwd.
  { intros p sz Hp.
    destruct (layout_replace_in _ bl1 [(s, false)] [(s, true)] bl2 _ eq_refl Hp)
      as [Hm | Ho]; [| exact Ho].
    destruct Hm as [E | []]. inversion E. }
  exists bl', fl1, s. split; [| split; [| split; [| split; [| split; [| split; [| split]]]]]].
  - split; [exact Hrep3 |]. split.
    + intros p sp Hp. rewrite E3 in Hp. right.
      destruct (layout_replace_in _ bl1 [(s, true)] [(s, false)] bl2 _ eq_refl Hp)
        as [Hm | Ho].
      * destruct Hm as [E | []]. inversion E.
      * destruct (Hcov _ _ Ho) as [[] | H].
        apply Hkeep; [exact H |]. intros ->.
        pose proof (layout_fun _ _ _ _ _ (rep_wf _ _ _ Hrep3) Hp Hba) as E.
        discriminate.
    + apply naf_app in Hnaf. destruct Hnaf as [N1 N2]. cbn in N2.
      apply naf_app. split; [exact N1 |]. cbn.
      split; [auto |]. apply naf_weaken with (pa := false). tauto.
  - eapply same_globals_trans; [exact Hg1 | apply take_block_globals].
  - eapply payload_kept_same; [exact Hpay1 | exact Hg1 |].
    intros p sz x Hp Hx. rewrite E1 in Hp.
    pose proof (take_payload st1 fl1 bl1 bl2 s Hrep1 p sz x) as H.
    rewrite E1 in H. apply H; assumption.
  - rewrite E3. exact Hba.
  - exact Hfit.
  - intros p sz Hp. rewrite E3. apply Hfwd. exact Hp.
  - intros p sz Hp. rewrite E3 in Hp.
    destruct (layout_replace_in _ bl1 [(s, true)] [(s, false)] bl2 _ eq_refl Hp)
      as [Hm | Ho].
    + fold bp in Hm. destruct Hm as [E | []]. inversion E. left. reflexivity.
    + right. exact Ho.
  - intros j. specialize (Hlen j). lia.
Qed.

Lemma place_sound st' :
  place fuel st bp asize = Some st' -> place_post st bl fl bp asize st'.
Proof.
  intros Hp.
  destruct (place_shape fuel st fl bl1 bl2 s asize Hok Ha Hfit)
    as (fl1 & Hrep1 & Hg1 & Hpay1 & Hgone & Hsub & Hkeep & Hlen & Hpa & Hna & Heq).
  fold bp in Heq. rewrite Heq in Hp.
  destruct (Z.geb_spec (s - asize) 24) as [Hr | Hr].
  - eapply place_sound_split; eassumption.
  - injection Hp as <-. eapply place_sound_take; eassumption.
Qed.

Lemma place_total :
  (forall j, 0 <= j < 10 -> (length (fl j) <= fuel)%nat) ->
  exists st', place fuel st bp asize = Some st'.
Proof.
  intros Hfuel.
  destruct (place_shape fuel st fl bl1 bl2 s asize Hok Ha Hfit)
    as (fl1 & Hrep1 & Hg1 & Hpay1 & Hgone & Hsub & Hkeep & Hlen & Hpa & Hna & Heq).
  fold bp in Heq. rewrite Heq.
  destruct (Z.geb_spec (s - asize) 24) as [Hr | Hr]; [| eauto].
  pose proof (first_bp_same _ _ Hg1) as E1. fold bp in E1, Hrep1, Hgone.
  assert (forall j, 0 <= j < 10 ->
            ~ In (first_bp (remove_from_free_list st bp) + span bl1) (fl1 j)) as Hun1.
  { rewrite E1. exact Hgone. }
  pose proof (split_rep _ fl1 bl1 bl2 s Hrep1 Hun1 asize Ha Hr) as Hrep6.
  rewrite E1 in Hrep6. fold bp in Hrep6.
  eapply insert_total with (s := s - asize); [exact Hrep6 | |].
  - pose proof (layout_mid (first_bp st) (bl1 ++ [(asize, true)])
                  (s - asize, false) bl2) as H.
    rewrite <- app_assoc, span_app in H. cbn in H.
    replace (first_bp st + (span bl1 + (asize + 0))) with (bp + asize) in H
      by (unfold bp; lia).
    rewrite <- E1 in H. exact H.
  - specialize (Hlen (get_root_index (s - asize))).
    specialize (Hfuel _ (get_root_index_range (s - asize))). lia.
Qed.
End PlaceSound.

(** ** [find_fit] *)

Section FindFit.
Variables (st : state) (asize : Z) (fl : Z -> list Z).
Let m := mem st.
Let base := seg_free_listp st.
Let f := size_at m.

Hypothesis Hlistp : heap_listp st = base + 88.

Lemma find_fit_roots_end fuel :
  find_fit_roots fuel st asize (base + 8 * 10) = Some NULL.
Proof.
  destruct fuel; cbn [find_fit_roots]; unfold DSIZE; rewrite Hlistp;
    destruct (Z.eqb_spec (base + 8 * 10) (base + 88 - 8)); try lia; reflexivity.
Qed.

Lemma find_fit_roots_spec n :
  forall fuel i,
  0 <= i -> i + Z.of_nat n = 10 ->
  (forall j, i <= j < 10 -> dll m (load8 m (base + 8 * j)) (fl j)) ->
  (forall j, i <= j < 10 -> (length (fl j) + n <= fuel)%nat) ->
  (n <= fuel)%nat ->
  find_fit_roots fuel st asize (base + 8 * i)
  = Some (first_fit_from f asize fl i n).
Proof.
  induction n as [| n IH]; intros fuel i Hi Hn Hdll Hlen Hfuel.
  - replace i with 10 by lia. apply find_fit_roots_end.
  - destruct fuel as [| fuel]; [lia |].
    cbn [find_fit_roots first_fit_from]. unfold DSIZE. rewrite Hlistp.
    destruct (Z.eqb_spec (base + 8 * i) (base + 88 - 8)) as [E | _]; [lia |].
    destruct (Hdll i) as (last & Hl); [lia |].
    unfold GET_8B. fold m base.
    rewrite (find_fit_list_spec st asize (fl i) _ _ _ _ Hl)
      by (specialize (Hlen i); lia).
    cbn [obind]. fold m f. unfold NULL.
    destruct (first_fit f asize (fl i) =? 0); cbn [negb]; [| reflexivity].
    replace (base + 8 * i + 8) with (base + 8 * (i + 1)) by lia.
    apply IH; try lia.
    + intros j Hj. apply Hdll. lia.
    + intros j Hj. specialize (Hlen j). lia.
Qed.

Lemma find_fit_roots_sound n :
  forall fuel i r,
  0 <= i -> i + Z.of_nat n = 10 ->
  (forall j, i <= j < 10 -> dll m (load8 m (base + 8 * j)) (fl j)) ->
  find_fit_roots fuel st asize (base + 8 * i) = Some r ->
  r = first_fit_from f asize fl i n.
Proof.
  induction n as [| n IH]; intros fuel i r Hi Hn Hdll Hr.
  - replace i with 10 in Hr by lia. rewrite find_fit_roots_end in Hr.
    injection Hr as <-. reflexivity.
  - destruct fuel as [| fuel]; cbn [find_fit_roots] in Hr;
      unfold DSIZE in Hr; rewrite Hlistp in Hr;
      destruct (Z.eqb_spec (base + 8 * i) (base + 88 - 8)) as [E | _];
      try lia; try discriminate.
    destruct (Hdll i) as (last & Hl); [lia |].
    unfold GET_8B in Hr. fold m base in Hr.
    destruct (find_fit_list (Datatypes.S fuel) st asize (load8 m (base + 8 * i)))
      as [r0 |] eqn:Hlist; [| discriminate].
    apply (find_fit_list_sound st asize (fl i) _ _ _ _ _ Hl) in Hlist.
    cbn [obind first_fit_from] in Hr |- *. fold m f in Hlist. subst r0.
    unfold NULL in Hr.
    destruct (first_fit f asize (fl i) =? 0); cbn [negb] in Hr |- *.
    + replace (base + 8 * i + 8) with (base + 8 * (i + 1)) in Hr by lia.
      eapply IH; [| | | exact Hr]; try lia.
      intros j Hj. apply Hdll. lia.
    + injection Hr as <-. reflexivity.
Qed.

(** The scan over the buckets [i], ..., [i + n - 1]: either some bucket
    [j] yields its first fitting block and no earlier bucket has a
    fitting block, or no bucket has one. *)
Lemma first_fit_from_cases n :
  forall i,
  (forall j q, i <= j < i + Z.of_nat n -> In q (fl j) -> q <> 0) ->
  let r := first_fit_from f asize fl i n in
  (r <> 0 /\ exists j, i <= j < i + Z.of_nat n /\
      r = first_fit f asize (fl j) /\ In r (fl j) /\ f r >= asize /\
      (forall k q, i <= k < j -> In q (fl k) -> f q < asize))
  \/ (r = 0 /\ forall j q, i <= j < i + Z.of_nat n -> In q (fl j) ->
                         f q < asize).
Proof.
  induction n as [| n IH]; intros i Hnz; cbn [first_fit_from].
  - right. split; [reflexivity |]. intros j q Hj. lia.
  - cbv zeta.
    destruct (Z.eqb_spec (first_fit f asize (fl i)) 0) as [E | E];
      cbn [negb].
    + assert (forall q, In q (fl i) -> f q < asize) as Hnone.
      { apply first_fit_none; [| exact E]. intros q Hq. apply (Hnz i q); [lia | exact Hq]. }
      assert (forall j q, i + 1 <= j < i + 1 + Z.of_nat n -> In q (fl j) -> q <> 0)
        as Hnz' by (intros j q Hj; apply Hnz; lia).
      destruct (IH (i + 1) Hnz') as [(Hr & j & Hj & Er & Hin & Hge & Hlt) | (Hr & Hall)].
      * left. split; [exact Hr |]. exists j. repeat split; try assumption; try lia.
        intros k q Hk Hq. destruct (Z.eq_dec k i) as [-> | Hne]; [auto |].
        apply (Hlt k q); [lia | exact Hq].
      * right. split; [exact Hr |]. intros j q Hj Hq.
        destruct (Z.eq_dec j i) as [-> | Hne]; [auto |].
        apply (Hall j q); [lia | exact Hq].
    + left. split; [exact E |]. exists i.
      destruct (first_fit_in _ _ _ E) as [Hin Hge].
      split; [lia |]. split; [reflexivity |]. split; [exact Hin |].
      split; [exact Hge |]. intros k q Hk. lia.
Qed.

(** In a size-sorted list the first fit is a best fit. *)
Lemma first_fit_best l q :
  sorted_by f l -> first_fit f asize l <> 0 -> In q l -> f q >= asize ->
  f (first_fit f asize l) <= f q.
Proof.
  induction l as [| p l IH]; cbn; intros Hs Hr Hq Hge; [contradiction |].
  destruct Hs as [Hp Hs].
  destruct (Z.geb_spec (f p) asize) as [Hpa | Hpa].
  - destruct Hq as [-> | Hq]; [lia | auto].
  - destruct Hq as [-> | Hq]; [lia | auto].
Qed.
End FindFit.

(** ** [extend_heap] *)

Lemma same_globals_anchors st st' : same_globals st st' -> same_anchors st st'.
Proof. intros (H1 & H2 & H3 & H4). repeat split; try assumption. lia. Qed.

Lemma same_anchors_refl st : same_anchors st st.
Proof. repeat split. lia. Qed.

Lemma same_anchors_trans st1 st2 st3 :
  same_anchors st1 st2 -> same_anchors st2 st3 -> same_anchors st1 st3.
Proof.
  intros (A1 & A2 & A3 & A4) (B1 & B2 & B3 & B4).
  repeat split; try congruence. lia.
Qed.

Lemma first_bp_anchors st st' : same_anchors st st' -> first_bp st' = first_bp st.
Proof. intros (_ & H & _). unfold first_bp. congruence. Qed.

Lemma extend_heap_unfold fuel st words :
  extend_heap fuel st words
  = (let size := extend_size words in
     let '(bp, st1) := mem_sbrk st size in
     if bp =? -1 then Some (NULL, st1)
     else coalesce fuel (carve_block st1 bp size) bp).
Proof. reflexivity. Qed.

Section Carve.
Variables (st : state) (bl : list blk) (fl : Z -> list Z) (size : Z).
Hypothesis Hrep : heap_rep st bl fl.
Hypothesis Hsize : 24 <= size /\ size mod 8 = 0.
Hypothesis Hroom : mem_brk st + size <= mem_max_addr st.

Let bp := mem_brk st.
Let st1 := mkState (mem st) (heap_listp st) (seg_free_listp st)
                   (mem_brk st + size) (mem_max_addr st).
Let pa := last_alloc true bl.
Let h := hdr_word size pa false.

Lemma carve_sbrk : mem_sbrk st size = (bp, st1).
Proof.
  unfold mem_sbrk.
  destruct (Z.ltb_spec size 0); [lia |].
  destruct (Z.ltb_spec (mem_max_addr st) (mem_brk st + size)); [lia |].
  reflexivity.
Qed.

Lemma carve_bounds :
  size + 96 < 2 ^ 32 /\ seg_free_listp st + 96 <= bp /\ bp + size < 2 ^ 64
  /\ bp = first_bp st + span bl /\ 0 <= span bl.
Proof.
  pose proof (rep_brk _ _ _ Hrep). pose proof (rep_max _ _ _ Hrep).
  pose proof (rep_bound _ _ _ Hrep). pose proof (rep_addr _ _ _ Hrep).
  pose proof (span_nonneg _ (rep_wf _ _ _ Hrep)).
  unfold bp, first_bp in *. repeat split; lia.
Qed.

Lemma carve_mem :
  mem (carve_block st1 bp size)
  = store8 (store8 (store4 (store4 (store4 (mem st) (bp - 4) h)
                                   (bp + size - 8) h)
                           (bp + size - 4) 1) bp 0) (bp + 8) 0.
Proof.
  destruct carve_bounds as (B1 & B2 & B3 & B4 & B5). destruct Hsize as [S1 S2].
  assert (GET st1 (HDRP bp) = hdr_word 0 pa true) as G0.
  { unfold GET, HDRP, WSIZE, st1. cbn [mem]. apply (rep_epilogue _ _ _ Hrep). }
  assert (wrap32 h = h) as Wh by (apply hdr_wrap; lia).
  unfold carve_block, GET_PREV_ALLOC. rewrite G0.
  rewrite hdr_prev_alloc by reflexivity.
  rewrite (pack_hdr size pa false) by (try assumption; cbn; lia). fold h.
  set (st2 := PUT st1 (HDRP bp) h).
  assert (GET st2 (HDRP bp) = h) as G2.
  { unfold st2, GET, PUT, HDRP, WSIZE. cbn [mem set_mem].
    rewrite load4_store4_same. exact Wh. }
  assert (FTRP st2 bp = bp + size - 8) as F2.
  { unfold FTRP, GET_SIZE, DSIZE. rewrite G2. unfold h.
    rewrite hdr_size by lia. reflexivity. }
  rewrite G2, F2.
  set (st3 := PUT st2 (bp + size - 8) h).
  assert (NEXT_BLKP st3 bp = bp + size) as N3.
  { unfold NEXT_BLKP, GET_SIZE, GET, st3, st2, PUT, HDRP, WSIZE.
    cbn [mem set_mem]. mem_simp. rewrite Wh. unfold h.
    rewrite hdr_size by lia. reflexivity. }
  rewrite N3. change (PACK 0 1) with 1.
  unfold st3, st2, st1, SET_NEXTP, SET_PREVP, PUT_8B, PUT, HDRP, WSIZE, NULL.
  cbn [mem set_mem]. reflexivity.
Qed.

Lemma carve_frame x :
  x < bp - 4 -> load1 (mem (carve_block st1 bp size)) x = load1 (mem st) x.
Proof.
  intros Hx. destruct Hsize as [S1 S2]. rewrite carve_mem. mem_simp. reflexivity.
Qed.

Lemma carve_word x :
  x + 4 <= bp - 4 -> load4 (mem (carve_block st1 bp size)) x = load4 (mem st) x.
Proof. intros Hx. apply load4_bytes. intros k Hk. apply carve_frame. lia. Qed.

Lemma carve_rep : heap_rep (carve_block st1 bp size) (bl ++ [(size, false)]) fl.
Proof.
  destruct carve_bounds as (B1 & B2 & B3 & B4 & B5). destruct Hsize as [S1 S2].
  assert (wrap32 h = h) as Wh by (apply hdr_wrap; lia).
  pose proof (rep_wf _ _ _ Hrep) as Hwf.
  constructor;
    change (seg_free_listp (carve_block st1 bp size)) with (seg_free_listp st);
    change (heap_listp (carve_block st1 bp size)) with (heap_listp st);
    change (mem_brk (carve_block st1 bp size)) with (mem_brk st + size);
    change (mem_max_addr (carve_block st1 bp size)) with (mem_max_addr st);
    change (first_bp (carve_block st1 bp size)) with (first_bp st).
  - apply (rep_align _ _ _ Hrep).
  - apply (rep_pos _ _ _ Hrep).
  - apply (rep_listp _ _ _ Hrep).
  - rewrite span_app. cbn. fold bp. lia.
  - exact Hroom.
  - apply (rep_bound _ _ _ Hrep).
  - apply (rep_addr _ _ _ Hrep).
  - destruct (rep_prologue _ _ _ Hrep) as [P1 P2].
    rewrite !carve_word by lia. auto.
  - apply tseg_app. split.
    + eapply tseg_frame; [| apply (rep_tiling _ _ _ Hrep)].
      intros p s al Hb.
      pose proof (layout_bounds _ _ _ _ Hwf Hb) as B. cbn in B.
      split; [| intros _]; apply carve_word; lia.
    + rewrite <- B4. fold pa. rewrite carve_mem. cbn.
      split; [exact S1 |]. split; [exact S2 |]. split; [| split; [| exact I]].
      * mem_simp. exact Wh.
      * intros _. mem_simp. rewrite Wh. apply hdr_size; lia.
  - rewrite last_alloc_app. cbn [last_alloc]. fold bp.
    rewrite carve_mem.
    replace (bp + size - 4) with (bp + size - 4) by lia.
    mem_simp. reflexivity.
  - intros j Hj.
    assert (load8 (mem (carve_block st1 bp size)) (seg_free_listp st + 8 * j)
            = load8 (mem st) (seg_free_listp st + 8 * j)) as ->.
    { apply load8_bytes. intros k Hk. apply carve_frame. lia. }
    destruct (rep_lists _ _ _ Hrep j Hj) as (last & Hl). exists last.
    eapply lseg_frame; [| exact Hl]. intros q Hq.
    destruct (rep_member _ _ _ Hrep j q Hj Hq) as (s & _ & _ & Hs & _ & Hq2 & _).
    fold bp in Hq2.
    split; apply load8_bytes; intros k Hk; apply carve_frame; lia.
  - apply (rep_nodup _ _ _ Hrep).
  - intros j q Hj Hq.
    destruct (rep_members _ _ _ Hrep j q Hj Hq) as (s & Hb & Hc).
    exists s. split; [| exact Hc]. apply layout_app_in. auto.
Qed.

Lemma carve_payload : payload_kept st (carve_block st1 bp size) bl.
Proof.
  intros p s x Hb Hx.
  pose proof (rep_block _ _ _ Hrep _ _ Hb) as B. cbn in B. fold bp in B.
  apply carve_frame. lia.
Qed.

Lemma carve_unlisted j : 0 <= j < 10 -> ~ In bp (fl j).
Proof.
  intros Hj Hq.
  destruct (rep_member _ _ _ Hrep j bp Hj Hq) as (s & _ & _ & Hs & _ & Hq2 & _).
  fold bp in Hq2. lia.
Qed.
End Carve.

(** What a successful [extend_heap] or [coalesce] on a grown heap leaves. *)
Section Extend.
Variables (fuel : nat) (st : state) (bl : list blk) (fl : Z -> list Z).
Variables (words : Z).
Let size := extend_size words.

Hypothesis Hok : heap_ok st bl fl.
Hypothesis Hsize : 24 <= size /\ size mod 8 = 0.

Lemma extend_heap_fail :
  mem_max_addr st < mem_brk st + size ->
  extend_heap fuel st words = Some (NULL, st).
Proof.
  intros H. rewrite extend_heap_unfold. cbv zeta. fold size.
  unfold mem_sbrk.
  destruct (Z.ltb_spec (mem_max_addr st) (mem_brk st + size)); [| lia].
  rewrite orb_true_r. reflexivity.
Qed.

Lemma extend_heap_grow :
  mem_brk st + size <= mem_max_addr st ->
  extend_heap fuel st words
  = coalesce fuel
      (carve_block (mkState (mem st) (heap_listp st) (seg_free_listp st)
                            (mem_brk st + size) (mem_max_addr st))
                   (mem_brk st) size)
      (mem_brk st).
Proof.
  intros H. destruct Hok as (Hrep & _).
  rewrite extend_heap_unfold. cbv zeta. fold size.
  rewrite (carve_sbrk st bl size Hsize H).
  pose proof (rep_brk _ _ _ Hrep). pose proof (rep_pos _ _ _ Hrep).
  pose proof (span_nonneg _ (rep_wf _ _ _ Hrep)). unfold first_bp in *.
  destruct (Z.eqb_spec (mem_brk st) (-1)); [lia |]. reflexivity.
Qed.

Lemma extend_heap_sound r st' :
  extend_heap fuel st words = Some (r, st') ->
  (r = 0 /\ st' = st /\ mem_max_addr st < mem_brk st + size) \/
  (exists bl' fl' s',
      heap_ok st' bl' fl' /\ same_anchors st st' /\
      payload_kept st st' bl /\
      same_allocated (first_bp st) bl bl' /\
      In (r, (s', false)) (layout (first_bp st') bl') /\ size <= s' /\
      (forall j, (length (fl' j) <= Datatypes.S (length (fl j)))%nat)).
Proof.
  intros He. destruct (Z_le_gt_dec (mem_brk st + size) (mem_max_addr st)) as [Hroom | Hfull].
  2:{ rewrite extend_heap_fail in He by lia. injection He as <- <-.
      left. repeat split; try reflexivity. lia. }
  right. rewrite (extend_heap_grow Hroom) in He.
  destruct Hok as (Hrep & Hcov & Hnaf).
  set (st1 := mkState (mem st) (heap_listp st) (seg_free_listp st)
                      (mem_brk st + size) (mem_max_addr st)) in *.
  set (bp := mem_brk st) in *.
  set (st6 := carve_block st1 bp size) in *.
  pose proof (carve_rep st bl fl size Hrep Hsize Hroom) as Hrep6.
  fold st1 bp st6 in Hrep6.
  destruct (carve_bounds st bl fl size Hrep Hroom) as (B1 & B2 & B3 & B4 & B5).
  fold bp in B2, B3, B4.
  assert (first_bp st6 = first_bp st) as E6 by reflexivity.
  assert (bp = first_bp st6 + span bl) as Ebp by (rewrite E6; exact B4).
  rewrite Ebp in He.
  destruct (coalesce_sound fuel st6 fl bl [] size Hrep6) with (r := r) (st' := st')
    as (bl' & fl' & s' & Hok' & Hg & Hpay & Hal & Hin & Hs & Hlen).
  - rewrite <- Ebp. intros j Hj.
    apply (carve_unlisted st bl fl size Hrep j Hj).
  - rewrite <- Ebp. intros p sp Hp. rewrite E6 in Hp.
    apply layout_app_in in Hp. destruct Hp as [Hp | Hp].
    + right. destruct (Hcov _ _ Hp) as [[] | H]. exact H.
    + rewrite <- B4 in Hp. destruct Hp as [E | []]. inversion E. left. left.
      reflexivity.
  - apply naf_app. split; [exact Hnaf |]. cbn. auto.
  - exact He.
  - exists bl', fl', s'. split; [exact Hok' |].
    destruct Hg as (G1 & G2 & G3 & G4).
    split; [repeat split; try assumption; rewrite G3; unfold st6, st1; cbn; lia |].
    split; [| split; [| split; [exact Hin | split; [exact Hs | exact Hlen]]]].
    + eapply payload_kept_trans;
        [apply (carve_payload st bl fl size Hrep Hsize Hroom) | exact Hpay |].
      intros p sz Hp. apply layout_app_in. left. exact Hp.
    + intros p sz. rewrite E6 in Hal. rewrite <- (Hal p sz).
      rewrite layout_app_in. split; [auto |].
      intros [H | H]; [exact H |]. destruct H as [E | []]. inversion E.
Qed.

Lemma extend_heap_total :
  (forall j, 0 <= j < 10 -> (length (fl j) <= fuel)%nat) ->
  exists r st', extend_heap fuel st words = Some (r, st').
Proof.
  intros Hfuel.
  destruct (Z_le_gt_dec (mem_brk st + size) (mem_max_addr st)) as [Hroom | Hfull].
  2:{ rewrite extend_heap_fail by lia. eauto. }
  rewrite (extend_heap_grow Hroom).
  destruct Hok as (Hrep & Hcov & Hnaf).
  set (st1 := mkState (mem st) (heap_listp st) (seg_free_listp st)
                      (mem_brk st + size) (mem_max_addr st)) in *.
  set (bp := mem_brk st) in *.
  set (st6 := carve_block st1 bp size) in *.
  pose proof (carve_rep st bl fl size Hrep Hsize Hroom) as Hrep6.
  fold st1 bp st6 in Hrep6.
  destruct (carve_bounds st bl fl size Hrep Hroom) as (B1 & B2 & B3 & B4 & B5).
  fold bp in B2, B3, B4.
  assert (first_bp st6 = first_bp st) as E6 by reflexivity.
  assert (bp = first_bp st6 + span bl) as Ebp by (rewrite E6; exact B4).
  rewrite Ebp.
  apply (coalesce_total fuel st6 fl bl [] size Hrep6).
  - rewrite <- Ebp. intros j Hj.
    apply (carve_unlisted st bl fl size Hrep j Hj).
  - rewrite <- Ebp. intros p sp Hp. rewrite E6 in Hp.
    apply layout_app_in in Hp. destruct Hp as [Hp | Hp].
    + right. destruct (Hcov _ _ Hp) as [[] | H]. exact H.
    + rewrite <- B4 in Hp. destruct Hp as [E | []]. inversion E. left. left.
      reflexivity.
  - apply naf_app. split; [exact Hnaf |]. cbn. auto.
  - exact Hfuel.
Qed.
End Extend.

(** ** [malloc] *)

Lemma adjust_size_small size : size <= 16 -> adjust_size size = 24.
Proof.
  intros H. unfold adjust_size, DSIZE, MINBLOCKSIZE.
  destruct (Z.leb_spec size (2 * 8)); [reflexivity | lia].
Qed.

Lemma adjust_size_large size :
  16 < size <= SIZE_MAX - 11 ->
  adjust_size size = 8 * ((size + 4 + 7) / 8).
Proof.
  intros H. unfold adjust_size, DSIZE, MINBLOCKSIZE, WSIZE, SIZE_MAX in *.
  destruct (Z.leb_spec size (2 * 8)); [lia |].
  change (8 - 1) with 7.
  rewrite (wrap64_small (size + 4 + 7)) by (norm_pow; lia).
  apply wrap64_small. zdm.
Qed.

Lemma adjust_size_facts size :
  0 < size <= SIZE_MAX - 11 ->
  24 <= adjust_size size /\ adjust_size size mod 8 = 0 /\
  size + 4 <= adjust_size size /\ adjust_size size < 2 ^ 64.
Proof.
  intros H. destruct (Z_le_gt_dec size 16) as [Hs | Hs].
  - rewrite adjust_size_small by assumption. repeat split; try lia.
  - rewrite adjust_size_large by lia. unfold SIZE_MAX in H. repeat split; zdm.
Qed.

Lemma extend_size_even v :
  0 <= v < 2 ^ 64 -> v mod 8 = 0 -> extend_size (v / WSIZE) = v.
Proof.
  intros Hv H8. unfold extend_size, WSIZE.
  assert ((v / 4) mod 2 = 0) as E by zdm. rewrite E. cbn [Z.eqb negb].
  replace (v / 4 * 4) with v by zdm. apply wrap64_small. assumption.
Qed.

Lemma place_sound' fuel st bl fl bp s asize st' :
  heap_ok st bl fl -> In (bp, (s, false)) (layout (first_bp st) bl) ->
  24 <= asize /\ asize mod 8 = 0 -> asize <= s ->
  place fuel st bp asize = Some st' ->
  place_post st bl fl bp asize st'.
Proof.
  intros Hok Hb Ha Hfit Hp.
  destruct (layout_split _ _ _ _ Hb) as (bl1 & bl2 & -> & ->).
  eapply place_sound; eassumption.
Qed.

Lemma place_total' fuel st bl fl bp s asize :
  heap_ok st bl fl -> In (bp, (s, false)) (layout (first_bp st) bl) ->
  24 <= asize /\ asize mod 8 = 0 -> asize <= s ->
  (forall j, 0 <= j < 10 -> (length (fl j) <= fuel)%nat) ->
  exists st', place fuel st bp asize = Some st'.
Proof.
  intros Hok Hb Ha Hfit Hfuel.
  destruct (layout_split _ _ _ _ Hb) as (bl1 & bl2 & -> & ->).
  eapply place_total; eassumption.
Qed.

(** What [find_fit] returns in a well-formed heap. *)
Lemma find_fit_sound fuel st bl fl asize r :
  heap_ok st bl fl -> find_fit fuel st asize = Some r ->
  r = first_fit_from (size_at (mem st)) asize fl (get_root_index asize)
                     (Z.to_nat (10 - get_root_index asize)) /\
  (r <> 0 -> exists s, In (r, (s, false)) (layout (first_bp st) bl) /\ asize <= s).
Proof.
  intros (Hrep & Hcov & Hnaf) Hf.
  pose proof (get_root_index_range asize) as Hi.
  unfold find_fit in Hf. rewrite (rep_get_root st) in Hf.
  assert (forall j, get_root_index asize <= j < 10 ->
            dll (mem st) (load8 (mem st) (seg_free_listp st + 8 * j)) (fl j)) as Hdll.
  { intros j Hj. apply (rep_lists _ _ _ Hrep). lia. }
  apply (find_fit_roots_sound st asize fl (rep_listp _ _ _ Hrep)
           (Z.to_nat (10 - get_root_index asize))) in Hf; try lia; try assumption.
  split; [exact Hf |]. intros Hr.
  destruct (first_fit_from_cases st asize fl (Z.to_nat (10 - get_root_index asize))
              (get_root_index asize)) as [(_ & j & Hj & _ & Hin & Hge & _) | (H0 & _)].
  - intros j q Hj Hq.
    destruct (rep_member _ _ _ Hrep j q) as (s & _ & _ & _ & _ & _ & Hq0); [lia | exact Hq | lia].
  - rewrite <- Hf in Hin, Hge.
    destruct (rep_member _ _ _ Hrep j r) as (s & Hb & _); [lia | exact Hin |].
    exists s. split; [exact Hb |].
    rewrite (size_at_block _ _ _ _ _ _ _ (rep_tiling _ _ _ Hrep) Hb) in Hge. lia.
  - congruence.
Qed.

Lemma find_fit_total fuel st bl fl asize :
  heap_ok st bl fl ->
  (forall j, 0 <= j < 10 -> (length (fl j) + 10 <= fuel)%nat) ->
  exists r, find_fit fuel st asize = Some r.
Proof.
  intros (Hrep & _) Hfuel.
  pose proof (get_root_index_range asize) as Hi.
  unfold find_fit. rewrite (rep_get_root st).
  eexists. apply (find_fit_roots_spec st asize fl (rep_listp _ _ _ Hrep)
                    (Z.to_nat (10 - get_root_index asize))); try lia.
  - intros j Hj. apply (rep_lists _ _ _ Hrep). lia.
  - intros j Hj. specialize (Hfuel j). lia.
  - specialize (Hfuel 0). lia.
Qed.

Lemma malloc_unfold fuel st size :
  heap_listp st <> 0 -> size <> 0 ->
  malloc fuel st size
  = (let asize := adjust_size size in
     bp <- find_fit fuel st asize ;;
     if negb (bp =? NULL) then
       st' <- place fuel st bp asize ;; Some (bp, st')
     else
       '(bp, st1) <- extend_heap fuel st (Z.max asize CHUNKSIZE / WSIZE) ;;
       if bp =? NULL then Some (NULL, st1)
       else st' <- place fuel st1 bp asize ;; Some (bp, st')).
Proof.
  intros H1 H2. unfold malloc.
  destruct (Z.eqb_spec (heap_listp st) 0); [contradiction |]. cbn [obind].
  destruct (Z.eqb_spec size 0); [contradiction |]. reflexivity.
Qed.

Lemma malloc_zero fuel st :
  heap_listp st <> 0 -> malloc fuel st 0 = Some (NULL, st).
Proof.
  intros H. unfold malloc.
  destruct (Z.eqb_spec (heap_listp st) 0); [contradiction |]. reflexivity.
Qed.

Lemma rep_listp_nonzero st bl fl : heap_rep st bl fl -> heap_listp st <> 0.
Proof.
  intros H. rewrite (rep_listp _ _ _ H). pose proof (rep_pos _ _ _ H). lia.
Qed.

Lemma malloc_post_same st bl fl size :
  heap_ok st bl fl -> malloc_post st bl fl size 0 st.
Proof.
  intros Hok. exists bl, fl. split; [exact Hok |].
  split; [apply same_anchors_refl |]. split; [apply payload_kept_refl |].
  split; [auto |]. split; [auto |]. split; [auto |].
  split; [intros H; congruence | intros j; lia].
Qed.

Lemma malloc_post_weaken n n' st bl fl size r st' :
  (n <= n')%nat -> malloc_post_n n st bl fl size r st' ->
  malloc_post_n n' st bl fl size r st'.
Proof.
  intros Hn (bl' & fl' & H1 & H2 & H3 & H4 & H5 & H6 & H7 & Hlen).
  exists bl', fl'. do 7 (split; [assumption |]).
  intros j. specialize (Hlen j). lia.
Qed.

Lemma place_to_malloc st bl fl size asize r st' s :
  heap_ok st bl fl -> In (r, (s, false)) (layout (first_bp st) bl) ->
  size + 4 <= asize -> place_post st bl fl r asize st' ->
  malloc_post_n 1 st bl fl size r st'.
Proof.
  intros (Hrep & _) Hb Hsz (bl' & fl' & sa & Hok' & Hg & Hpay & Hin & Hsa & Hfwd & Hbwd & Hlen).
  pose proof (rep_block _ _ _ Hrep _ _ Hb) as B. cbn in B.
  pose proof (rep_pos _ _ _ Hrep) as Hpos.
  exists bl', fl'. split; [exact Hok' |].
  split; [apply same_globals_anchors; exact Hg |]. split; [exact Hpay |].
  split; [exact Hfwd |]. split; [| split; [| split]].
  - intros p sz Hp. destruct (Hbwd p sz Hp) as [-> | H]; [left | right; exact H].
    split; [reflexivity | lia].
  - intros ->. lia.
  - intros _. split; [exists sa; split; [exact Hin | lia] |].
    intros sz b. destruct b; [left | right; reflexivity].
    intros H. pose proof (layout_fun _ _ _ _ _ (rep_wf _ _ _ Hrep) H Hb) as E.
    discriminate.
  - intros j. specialize (Hlen j). lia.
Qed.

Lemma malloc_sound fuel st bl fl size r st' :
  heap_ok st bl fl -> size_ok size ->
  malloc fuel st size = Some (r, st') ->
  malloc_post st bl fl size r st'.
Proof.
  intros Hok Hsize Hm. pose proof Hok as (Hrep & Hcov & Hnaf).
  pose proof (rep_listp_nonzero _ _ _ Hrep) as Hl.
  destruct (Z.eq_dec size 0) as [-> | Hnz].
  { rewrite malloc_zero in Hm by assumption. injection Hm as <- <-.
    eapply malloc_post_same; eassumption. }
  rewrite malloc_unfold in Hm by assumption. cbv zeta in Hm.
  unfold size_ok in Hsize.
  destruct (adjust_size_facts size) as (A1 & A2 & A3 & A4); [lia |].
  set (asize := adjust_size size) in *.
  destruct (find_fit fuel st asize) as [bp0 |] eqn:Hf; [| discriminate].
  cbn [obind] in Hm.
  destruct (find_fit_sound _ _ _ _ _ _ Hok Hf) as [_ Hfit].
  unfold NULL in Hm.
  destruct (Z.eqb_spec bp0 0) as [-> | Hne]; cbn [negb] in Hm.
  - (* no fit: extend the heap *)
    destruct (extend_heap fuel st (Z.max asize CHUNKSIZE / WSIZE))
      as [[r1 st1] |] eqn:He; [| discriminate].
    cbn [obind] in Hm.
    assert (extend_size (Z.max asize CHUNKSIZE / WSIZE) = Z.max asize CHUNKSIZE) as Es.
    { apply extend_size_even; unfold CHUNKSIZE; [norm_pow; lia |].
      destruct (Z.max_spec asize 4096) as [[_ ->] | [_ ->]]; [reflexivity | assumption]. }
    assert (24 <= Z.max asize CHUNKSIZE /\ Z.max asize CHUNKSIZE mod 8 = 0) as Hx.
    { unfold CHUNKSIZE.
      destruct (Z.max_spec asize 4096) as [[_ ->] | [_ ->]]; split; try lia;
        try assumption; reflexivity. }
    rewrite <- Es in Hx.
    destruct (extend_heap_sound fuel st bl fl _ Hok Hx r1 st1 He)
      as [(-> & -> & _) | (bl1 & fl1 & s' & Hok1 & Hg1 & Hpay1 & Hal1 & Hin1 & Hs1 & Hlen1)].
    + cbn in Hm. injection Hm as <- <-. eapply malloc_post_same; eassumption.
    + rewrite Es in Hs1. pose proof Hok1 as (Hrep1 & _).
      pose proof (rep_block _ _ _ Hrep1 _ _ Hin1) as B. cbn in B.
      pose proof (rep_pos _ _ _ Hrep1) as Hpos1.
      destruct (Z.eqb_spec r1 0) as [E | _]; [lia |].
      destruct (place fuel st1 r1 asize) as [st2 |] eqn:Hp; [| discriminate].
      cbn in Hm. injection Hm as <- <-.
      assert (asize <= s') as Hfit' by lia.
      pose proof (place_sound' _ _ _ _ _ _ _ _ Hok1 Hin1 (conj A1 A2) Hfit' Hp) as Hpost.
      pose proof (place_to_malloc _ _ _ size _ _ _ _ Hok1 Hin1 A3 Hpost)
        as (bl2 & fl2 & Hok2 & Hg2 & Hpay2 & Hfwd2 & Hbwd2 & Hz2 & Hnz2 & Hlen2).
      pose proof (first_bp_anchors _ _ Hg1) as E1.
      exists bl2, fl2. split; [exact Hok2 |].
      split; [exact (same_anchors_trans _ _ _ Hg1 Hg2) |].
      split; [| split; [| split; [| split; [| split]]]].
      * eapply payload_kept_trans; [exact Hpay1 | exact Hpay2 |].
        intros p sz Hq. rewrite E1. apply Hal1. exact Hq.
      * intros p sz Hq. apply Hfwd2. rewrite E1. apply Hal1. exact Hq.
      * intros p sz Hq. destruct (Hbwd2 p sz Hq) as [H | H]; [left; exact H |].
        right. rewrite E1 in H. apply Hal1. exact H.
      * intros ->. lia.
      * intros Hr. destruct (Hnz2 Hr) as [Hsa _]. split; [exact Hsa |].
        intros sz b. destruct b; [left | right; reflexivity].
        intros H. apply Hal1 in H. rewrite <- E1 in H.
        pose proof (layout_fun _ _ _ _ _ (rep_wf _ _ _ Hrep1) H Hin1) as E.
        discriminate.
      * intros j. specialize (Hlen1 j). specialize (Hlen2 j). lia.
  - (* a fitting block was found *)
    destruct (Hfit Hne) as (s & Hb & Hs).
    destruct (place fuel st bp0 asize) as [st2 |] eqn:Hp; [| discriminate].
    cbn in Hm. injection Hm as <- <-.
    pose proof (place_sound' _ _ _ _ _ _ _ _ Hok Hb (conj A1 A2) Hs Hp) as Hpost.
    eapply malloc_post_weaken; [| eapply place_to_malloc; eassumption]. lia.
Qed.

(** ** [mm_init] *)

Lemma mm_init_unfold fuel st :
  mm_init fuel st
  = (let '(p, st1) := mem_sbrk st (12 * DSIZE) in
     if p =? -1 then Some (-1, set_heap_listp st1 p)
     else '(bp, st2) <- extend_heap fuel (init_prefix st1 p) (CHUNKSIZE / WSIZE) ;;
          if bp =? NULL then Some (-1, st2) else Some (0, st2)).
Proof. reflexivity. Qed.

Section Init.
Variable st0 : state.
Hypothesis Hfresh : fresh_heap st0.
Hypothesis Hroom : mem_brk st0 + 96 <= mem_max_addr st0.

Let B := mem_brk st0.
Let st1 := mkState (mem st0) (heap_listp st0) (seg_free_listp st0)
                   (mem_brk st0 + 96) (mem_max_addr st0).
Let stp := init_prefix st1 B.

Lemma init_sbrk : mem_sbrk st0 (12 * DSIZE) = (B, st1).
Proof.
  unfold mem_sbrk, DSIZE. change (12 * 8) with 96.
  destruct (Z.ltb_spec (mem_max_addr st0) (mem_brk st0 + 96)); [lia |].
  reflexivity.
Qed.

Lemma init_prefix_mem :
  mem stp
  = store4 (store4 (store4 (store4
      (store8 (store8 (store8 (store8 (store8 (store8 (store8 (store8
      (store8 (store8 (mem st0) B 0) (B + 8) 0) (B + 16) 0) (B + 24) 0)
        (B + 32) 0) (B + 40) 0) (B + 48) 0) (B + 56) 0) (B + 64) 0)
        (B + 72) 0) (B + 80) 0) (B + 84) 9) (B + 88) 9) (B + 92) 3.
Proof. reflexivity. Qed.

Ltac init_read :=
  rewrite init_prefix_mem;
  repeat first
    [ rewrite load4_store4_same
    | rewrite load8_store8_same
    | rewrite load4_store4_other by lia
    | rewrite load8_store4_other by lia
    | rewrite load8_store8_other by lia ].

Lemma init_prefix_words :
  load4 (mem stp) (B + 84) = 9 /\ load4 (mem stp) (B + 88) = 9 /\
  load4 (mem stp) (B + 92) = 3.
Proof. split; [| split]; init_read; reflexivity. Qed.

Lemma init_prefix_root j : 0 <= j < 10 -> load8 (mem stp) (B + 8 * j) = 0.
Proof.
  intros Hj.
  assert (j = 0 \/ j = 1 \/ j = 2 \/ j = 3 \/ j = 4 \/ j = 5 \/ j = 6
          \/ j = 7 \/ j = 8 \/ j = 9) as Hc by lia.
  destruct Hc as [-> | [-> | [-> | [-> | [-> | [-> | [-> | [-> | [-> | ->]]]]]]]]];
    rewrite ?Z.add_0_r; cbn [Z.mul Pos.mul]; init_read; reflexivity.
Qed.

Lemma init_prefix_ok : heap_ok stp [] (fun _ => []).
Proof.
  destruct Hfresh as (F1 & F2 & F3 & F4).
  destruct init_prefix_words as (W1 & W2 & W3).
  split; [| split; [intros p s [] | exact I]].
  constructor;
    change (seg_free_listp stp) with B;
    change (heap_listp stp) with (B + 11 * DSIZE);
    change (mem_brk stp) with (B + 96);
    change (mem_max_addr stp) with (mem_max_addr st0);
    change (first_bp stp) with (B + 96).
  - exact F2.
  - exact F1.
  - unfold DSIZE. lia.
  - cbn. lia.
  - exact Hroom.
  - exact F3.
  - exact F4.
  - auto.
  - exact I.
  - replace (B + 96 - 4) with (B + 92) by lia. exact W3.
  - intros j Hj. apply dll_nil. apply init_prefix_root. exact Hj.
  - intros j Hj. constructor.
  - intros j p Hj [].
Qed.
End Init.

Lemma mm_init_sound fuel st0 st :
  fresh_heap st0 -> mm_init fuel st0 = Some (0, st) ->
  exists bl fl, heap_ok st bl fl /\
    seg_free_listp st = mem_brk st0 /\ mem_max_addr st = mem_max_addr st0 /\
    forall p sz, ~ In (p, (sz, true)) (layout (first_bp st) bl).
Proof.
  intros Hfresh Hi. rewrite mm_init_unfold in Hi.
  destruct (Z_le_gt_dec (mem_brk st0 + 96) (mem_max_addr st0)) as [Hroom | Hfull].
  2:{ unfold mem_sbrk, DSIZE in Hi. change (12 * 8) with 96 in Hi.
      destruct (Z.ltb_spec (mem_max_addr st0) (mem_brk st0 + 96)); [| lia].
      rewrite orb_true_r in Hi. cbn in Hi. discriminate. }
  rewrite (init_sbrk st0 Hroom) in Hi.
  destruct Hfresh as (F1 & F2 & F3 & F4).
  destruct (Z.eqb_spec (mem_brk st0) (-1)); [lia |].
  set (stp := init_prefix _ _) in Hi.
  destruct (extend_heap fuel stp (CHUNKSIZE / WSIZE)) as [[bp st2] |] eqn:He;
    [| discriminate].
  cbn [obind] in Hi. unfold NULL in Hi.
  destruct (Z.eqb_spec bp 0) as [E | Hne]; [discriminate |].
  injection Hi as <-.
  pose proof (init_prefix_ok st0 (conj F1 (conj F2 (conj F3 F4))) Hroom) as Hok.
  fold stp in Hok.
  assert (24 <= extend_size (CHUNKSIZE / WSIZE)
          /\ extend_size (CHUNKSIZE / WSIZE) mod 8 = 0) as Hx
      by (vm_compute; split; [discriminate | reflexivity]).
  destruct (extend_heap_sound fuel stp [] _ _ Hok Hx bp st2 He)
    as [(-> & _) | (bl' & fl' & s' & Hok' & Hg & _ & Hal & _)]; [congruence |].
  exists bl', fl'. split; [exact Hok' |].
  destruct Hg as (G1 & G2 & G3 & G4).
  split; [rewrite G2; reflexivity |]. split; [rewrite G3; reflexivity |].
  intros p sz Hp. rewrite (first_bp_anchors _ _ (conj G1 (conj G2 (conj G3 G4)))) in Hp.
  apply Hal in Hp. destruct Hp.
Qed.

Lemma mm_init_total fuel st0 :
  fresh_heap st0 -> exists r st, mm_init fuel st0 = Some (r, st).
Proof.
  intros Hfresh. rewrite mm_init_unfold.
  destruct (Z_le_gt_dec (mem_brk st0 + 96) (mem_max_addr st0)) as [Hroom | Hfull].
  2:{ unfold mem_sbrk, DSIZE. change (12 * 8) with 96.
      destruct (Z.ltb_spec (mem_max_addr st0) (mem_brk st0 + 96)); [| lia].
      rewrite orb_true_r. cbn. eauto. }
  rewrite (init_sbrk st0 Hroom).
  pose proof Hfresh as (F1 & F2 & F3 & F4).
  destruct (Z.eqb_spec (mem_brk st0) (-1)); [lia |].
  set (stp := init_prefix _ _).
  pose proof (init_prefix_ok st0 Hfresh Hroom) as Hok. fold stp in Hok.
  assert (24 <= extend_size (CHUNKSIZE / WSIZE)
          /\ extend_size (CHUNKSIZE / WSIZE) mod 8 = 0) as Hx
      by (vm_compute; split; [discriminate | reflexivity]).
  destruct (extend_heap_total fuel stp [] _ _ Hok Hx) as (r & st2 & He).
  - intros j Hj. cbn. lia.
  - rewrite He. cbn [obind]. destruct (r =? NULL); eauto.
Qed.

(** ** Writes that keep the layout *)

(** A memory change that keeps the roots, the prologue, every header, the
    size in every free footer and the links of the listed blocks keeps the
    representation. *)
Lemma rep_frame st st' bl fl :
  heap_rep st bl fl -> same_globals st st' ->
  (forall x, seg_free_listp st <= x < first_bp st - 4 ->
             load1 (mem st') x = load1 (mem st) x) ->
  tseg (mem st') (first_bp st) true bl ->
  load4 (mem st') (mem_brk st - 4) = load4 (mem st) (mem_brk st - 4) ->
  (forall j q x, 0 <= j < 10 -> In q (fl j) -> q <= x < q + 16 ->
                 load1 (mem st') x = load1 (mem st) x) ->
  heap_rep st' bl fl.
Proof.
  intros Hrep (G1 & G2 & G3 & G4) Hlow Ht Hepi Hlinks.
  assert (first_bp st' = first_bp st) as Gf by (unfold first_bp; congruence).
  unfold first_bp in Hlow.
  constructor; rewrite ?G1, ?G2, ?G3, ?G4, ?Gf.
  - apply (rep_align _ _ _ Hrep).
  - apply (rep_pos _ _ _ Hrep).
  - apply (rep_listp _ _ _ Hrep).
  - apply (rep_brk _ _ _ Hrep).
  - apply (rep_max _ _ _ Hrep).
  - apply (rep_bound _ _ _ Hrep).
  - apply (rep_addr _ _ _ Hrep).
  - destruct (rep_prologue _ _ _ Hrep) as [P1 P2].
    split; [rewrite <- P1 | rewrite <- P2];
      apply load4_bytes; intros k Hk; apply Hlow; lia.
  - exact Ht.
  - rewrite Hepi. apply (rep_epilogue _ _ _ Hrep).
  - intros j Hj.
    assert (load8 (mem st') (seg_free_listp st + 8 * j)
            = load8 (mem st) (seg_free_listp st + 8 * j)) as ->.
    { apply load8_bytes. intros k Hk. apply Hlow. lia. }
    destruct (rep_lists _ _ _ Hrep j Hj) as (last & Hl). exists last.
    eapply lseg_frame; [| exact Hl]. intros q Hq.
    split; apply load8_bytes; intros k Hk; apply (Hlinks j q); auto; lia.
  - apply (rep_nodup _ _ _ Hrep).
  - apply (rep_members _ _ _ Hrep).
Qed.

(** Writing into the payload of an allocated block keeps the invariant and
    the payloads of the other allocated blocks. *)
Lemma payload_write st st' bl fl r sa :
  heap_ok st bl fl -> In (r, (sa, true)) (layout (first_bp st) bl) ->
  same_globals st st' ->
  (forall x, x < r \/ r + sa - 4 <= x -> load1 (mem st') x = load1 (mem st) x) ->
  heap_ok st' bl fl /\
  forall p sz x, In (p, (sz, true)) (layout (first_bp st) bl) -> p <> r ->
                 p <= x < p + sz - 4 -> load1 (mem st') x = load1 (mem st) x.
Proof.
  intros (Hrep & Hcov & Hnaf) Hr Hg Hfr.
  pose proof (rep_wf _ _ _ Hrep) as Hwf.
  pose proof (rep_block _ _ _ Hrep _ _ Hr) as Br. cbn in Br.
  assert (first_bp st' = first_bp st) as Gf by (apply first_bp_same; exact Hg).
  assert (forall p b, In (p, b) (layout (first_bp st) bl) -> p <> r ->
                      p + fst b <= r \/ r + sa <= p) as Hsep.
  { intros p b Hp Hne.
    destruct (layout_sep _ _ _ _ _ _ Hwf Hp Hr) as [[E _] | Hd];
      [contradiction | cbn in Hd; lia]. }
  split; [split; [| split] |].
  - apply (rep_frame st st' bl fl Hrep Hg).
    + intros x Hx. apply Hfr. unfold first_bp in *. lia.
    + eapply tseg_frame; [| apply (rep_tiling _ _ _ Hrep)].
      intros p s al Hp.
      pose proof (rep_block _ _ _ Hrep _ _ Hp) as Bp. cbn in Bp.
      destruct (Z.eq_dec p r) as [-> | Hne].
      * pose proof (layout_fun _ _ _ _ _ Hwf Hp Hr) as E. inversion E; subst.
        split; [| discriminate].
        apply load4_bytes. intros k Hk. apply Hfr. lia.
      * destruct (Hsep _ _ Hp Hne) as [Hd | Hd]; cbn in Hd;
          (split; [| intros _]); apply load4_bytes; intros k Hk; apply Hfr; lia.
    + apply load4_bytes. intros k Hk. apply Hfr. lia.
    + intros j q x Hj Hq Hx.
      destruct (rep_member _ _ _ Hrep j q Hj Hq) as (s & Hb & _ & Hs & _).
      assert (q <> r) as Hne.
      { intros ->. pose proof (layout_fun _ _ _ _ _ Hwf Hb Hr) as E.
        discriminate. }
      destruct (Hsep _ _ Hb Hne) as [Hd | Hd]; cbn in Hd; apply Hfr; lia.
  - intros p s Hp. rewrite Gf in Hp. apply Hcov. exact Hp.
  - exact Hnaf.
  - intros p sz x Hp Hne Hx.
    destruct (Hsep _ _ Hp Hne) as [Hd | Hd]; cbn in Hd; apply Hfr; lia.
Qed.

(** ** Totality of [malloc] *)

Lemma malloc_total fuel st bl fl size :
  heap_ok st bl fl -> size_ok size ->
  (forall j, 0 <= j < 10 -> (length (fl j) + 10 <= fuel)%nat) ->
  exists r st', malloc fuel st size = Some (r, st').
Proof.
  intros Hok Hsize Hfuel. pose proof Hok as (Hrep & Hcov & Hnaf).
  pose proof (rep_listp_nonzero _ _ _ Hrep) as Hl.
  destruct (Z.eq_dec size 0) as [-> | Hnz].
  { rewrite malloc_zero by assumption. eauto. }
  rewrite malloc_unfold by assumption. cbv zeta.
  unfold size_ok in Hsize.
  destruct (adjust_size_facts size) as (A1 & A2 & A3 & A4); [lia |].
  set (asize := adjust_size size) in *.
  destruct (find_fit_total fuel st bl fl asize Hok Hfuel) as (bp0 & Hf).
  rewrite Hf. cbn [obind].
  destruct (find_fit_sound _ _ _ _ _ _ Hok Hf) as [_ Hfit].
  assert (forall j, 0 <= j < 10 -> (length (fl j) <= fuel)%nat) as Hfuel'.
  { intros j Hj. specialize (Hfuel j Hj). lia. }
  unfold NULL.
  destruct (Z.eqb_spec bp0 0) as [-> | Hne]; cbn [negb].
  - assert (extend_size (Z.max asize CHUNKSIZE / WSIZE) = Z.max asize CHUNKSIZE) as Es.
    { apply extend_size_even; unfold CHUNKSIZE; [norm_pow; lia |].
      destruct (Z.max_spec asize 4096) as [[_ ->] | [_ ->]]; [reflexivity | assumption]. }
    assert (24 <= Z.max asize CHUNKSIZE /\ Z.max asize CHUNKSIZE mod 8 = 0) as Hx.
    { unfold CHUNKSIZE.
      destruct (Z.max_spec asize 4096) as [[_ ->] | [_ ->]]; split; try lia;
        try assumption; reflexivity. }
    rewrite <- Es in Hx.
    destruct (extend_heap_total fuel st bl fl _ Hok Hx Hfuel') as (r1 & st1 & He).
    rewrite He. cbn [obind].
    destruct (extend_heap_sound fuel st bl fl _ Hok Hx r1 st1 He)
      as [(-> & -> & _) | (bl1 & fl1 & s' & Hok1 & Hg1 & Hpay1 & Hal1 & Hin1 & Hs1 & Hlen1)].
    + cbn. eauto.
    + rewrite Es in Hs1. pose proof Hok1 as (Hrep1 & _).
      pose proof (rep_block _ _ _ Hrep1 _ _ Hin1) as B. cbn in B.
      pose proof (rep_pos _ _ _ Hrep1) as Hpos1.
      destruct (Z.eqb_spec r1 0) as [E | _]; [lia |].
      assert (asize <= s') as Hfit' by lia.
      destruct (place_total' fuel st1 bl1 fl1 r1 s' asize Hok1 Hin1 (conj A1 A2) Hfit')
        as (st2 & Hp).
      * intros j Hj. specialize (Hlen1 j). specialize (Hfuel j Hj). lia.
      * rewrite Hp. cbn. eauto.
  - destruct (Hfit Hne) as (s & Hb & Hs).
    destruct (place_total' fuel st bl fl bp0 s asize Hok Hb (conj A1 A2) Hs Hfuel')
      as (st2 & Hp).
    rewrite Hp. cbn. eauto.
Qed.

(** ** [realloc] and [calloc] *)

Lemma load1_memcpy m dst src n x :
  load1 (memcpy m dst src n) x
  = if (dst <=? x) && (x <? dst + n) then load1 m (src + (x - dst))
    else load1 m x.
Proof.
  unfold load1 at 1. unfold memcpy.
  destruct ((dst <=? x) && (x <? dst + n)); [| reflexivity].
  apply Z.mod_small. apply load1_range.
Qed.

Lemma load1_memset m dst c n x :
  load1 (memset m dst c n) x
  = if (dst <=? x) && (x <? dst + n) then c mod 256 else load1 m x.
Proof.
  unfold load1 at 1. unfold memset.
  destruct ((dst <=? x) && (x <? dst + n)); [| reflexivity].
  apply Z.mod_small. apply Z.mod_pos_bound. lia.
Qed.

Lemma load1_memcpy_out m dst src n x :
  x < dst \/ dst + n <= x -> load1 (memcpy m dst src n) x = load1 m x.
Proof.
  intros H. rewrite load1_memcpy.
  destruct (Z.leb_spec dst x), (Z.ltb_spec x (dst + n)); cbn; try reflexivity; lia.
Qed.

Lemma load1_memcpy_in m dst src n i :
  0 <= i < n -> load1 (memcpy m dst src n) (dst + i) = load1 m (src + i).
Proof.
  intros H. rewrite load1_memcpy.
  destruct (Z.leb_spec dst (dst + i)), (Z.ltb_spec (dst + i) (dst + n)); cbn;
    try lia.
  f_equal. lia.
Qed.

Lemma load1_memset_out m dst c n x :
  x < dst \/ dst + n <= x -> load1 (memset m dst c n) x = load1 m x.
Proof.
  intros H. rewrite load1_memset.
  destruct (Z.leb_spec dst x), (Z.ltb_spec x (dst + n)); cbn; try reflexivity; lia.
Qed.

(** The invariant reads the memory through [load1] only. *)
Lemma heap_ok_ext st st' bl fl :
  heap_ok st bl fl -> same_globals st st' ->
  (forall x, load1 (mem st') x = load1 (mem st) x) ->
  heap_ok st' bl fl.
Proof.
  intros (Hrep & Hcov & Hnaf) Hg Hx.
  assert (first_bp st' = first_bp st) as Gf by (apply first_bp_same; exact Hg).
  split; [| split].
  - apply (rep_frame st st' bl fl Hrep Hg); auto.
    + eapply tseg_frame; [| apply (rep_tiling _ _ _ Hrep)].
      intros p s al _. split; [| intros _]; apply load4_bytes; auto.
    + apply load4_bytes; auto.
  - intros p s Hp. rewrite Gf in Hp. apply Hcov. exact Hp.
  - exact Hnaf.
Qed.

(** The 8-byte word [realloc] reads at [p - 8] has the header of [p] as
    its upper half, so it is never below the payload size. *)
Lemma old_size_large st bl fl p s :
  heap_rep st bl fl -> In (p, (s, true)) (layout (first_bp st) bl) ->
  s <= load8 (mem st) (SIZE_PTR p).
Proof.
  intros Hrep Hp.
  destruct (tseg_lookup _ _ _ _ _ _ _ (rep_tiling _ _ _ Hrep) Hp) as (pa & Hh & _).
  pose proof (rep_block _ _ _ Hrep _ _ Hp) as B. cbn in B.
  unfold SIZE_PTR, SIZE_T_SIZE, load8.
  replace (p - 8 + 4) with (p - 4) by lia. rewrite Hh.
  pose proof (load4_range (mem st) (p - 8)).
  unfold hdr_word. pose proof (b2z_range pa). cbn [Z.b2z]. norm_pow. lia.
Qed.

Lemma realloc_unfold fuel st p size :
  size <> 0 -> p <> 0 ->
  realloc fuel st p size
  = ('(q, st1) <- malloc fuel st size ;;
     if q =? 0 then Some (0, st1)
     else
       let oldsize := load8 (mem st1) (SIZE_PTR p) in
       let n := if size <? oldsize then size else oldsize in
       if in_arena st1 q n && in_arena st1 p n then
         st' <- free fuel (set_mem st1 (memcpy (mem st1) q p n)) p ;;
         Some (q, st')
       else None).
Proof.
  intros Hs Hp. unfold realloc, NULL.
  destruct (Z.eqb_spec size 0); [contradiction |].
  destruct (Z.eqb_spec p 0); [contradiction |]. reflexivity.
Qed.

Lemma realloc_sound fuel st bl fl p s size q st' :
  heap_ok st bl fl -> In (p, (s, true)) (layout (first_bp st) bl) ->
  size <> 0 -> size_ok size ->
  realloc fuel st p size = Some (q, st') ->
  realloc_post st bl fl p s size q st'.
Proof.
  intros Hok Hp Hnz Hsize Hr. pose proof Hok as (Hrep & _).
  pose proof (rep_block _ _ _ Hrep _ _ Hp) as Bp. cbn in Bp.
  pose proof (rep_pos _ _ _ Hrep) as Hpos.
  rewrite realloc_unfold in Hr by lia.
  destruct (malloc fuel st size) as [[q1 st1] |] eqn:Hm; [| discriminate].
  cbn [obind] in Hr.
  destruct (malloc_sound _ _ _ _ _ _ _ Hok Hsize Hm)
    as (bl1 & fl1 & Hok1 & Hg1 & Hpay1 & Hfwd1 & Hbwd1 & Hz1 & Hnz1 & Hlen1).
  destruct (Z.eqb_spec q1 0) as [E | Hq].
  { injection Hr as <- <-. left. split; [reflexivity | apply Hz1; exact E]. }
  cbv zeta in Hr.
  set (n := if size <? load8 (mem st1) (SIZE_PTR p) then size
            else load8 (mem st1) (SIZE_PTR p)) in *.
  set (st2 := set_mem st1 (memcpy (mem st1) q1 p n)) in *.
  destruct (in_arena st1 q1 n && in_arena st1 p n); [| discriminate].
  destruct (free fuel st2 p) as [st3 |] eqn:Hf; [| discriminate].
  cbn in Hr. injection Hr as <- <-.
  destruct (Hnz1 Hq) as ((sa & Hqa & Hsa) & Hfresh).
  pose proof (first_bp_anchors _ _ Hg1) as E1.
  pose proof Hok1 as (Hrep1 & _).
  assert (In (p, (s, true)) (layout (first_bp st1) bl1)) as Hp1 by (apply Hfwd1; exact Hp).
  assert (q1 <> p) as Hqp.
  { intros ->. destruct (Hfresh s true) as [H | H]; [contradiction | discriminate]. }
  assert (Z.min size (s - 4) <= n <= size) as Hn.
  { pose proof (old_size_large _ _ _ _ _ Hrep1 Hp1) as Ho. unfold n.
    destruct (Z.ltb_spec size (load8 (mem st1) (SIZE_PTR p))); lia. }
  assert (same_globals st1 st2) as Hg2 by (repeat split).
  destruct (payload_write st1 st2 bl1 fl1 q1 sa Hok1 Hqa Hg2) as [Hok2 Hpay2].
  { intros x Hx. unfold st2. cbn [mem set_mem]. apply load1_memcpy_out. lia. }
  assert (first_bp st2 = first_bp st1) as E2 by reflexivity.
  assert (In (p, (s, true)) (layout (first_bp st2) bl1)) as Hp2
      by (rewrite E2; exact Hp1).
  destruct (free_sound _ _ _ _ _ _ _ Hok2 Hp2 Hf)
    as (bl3 & fl3 & Hok3 & Hg3 & Hkeep3 & Hback3 & Hlen3).
  pose proof (first_bp_same _ _ Hg3) as E3.
  right. split; [exact Hq |]. split; [exact Hqp |].
  exists bl3, fl3, sa. split; [exact Hok3 |].
  split; [| split; [| split; [| split; [| split; [| split; [| split]]]]]].
  - eapply same_anchors_trans; [exact Hg1 |].
    apply same_globals_anchors.
    eapply same_globals_trans; [exact Hg2 | exact Hg3].
  - apply Hkeep3; [rewrite E2; exact Hqa | exact Hqp].
  - exact Hsa.
  - intros p' sz Hb Hne. apply Hkeep3; [| exact Hne].
    rewrite E2. apply Hfwd1. exact Hb.
  - intros p' sz Hb. destruct (Hback3 _ _ Hb) as [Hb2 Hne].
    rewrite E2 in Hb2. destruct (Hbwd1 _ _ Hb2) as [[-> _] | Hb0]; auto.
  - intros i Hi.
    destruct (Hkeep3 q1 sa) as [_ Hk]; [rewrite E2; exact Hqa | exact Hqp |].
    rewrite Hk by lia. unfold st2. cbn [mem set_mem].
    rewrite load1_memcpy_in by lia.
    apply (Hpay1 p s); [exact Hp | lia].
  - intros p' sz x Hb Hne Hx.
    assert (In (p', (sz, true)) (layout (first_bp st1) bl1)) as Hb1
        by (apply Hfwd1; exact Hb).
    destruct (Hkeep3 p' sz) as [_ Hk]; [rewrite E2; exact Hb1 | exact Hne |].
    rewrite Hk by exact Hx.
    assert (p' <> q1) as Hne'.
    { intros ->. destruct (Hfresh sz true) as [H | H]; [contradiction | discriminate]. }
    rewrite (Hpay2 p' sz x Hb1 Hne' Hx).
    apply (Hpay1 p' sz); assumption.
  - intros j. specialize (Hlen1 j). specialize (Hlen3 j). lia.
Qed.

(** [realloc] returns when the bytes it reads at [p] lie in the arena; this
    is so in particular when the request is at most the old payload. *)
Lemma realloc_total fuel st bl fl p s size :
  heap_ok st bl fl -> In (p, (s, true)) (layout (first_bp st) bl) ->
  size <> 0 -> size_ok size -> p + size <= mem_max_addr st ->
  (forall j, 0 <= j < 10 -> (length (fl j) + 10 <= fuel)%nat) ->
  exists q st', realloc fuel st p size = Some (q, st').
Proof.
  intros Hok Hp Hnz Hsize Hsrc Hfuel. pose proof Hok as (Hrep & _).
  pose proof (rep_block _ _ _ Hrep _ _ Hp) as Bp. cbn in Bp.
  pose proof (rep_pos _ _ _ Hrep) as Hpos.
  rewrite realloc_unfold by lia.
  destruct (malloc_total fuel st bl fl size Hok Hsize Hfuel) as (q1 & st1 & Hm).
  rewrite Hm. cbn [obind].
  destruct (malloc_sound _ _ _ _ _ _ _ Hok Hsize Hm)
    as (bl1 & fl1 & Hok1 & Hg1 & Hpay1 & Hfwd1 & Hbwd1 & Hz1 & Hnz1 & Hlen1).
  destruct (Z.eqb_spec q1 0) as [E | Hq]; [eauto |].
  cbv zeta.
  set (n := if size <? load8 (mem st1) (SIZE_PTR p) then size
            else load8 (mem st1) (SIZE_PTR p)).
  set (st2 := set_mem st1 (memcpy (mem st1) q1 p n)).
  destruct (Hnz1 Hq) as ((sa & Hqa & Hsa) & Hfresh).
  pose proof Hok1 as (Hrep1 & _).
  assert (In (p, (s, true)) (layout (first_bp st1) bl1)) as Hp1 by (apply Hfwd1; exact Hp).
  assert (n <= size) as Hn.
  { unfold n. destruct (Z.ltb_spec size (load8 (mem st1) (SIZE_PTR p))); lia. }
  assert (same_globals st1 st2) as Hg2 by (repeat split).
  assert (in_arena st1 q1 n && in_arena st1 p n = true) as Hin.
  { pose proof (rep_block _ _ _ Hrep1 _ _ Hqa) as Bq. cbn in Bq.
    pose proof (rep_max _ _ _ Hrep1) as Hmax1.
    destruct Hg1 as (_ & Gs & Gm & _). unfold first_bp in *.
    unfold size_ok in Hsize. unfold in_arena. rewrite Gs, Gm.
    apply andb_true_intro; split; apply andb_true_intro; split;
      apply Z.leb_le; lia. }
  rewrite Hin.
  destruct (payload_write st1 st2 bl1 fl1 q1 sa Hok1 Hqa Hg2) as [Hok2 _].
  { intros x Hx. unfold st2. cbn [mem set_mem]. apply load1_memcpy_out. lia. }
  destruct (free_total fuel st2 bl1 fl1 p s Hok2 Hp1) as (st3 & Hf).
  - intros j Hj. specialize (Hlen1 j). specialize (Hfuel j Hj). lia.
  - rewrite Hf. cbn. eauto.
Qed.

Lemma calloc_unfold fuel st nmemb size :
  calloc fuel st nmemb size
  = ('(q, st1) <- malloc fuel st (wrap64 (nmemb * size)) ;;
     Some (q, set_mem st1 (memset (mem st1) q 0 (wrap64 (nmemb * size))))).
Proof. reflexivity. Qed.

(** [calloc] when its [malloc] succeeded, or had nothing to clear. *)
Lemma calloc_sound fuel st bl fl nmemb size q st' :
  heap_ok st bl fl -> size_ok (wrap64 (nmemb * size)) ->
  calloc fuel st nmemb size = Some (q, st') ->
  q <> 0 \/ wrap64 (nmemb * size) = 0 ->
  exists st1 bl' fl',
    malloc fuel st (wrap64 (nmemb * size)) = Some (q, st1) /\
    heap_ok st1 bl' fl' /\ heap_ok st' bl' fl' /\ same_globals st1 st' /\
    same_anchors st st' /\
    (forall p sz, In (p, (sz, true)) (layout (first_bp st) bl) ->
                  In (p, (sz, true)) (layout (first_bp st') bl')) /\
    (forall p sz, In (p, (sz, true)) (layout (first_bp st') bl') ->
                  (p = q /\ q <> 0) \/ In (p, (sz, true)) (layout (first_bp st) bl)) /\
    (q <> 0 -> exists sa, In (q, (sa, true)) (layout (first_bp st') bl') /\
                          wrap64 (nmemb * size) + 4 <= sa) /\
    (forall p sz x, In (p, (sz, true)) (layout (first_bp st) bl) ->
                    p <= x < p + sz - 4 -> load1 (mem st') x = load1 (mem st) x) /\
    (forall j, (length (fl' j) <= length (fl j) + 2)%nat).
Proof.
  intros Hok Hsize Hc Hsurv. rewrite calloc_unfold in Hc.
  set (bytes := wrap64 (nmemb * size)) in *.
  destruct (malloc fuel st bytes) as [[q1 st1] |] eqn:Hm; [| discriminate].
  cbn in Hc. injection Hc as <- <-.
  destruct (malloc_sound _ _ _ _ _ _ _ Hok Hsize Hm)
    as (bl1 & fl1 & Hok1 & Hg1 & Hpay1 & Hfwd1 & Hbwd1 & Hz1 & Hnz1 & Hlen1).
  set (st2 := set_mem st1 (memset (mem st1) q1 0 bytes)).
  assert (same_globals st1 st2) as Hg2 by (repeat split).
  assert (first_bp st2 = first_bp st1) as E2 by reflexivity.
  pose proof (first_bp_anchors _ _ Hg1) as E1.
  assert (heap_ok st2 bl1 fl1 /\
          forall p sz x, In (p, (sz, true)) (layout (first_bp st) bl) ->
                         p <= x < p + sz - 4 ->
                         load1 (mem st2) x = load1 (mem st1) x) as [Hok2 Hpay2].
  { destruct (Z.eq_dec q1 0) as [Hq | Hq].
    - assert (bytes = 0) as Hb by (destruct Hsurv; [contradiction | assumption]).
      assert (forall x, load1 (mem st2) x = load1 (mem st1) x) as Hx.
      { intros x. unfold st2. cbn [mem set_mem]. apply load1_memset_out. lia. }
      split; [eapply heap_ok_ext; eassumption | auto].
    - destruct (Hnz1 Hq) as ((sa & Hqa & Hsa) & Hfresh).
      destruct (payload_write st1 st2 bl1 fl1 q1 sa Hok1 Hqa Hg2) as [H1 H2].
      { intros x Hx. unfold st2. cbn [mem set_mem]. apply load1_memset_out. lia. }
      split; [exact H1 |]. intros p sz x Hp Hx.
      apply (H2 p sz x); [apply Hfwd1; exact Hp | | exact Hx].
      intros ->. destruct (Hfresh sz true) as [H | H]; [contradiction | discriminate]. }
  exists st1, bl1, fl1. split; [reflexivity |]. split; [exact Hok1 |].
  split; [exact Hok2 |]. split; [exact Hg2 |].
  split; [eapply same_anchors_trans; [exact Hg1 | apply same_globals_anchors; exact Hg2] |].
  split; [intros p sz Hp; rewrite E2; apply Hfwd1; exact Hp |].
  split; [intros p sz Hp; rewrite E2 in Hp; apply Hbwd1; exact Hp |].
  split; [intros Hq; rewrite E2; apply (Hnz1 Hq) |].
  split; [| exact Hlen1].
  intros p sz x Hp Hx. rewrite (Hpay2 p sz x Hp Hx). apply (Hpay1 p sz); assumption.
Qed.

(** ** One call keeps the invariant *)

Lemma in_remove_ptr x p live : In x (remove_ptr p live) <-> In x live /\ x <> p.
Proof.
  unfold remove_ptr. rewrite filter_In.
  destruct (Z.eqb_spec x p); cbn; intuition congruence.
Qed.

Lemma tracks_pos st bl fl live p :
  heap_ok st bl fl -> tracks st bl live -> In p live -> 0 < p.
Proof.
  intros (Hrep & _) Ht Hp. apply Ht in Hp. destruct Hp as (s & Hb).
  pose proof (rep_block _ _ _ Hrep _ _ Hb) as B. cbn in B.
  pose proof (rep_pos _ _ _ Hrep). lia.
Qed.

Lemma malloc_tracks n st bl fl live size r st' :
  heap_ok st bl fl -> tracks st bl live ->
  malloc_post_n n st bl fl size r st' ->
  exists bl' fl', heap_ok st' bl' fl' /\
    tracks st' bl' (if r =? 0 then live else r :: live) /\
    (forall j, (length (fl' j) <= length (fl j) + n)%nat).
Proof.
  intros Hok Ht (bl' & fl' & Hok' & Hg & Hpay & Hfwd & Hbwd & Hz & Hnz & Hlen).
  exists bl', fl'. split; [exact Hok' |]. split; [| exact Hlen].
  intros x. split.
  - intros Hx. destruct (Z.eqb_spec r 0) as [E | Hr].
    + apply Ht in Hx. destruct Hx as (s & Hb). exists s. auto.
    + destruct Hx as [<- | Hx].
      * destruct (Hnz Hr) as ((sa & Hb & _) & _). eauto.
      * apply Ht in Hx. destruct Hx as (s & Hb). exists s. auto.
  - intros (s & Hb). destruct (Hbwd _ _ Hb) as [[-> Hr] | Hb0].
    + destruct (Z.eqb_spec r 0); [contradiction | left; reflexivity].
    + assert (In x live) as Hx by (apply Ht; eauto).
      destruct (r =? 0); [exact Hx | right; exact Hx].
Qed.

Lemma free_tracks fuel st bl fl live p st' :
  heap_ok st bl fl -> tracks st bl live -> p = 0 \/ In p live ->
  free fuel st p = Some st' ->
  exists bl' fl', heap_ok st' bl' fl' /\ tracks st' bl' (remove_ptr p live) /\
    (forall j, (length (fl' j) <= length (fl j) + 1)%nat).
Proof.
  intros Hok Ht Hp Hf.
  destruct (Z.eq_dec p 0) as [-> | Hne].
  - unfold free, NULL in Hf. cbn in Hf. injection Hf as <-.
    exists bl, fl. split; [exact Hok |]. split; [| intros j; lia].
    intros x. rewrite in_remove_ptr. split.
    + intros [Hx _]. apply Ht. exact Hx.
    + intros Hx. apply Ht in Hx. split; [exact Hx |].
      pose proof (tracks_pos _ _ _ _ _ Hok Ht Hx). lia.
  - destruct Hp as [-> | Hp]; [contradiction |].
    apply Ht in Hp. destruct Hp as (s & Hb).
    destruct (free_sound _ _ _ _ _ _ _ Hok Hb Hf)
      as (bl' & fl' & Hok' & Hg & Hkeep & Hback & Hlen).
    exists bl', fl'. split; [exact Hok' |].
    split; [| intros j; specialize (Hlen j); lia].
    intros x. rewrite in_remove_ptr. split.
    + intros [Hx Hxp]. apply Ht in Hx. destruct Hx as (sx & Hbx).
      exists sx. apply Hkeep; assumption.
    + intros (sx & Hbx). destruct (Hback _ _ Hbx) as [Hb0 Hxp].
      split; [apply Ht; eauto | exact Hxp].
Qed.

Lemma step_inv fuel st bl fl live c r st' :
  heap_ok st bl fl -> tracks st bl live -> valid_call live c ->
  run_call fuel st c = Some (r, st') -> survives c r ->
  exists bl' fl', heap_ok st' bl' fl' /\ tracks st' bl' (live_after live c r) /\
    (forall j, (length (fl' j) <= length (fl j) + 3)%nat).
Proof.
  intros Hok Ht Hv Hrun Hsurv. destruct c as [size | p | p size | n size];
    cbn [run_call valid_call live_after survives] in *.
  - pose proof (malloc_sound _ _ _ _ _ _ _ Hok Hv Hrun) as Hpost.
    destruct (malloc_tracks _ _ _ _ _ _ _ _ Hok Ht Hpost) as (bl' & fl' & H1 & H2 & H3).
    exists bl', fl'. split; [exact H1 |]. split; [exact H2 |].
    intros j. specialize (H3 j). lia.
  - destruct (free fuel st p) as [st1 |] eqn:Hf; [| discriminate].
    cbn in Hrun. injection Hrun as <- <-.
    destruct (free_tracks _ _ _ _ _ _ _ Hok Ht Hv Hf) as (bl' & fl' & H1 & H2 & H3).
    exists bl', fl'. split; [exact H1 |]. split; [exact H2 |].
    intros j. specialize (H3 j). lia.
  - destruct Hv as [Hp Hsize].
    destruct (Z.eqb_spec size 0) as [-> | Hnz].
    { unfold realloc in Hrun. cbn in Hrun.
      destruct (free fuel st p) as [st1 |] eqn:Hf; [| discriminate].
      cbn in Hrun. injection Hrun as <- <-.
      destruct (free_tracks _ _ _ _ _ _ _ Hok Ht Hp Hf) as (bl' & fl' & H1 & H2 & H3).
      exists bl', fl'. split; [exact H1 |]. split; [exact H2 |].
      intros j. specialize (H3 j). lia. }
    destruct (Z.eq_dec p 0) as [-> | Hne].
    { unfold realloc, NULL in Hrun.
      destruct (Z.eqb_spec size 0); [contradiction |]. cbn in Hrun.
      pose proof (malloc_sound _ _ _ _ _ _ _ Hok Hsize Hrun) as Hpost.
      destruct (malloc_tracks _ _ _ _ _ _ _ _ Hok Ht Hpost)
        as (bl' & fl' & H1 & H2 & H3).
      exists bl', fl'. split; [exact H1 |]. split.
      - intros x. rewrite <- (H2 x).
        destruct (r =? 0); cbn [In]; rewrite ?in_remove_ptr; split; intros H.
        + exact H.
        + exact H.
        + destruct H as [H | [H _]]; auto.
        + destruct H as [H | H]; [auto | right].
          split; [exact H |]. pose proof (tracks_pos _ _ _ _ _ Hok Ht H). lia.
      - intros j. specialize (H3 j). lia. }
    destruct Hp as [-> | Hp]; [contradiction |].
    pose proof Hp as Hp'. apply Ht in Hp'. destruct Hp' as (s & Hb).
    destruct (realloc_sound _ _ _ _ _ _ _ _ _ Hok Hb Hnz Hsize Hrun)
      as [[-> ->] | (Hq & Hqp & bl' & fl' & sa & Hok' & Hg & Hqa & Hsa & Hfwd & Hbwd & _ & _ & Hlen)].
    + exists bl, fl. cbn. split; [exact Hok |]. split; [exact Ht | intros j; lia].
    + exists bl', fl'. split; [exact Hok' |]. split; [| exact Hlen].
      destruct (Z.eqb_spec r 0); [contradiction |].
      intros x. cbn [In]. rewrite in_remove_ptr. split.
      * intros [<- | [Hx Hxp]]; [eauto |].
        apply Ht in Hx. destruct Hx as (sx & Hbx). exists sx. auto.
      * intros (sx & Hbx). destruct (Hbwd _ _ Hbx) as [-> | [Hb0 Hxp]]; [auto |].
        right. split; [apply Ht; eauto | exact Hxp].
  - destruct Hv as (_ & _ & Hsize).
    destruct (calloc_sound _ _ _ _ _ _ _ _ Hok Hsize Hrun Hsurv)
      as (st1 & bl' & fl' & Hm & Hok1 & Hok' & Hg2 & Hg & Hfwd & Hbwd & Hnz & _ & Hlen).
    exists bl', fl'. split; [exact Hok' |].
    split; [| intros j; specialize (Hlen j); lia].
    intros x. split.
    + intros Hx. destruct (Z.eqb_spec r 0) as [E | Hr].
      * apply Ht in Hx. destruct Hx as (s & Hb). exists s. auto.
      * destruct Hx as [<- | Hx].
        -- destruct (Hnz Hr) as (sa & Hb & _). eauto.
        -- apply Ht in Hx. destruct Hx as (s & Hb). exists s. auto.
    + intros (s & Hb). destruct (Hbwd _ _ Hb) as [[-> Hr] | Hb0].
      * destruct (Z.eqb_spec r 0); [contradiction | left; reflexivity].
      * assert (In x live) as Hx by (apply Ht; eauto).
        destruct (r =? 0); [exact Hx | right; exact Hx].
Qed.

(** Every reachable state satisfies the invariant, and the client's
    pointers are its allocated blocks. *)
Lemma reachable_inv st live :
  reachable st live -> exists bl fl, heap_ok st bl fl /\ tracks st bl live.
Proof.
  induction 1 as [st0 fuel st Hfresh Hinit
                 | st live fuel c r st' Hreach IH Hv Hrun Hsurv].
  - destruct (mm_init_sound _ _ _ Hfresh Hinit) as (bl & fl & Hok & _ & _ & Hnone).
    exists bl, fl. split; [exact Hok |]. intros p. split; [intros [] |].
    intros (s & Hb). exact (Hnone _ _ Hb).
  - destruct IH as (bl & fl & Hok & Ht).
    destruct (step_inv _ _ _ _ _ _ _ _ Hok Ht Hv Hrun Hsurv) as (bl' & fl' & H1 & H2 & _).
    eauto.
Qed.

(** ** The heap walk *)

Section Walk.
Variables (st : state) (bl : list blk) (fl : Z -> list Z).
Hypothesis Hrep : heap_rep st bl fl.

Lemma walk_prologue :
  GET_SIZE st (HDRP (heap_listp st)) = 8 /\
  GET_ALLOC st (HDRP (heap_listp st)) = 1 /\
  NEXT_BLKP st (heap_listp st) = first_bp st.
Proof.
  destruct (rep_prologue _ _ _ Hrep) as [P1 _].
  assert (GET st (HDRP (heap_listp st)) = 9) as E.
  { unfold GET, HDRP, WSIZE. rewrite (rep_listp _ _ _ Hrep), <- P1. f_equal. lia. }
  unfold NEXT_BLKP, GET_SIZE, GET_ALLOC. fold (HDRP (heap_listp st)).
  rewrite E. cbn. rewrite (rep_listp _ _ _ Hrep). unfold first_bp.
  repeat split; lia.
Qed.

Lemma walk_epilogue :
  GET_SIZE st (HDRP (mem_brk st)) = 0 /\ GET_ALLOC st (HDRP (mem_brk st)) = 1.
Proof.
  pose proof (rep_epilogue _ _ _ Hrep) as E.
  unfold GET_SIZE, GET_ALLOC, GET, HDRP, WSIZE. rewrite E.
  split; [apply hdr_size | apply hdr_alloc]; try reflexivity; lia.
Qed.

(** The block that follows a run of blocks is a block of the layout or
    the epilogue. *)
Lemma walk_after bl1 bl2 :
  bl = bl1 ++ bl2 ->
  (exists b, In (first_bp st + span bl1, b) (layout (first_bp st) bl))
  \/ first_bp st + span bl1 = mem_brk st.
Proof.
  intros ->. destruct bl2 as [| b bl2].
  - right. rewrite (rep_brk _ _ _ Hrep), app_nil_r. reflexivity.
  - left. exists b. apply layout_mid.
Qed.

(** The walk visits the prologue, the blocks of the layout and the
    epilogue. *)
Lemma walk_cases p :
  heap_block st p ->
  p = heap_listp st \/ (exists b, In (p, b) (layout (first_bp st) bl))
  \/ p = mem_brk st.
Proof.
  induction 1 as [| p Hp IH Hsize]; [auto |]. right.
  destruct IH as [-> | [(b & Hb) | ->]].
  - destruct walk_prologue as (_ & _ & ->).
    pose proof (walk_after [] bl eq_refl) as H. cbn in H.
    rewrite Z.add_0_r in H. exact H.
  - destruct b as [s al].
    destruct (layout_split _ _ _ _ Hb) as (bl1 & bl2 & E & ->).
    pose proof Hrep as Hrep'. rewrite E in Hrep'.
    rewrite (read_next st fl bl1 bl2 s al Hrep').
    pose proof (walk_after (bl1 ++ [(s, al)]) bl2) as H.
    rewrite <- app_assoc, span_app in H. cbn in H.
    replace (first_bp st + (span bl1 + (s + 0)))
      with (first_bp st + span bl1 + s) in H by lia.
    apply H. exact E.
  - destruct walk_epilogue as [E _]. lia.
Qed.
End Walk.

(** In a state that satisfies the invariant the walk never finds a free
    block followed by a free block. *)
Lemma walk_no_adjacent_free st bl fl p :
  heap_ok st bl fl -> heap_block st p -> ~ both_free st p.
Proof.
  intros (Hrep & _ & Hnaf) Hp [F1 F2].
  destruct (walk_cases st bl fl Hrep p Hp) as [-> | [(b & Hb) | ->]].
  - destruct (walk_prologue st bl fl Hrep) as (_ & E & _). lia.
  - destruct b as [s al].
    destruct (layout_split _ _ _ _ Hb) as (bl1 & bl2 & E & ->). subst bl.
    rewrite (read_alloc st fl bl1 bl2 s al Hrep) in F1.
    rewrite (read_next st fl bl1 bl2 s al Hrep) in F2.
    rewrite (read_next_alloc st fl bl1 bl2 s al Hrep) in F2.
    destruct al; [discriminate |].
    apply naf_app in Hnaf. destruct Hnaf as [_ N]. cbn in N.
    destruct N as [_ N]. pose proof (naf_false_hd _ N) as Hn.
    rewrite Hn in F2. discriminate.
  - destruct (walk_epilogue st bl fl Hrep) as [_ E]. lia.
Qed.

(** Nor a free block whose prev-alloc bit is clear. *)
Lemma walk_no_prev_free st bl fl p :
  heap_ok st bl fl -> heap_block st p -> ~ prev_both_free st p.
Proof.
  intros (Hrep & _ & Hnaf) Hp [F1 F2].
  destruct (walk_cases st bl fl Hrep p Hp) as [-> | [(b & Hb) | ->]].
  - destruct (walk_prologue st bl fl Hrep) as (_ & E & _). lia.
  - destruct b as [s al].
    destruct (layout_split _ _ _ _ Hb) as (bl1 & bl2 & E & ->). subst bl.
    rewrite (read_alloc st fl bl1 bl2 s al Hrep) in F1.
    rewrite (read_prev_alloc st fl bl1 bl2 s al Hrep) in F2.
    destruct al; [discriminate |].
    apply naf_app in Hnaf. destruct Hnaf as [_ N]. cbn in N.
    destruct N as [[N | N] _]; [| discriminate].
    rewrite N in F2. discriminate.
  - destruct (walk_epilogue st bl fl Hrep) as [_ E]. lia.
Qed.

(** ** Rewriting the footer of a free block *)

Lemma tseg_weaken m m' a pa bl :
  (forall p s al, In (p, (s, al)) (layout a bl) ->
     load4 m' (p - 4) = load4 m (p - 4) /\
     (al = false -> Z.land (load4 m' (p + s - 8)) (Z.lnot 7)
                    = Z.land (load4 m (p + s - 8)) (Z.lnot 7))) ->
  tseg m a pa bl -> tseg m' a pa bl.
Proof.
  revert a pa. induction bl as [| [s al] bl IH]; intros a pa Hfr Ht; cbn in *.
  - exact I.
  - destruct Ht as (H1 & H2 & Hh & Hf & Ht).
    destruct (Hfr a s al) as [E1 E2]; [left; reflexivity |].
    split; [exact H1 |]. split; [exact H2 |].
    split; [rewrite E1; exact Hh |].
    split; [intros Hal; rewrite (E2 Hal); auto |].
    apply IH; [| exact Ht]. intros p s' al' Hp. apply Hfr. right. exact Hp.
Qed.

(** A store into the footer word of a free block that keeps the size
    there keeps the representation: the flags of a footer are not part of
    it. *)
Lemma rep_footer_write st bl fl q sq w :
  heap_rep st bl fl -> In (q, (sq, false)) (layout (first_bp st) bl) ->
  Z.land (wrap32 w) (Z.lnot 7) = sq ->
  heap_rep (PUT st (q + sq - 8) w) bl fl.
Proof.
  intros Hrep Hq Hw.
  pose proof (rep_wf _ _ _ Hrep) as Hwf.
  pose proof (rep_block _ _ _ Hrep _ _ Hq) as Bq. cbn in Bq.
  assert (forall x, x < q + sq - 8 \/ q + sq - 4 <= x ->
                    load1 (mem (PUT st (q + sq - 8) w)) x = load1 (mem st) x) as Hfr.
  { intros x Hx. unfold PUT. cbn [mem set_mem]. mem_simp. reflexivity. }
  assert (forall p b, In (p, b) (layout (first_bp st) bl) -> p <> q ->
                      p + fst b <= q \/ q + sq <= p) as Hsep.
  { intros p b Hp Hne.
    destruct (layout_sep _ _ _ _ _ _ Hwf Hp Hq) as [[E _] | Hd];
      [contradiction | cbn in Hd; lia]. }
  apply (rep_frame st _ bl fl Hrep); [repeat split | | | |].
  - intros x Hx. apply Hfr. unfold first_bp in *. lia.
  - eapply tseg_weaken; [| apply (rep_tiling _ _ _ Hrep)].
    intros p s al Hp.
    pose proof (rep_block _ _ _ Hrep _ _ Hp) as Bp. cbn in Bp.
    destruct (Z.eq_dec p q) as [-> | Hne].
    + pose proof (layout_fun _ _ _ _ _ Hwf Hp Hq) as E.
      assert (s = sq /\ al = false) as [Es Ea] by (inversion E; auto).
      rewrite Es.
      split; [apply load4_bytes; intros k Hk; apply Hfr; lia |].
      intros _. unfold PUT. cbn [mem set_mem]. rewrite load4_store4_same, Hw.
      destruct (tseg_lookup _ _ _ _ _ _ _ (rep_tiling _ _ _ Hrep) Hq) as (pa' & _ & Hf).
      symmetry. apply Hf. reflexivity.
    + destruct (Hsep _ _ Hp Hne) as [Hd | Hd]; cbn in Hd;
        (split; [| intros _; f_equal]); apply load4_bytes; intros k Hk;
        apply Hfr; lia.
  - apply load4_bytes. intros k Hk. apply Hfr. lia.
  - intros j p x Hj Hp Hx.
    destruct (rep_member _ _ _ Hrep j p Hj Hp) as (s & Hb & _ & Hs & _).
    destruct (Z.eq_dec p q) as [-> | Hne]; [apply Hfr; lia |].
    destruct (Hsep _ _ Hb Hne) as [Hd | Hd]; cbn in Hd; apply Hfr; lia.
Qed.
(** * Further facts about the representation *)

(** ** The walk visits every block *)

Lemma walk_reaches st bl fl p b :
  heap_rep st bl fl -> In (p, b) (layout (first_bp st) bl) -> heap_block st p.
Proof.
  intros Hrep Hb.
  destruct (layout_split _ _ _ _ Hb) as (bl1 & bl2 & E & ->). clear Hb.
  revert b bl2 E. induction bl1 as [| [s al] bl1 IH] using rev_ind;
    intros b bl2 E.
  - cbn. rewrite Z.add_0_r.
    destruct (walk_prologue st bl fl Hrep) as (Hs & _ & <-).
    apply hb_next; [apply hb_first | lia].
  - rewrite <- app_assoc in E. cbn [app] in E.
    pose proof (IH _ _ E) as Hprev.
    pose proof Hrep as Hrep'. rewrite E in Hrep'.
    pose proof (read_next st fl bl1 (b :: bl2) s al Hrep') as Rn.
    pose proof (read_size st fl bl1 (b :: bl2) s al Hrep') as Rs.
    pose proof (read_wf st fl bl1 (b :: bl2) s al Hrep') as Wf.
    rewrite span_app. cbn [span].
    replace (first_bp st + (span bl1 + (s + 0)))
      with (first_bp st + span bl1 + s) by lia.
    rewrite <- Rn. apply hb_next; [exact Hprev | lia].
Qed.

(** ** Size classes *)

Lemma get_root_index_mono a b :
  a <= b -> get_root_index a <= get_root_index b.
Proof.
  intros H. unfold get_root_index.
  repeat match goal with
         | |- context [?x <=? ?y] => destruct (Z.leb_spec x y)
         end; lia.
Qed.

(** When no bucket from the one of [asize] upwards holds a fitting block,
    no free block of the heap fits. *)
Lemma no_fit_small st bl fl asize p s :
  heap_ok st bl fl ->
  first_fit_from (size_at (mem st)) asize fl (get_root_index asize)
                 (Z.to_nat (10 - get_root_index asize)) = 0 ->
  In (p, (s, false)) (layout (first_bp st) bl) -> s < asize.
Proof.
  intros (Hrep & Hcov & _) Hf Hb.
  pose proof (get_root_index_range asize) as Hi.
  pose proof (get_root_index_range s) as Hj.
  destruct (Z.lt_ge_cases s asize) as [Hlt | Hge]; [exact Hlt |].
  pose proof (get_root_index_mono _ _ Hge) as Hm.
  destruct (Hcov _ _ Hb) as [[] | Hin].
  destruct (first_fit_from_cases st asize fl (Z.to_nat (10 - get_root_index asize))
              (get_root_index asize)) as [(Hr & _) | (_ & Hall)].
  - intros j q Hjq Hq.
    destruct (rep_member _ _ _ Hrep j q) as (s0 & _ & _ & _ & _ & _ & Hq0);
      [lia | exact Hq | lia].
  - congruence.
  - specialize (Hall (get_root_index s) p ltac:(lia) Hin).
    rewrite (size_at_block _ _ _ _ _ _ _ (rep_tiling _ _ _ Hrep) Hb) in Hall.
    exact Hall.
Qed.
(** * Requests below the minimum block size *)

(** For a request that wraps in the size adjustment [malloc] computes an
    adjusted size below 24.  [place] then still writes inside the chosen
    free block only, apart from the list links it updates. *)

Section SplitAny.
Variables (st : state) (fl : Z -> list Z) (bl1 bl2 : list blk) (s : Z).
Let bl := bl1 ++ (s, false) :: bl2.
Let bp := first_bp st + span bl1.
Let pa := last_alloc true bl1.
Hypothesis Hrep : heap_rep st bl fl.
Variables (asize : Z).
Let rsize := s - asize.
Let ha := hdr_word asize pa true.
Let hr := hdr_word rsize true false.
Hypothesis Ha : 0 <= asize /\ asize mod 8 = 0.
Hypothesis Hr : 24 <= rsize.

Lemma any_split_next :
  NEXT_BLKP (PUT st (HDRP bp)
               (PACK asize (Z.lor (GET_PREV_ALLOC st (HDRP bp)) 1))) bp
  = bp + asize.
Proof.
  pose proof (read_wf _ _ _ _ _ _ Hrep) as Wf. fold bp in Wf.
  pose proof (read_prev_alloc _ _ _ _ _ _ Hrep) as Rp. fold bp pa in Rp.
  rewrite Rp, lor_pa_1.
  rewrite (pack_hdr asize pa true) by (try tauto; cbn; lia).
  unfold NEXT_BLKP, GET_SIZE, GET, PUT, HDRP, WSIZE. cbn [mem set_mem].
  rewrite load4_store4_same, hdr_wrap, hdr_size by (unfold rsize in *; lia).
  reflexivity.
Qed.

Lemma any_split_mem :
  mem (split_block st bp asize rsize)
  = store8 (store8 (store4 (store4 (store4 (mem st) (bp - 4) ha)
                                   (bp + asize - 4) hr)
                           (bp + s - 8) hr) (bp + asize) 0)
           (bp + asize + 8) 0.
Proof.
  pose proof (read_wf _ _ _ _ _ _ Hrep) as Wf. fold bp in Wf.
  destruct Wf as (S1 & S2 & S3 & S4 & B1 & B2 & B3 & B4 & B5 & B6 & B7).
  destruct Ha as [A1 A2].
  assert (rsize mod 8 = 0) as R2 by (unfold rsize; zdm).
  pose proof any_split_next as Hn.
  pose proof (read_prev_alloc _ _ _ _ _ _ Hrep) as Rp. fold bp pa in Rp.
  unfold split_block. rewrite Hn. rewrite Rp, lor_pa_1.
  rewrite (pack_hdr asize pa true) by (try assumption; cbn; lia). fold ha.
  rewrite (pack_hdr rsize true false) by (try assumption; cbn; lia). fold hr.
  set (st3 := PUT (PUT st (HDRP bp) ha) (HDRP (bp + asize)) hr).
  assert (FTRP st3 (bp + asize) = bp + s - 8) as F.
  { unfold FTRP, GET_SIZE, GET, st3, PUT, HDRP, WSIZE, DSIZE.
    cbn [mem set_mem]. rewrite load4_store4_same.
    unfold hr. rewrite hdr_wrap, hdr_size by (unfold rsize in *; lia).
    unfold rsize. lia. }
  rewrite F. unfold st3, SET_NEXTP, SET_PREVP, PUT_8B, PUT, HDRP, WSIZE, NULL.
  cbn [mem set_mem]. reflexivity.
Qed.

Lemma any_split_frame x :
  x < bp - 4 \/ bp + s - 4 <= x ->
  load1 (mem (split_block st bp asize rsize)) x = load1 (mem st) x.
Proof.
  intros Hx. pose proof (read_wf _ _ _ _ _ _ Hrep) as Wf. fold bp in Wf.
  rewrite any_split_mem. unfold rsize in *. mem_simp. reflexivity.
Qed.

(** The header of the remainder, as [insert_to_free_list] reads it. *)
Lemma any_split_size :
  GET_SIZE (split_block st bp asize rsize) (HDRP (bp + asize)) = rsize.
Proof.
  pose proof (read_wf _ _ _ _ _ _ Hrep) as Wf. fold bp in Wf.
  destruct Wf as (S1 & S2 & S3 & S4 & B1 & B2 & B3 & B4 & B5 & B6 & B7).
  destruct Ha as [A1 A2].
  assert (rsize mod 8 = 0) as R2 by (unfold rsize; zdm).
  unfold GET_SIZE, GET, HDRP, WSIZE. rewrite any_split_mem.
  unfold rsize in *. mem_simp. fold rsize. unfold hr.
  rewrite hdr_wrap, hdr_size by (unfold rsize in *; lia). reflexivity.
Qed.
End SplitAny.

(** [insert_to_free_list] on any state in which the bucket it selects is a
    list [l]: it writes the root of that bucket and link fields of [bp] and
    of nodes of [l] only. *)
Lemma insert_raw_frame fuel st bp l st' :
  0 < bp < 2 ^ 64 ->
  dll (mem st) (load8 (mem st) (get_root st (GET_SIZE st (HDRP bp)))) l ->
  sep_list (bp :: l) ->
  (forall q, In q (bp :: l) -> get_root st (GET_SIZE st (HDRP bp)) + 8 <= q) ->
  insert_to_free_list fuel st bp = Some st' ->
  same_globals st st' /\
  forall x,
    x < get_root st (GET_SIZE st (HDRP bp))
    \/ get_root st (GET_SIZE st (HDRP bp)) + 8 <= x ->
    (forall q, In q (bp :: l) -> x < q \/ q + 16 <= x) ->
    load1 (mem st') x = load1 (mem st) x.
Proof.
  intros Hbp Hdll Hsep Hroot Hins.
  set (sz := GET_SIZE st (HDRP bp)) in *. set (r := get_root st sz) in *.
  rewrite insert_unfold in Hins by lia. fold sz r in Hins.
  destruct Hdll as (last & Hl). unfold GET_8B in Hins.
  destruct (insert_scan fuel st sz r (load8 (mem st) r)) as [[prev next] |] eqn:Hscan;
    [| discriminate].
  apply (insert_scan_sound _ _ _ _ _ _ _ _ _ Hl) in Hscan.
  cbn [obind] in Hins. injection Hins as <-. injection Hscan as -> ->.
  pose proof (scan_split_app (size_at (mem st)) sz l) as Esplit.
  set (l1 := fst (scan_split (size_at (mem st)) sz l)) in *.
  set (l2 := snd (scan_split (size_at (mem st)) sz l)) in *.
  split; [apply link_in_globals |].
  intros x Hx Hq.
  assert (dll (mem st) (load8 (mem st) r) (l1 ++ l2)) as Hdll.
  { rewrite <- Esplit. exists last. exact Hl. }
  rewrite Esplit in Hsep, Hroot, Hq.
  apply (link_in_frame st r bp l1 l2 Hdll Hsep Hroot x Hx Hq).
Qed.

(** An allocated block of the layout has a header of at least 24. *)
Lemma allocated_header st bl fl p sp :
  heap_rep st bl fl -> In (p, (sp, true)) (layout (first_bp st) bl) ->
  24 <= load4 (mem st) (p - 4).
Proof.
  intros Hrep Hp.
  destruct (tseg_lookup _ _ _ _ _ _ _ (rep_tiling _ _ _ Hrep) Hp) as (pa & Hh & _).
  pose proof (rep_block _ _ _ Hrep _ _ Hp) as B. cbn in B.
  rewrite Hh. unfold hdr_word. pose proof (b2z_range pa). cbn [Z.b2z]. lia.
Qed.

(** [place] with an adjusted size that leaves less than a minimum block
    does not look at the adjusted size. *)
Lemma place_take_any fuel st bp asize asize' :
  0 <= GET_SIZE st (HDRP bp) - asize < 24 ->
  0 <= GET_SIZE st (HDRP bp) - asize' < 24 ->
  place fuel st bp asize = place fuel st bp asize'.
Proof.
  intros H1 H2. rewrite !place_unfold. cbv zeta.
  rewrite !wrap64_small by (norm_pow; lia). unfold MINBLOCKSIZE, DSIZE.
  destruct (Z.geb_spec (GET_SIZE st (HDRP bp) - asize) (3 * 8)); [lia |].
  destruct (Z.geb_spec (GET_SIZE st (HDRP bp) - asize') (3 * 8)); [lia |].
  reflexivity.
Qed.

(** [place] of any adjusted size that is a multiple of 8 and fits the free
    block: the anchors and the primitive's state are as before, and every
    allocated block still has a header of at least 24. *)
Lemma place_any fuel st bl fl bp s asize st' :
  heap_ok st bl fl -> In (bp, (s, false)) (layout (first_bp st) bl) ->
  0 <= asize <= s -> asize mod 8 = 0 ->
  place fuel st bp asize = Some st' ->
  same_globals st st' /\
  forall p sp, In (p, (sp, true)) (layout (first_bp st) bl) ->
               24 <= load4 (mem st') (p - 4).
Proof.
  intros Hok Hb Hfit Ha8 Hp.
  assert (forall a, 24 <= a /\ a mod 8 = 0 -> a <= s ->
            place fuel st bp a = Some st' ->
            same_globals st st' /\
            forall p sp, In (p, (sp, true)) (layout (first_bp st) bl) ->
                         24 <= load4 (mem st') (p - 4)) as Hbig.
  { intros a Ha Hle Hpa.
    destruct (place_sound' _ _ _ _ _ _ _ _ Hok Hb Ha Hle Hpa)
      as (bl' & fl' & sa & (Hrep' & _) & Hg & _ & _ & _ & Hfwd & _).
    split; [exact Hg |]. intros p sp Hin.
    apply (allocated_header st' bl' fl' p sp Hrep'). apply Hfwd. exact Hin. }
  destruct (Z_le_gt_dec 24 asize) as [Hbig' | Hsmall];
    [apply (Hbig asize); [split; assumption | lia | exact Hp] |].
  pose proof Hok as (Hrep & Hcov & Hnaf).
  pose proof (rep_block _ _ _ Hrep _ _ Hb) as Bb. cbn in Bb.
  pose proof (rep_get_size _ _ _ Hrep _ _ _ Hb) as Hgs.
  destruct (Z_le_gt_dec 24 (s - asize)) as [Hr | Hr].
  2:{ (* the whole block is taken *)
      apply (Hbig s); [split; [lia | tauto] | lia |].
      rewrite <- Hp. apply place_take_any; rewrite Hgs; lia. }
  (* the block is split *)
  assert (In bp (fl (get_root_index s))) as Hlisted.
  { destruct (Hcov _ _ Hb) as [[] | H]. exact H. }
  destruct (rep_remove _ _ _ Hrep _ _ Hb Hlisted) as [Hrep1 _].
  set (fl1 := set_bucket fl (get_root_index s)
                (remove_one bp (fl (get_root_index s)))) in *.
  set (st1 := remove_from_free_list st bp) in *.
  pose proof (remove_globals st bp) as Hg1. fold st1 in Hg1.
  assert (first_bp st1 = first_bp st) as E1 by (apply first_bp_same; exact Hg1).
  destruct (layout_split _ _ _ _ Hb) as (bl1 & bl2 & Ebl & Ebp).
  subst bl. rewrite <- E1 in Ebp.
  assert (0 <= asize /\ asize mod 8 = 0) as Ha by (split; lia).
  pose proof (any_split_next st1 fl1 bl1 bl2 s Hrep1 asize Ha Hr) as Hnext.
  pose proof (any_split_frame st1 fl1 bl1 bl2 s Hrep1 asize Ha Hr) as Hframe.
  pose proof (any_split_size st1 fl1 bl1 bl2 s Hrep1 asize Ha Hr) as Hsize.
  rewrite <- Ebp in Hnext, Hframe, Hsize.
  rewrite place_unfold in Hp. cbv zeta in Hp. fold st1 in Hp.
  rewrite Hgs, wrap64_small in Hp by (norm_pow; lia).
  unfold MINBLOCKSIZE, DSIZE in Hp.
  destruct (Z.geb_spec (s - asize) (3 * 8)) as [_ | ?]; [| lia].
  rewrite Hnext in Hp.
  set (st6 := split_block st1 bp asize (s - asize)) in *.
  set (nb := bp + asize) in *. set (i := get_root_index (s - asize)).
  pose proof (get_root_index_range (s - asize)) as Hi. fold i in Hi.
  pose proof (split_block_globals st1 bp asize (s - asize)) as Hg6. fold st6 in Hg6.
  assert (get_root st6 (GET_SIZE st6 (HDRP nb)) = seg_free_listp st + 8 * i) as Er.
  { rewrite Hsize. unfold get_root, DSIZE. fold i.
    pose proof Hg6 as (_ & G6 & _). pose proof Hg1 as (_ & G1 & _).
    rewrite G6, G1. lia. }
  assert (forall q, In q (fl1 i) ->
            exists sq, In (q, (sq, false)) (layout (first_bp st1) (bl1 ++ (s, false) :: bl2))
                       /\ 24 <= sq /\ (q + sq <= bp \/ bp + s <= q)) as Hnode.
  { intros q Hq.
    destruct (rep_member _ _ _ Hrep1 i q Hi Hq) as (sq & Hbq & _ & Hsq & _).
    exists sq. split; [exact Hbq |]. split; [exact Hsq |].
    rewrite E1 in Hbq.
    destruct (layout_sep _ _ _ _ _ _ (rep_wf _ _ _ Hrep) Hbq Hb) as [[E _] | Hd];
      [| cbn in Hd; lia].
    subst q. exfalso. unfold fl1 in Hq.
    destruct (Z.eq_dec i (get_root_index s)) as [Ei | Ei].
    - rewrite Ei, set_bucket_same in Hq.
      apply remove_one_gone in Hq; [exact Hq |].
      apply (rep_nodup _ _ _ Hrep _ (get_root_index_range s)).
    - rewrite set_bucket_other in Hq by exact Ei.
      destruct (rep_member _ _ _ Hrep i bp Hi Hq) as (s2 & Hb2 & Hc2 & _).
      pose proof (layout_fun _ _ _ _ _ (rep_wf _ _ _ Hrep) Hb2 Hb) as E.
      injection E as Es. rewrite Es in Hc2. congruence. }
  pose proof (rep_pos _ _ _ Hrep) as Hpos.
  destruct (insert_raw_frame fuel st6 nb (fl1 i) st') as [Hg' Hfr'].
  - unfold nb. lia.
  - rewrite Er.
    destruct (rep_lists _ _ _ Hrep1 i Hi) as (last & Hl). exists last.
    pose proof Hg1 as (_ & Gs1 & _). rewrite Gs1 in Hl.
    assert (load8 (mem st6) (seg_free_listp st + 8 * i)
            = load8 (mem st1) (seg_free_listp st + 8 * i)) as ->.
    { apply load8_bytes. intros k Hk. apply Hframe. lia. }
    apply (lseg_frame (mem st1)); [| exact Hl].
    intros q Hq. destruct (Hnode q Hq) as (sq & _ & Hsq & Hd).
    split; apply load8_bytes; intros k Hk; apply Hframe; lia.
  - cbn. split; [| apply (rep_bucket_sep _ _ _ Hrep1 i Hi)].
    intros q Hq. destruct (Hnode q Hq) as (sq & _ & Hsq & Hd). unfold nb. lia.
  - rewrite Er. intros q [<- | Hq]; [unfold nb; lia |].
    pose proof (rep_bucket_root _ _ _ Hrep1 i q Hi Hq) as H.
    pose proof Hg1 as (_ & Gs1 & _). rewrite Gs1 in H. exact H.
  - exact Hp.
  - split.
    + eapply same_globals_trans; [exact Hg1 |].
      eapply same_globals_trans; [exact Hg6 | exact Hg'].
    + intros p sp Hin.
      assert (In (p, (sp, true)) (layout (first_bp st1) (bl1 ++ (s, false) :: bl2)))
        as Hin1 by (rewrite E1; exact Hin).
      pose proof (allocated_header st1 _ fl1 p sp Hrep1 Hin1) as Hh.
      pose proof (rep_block _ _ _ Hrep _ _ Hin) as Bp. cbn in Bp.
      assert (p + sp <= bp \/ bp + s <= p) as Hd.
      { destruct (layout_sep _ _ _ _ _ _ (rep_wf _ _ _ Hrep) Hin Hb) as [[_ E] | Hd];
          [inversion E | cbn in Hd; exact Hd]. }
      assert (load4 (mem st') (p - 4) = load4 (mem st1) (p - 4)) as ->; [| exact Hh].
      apply load4_bytes. intros k Hk.
      rewrite Hfr'.
      * apply Hframe. lia.
      * rewrite Er. lia.
      * intros q [<- | Hq]; [unfold nb; lia |].
        destruct (rep_member _ _ _ Hrep1 i q Hi Hq) as (sq & Hbq & _ & Hsq & _).
        destruct (layout_sep _ _ _ _ _ _ (rep_wf _ _ _ Hrep1) Hin1 Hbq)
          as [[_ E] | Hd2]; [inversion E | cbn in Hd2; lia].
Qed.

(** The adjusted size is a multiple of 8 below 2^64 whatever the request. *)
Lemma adjust_size_any size :
  0 <= adjust_size size < 2 ^ 64 /\ adjust_size size mod 8 = 0.
Proof.
  unfold adjust_size, MINBLOCKSIZE, DSIZE, WSIZE, wrap64.
  destruct (size <=? 2 * 8); [split; [norm_pow; lia | reflexivity] |].
  zdm.
Qed.

(** [malloc] of any non-zero request on a heap that satisfies the
    invariant, also of one that wraps: the anchors and the heap limit are
    as before, a null result leaves the state unchanged, and every
    allocated block still has a header of at least 24. *)
Lemma malloc_any fuel st bl fl size q st1 :
  heap_ok st bl fl -> size <> 0 ->
  malloc fuel st size = Some (q, st1) ->
  seg_free_listp st1 = seg_free_listp st /\
  mem_max_addr st1 = mem_max_addr st /\
  (q = 0 -> st1 = st) /\
  forall p sp, In (p, (sp, true)) (layout (first_bp st) bl) ->
               24 <= load4 (mem st1) (p - 4).
Proof.
  intros Hok Hnz Hm. pose proof Hok as (Hrep & _).
  pose proof (rep_listp_nonzero _ _ _ Hrep) as Hl.
  rewrite malloc_unfold in Hm by assumption. cbv zeta in Hm.
  destruct (adjust_size_any size) as [A0 A8].
  set (asize := adjust_size size) in *.
  destruct (find_fit fuel st asize) as [bp0 |] eqn:Hf; [| discriminate].
  cbn [obind] in Hm.
  destruct (find_fit_sound _ _ _ _ _ _ Hok Hf) as [_ Hfit].
  unfold NULL in Hm.
  destruct (Z.eqb_spec bp0 0) as [-> | Hne]; cbn [negb] in Hm.
  - destruct (extend_heap fuel st (Z.max asize CHUNKSIZE / WSIZE))
      as [[r1 st2] |] eqn:He; [| discriminate].
    cbn [obind] in Hm.
    assert (extend_size (Z.max asize CHUNKSIZE / WSIZE) = Z.max asize CHUNKSIZE) as Es.
    { apply extend_size_even; unfold CHUNKSIZE; [norm_pow; lia |].
      destruct (Z.max_spec asize 4096) as [[_ ->] | [_ ->]]; [reflexivity | assumption]. }
    assert (24 <= Z.max asize CHUNKSIZE /\ Z.max asize CHUNKSIZE mod 8 = 0) as Hx.
    { unfold CHUNKSIZE.
      destruct (Z.max_spec asize 4096) as [[? ->] | [? ->]]; split; try lia;
        try assumption; reflexivity. }
    rewrite <- Es in Hx.
    destruct (extend_heap_sound fuel st bl fl _ Hok Hx r1 st2 He)
      as [(-> & -> & _) | (bl1 & fl1 & s' & Hok1 & Hg1 & Hpay1 & Hal1 & Hin1 & Hs1 & Hlen1)].
    + cbn in Hm. injection Hm as <- <-.
      repeat split; try reflexivity.
      intros p sp Hin. apply (allocated_header st bl fl p sp Hrep Hin).
    + rewrite Es in Hs1. pose proof Hok1 as (Hrep1 & _).
      pose proof (rep_block _ _ _ Hrep1 _ _ Hin1) as B. cbn in B.
      pose proof (rep_pos _ _ _ Hrep1) as Hpos1.
      destruct (Z.eqb_spec r1 0) as [E | _]; [lia |].
      destruct (place fuel st2 r1 asize) as [st3 |] eqn:Hp; [| discriminate].
      cbn in Hm. injection Hm as <- <-.
      assert (0 <= asize <= s') as Hfit' by (unfold CHUNKSIZE in Hs1; lia).
      destruct (place_any _ _ _ _ _ _ _ _ Hok1 Hin1 Hfit' A8 Hp) as [Hg2 Hh].
      pose proof (first_bp_anchors _ _ Hg1) as E1.
      destruct Hg1 as (_ & G1 & G2 & _). destruct Hg2 as (_ & G3 & _ & G4).
      split; [congruence |]. split; [congruence |]. split; [intros ->; lia |].
      intros p sp Hin. apply (Hh p sp). rewrite E1. apply Hal1. exact Hin.
  - destruct (Hfit Hne) as (s & Hb & Hs).
    destruct (place fuel st bp0 asize) as [st2 |] eqn:Hp; [| discriminate].
    cbn in Hm. injection Hm as <- <-.
    assert (0 <= asize <= s) as Hfit' by lia.
    destruct (place_any _ _ _ _ _ _ _ _ Hok Hb Hfit' A8 Hp) as [Hg2 Hh].
    destruct Hg2 as (_ & G3 & _ & G4).
    split; [congruence |]. split; [congruence |]. split; [intros ->; contradiction |].
    exact Hh.
Qed.

(** A [realloc] that returned a non-null pointer copied fewer than 2^32
    bytes, since the copy stayed inside the arena: the request did not wrap
    in the size adjustment. *)
Lemma realloc_size_ok fuel st bl fl p s size q st' :
  heap_ok st bl fl -> In (p, (s, true)) (layout (first_bp st) bl) ->
  0 < size -> realloc fuel st p size = Some (q, st') -> q <> 0 ->
  size_ok size.
Proof.
  intros Hok Hp Hpos Hr Hq. pose proof Hok as (Hrep & _).
  pose proof (rep_block _ _ _ Hrep _ _ Hp) as Bp. cbn in Bp.
  pose proof (rep_pos _ _ _ Hrep) as Hspos.
  rewrite realloc_unfold in Hr by lia.
  destruct (malloc fuel st size) as [[q1 st1] |] eqn:Hm; [| discriminate].
  cbn [obind] in Hr.
  assert (size <> 0) as Hnz by lia.
  destruct (malloc_any _ _ _ _ _ _ _ Hok Hnz Hm) as (Gs & Gm & _ & Hh).
  destruct (Z.eqb_spec q1 0) as [E | Hq1].
  { injection Hr as <- _. contradiction. }
  cbv zeta in Hr.
  set (n := if size <? load8 (mem st1) (SIZE_PTR p) then size
            else load8 (mem st1) (SIZE_PTR p)) in *.
  destruct (in_arena st1 q1 n && in_arena st1 p n) eqn:Hin; [| discriminate].
  apply andb_prop in Hin. destruct Hin as [_ Hin].
  unfold in_arena in Hin. apply andb_prop in Hin. destruct Hin as [_ Hin].
  apply Z.leb_le in Hin. rewrite Gm in Hin.
  pose proof (rep_bound _ _ _ Hrep) as Hbound.
  pose proof (Hh p s Hp) as Hhdr.
  assert (2 ^ 32 <= load8 (mem st1) (SIZE_PTR p)) as Hold.
  { unfold SIZE_PTR, SIZE_T_SIZE, load8.
    replace (p - 8 + 4) with (p - 4) by lia.
    pose proof (load4_range (mem st1) (p - 8)). norm_pow. lia. }
  unfold size_ok, SIZE_MAX. unfold n in Hin.
  destruct (Z.ltb_spec size (load8 (mem st1) (SIZE_PTR p))); norm_pow; lia.
Qed.

(** [realloc] of an allocated block to any positive size. *)
Lemma realloc_sound_any fuel st bl fl p s size q st' :
  heap_ok st bl fl -> In (p, (s, true)) (layout (first_bp st) bl) ->
  0 < size -> realloc fuel st p size = Some (q, st') ->
  realloc_post st bl fl p s size q st'.
Proof.
  intros Hok Hp Hpos Hr.
  destruct (Z.eq_dec q 0) as [-> | Hq].
  - left. split; [reflexivity |]. pose proof Hok as (Hrep & _).
    pose proof (rep_block _ _ _ Hrep _ _ Hp) as Bp. cbn in Bp.
    pose proof (rep_pos _ _ _ Hrep) as Hspos.
    rewrite realloc_unfold in Hr by lia.
    destruct (malloc fuel st size) as [[q1 st1] |] eqn:Hm; [| discriminate].
    cbn [obind] in Hr. assert (size <> 0) as Hnz by lia.
    destruct (malloc_any _ _ _ _ _ _ _ Hok Hnz Hm) as (_ & _ & Hz & _).
    destruct (Z.eqb_spec q1 0) as [E | Hq1].
    + injection Hr as <-. apply Hz. exact E.
    + cbv zeta in Hr.
      destruct (in_arena _ _ _ && in_arena _ _ _); [| discriminate].
      destruct (free fuel _ p); [| discriminate].
      cbn in Hr. injection Hr as E _. contradiction.
  - apply (realloc_sound fuel st bl fl p s size q st' Hok Hp); [lia | | exact Hr].
    eapply realloc_size_ok; eassumption.
Qed.

(** When the internal [malloc] of a [realloc] returns null, [realloc]
    returns null and the state is the one before the call. *)
Lemma realloc_null fuel st bl fl p s size st1 :
  heap_ok st bl fl -> In (p, (s, true)) (layout (first_bp st) bl) ->
  0 < size -> malloc fuel st size = Some (0, st1) ->
  realloc fuel st p size = Some (0, st).
Proof.
  intros Hok Hp Hpos Hm. pose proof Hok as (Hrep & _).
  pose proof (rep_block _ _ _ Hrep _ _ Hp) as Bp. cbn in Bp.
  pose proof (rep_pos _ _ _ Hrep) as Hspos.
  assert (size <> 0) as Hnz by lia.
  destruct (malloc_any _ _ _ _ _ _ _ Hok Hnz Hm) as (_ & _ & Hz & _).
  rewrite realloc_unfold by lia. rewrite Hm. cbn. rewrite (Hz eq_refl).
  reflexivity.
Qed.

(** ** The client's stores *)

Lemma reachable_client st live : reachable st live -> client_state st live.
Proof.
  induction 1 as [st0 fuel st Hf Hi | st live fuel c r st' _ IH Hv Hrun Hs].
  - eapply client_init; eassumption.
  - eapply client_call; eassumption.
Qed.

(** Every state of the client satisfies the invariant, and the client's
    pointers are its allocated blocks. *)
Lemma client_inv st live :
  client_state st live -> exists bl fl, heap_ok st bl fl /\ tracks st bl live.
Proof.
  induction 1 as [st0 fuel st Hfresh Hinit
                 | st live fuel c r st' _ IH Hv Hrun Hsurv
                 | st live p i v _ IH Hp Hi].
  - destruct (mm_init_sound _ _ _ Hfresh Hinit) as (bl & fl & Hok & _ & _ & Hnone).
    exists bl, fl. split; [exact Hok |]. intros p. split; [intros [] |].
    intros (s & Hb). exact (Hnone _ _ Hb).
  - destruct IH as (bl & fl & Hok & Ht).
    destruct (step_inv _ _ _ _ _ _ _ _ Hok Ht Hv Hrun Hsurv) as (bl' & fl' & H1 & H2 & _).
    eauto.
  - destruct IH as (bl & fl & Hok & Ht). exists bl, fl.
    pose proof Hp as Hp'. apply Ht in Hp'. destruct Hp' as (s & Hb).
    pose proof Hok as (Hrep & _).
    rewrite (rep_get_size _ _ _ Hrep _ _ _ Hb) in Hi. unfold WSIZE in Hi.
    assert (same_globals st (client_store st (p + i) v)) as Hg by (repeat split).
    destruct (payload_write st _ bl fl p s Hok Hb Hg) as [Hok' _].
    { intros x Hx. unfold client_store. cbn [mem set_mem]. unfold load1, store1.
      destruct (Z.eqb_spec x (p + i)); [lia | reflexivity]. }
    split; [exact Hok' |]. exact Ht.
Qed.

(** The block [realloc] returns lies apart from the old block: the bytes
    of the old payload are read from outside the destination of the
    copy. *)
Lemma realloc_apart fuel st bl fl p s size q st' :
  heap_ok st bl fl -> In (p, (s, true)) (layout (first_bp st) bl) ->
  0 < size -> realloc fuel st p size = Some (q, st') -> q <> 0 ->
  p + s <= q \/ q + size + 4 <= p.
Proof.
  intros Hok Hp Hpos Hr Hq.
  pose proof (realloc_size_ok _ _ _ _ _ _ _ _ _ Hok Hp Hpos Hr Hq) as Hsize.
  pose proof Hok as (Hrep & _).
  pose proof (rep_block _ _ _ Hrep _ _ Hp) as Bp. cbn in Bp.
  pose proof (rep_pos _ _ _ Hrep) as Hspos.
  rewrite realloc_unfold in Hr by lia.
  destruct (malloc fuel st size) as [[q1 st1] |] eqn:Hm; [| discriminate].
  cbn [obind] in Hr.
  destruct (malloc_sound _ _ _ _ _ _ _ Hok Hsize Hm)
    as (bl1 & fl1 & (Hrep1 & _) & Hg1 & _ & Hfwd1 & _ & _ & Hnz1 & _).
  destruct (Z.eqb_spec q1 0) as [E | Hq1].
  { injection Hr as E' _. congruence. }
  cbv zeta in Hr.
  destruct (in_arena _ _ _ && in_arena _ _ _); [| discriminate].
  destruct (free fuel _ p) as [st3 |]; [| discriminate].
  cbn in Hr. injection Hr as E' _. subst q1.
  destruct (Hnz1 Hq) as ((sa & Hqa & Hsa) & Hfresh).
  pose proof (first_bp_anchors _ _ Hg1) as E1.
  assert (In (p, (s, true)) (layout (first_bp st1) bl1)) as Hp1
      by (apply Hfwd1; exact Hp).
  destruct (layout_sep _ _ _ _ _ _ (rep_wf _ _ _ Hrep1) Hp1 Hqa)
    as [[E _] | Hd]; [| cbn in Hd; lia].
  subst q. destruct (Hfresh s true) as [H | H]; [contradiction | discriminate].
Qed.

(** * Claims settled on the code alone *)

(** ** C8: the adjusted size *)

(** C8 (as amended): for every request size between 1 and 2^64 - 12 the
    adjusted size computed by [malloc] is the smallest multiple of 8 that is
    at least [size + 4] and at least 24; it is 24 when [size <= 16] and
    8 * ceil((size + 4) / 8) otherwise. *)
Theorem adjust_size_spec size :
  0 < size <= SIZE_MAX - 11 ->
  is_align_request size (adjust_size size) /\
  adjust_size size = (if size <=? 16 then 24
                      else 8 * - ((- (size + 4)) / 8)).
Proof.
  intros H. destruct (Z.leb_spec size 16) as [Hs | Hs].
  - rewrite adjust_size_small by assumption. split; [| reflexivity].
    unfold is_align_request. repeat split; try lia.
  - rewrite adjust_size_large by lia. split.
    + unfold is_align_request. repeat split.
      * zdm.
      * zdm.
      * zdm.
      * intros b Hb1 Hb2 Hb3. zdm.
    + zdm.
Qed.

Lemma adjust_size_spec_witness :
  0 < 100 <= SIZE_MAX - 11 /\ adjust_size 100 = 104.
Proof.
  split; [unfold SIZE_MAX; lia |].
  destruct (adjust_size_spec 100) as [_ H]; [unfold SIZE_MAX; lia |].
  rewrite H. reflexivity.
Defined.

(** The request [SIZE_MAX] wraps around: its adjusted size is 8, below the
    minimum block size and below the request. *)
Lemma adjust_size_wraps :
  0 < SIZE_MAX /\ adjust_size SIZE_MAX = 8 /\
  ~ is_align_request SIZE_MAX (adjust_size SIZE_MAX).
Proof.
  assert (adjust_size SIZE_MAX = 8) as E by (vm_compute; reflexivity).
  split; [unfold SIZE_MAX; lia |]. split; [exact E |].
  rewrite E. unfold is_align_request. intros (_ & _ & H & _). lia.
Qed.

(** ** C10: [remove_from_free_list] guards *)

(** C10: removing a null pointer, or a block whose header has the
    self-alloc bit set, returns the state unchanged (memory, both anchors
    and the primitive's break). *)
Theorem remove_from_free_list_guard st bp :
  bp = NULL \/ GET_ALLOC st (HDRP bp) <> 0 ->
  remove_from_free_list st bp = st.
Proof.
  intros H. unfold remove_from_free_list.
  destruct H as [-> | H].
  - reflexivity.
  - destruct (Z.eqb_spec (GET_ALLOC st (HDRP bp)) 0) as [E | E]; [contradiction |].
    rewrite orb_true_r. reflexivity.
Qed.

Lemma remove_from_free_list_guard_witness :
  (NULL = NULL \/ GET_ALLOC small_heap (HDRP NULL) <> 0) /\
  remove_from_free_list small_heap NULL = small_heap.
Proof.
  split; [left; reflexivity |].
  apply (remove_from_free_list_guard small_heap NULL). left. reflexivity.
Defined.

(** ** C1: [calloc] when the allocation fails *)

(** C1 (the code at the failing input): on a heap that cannot grow,
    [calloc(1, 5000)] returns null, yet it has cleared the 5000 bytes from
    address 0 on: the byte at address 0 changed and the first bucket root,
    which lies in that range, was overwritten. *)
Theorem calloc_null_writes :
  result_of (calloc 16 small_heap 1 5000) = NULL /\
  result_of (malloc 16 small_heap 5000) = NULL /\
  load1 (mem small_heap) 0 = 255 /\
  load1 (mem (state_of (calloc 16 small_heap 1 5000) small_heap)) 0 = 0 /\
  load8 (mem small_heap) (seg_free_listp small_heap + 56) = 4192 /\
  load8 (mem (state_of (calloc 16 small_heap 1 5000) small_heap))
        (seg_free_listp small_heap + 56) = 0.
Proof. vm_compute. repeat split; reflexivity. Qed.

(** * Claims about call sequences *)

Lemma bucket_bound (fl : Z -> list Z) :
  exists n, forall j, 0 <= j < 10 -> (length (fl j) + 10 <= n)%nat.
Proof.
  exists (length (fl 0%Z) + length (fl 1%Z) + length (fl 2%Z)
          + length (fl 3%Z) + length (fl 4%Z) + length (fl 5%Z)
          + length (fl 6%Z) + length (fl 7%Z) + length (fl 8%Z)
          + length (fl 9%Z) + 10)%nat.
  intros j Hj.
  assert (j = 0 \/ j = 1 \/ j = 2 \/ j = 3 \/ j = 4 \/ j = 5 \/ j = 6
          \/ j = 7 \/ j = 8 \/ j = 9) as Hc by lia.
  destruct Hc as [-> | [-> | [-> | [-> | [-> | [-> | [-> | [-> | [-> | ->]]]]]]]]];
    lia.
Qed.


(** A call that returned a pointer other than the default of [result_of]
    did return. *)
Lemma run_result (o : option (Z * state)) d :
  result_of o <> -1 -> o = Some (result_of o, state_of o d).
Proof. destruct o as [[r st] |]; cbn; [reflexivity | contradiction]. Qed.

(** A [free] that returned left its final state. *)
Lemma returned_final (o : option state) d :
  returned o = true -> o = Some (final_state o d).
Proof. destruct o; cbn; [reflexivity | discriminate]. Qed.

Lemma reachable_roomy : reachable roomy_heap [].
Proof.
  apply (reach_init (raw_state 4096 1048576) 16).
  - unfold fresh_heap. cbn. repeat split; lia.
  - vm_compute. reflexivity.
Qed.

Lemma reachable_one_block : reachable one_block_heap [4192].
Proof.
  apply (reach_call roomy_heap [] 16 (Malloc 16) 4192 one_block_heap).
  - exact reachable_roomy.
  - unfold valid_call, size_ok, SIZE_MAX. lia.
  - vm_compute. reflexivity.
  - exact I.
Qed.

(** A state the client reached by valid calls alone is a state of the
    client. *)
Lemma client_one_block : client_state one_block_heap [4192].
Proof. apply reachable_client. exact reachable_one_block. Qed.

Lemma client_stored : client_state stored_heap [4192].
Proof.
  apply (client_write one_block_heap [4192] 4192 3 7 client_one_block).
  - left. reflexivity.
  - vm_compute. split; [discriminate | reflexivity].
Qed.




(** C4 (as amended): after a successful [mm_init] and after every call of
    a sequence of valid calls (null or live pointers to [free] and
    [realloc], request sizes at most [SIZE_MAX - 11], no [calloc] whose
    allocation failed), the heap walk finds no free block whose successor is
    free, and no free block whose prev-alloc bit is clear. *)
Theorem no_adjacent_free_blocks st live p :
  reachable st live -> heap_block st p ->
  ~ both_free st p /\ ~ prev_both_free st p.
Proof.
  intros Hreach Hp.
  destruct (reachable_inv _ _ Hreach) as (bl & fl & Hok & _).
  split.
  - eapply walk_no_adjacent_free; eassumption.
  - eapply walk_no_prev_free; eassumption.
Qed.

Lemma no_adjacent_free_blocks_witness :
  heap_block one_block_heap
             (NEXT_BLKP one_block_heap (heap_listp one_block_heap)) /\
  ~ both_free one_block_heap
              (NEXT_BLKP one_block_heap (heap_listp one_block_heap)).
Proof.
  assert (heap_block one_block_heap
            (NEXT_BLKP one_block_heap (heap_listp one_block_heap))) as Hb
      by (apply hb_next; [apply hb_first | vm_compute; reflexivity]).
  split; [exact Hb |].
  exact (proj1 (no_adjacent_free_blocks one_block_heap [4192] _
                  reachable_one_block Hb)).
Defined.

(** The request [SIZE_MAX] wraps in the size adjustment: [malloc(SIZE_MAX)]
    on a fresh heap returns a block of 8 bytes at 4192, and [free] of that
    pointer clears the header of the block behind it, after which the walk
    finds the free block 4192 followed by a free block. *)
Lemma adjacent_free_after_wrap :
  mm_init 16 (raw_state 4096 1048576) = Some (0, roomy_heap) /\
  malloc 16 roomy_heap SIZE_MAX = Some (4192, wrapped_heap) /\
  free 16 wrapped_heap 4192 = Some wrapped_freed_heap /\
  heap_block wrapped_freed_heap 4192 /\
  GET_SIZE wrapped_freed_heap (HDRP 4192) > 0 /\
  both_free wrapped_freed_heap 4192.
Proof.
  split; [vm_compute; reflexivity |].
  split; [vm_compute; reflexivity |].
  split; [vm_compute; reflexivity |].
  split; [| split; [vm_compute; reflexivity |]].
  - assert (NEXT_BLKP wrapped_freed_heap (heap_listp wrapped_freed_heap) = 4192)
      as E by (vm_compute; reflexivity).
    rewrite <- E. apply hb_next; [apply hb_first | vm_compute; reflexivity].
  - split; vm_compute; reflexivity.
Qed.

(** C2: for a block [p] the client holds, whatever it stored there, and a
    request of any [size] > 0 bytes.  When [realloc(p, size)] returns a
    non-null [q], the [size] bytes at [q] lie apart from the old block, and
    the first [min(size, payload of p)] of them are the bytes that were at
    [p], the payload of [p] being its block size less the header word; when
    it returns null the whole state, so also the old block, is as before;
    and when the internal [malloc] returns null, [realloc] returns null.  A
    request of at most the old payload is copied from inside the old block
    into the new one, and [realloc] then returns when given enough fuel. *)
Theorem realloc_preserves st live p size :
  client_state st live -> In p live -> 0 < size ->
  (forall fuel q st', realloc fuel st p size = Some (q, st') ->
     (q <> 0 ->
      (p + GET_SIZE st (HDRP p) <= q \/ q + size + WSIZE <= p) /\
      forall i, 0 <= i < Z.min size (GET_SIZE st (HDRP p) - WSIZE) ->
                load1 (mem st') (q + i) = load1 (mem st) (p + i)) /\
     (q = 0 -> st' = st)) /\
  (forall fuel st1, malloc fuel st size = Some (0, st1) ->
     realloc fuel st p size = Some (0, st)) /\
  (size <= GET_SIZE st (HDRP p) - WSIZE ->
   exists n, forall fuel, (n <= fuel)%nat ->
     exists q st', realloc fuel st p size = Some (q, st')).
Proof.
  intros Hreach Hp Hpos.
  destruct (client_inv _ _ Hreach) as (bl & fl & Hok & Ht).
  pose proof Hp as Hp'. apply Ht in Hp'. destruct Hp' as (s & Hb).
  pose proof Hok as (Hrep & _).
  pose proof (rep_block _ _ _ Hrep _ _ Hb) as Bp. cbn in Bp.
  pose proof (rep_pos _ _ _ Hrep) as Hspos.
  assert (GET_SIZE st (HDRP p) = s) as Hgs by (apply (rep_get_size _ _ _ Hrep _ _ _ Hb)).
  split; [| split].
  - intros fuel q st' Hr.
    destruct (realloc_sound_any _ _ _ _ _ _ _ _ _ Hok Hb Hpos Hr)
      as [[-> ->] | (Hq & Hqp & bl' & fl' & sa & _ & _ & _ & _ & _ & _ & Hcopy & _)].
    + split; [intros H; contradiction | reflexivity].
    + split; [| intros H; contradiction].
      intros _. split.
      * rewrite Hgs. unfold WSIZE.
        apply (realloc_apart _ _ _ _ _ _ _ _ _ Hok Hb Hpos Hr Hq).
      * intros i Hi. apply Hcopy. rewrite Hgs in Hi. unfold WSIZE in Hi.
        exact Hi.
  - intros fuel st1 Hm. eapply realloc_null; eassumption.
  - intros Hsmall. rewrite Hgs in Hsmall. unfold WSIZE in Hsmall.
    destruct (bucket_bound fl) as (n & Hn). exists n. intros fuel Hfuel.
    pose proof (rep_max _ _ _ Hrep) as Hmax.
    apply (realloc_total fuel st bl fl p s size Hok Hb).
    + lia.
    + unfold size_ok, SIZE_MAX. norm_pow. lia.
    + lia.
    + intros j Hj. specialize (Hn j Hj). lia.
Qed.

Lemma realloc_preserves_witness :
  result_of (realloc 16 stored_heap 4192 16) = 4216 /\
  load1 (mem stored_heap) (4192 + 3) = 7 /\
  load1 (mem (state_of (realloc 16 stored_heap 4192 16) stored_heap))
        (4216 + 3) = 7.
Proof.
  assert (result_of (realloc 16 stored_heap 4192 16) = 4216) as Hres
      by (vm_compute; reflexivity).
  assert (load1 (mem stored_heap) (4192 + 3) = 7) as Hold
      by (vm_compute; reflexivity).
  assert (In 4192 [4192]) as Hin by (left; reflexivity).
  assert (0 <= 3 < Z.min 16 (GET_SIZE stored_heap (HDRP 4192) - WSIZE)) as Hi
      by (vm_compute; split; [discriminate | reflexivity]).
  split; [exact Hres |]. split; [exact Hold |].
  destruct (realloc_preserves stored_heap [4192] 4192 16 client_stored
              Hin ltac:(lia)) as (H & _ & _).
  destruct (H 16%nat 4216
              (state_of (realloc 16 stored_heap 4192 16) stored_heap))
    as [Hcopy _].
  - rewrite <- Hres. apply run_result. rewrite Hres. lia.
  - rewrite <- Hold. apply (proj2 (Hcopy ltac:(lia))). exact Hi.
Defined.

(** * Claim about [place] *)

Section PlaceGeneral.
Variables (st : state) (fl : Z -> list Z).
Variables (bl1 bl2 : list blk) (s asize : Z).
Let bl := bl1 ++ (s, false) :: bl2.
Let bp := first_bp st + span bl1.
Let pa := last_alloc true bl1.
Let rsize := s - asize.
Let st1 := remove_from_free_list st bp.

Hypothesis Hrep : heap_rep st bl fl.
Hypothesis Hin : In bp (fl (get_root_index s)).
Hypothesis Ha : 24 <= asize /\ asize mod 8 = 0.
Hypothesis Hfit : asize <= s.

(** Unlinking [bp], and what [place] does next, without assuming that
    the neighbours of [bp] are allocated. *)
Lemma place_general_shape fuel :
  exists fl1,
    heap_rep st1 bl fl1 /\ same_globals st st1 /\
    (forall j q, 0 <= j < 10 -> In q (fl1 j) <-> In q (fl j) /\ q <> bp) /\
    (forall j, (length (fl1 j) <= length (fl j))%nat) /\
    place fuel st bp asize
    = (if rsize >=? 24
       then insert_to_free_list fuel (split_block st1 bp asize rsize)
                                (bp + asize)
       else
         let st3 := take_block st1 bp s in
         if hd_alloc bl2 then Some st3
         else Some (PUT st3 (FTRP st3 (bp + s)) (GET st3 (HDRP (bp + s))))).
Proof.
  pose proof (read_wf _ _ _ _ _ _ Hrep) as Wf. fold bp in Wf.
  destruct Wf as (S1 & S2 & S3 & S4 & B1 & B2 & B3 & B4 & B5 & B6 & B7).
  assert (In (bp, (s, false)) (layout (first_bp st) bl)) as Hb by apply layout_mid.
  destruct (remove_step st bl fl bp s Hrep Hb Hin)
    as (fl1 & Hrep1 & Hg1 & Hpay1 & Hgone & Hsub & Hkeep & Hlen).
  fold st1 in Hrep1, Hg1, Hpay1.
  exists fl1. split; [exact Hrep1 |]. split; [exact Hg1 |].
  split; [| split; [exact Hlen |]].
  { intros j q Hj. split.
    - intros Hq. split; [apply Hsub; exact Hq |].
      intros ->. exact (Hgone j Hj Hq).
    - intros [Hq Hne]. apply Hkeep; assumption. }
  pose proof (first_bp_same _ _ Hg1) as E1.
  rewrite place_unfold. cbv zeta. fold st1.
  pose proof (read_size _ _ _ _ _ _ Hrep) as Rs. fold bp in Rs. rewrite Rs.
  rewrite (wrap64_small (s - asize)) by lia. fold rsize.
  unfold MINBLOCKSIZE, DSIZE. change (3 * 8) with 24.
  destruct (Z.geb_spec rsize 24) as [Hr | Hr].
  - pose proof (split_next st1 fl1 bl1 bl2 s Hrep1 asize Ha) as Hn.
    rewrite E1 in Hn. fold bp in Hn. rewrite Hn by (unfold rsize in Hr; lia).
    reflexivity.
  - pose proof (take_next st1 fl1 bl1 bl2 s Hrep1) as Hn.
    rewrite E1 in Hn. fold bp in Hn. rewrite Hn.
    pose proof (take_next_alloc st1 fl1 bl1 bl2 s Hrep1) as Hal.
    rewrite E1 in Hal. fold bp in Hal. rewrite Hal.
    destruct (hd_alloc bl2); reflexivity.
Qed.

(** The state of the splitting branch before the remainder is linked. *)
Lemma split_ready fl1 :
  heap_rep st1 bl fl1 -> same_globals st st1 ->
  (forall j q, 0 <= j < 10 -> In q (fl1 j) <-> In q (fl j) /\ q <> bp) ->
  24 <= rsize ->
  let st6 := split_block st1 bp asize rsize in
  let bl' := bl1 ++ (asize, true) :: (rsize, false) :: bl2 in
  heap_rep st6 bl' fl1 /\
  In (bp + asize, (rsize, false)) (layout (first_bp st6) bl') /\
  ~ In (bp + asize) (fl1 (get_root_index rsize)) /\
  load4 (mem st6) (bp + s - 8) = hdr_word rsize true false.
Proof.
  intros Hrep1 Hg1 Hmem Hr st6 bl'.
  pose proof (read_wf _ _ _ _ _ _ Hrep) as Wf. fold bp in Wf.
  destruct Wf as (S1 & S2 & S3 & S4 & B1 & B2 & B3 & B4 & B5 & B6 & B7).
  pose proof (first_bp_same _ _ Hg1) as E1.
  assert (In (bp, (s, false)) (layout (first_bp st) bl)) as Hb by apply layout_mid.
  assert (forall j, 0 <= j < 10 -> ~ In (first_bp st1 + span bl1) (fl1 j)) as Hun1.
  { rewrite E1. fold bp. intros j Hj Hq. apply (Hmem j bp Hj) in Hq. tauto. }
  pose proof (split_rep st1 fl1 bl1 bl2 s Hrep1 Hun1 asize Ha Hr) as Hrep6.
  rewrite E1 in Hrep6. fold bp rsize st6 in Hrep6.
  assert (first_bp st6 = first_bp st) as E6 by exact E1.
  split; [exact Hrep6 |]. split; [| split].
  - rewrite E6.
    pose proof (layout_mid (first_bp st) (bl1 ++ [(asize, true)])
                  (rsize, false) bl2) as H.
    rewrite <- app_assoc, span_app in H. cbn in H.
    replace (first_bp st + (span bl1 + (asize + 0))) with (bp + asize) in H
      by (unfold bp; lia). exact H.
  - intros Hq. pose proof (get_root_index_range rsize) as Hj.
    destruct (rep_member _ _ _ Hrep1 _ _ Hj Hq) as (sq & Hbq & _ & Hsq & _).
    rewrite E1 in Hbq. destruct Ha as [A1 A2].
    destruct (layout_sep _ _ _ _ _ _ (rep_wf _ _ _ Hrep) Hbq Hb)
      as [[E _] | Hd]; [| cbn [fst] in Hd]; unfold rsize in *; lia.
  - pose proof (split_mem st1 fl1 bl1 bl2 s Hrep1 asize Ha Hr) as Hm.
    rewrite E1 in Hm. fold bp rsize st6 in Hm. rewrite Hm.
    assert (wrap32 (hdr_word rsize true false) = hdr_word rsize true false) as Wr
        by (apply hdr_wrap; unfold rsize in *; lia).
    unfold rsize in *. mem_simp. exact Wr.
Qed.
End PlaceGeneral.

Lemma set_bucket_in (fl : Z -> list Z) i l j q :
  In q (set_bucket fl i l j) <-> (j = i /\ In q l) \/ (j <> i /\ In q (fl j)).
Proof.
  unfold set_bucket. destruct (Z.eqb_spec j i); intuition congruence.
Qed.

(** [place] for an adjusted size of at least the minimum block size, on the
    free block [bp] of size [s >= asize], listed in its bucket, with
    [rsize = s - asize].  The result is again a heap that satisfies the
    representation invariant. *)
Lemma place_regular st fl bl1 bl2 s asize :
  let bp := first_bp st + span bl1 in
  let pa := last_alloc true bl1 in
  let rsize := s - asize in
  heap_rep st (bl1 ++ (s, false) :: bl2) fl ->
  In bp (fl (get_root_index s)) ->
  24 <= asize /\ asize mod 8 = 0 -> asize <= s ->
  (forall fuel, (length (fl (get_root_index rsize)) <= fuel)%nat ->
     exists st', place fuel st bp asize = Some st') /\
  forall fuel st', place fuel st bp asize = Some st' ->
    exists fl',
      (forall j, 0 <= j < 10 -> ~ In bp (fl' j)) /\
      if 24 <=? rsize then
        heap_rep st' (bl1 ++ (asize, true) :: (rsize, false) :: bl2) fl' /\
        (forall j q, 0 <= j < 10 ->
           In q (fl' j) <-> (In q (fl j) /\ q <> bp)
                            \/ (q = bp + asize /\ j = get_root_index rsize)) /\
        GET st' (HDRP bp) = hdr_word asize pa true /\
        GET st' (HDRP (bp + asize)) = hdr_word rsize true false /\
        GET st' (FTRP st' (bp + asize)) = hdr_word rsize true false
      else
        heap_rep st' (bl1 ++ (s, true) :: bl2) fl' /\
        (forall j q, 0 <= j < 10 -> In q (fl' j) <-> In q (fl j) /\ q <> bp) /\
        GET st' (HDRP bp) = hdr_word s pa true /\
        NEXT_BLKP st' bp = bp + s /\
        GET st' (HDRP (bp + s)) = hdr_word (hd_size bl2) true (hd_alloc bl2) /\
        (hd_alloc bl2 = false ->
           GET st' (FTRP st' (bp + s)) = GET st' (HDRP (bp + s))).
Proof.
  intros bp pa rsize Hrep Hin Ha Hfit.
  pose proof (read_wf _ _ _ _ _ _ Hrep) as Wf. fold bp in Wf.
  destruct Wf as (S1 & S2 & S3 & S4 & B1 & B2 & B3 & B4 & B5 & B6 & B7).
  split.
  - (* the call returns *)
    intros fuel Hfuel.
    destruct (place_general_shape st fl bl1 bl2 s asize Hrep Hin Ha Hfit fuel)
      as (fl1 & Hrep1 & Hg1 & Hmem & Hlen & Heq).
    fold bp rsize in Heq, Hrep1, Hg1, Hmem. rewrite Heq.
    destruct (Z.geb_spec rsize 24) as [Hr | Hr].
    + destruct (split_ready st fl bl1 bl2 s asize Hrep Ha Hfit fl1 Hrep1 Hg1 Hmem Hr)
        as (Hrep6 & Hbr & Hnew & _).
      fold bp rsize in Hrep6, Hbr, Hnew.
      apply (insert_total _ _ _ Hrep6 _ _ Hbr).
      specialize (Hlen (get_root_index rsize)). lia.
    + cbv zeta. destruct (hd_alloc bl2); eauto.
  - intros fuel st' Hp.
    destruct (place_general_shape st fl bl1 bl2 s asize Hrep Hin Ha Hfit fuel)
      as (fl1 & Hrep1 & Hg1 & Hmem & Hlen & Heq).
    fold bp rsize in Heq, Hrep1, Hg1, Hmem. rewrite Heq in Hp.
    pose proof (first_bp_same _ _ Hg1) as E1.
    destruct (Z.geb_spec rsize 24) as [Hr | Hr].
    + (* split *)
      destruct (Z.leb_spec 24 rsize) as [_ | ?]; [| lia].
      destruct (split_ready st fl bl1 bl2 s asize Hrep Ha Hfit fl1 Hrep1 Hg1 Hmem Hr)
        as (Hrep6 & Hbr & Hnew & Hfoot).
      fold bp rsize in Hrep6, Hbr, Hnew, Hfoot.
      set (st6 := split_block (remove_from_free_list st bp) bp asize rsize) in *.
      set (bl' := bl1 ++ (asize, true) :: (rsize, false) :: bl2) in *.
      destruct (rep_insert _ _ _ Hrep6 _ _ Hbr Hnew fuel st' Hp) as (Hrep' & _ & Hg').
      assert (first_bp st6 = first_bp st) as E6 by exact E1.
      pose proof (first_bp_same _ _ Hg') as E'. rewrite E6 in E'.
      unfold bl' in Hrep'.
      set (fl' := set_bucket fl1 (get_root_index rsize)
                    (insert_sorted (size_at (mem st6)) rsize (bp + asize)
                                   (fl1 (get_root_index rsize)))) in *.
      exists fl'.
      split; [| split; [exact Hrep' | split; [| split; [| split]]]].
      * intros j Hj Hq. unfold fl' in Hq. apply set_bucket_in in Hq.
        destruct Hq as [[_ Hq] | [_ Hq]].
        -- apply insert_sorted_in in Hq. destruct Hq as [Hq | Hq]; [lia |].
           apply (Hmem _ bp (get_root_index_range rsize)) in Hq. tauto.
        -- apply (Hmem j bp Hj) in Hq. tauto.
      * intros j q Hj. unfold fl'. rewrite set_bucket_in, insert_sorted_in.
        rewrite (Hmem j q Hj).
        rewrite (Hmem _ q (get_root_index_range rsize)).
        destruct (Z.eq_dec j (get_root_index rsize)) as [-> | Hne]; tauto.
      * pose proof (rep_hdr_at _ _ _ _ _ _ Hrep') as H.
        rewrite E' in H. exact H.
      * pose proof (rep_hdr_at st' (bl1 ++ [(asize, true)]) rsize false bl2) as H.
        rewrite <- app_assoc in H. specialize (H _ Hrep').
        rewrite span_app, last_alloc_app, E' in H. cbn in H.
        unfold GET, HDRP, WSIZE. rewrite <- H. f_equal. unfold bp. lia.
      * pose proof (read_ftrp st' fl' (bl1 ++ [(asize, true)]) bl2 rsize false) as H.
        rewrite <- app_assoc in H. specialize (H Hrep').
        rewrite span_app, E' in H. cbn in H.
        replace (first_bp st + (span bl1 + (asize + 0))) with (bp + asize) in H
          by (unfold bp; lia).
        rewrite H. replace (bp + asize + rsize - 8) with (bp + s - 8)
          by (unfold rsize; lia).
        unfold GET. rewrite <- Hfoot. apply load4_bytes. intros k Hk.
        apply (insert_frame _ _ _ Hrep6 _ _ Hbr Hnew fuel st' _ Hp).
        -- change (seg_free_listp st6) with (seg_free_listp (remove_from_free_list st bp)).
           destruct Hg1 as (_ & -> & _). lia.
        -- intros q sq Hq.
           pose proof (rep_block _ _ _ Hrep6 _ _ Hq) as Bq. cbn in Bq.
           rewrite E6 in Hq, Hbr.
           destruct (layout_sep _ _ _ _ _ _ (rep_wf _ _ _ Hrep6) Hq Hbr)
             as [[-> _] | Hd]; [| cbn [fst] in Hd]; unfold rsize in *; lia.
    + (* no split *)
      destruct (Z.leb_spec 24 rsize) as [? | _]; [lia |].
      cbv zeta in Hp.
      assert (forall j, 0 <= j < 10 ->
                ~ In (first_bp (remove_from_free_list st bp) + span bl1) (fl1 j)) as Hun1.
      { rewrite E1. fold bp. intros j Hj Hq. apply (Hmem j bp Hj) in Hq. tauto. }
      pose proof (take_rep _ fl1 bl1 bl2 s Hrep1 Hun1) as Hrep3.
      rewrite E1 in Hrep3. fold bp in Hrep3.
      set (st3 := take_block (remove_from_free_list st bp) bp s) in *.
      assert (first_bp st3 = first_bp st) as E3 by exact E1.
      cbn [app] in Hrep3.
      assert (exists fl', heap_rep st' (bl1 ++ (s, true) :: bl2) fl1 /\
                first_bp st' = first_bp st /\
                (hd_alloc bl2 = false ->
                 GET st' (FTRP st' (bp + s)) = GET st' (HDRP (bp + s))) /\ fl' = fl1)
        as (fl' & Hrep' & E' & Hmirror & _).
      { exists fl1. destruct (hd_alloc bl2) eqn:Hna.
        - injection Hp as <-. split; [exact Hrep3 |]. split; [exact E3 |].
          split; [discriminate | reflexivity].
        - destruct (hd_alloc_false_split _ Hna) as (s2 & bl2' & ->).
          pose proof (read_ftrp st3 fl1 (bl1 ++ [(s, true)]) bl2' s2 false) as Hf.
          rewrite <- app_assoc in Hf. specialize (Hf Hrep3).
          rewrite span_app, E3 in Hf. cbn in Hf.
          replace (first_bp st + (span bl1 + (s + 0))) with (bp + s) in Hf
            by (unfold bp; lia).
          pose proof (read_next_hdr st3 fl1 bl1 _ s true Hrep3) as Hh.
          rewrite E3 in Hh. fold bp in Hh. cbn in Hh.
          rewrite Hf, Hh in Hp. injection Hp as <-.
          pose proof (read_wf _ _ _ _ _ _ Hrep3) as Wf3. cbn in Wf3.
          assert (wrap32 (hdr_word s2 true false) = hdr_word s2 true false) as Ww
              by (apply hdr_wrap; lia).
          assert (In (bp + s, (s2, false))
                     (layout (first_bp st3) (bl1 ++ (s, true) :: (s2, false) :: bl2')))
            as Hq.
          { rewrite E3.
            pose proof (layout_mid (first_bp st) (bl1 ++ [(s, true)])
                          (s2, false) bl2') as H.
            rewrite <- app_assoc, span_app in H. cbn in H.
            replace (first_bp st + (span bl1 + (s + 0))) with (bp + s) in H
              by (unfold bp; lia). exact H. }
          pose proof (rep_footer_write st3 _ fl1 (bp + s) s2
                        (hdr_word s2 true false) Hrep3 Hq) as Hrep4.
          pose proof (rep_block _ _ _ Hrep3 _ _ Hq) as Bq. cbn in Bq.
          split; [apply Hrep4; rewrite Ww; apply hdr_size; lia |].
          split; [exact E3 |]. split; [| reflexivity].
          intros _.
          assert (GET (PUT st3 (bp + s + s2 - 8) (hdr_word s2 true false))
                      (HDRP (bp + s)) = hdr_word s2 true false) as Hh'.
          { rewrite <- Hh. unfold GET, PUT, HDRP, WSIZE. cbn [mem set_mem].
            apply load4_store4_other. lia. }
          rewrite Hh'. unfold FTRP, GET_SIZE. rewrite Hh'.
          rewrite hdr_size by lia. unfold GET, PUT, DSIZE. cbn [mem set_mem].
          rewrite load4_store4_same. exact Ww. }
      exists fl1. split; [| split; [exact Hrep' | split; [| split; [| split; [| split]]]]].
      * intros j Hj Hq. apply (Hmem j bp Hj) in Hq. tauto.
      * exact Hmem.
      * pose proof (rep_hdr_at _ _ _ _ _ _ Hrep') as H. rewrite E' in H. exact H.
      * pose proof (read_next st' fl1 bl1 bl2 s true Hrep') as H.
        rewrite E' in H. exact H.
      * pose proof (read_next_hdr st' fl1 bl1 bl2 s true Hrep') as H.
        rewrite E' in H. exact H.
      * exact Hmirror.
Qed.

Ltac by_eval := vm_compute; first [reflexivity | discriminate | tauto].

Lemma ten_cases (P : Z -> Prop) :
  P 0 -> P 1 -> P 2 -> P 3 -> P 4 -> P 5 -> P 6 -> P 7 -> P 8 -> P 9 ->
  forall j, 0 <= j < 10 -> P j.
Proof.
  intros H0 H1 H2 H3 H4 H5 H6 H7 H8 H9 j Hj.
  assert (j = 0 \/ j = 1 \/ j = 2 \/ j = 3 \/ j = 4 \/ j = 5 \/ j = 6
          \/ j = 7 \/ j = 8 \/ j = 9) as Hc by lia.
  destruct Hc as [-> | [-> | [-> | [-> | [-> | [-> | [-> | [-> | [-> | ->]]]]]]]]];
    assumption.
Qed.

(** The heap after [mm_init] is one free block of 4096 bytes. *)
Lemma roomy_heap_rep : heap_rep roomy_heap [(4096, false)] roomy_buckets.
Proof.
  constructor.
  - by_eval.
  - by_eval.
  - by_eval.
  - by_eval.
  - by_eval.
  - by_eval.
  - by_eval.
  - split; by_eval.
  - cbn [tseg]. split; [lia |]. split; [reflexivity |].
    split; [by_eval |]. split; [intros _; by_eval | exact I].
  - by_eval.
  - apply ten_cases; try (apply dll_nil; by_eval).
    exists 4192. cbn [roomy_buckets lseg]. change (7 =? 7) with true. cbn [lseg].
    split; [by_eval |]. split; [lia |]. split; [by_eval |].
    split; [reflexivity | by_eval].
  - apply ten_cases; try (cbn; constructor).
    + intros [].
    + constructor.
  - intros j p Hj. revert p. pattern j. revert j Hj.
    apply ten_cases; intros p Hp; try (destruct Hp).
    + subst p. exists 4096. split; [left; by_eval | by_eval].
    + contradiction.
Qed.

(** ** [place] with an adjusted size below the minimum block size *)

Section PlaceSmall.
Variables (st : state) (fl : Z -> list Z).
Variables (bl1 bl2 : list blk) (s asize : Z).
Let bl := bl1 ++ (s, false) :: bl2.
Let bp := first_bp st + span bl1.
Let pa := last_alloc true bl1.
Let rsize := s - asize.
Let st1 := remove_from_free_list st bp.
Let st6 := split_block st1 bp asize rsize.
Let i := get_root_index rsize.
Let r := seg_free_listp st + 8 * i.

Hypothesis Hrep : heap_rep st bl fl.
Hypothesis Hin : In bp (fl (get_root_index s)).
Hypothesis Ha : 0 < asize /\ asize mod 8 = 0.
Hypothesis Hr : 24 <= rsize.

(** The remainder is cut off inside the block, whatever the adjusted size;
    the lists are those left by the unlinking of [bp], and the remainder is
    linked into the bucket of its size. *)
Lemma place_small_split :
  exists fl1,
    (forall j q, 0 <= j < 10 -> In q (fl1 j) <-> In q (fl j) /\ q <> bp) /\
    (forall j, (length (fl1 j) <= length (fl j))%nat) /\
    (forall fuel, (length (fl1 i) <= fuel)%nat ->
       exists st', place fuel st bp asize = Some st') /\
    forall fuel st', place fuel st bp asize = Some st' ->
      same_globals st st' /\
      (forall j, 0 <= j < 10 ->
         dll (mem st') (load8 (mem st') (seg_free_listp st + 8 * j))
             (set_bucket fl1 i
                (insert_sorted (size_at (mem st6)) rsize (bp + asize) (fl1 i))
                j)) /\
      load4 (mem st') (bp - 4) = hdr_word asize pa true /\
      load4 (mem st') (bp + asize - 4) = hdr_word rsize true false /\
      load4 (mem st') (bp + s - 8) = hdr_word rsize true false.
Proof.
  pose proof (read_wf _ _ _ _ _ _ Hrep) as Wf. fold bp in Wf.
  destruct Wf as (S1 & S2 & S3 & S4 & B1 & B2 & B3 & B4 & B5 & B6 & B7).
  assert (In (bp, (s, false)) (layout (first_bp st) bl)) as Hb by apply layout_mid.
  destruct (remove_step st bl fl bp s Hrep Hb Hin)
    as (fl1 & Hrep1 & Hg1 & Hpay1 & Hgone & Hsub & Hkeep & Hlen).
  fold st1 in Hrep1, Hg1, Hpay1.
  exists fl1.
  assert (forall j q, 0 <= j < 10 -> In q (fl1 j) <-> In q (fl j) /\ q <> bp)
    as Hmem.
  { intros j q Hj. split.
    - intros Hq. split; [apply Hsub; exact Hq |].
      intros ->. exact (Hgone j Hj Hq).
    - intros [Hq Hne]. apply Hkeep; assumption. }
  split; [exact Hmem |]. split; [exact Hlen |].
  pose proof (first_bp_same _ _ Hg1) as E1.
  pose proof Hg1 as (_ & Gs1 & _).
  destruct Ha as [A1 A2].
  assert (8 <= asize) as A3 by zdm.
  assert (0 <= asize /\ asize mod 8 = 0) as Ha0 by (split; lia).
  assert (rsize mod 8 = 0) as R8 by (unfold rsize; zdm).
  pose proof (any_split_next st1 fl1 bl1 bl2 s Hrep1 asize Ha0 Hr) as Hnext.
  pose proof (any_split_frame st1 fl1 bl1 bl2 s Hrep1 asize Ha0 Hr) as Hframe.
  pose proof (any_split_size st1 fl1 bl1 bl2 s Hrep1 asize Ha0 Hr) as Hsize.
  pose proof (any_split_mem st1 fl1 bl1 bl2 s Hrep1 asize Ha0 Hr) as Hmem6.
  rewrite E1 in Hnext, Hframe, Hsize, Hmem6.
  fold bp rsize st6 in Hnext, Hframe, Hsize, Hmem6.
  set (nb := bp + asize) in *.
  pose proof (get_root_index_range rsize) as Hi. fold i in Hi.
  pose proof (split_block_globals st1 bp asize rsize) as Hg6. fold st6 in Hg6.
  pose proof Hg6 as (_ & Gs6 & _).
  pose proof (rep_pos _ _ _ Hrep) as Hpos.
  assert (forall fuel, place fuel st bp asize = insert_to_free_list fuel st6 nb)
    as Eplace.
  { intros fuel. rewrite place_unfold. cbv zeta. fold st1.
    pose proof (read_size _ _ _ _ _ _ Hrep) as Rs. fold bp in Rs. rewrite Rs.
    rewrite (wrap64_small (s - asize)) by (unfold rsize in Hr; lia). fold rsize.
    unfold MINBLOCKSIZE, DSIZE.
    destruct (Z.geb_spec rsize (3 * 8)) as [_ | ?]; [| lia].
    rewrite Hnext. reflexivity. }
  assert (get_root st6 (GET_SIZE st6 (HDRP nb)) = r) as Er.
  { rewrite Hsize. unfold get_root, DSIZE, r. fold i. rewrite Gs6, Gs1. lia. }
  assert (forall j q, 0 <= j < 10 -> In q (fl1 j) ->
            24 <= q - seg_free_listp st - 72 /\
            (q + 24 <= bp \/ bp + s <= q)) as Hnode.
  { intros j q Hj Hq.
    destruct (rep_member _ _ _ Hrep1 j q Hj Hq) as (sq & Hbq & _ & Hsq & Hlo & _).
    rewrite E1 in Hbq. rewrite Gs1 in Hlo. split; [lia |].
    destruct (layout_sep _ _ _ _ _ _ (rep_wf _ _ _ Hrep) Hbq Hb) as [[E _] | Hd];
      [| cbn in Hd; lia].
    subst q. exfalso. exact (Hgone j Hj Hq). }
  assert (forall j, 0 <= j < 10 ->
            dll (mem st6) (load8 (mem st6) (seg_free_listp st + 8 * j)) (fl1 j))
    as Hdll6.
  { intros j Hj. destruct (rep_lists _ _ _ Hrep1 j Hj) as (last & Hl).
    exists last. rewrite Gs1 in Hl.
    assert (load8 (mem st6) (seg_free_listp st + 8 * j)
            = load8 (mem st1) (seg_free_listp st + 8 * j)) as ->.
    { apply load8_bytes. intros k Hk. apply Hframe. lia. }
    apply (lseg_frame (mem st1)); [| exact Hl].
    intros q Hq. destruct (Hnode j q Hj Hq) as [_ Hd].
    split; apply load8_bytes; intros k Hk; apply Hframe; lia. }
  assert (sep_list (nb :: fl1 i)) as Hsep.
  { cbn. split; [| apply (rep_bucket_sep _ _ _ Hrep1 i Hi)].
    intros q Hq. destruct (Hnode i q Hi Hq) as [_ Hd]. unfold nb, rsize in *. lia. }
  assert (forall q, In q (nb :: fl1 i) -> r + 8 <= q) as Hroot.
  { intros q [<- | Hq]; [unfold nb, r; lia |].
    destruct (Hnode i q Hi Hq) as [Hlo _]. unfold r. lia. }
  split.
  - (* the call returns *)
    intros fuel Hfuel. rewrite Eplace, insert_unfold by (unfold nb; lia).
    rewrite Er, Hsize. destruct (Hdll6 i Hi) as (last & Hl). fold r in Hl.
    unfold GET_8B. erewrite insert_scan_spec; [| exact Hl | exact Hfuel].
    cbn [obind]. eauto.
  - intros fuel st' Hp. rewrite Eplace, insert_unfold in Hp by (unfold nb; lia).
    rewrite Er, Hsize in Hp. pose proof (Hdll6 i Hi) as Hdlli. fold r in Hdlli.
    destruct Hdlli as (last & Hl). unfold GET_8B in Hp.
    destruct (insert_scan fuel st6 rsize r (load8 (mem st6) r))
      as [[prev next] |] eqn:Hscan; [| discriminate].
    apply (insert_scan_sound _ _ _ _ _ _ _ _ _ Hl) in Hscan.
    cbn [obind] in Hp. injection Hp as Est. injection Hscan as Eprev Enext.
    rewrite insert_sorted_split.
    pose proof (scan_split_app (size_at (mem st6)) rsize (fl1 i)) as Esplit.
    set (l1 := fst (scan_split (size_at (mem st6)) rsize (fl1 i))) in *.
    set (l2 := snd (scan_split (size_at (mem st6)) rsize (fl1 i))) in *.
    assert (st' = link_in st6 nb r (List.last l1 r) (hd 0 l2)) as Est'
        by (rewrite <- Est, Eprev, Enext; reflexivity).
    clear Est Eprev Enext prev next.
    assert (dll (mem st6) (load8 (mem st6) r) (l1 ++ l2)) as Hdll.
    { rewrite <- Esplit. exists last. exact Hl. }
    assert (0 < nb < 2 ^ 64) as Hnb by (unfold nb; lia).
    rewrite Esplit in Hsep, Hroot.
    pose proof (link_in_frame st6 r nb l1 l2 Hdll Hsep Hroot) as Hfr.
    pose proof (link_in_dll st6 r nb l1 l2 Hdll Hnb Hsep Hroot) as Hnew.
    rewrite <- Est' in Hfr, Hnew.
    assert (same_globals st6 st') as Hg' by (rewrite Est'; apply link_in_globals).
    clear Est'.
    rewrite <- Esplit in Hfr.
    split; [| split; [| split; [| split]]].
    + eapply same_globals_trans; [exact Hg1 |].
      eapply same_globals_trans; [exact Hg6 | exact Hg'].
    + intros j Hj. destruct (Z.eq_dec j i) as [-> | Hne].
      * rewrite set_bucket_same. fold r. exact Hnew.
      * rewrite set_bucket_other by exact Hne.
        destruct (Hdll6 j Hj) as (lastj & Hlj). exists lastj.
        assert (load8 (mem st') (seg_free_listp st + 8 * j)
                = load8 (mem st6) (seg_free_listp st + 8 * j)) as ->.
        { apply load8_bytes. intros k Hk. apply Hfr; [unfold r; lia |].
          intros q [<- | Hq]; [unfold nb; lia |].
          destruct (Hnode i q Hi Hq) as [Hlo _]. lia. }
        apply (lseg_frame (mem st6)); [| exact Hlj].
        intros q Hq. destruct (Hnode j q Hj Hq) as [Hlo Hd].
        assert (forall k, 0 <= k < 16 -> load1 (mem st') (q + k) = load1 (mem st6) (q + k))
          as Hk16.
        { intros k Hk. apply Hfr; [unfold r; lia |].
          intros q' [<- | Hq']; [unfold nb, rsize in *; lia |].
          destruct (rep_members_sep _ _ _ Hrep1 j i q q' Hj Hi Hq Hq') as [E | H];
            [| lia].
          subst q'. exfalso. apply Hne.
          apply (rep_buckets_disjoint _ _ _ Hrep1 j i q Hj Hi Hq Hq'). }
        split; apply load8_bytes; intros k Hk.
        -- apply Hk16. lia.
        -- replace (q + 8 + k) with (q + (8 + k)) by lia. apply Hk16. lia.
    + assert (load4 (mem st') (bp - 4) = load4 (mem st6) (bp - 4)) as ->.
      { apply load4_bytes. intros k Hk. apply Hfr; [unfold r; lia |].
        intros q [<- | Hq]; [unfold nb; lia |].
        destruct (Hnode i q Hi Hq) as [_ Hd]. lia. }
      rewrite Hmem6. unfold nb, rsize in *. mem_simp.
      apply hdr_wrap; lia.
    + assert (load4 (mem st') (nb - 4) = load4 (mem st6) (nb - 4)) as ->.
      { apply load4_bytes. intros k Hk. apply Hfr; [unfold r, nb; lia |].
        intros q [<- | Hq]; [unfold nb; lia |].
        destruct (Hnode i q Hi Hq) as [_ Hd]. unfold nb, rsize in *. lia. }
      rewrite Hmem6. unfold nb, rsize in *. mem_simp.
      apply hdr_wrap; lia.
    + assert (load4 (mem st') (bp + s - 8) = load4 (mem st6) (bp + s - 8)) as ->.
      { apply load4_bytes. intros k Hk. apply Hfr; [unfold r; lia |].
        intros q [<- | Hq]; [unfold nb, rsize in *; lia |].
        destruct (Hnode i q Hi Hq) as [_ Hd]. lia. }
      rewrite Hmem6. unfold nb, rsize in *. mem_simp.
      apply hdr_wrap; lia.
Qed.
End PlaceSmall.

(** C5 (as amended): [place] on the free block [bp] of size [s >= asize],
    listed in its bucket, for an adjusted size [asize] that is a positive
    multiple of 8, with [rsize = s - asize].  It returns when the fuel
    covers the bucket of the remainder.  Afterwards the buckets are the
    lists [fl'], and [bp] is in none of them.  When [rsize >= 24] the block
    is cut into an allocated block of [asize] bytes that keeps the
    prev-alloc bit and a free block of [rsize] bytes at [bp + asize] whose
    header and footer are (rsize, prev-alloc, free), and this remainder is
    in the bucket of [rsize]; the heap satisfies the representation
    invariant again when [asize] is at least the minimum block size.
    Otherwise the whole block is allocated with its prev-alloc bit kept, the
    header of the next block gets the prev-alloc bit, and when that block is
    free its footer is a copy of the new header. *)
Theorem place_spec st fl bl1 bl2 s asize :
  let bp := first_bp st + span bl1 in
  let pa := last_alloc true bl1 in
  let rsize := s - asize in
  heap_rep st (bl1 ++ (s, false) :: bl2) fl ->
  In bp (fl (get_root_index s)) ->
  0 < asize /\ asize mod 8 = 0 -> asize <= s ->
  (forall fuel, (length (fl (get_root_index rsize)) <= fuel)%nat ->
     exists st', place fuel st bp asize = Some st') /\
  forall fuel st', place fuel st bp asize = Some st' ->
    exists fl',
      (forall j, 0 <= j < 10 ->
         dll (mem st') (load8 (mem st') (seg_free_listp st' + 8 * j)) (fl' j)) /\
      (forall j, 0 <= j < 10 -> ~ In bp (fl' j)) /\
      if 24 <=? rsize then
        (24 <= asize ->
         heap_rep st' (bl1 ++ (asize, true) :: (rsize, false) :: bl2) fl') /\
        (forall j q, 0 <= j < 10 ->
           In q (fl' j) <-> (In q (fl j) /\ q <> bp)
                            \/ (q = bp + asize /\ j = get_root_index rsize)) /\
        GET st' (HDRP bp) = hdr_word asize pa true /\
        GET st' (HDRP (bp + asize)) = hdr_word rsize true false /\
        GET st' (FTRP st' (bp + asize)) = hdr_word rsize true false
      else
        heap_rep st' (bl1 ++ (s, true) :: bl2) fl' /\
        (forall j q, 0 <= j < 10 -> In q (fl' j) <-> In q (fl j) /\ q <> bp) /\
        GET st' (HDRP bp) = hdr_word s pa true /\
        NEXT_BLKP st' bp = bp + s /\
        GET st' (HDRP (bp + s)) = hdr_word (hd_size bl2) true (hd_alloc bl2) /\
        (hd_alloc bl2 = false ->
           GET st' (FTRP st' (bp + s)) = GET st' (HDRP (bp + s))).
Proof.
  intros bp pa rsize Hrep Hin Ha Hfit.
  pose proof (read_wf _ _ _ _ _ _ Hrep) as Wf. fold bp in Wf.
  destruct Wf as (S1 & S2 & S3 & S4 & B1 & B2 & B3 & B4 & B5 & B6 & B7).
  assert (forall a, 24 <= a -> a mod 8 = 0 -> a <= s ->
            (24 <=? s - a) = (24 <=? rsize) ->
            (24 <= rsize -> a = asize) ->
            forall fuel st', place fuel st bp a = Some st' ->
    exists fl',
      (forall j, 0 <= j < 10 ->
         dll (mem st') (load8 (mem st') (seg_free_listp st' + 8 * j)) (fl' j)) /\
      (forall j, 0 <= j < 10 -> ~ In bp (fl' j)) /\
      if 24 <=? rsize then
        (24 <= asize ->
         heap_rep st' (bl1 ++ (asize, true) :: (rsize, false) :: bl2) fl') /\
        (forall j q, 0 <= j < 10 ->
           In q (fl' j) <-> (In q (fl j) /\ q <> bp)
                            \/ (q = bp + asize /\ j = get_root_index rsize)) /\
        GET st' (HDRP bp) = hdr_word asize pa true /\
        GET st' (HDRP (bp + asize)) = hdr_word rsize true false /\
        GET st' (FTRP st' (bp + asize)) = hdr_word rsize true false
      else
        heap_rep st' (bl1 ++ (s, true) :: bl2) fl' /\
        (forall j q, 0 <= j < 10 -> In q (fl' j) <-> In q (fl j) /\ q <> bp) /\
        GET st' (HDRP bp) = hdr_word s pa true /\
        NEXT_BLKP st' bp = bp + s /\
        GET st' (HDRP (bp + s)) = hdr_word (hd_size bl2) true (hd_alloc bl2) /\
        (hd_alloc bl2 = false ->
           GET st' (FTRP st' (bp + s)) = GET st' (HDRP (bp + s)))) as Hbig.
  { intros a A1 A2 A3 Eb Ea fuel st' Hp.
    destruct (place_regular st fl bl1 bl2 s a Hrep Hin (conj A1 A2) A3)
      as [_ Hpost].
    destruct (Hpost fuel st' Hp) as (fl' & Hno & Hrest). clear Hpost.
    fold bp pa in Hno, Hrest. rewrite Eb in Hrest.
    exists fl'. destruct (Z.leb_spec 24 rsize) as [Hr | Hr].
    - specialize (Ea Hr). subst a. fold rsize in Hrest.
      destruct Hrest as (Hrep' & Hrest).
      split; [apply (rep_lists _ _ _ Hrep') |]. split; [exact Hno |].
      split; [intros _; exact Hrep' | exact Hrest].
    - destruct Hrest as (Hrep' & Hrest).
      split; [apply (rep_lists _ _ _ Hrep') |]. split; [exact Hno |].
      split; [exact Hrep' | exact Hrest]. }
  pose proof (read_size _ _ _ _ _ _ Hrep) as Rs. fold bp in Rs.
  destruct (Z_le_gt_dec 24 asize) as [Hbig' | Hsmall].
  { (* an adjusted size of at least 24 *)
    split.
    - apply (place_regular st fl bl1 bl2 s asize Hrep Hin); [| exact Hfit].
      split; [exact Hbig' | tauto].
    - apply (Hbig asize); try (tauto || lia); reflexivity. }
  destruct (Z_le_gt_dec 24 rsize) as [Hr | Hr].
  2:{ (* the whole block is taken: the adjusted size plays no role *)
      assert (forall fuel, place fuel st bp asize = place fuel st bp s) as Es.
      { intros fuel. apply place_take_any; rewrite Rs; unfold rsize in Hr; lia. }
      assert ((24 <=? s - s) = (24 <=? rsize)) as Eb.
      { rewrite Z.sub_diag. destruct (Z.leb_spec 24 rsize); [lia | reflexivity]. }
      split.
      - intros fuel Hfuel. rewrite Es.
        apply (place_regular st fl bl1 bl2 s s Hrep Hin); [split; lia | lia |].
        rewrite Z.sub_diag.
        replace (get_root_index 0) with (get_root_index rsize); [exact Hfuel |].
        unfold get_root_index, rsize in *.
        destruct (Z.leb_spec (s - asize) 32); [reflexivity | lia].
      - intros fuel st' Hp. rewrite Es in Hp.
        apply (Hbig s) with (fuel := fuel); try lia; assumption. }
  (* a split with an allocated part below the minimum block size *)
  destruct (place_small_split st fl bl1 bl2 s asize Hrep Hin Ha Hr)
    as (fl1 & Hmem & Hlen & Htot & Hpost).
  fold bp rsize in Hmem, Htot, Hpost.
  split.
  - intros fuel Hfuel. apply Htot.
    specialize (Hlen (get_root_index rsize)). lia.
  - intros fuel st' Hp.
    destruct (Hpost fuel st' Hp) as (Hg & Hdll & Hh1 & Hh2 & Hh3).
    set (fl' := set_bucket fl1 (get_root_index rsize)
                  (insert_sorted
                     (size_at (mem (split_block (remove_from_free_list st bp)
                                                bp asize rsize)))
                     rsize (bp + asize) (fl1 (get_root_index rsize)))) in *.
    exists fl'. pose proof Hg as (_ & Gs & _).
    split; [rewrite Gs; exact Hdll |].
    destruct (Z.leb_spec 24 rsize) as [_ | ?]; [| lia].
    assert (forall j q, 0 <= j < 10 ->
              In q (fl' j) <-> (In q (fl j) /\ q <> bp)
                               \/ (q = bp + asize /\ j = get_root_index rsize))
      as Hmem'.
    { intros j q Hj. unfold fl'. rewrite set_bucket_in, insert_sorted_in.
      rewrite (Hmem j q Hj).
      rewrite (Hmem _ q (get_root_index_range rsize)).
      destruct (Z.eq_dec j (get_root_index rsize)) as [-> | Hne]; tauto. }
    split; [| split; [intros; lia | split; [exact Hmem' |]]].
    + intros j Hj Hq. apply (Hmem' j bp Hj) in Hq. lia.
    + unfold GET, HDRP, WSIZE. split; [exact Hh1 |]. split; [exact Hh2 |].
      unfold FTRP, GET_SIZE, GET, HDRP, WSIZE, DSIZE. rewrite Hh2.
      rewrite hdr_size by (unfold rsize in *; (lia || zdm)).
      replace (bp + asize + rsize - 8) with (bp + s - 8) by (unfold rsize; lia).
      exact Hh3.
Qed.

Lemma place_spec_witness :
  exists st', place 16 roomy_heap 4192 8 = Some st'.
Proof.
  assert (first_bp roomy_heap + span [] = 4192) as E by (vm_compute; reflexivity).
  assert (In (first_bp roomy_heap + span [])
             (roomy_buckets (get_root_index 4096))) as Hin
      by (rewrite E; left; reflexivity).
  destruct (place_spec roomy_heap roomy_buckets [] [] 4096 8 roomy_heap_rep Hin)
    as [Htot _]; [split; [lia | reflexivity] | lia |].
  rewrite E in Htot. apply Htot. vm_compute. lia.
Defined.

(** [place] does not test its adjusted size.  A request of [SIZE_MAX - 5]
    bytes wraps to the adjusted size 0, [find_fit] answers with the free
    block 4192 of 4096 bytes, and [place] on that block with size 0 splits
    off a remainder at the block's own address: the header that made the
    block allocated is overwritten, and afterwards the block is free, has
    its 4096 bytes, and is again the first node of bucket 7.  [malloc]
    returns its address all the same. *)
Lemma place_zero_keeps_free :
  heap_rep roomy_heap [(4096, false)] roomy_buckets /\
  In 4192 (roomy_buckets (get_root_index 4096)) /\
  GET_SIZE roomy_heap (HDRP 4192) = 4096 /\
  GET_ALLOC roomy_heap (HDRP 4192) = 0 /\
  adjust_size (SIZE_MAX - 5) = 0 /\
  find_fit 16 roomy_heap 0 = Some 4192 /\
  place 16 roomy_heap 4192 0
  = Some (final_state (place 16 roomy_heap 4192 0) roomy_heap) /\
  GET (final_state (place 16 roomy_heap 4192 0) roomy_heap) (HDRP 4192)
  = hdr_word 4096 true false /\
  GET_ALLOC (final_state (place 16 roomy_heap 4192 0) roomy_heap) (HDRP 4192)
  = 0 /\
  GET_8B (final_state (place 16 roomy_heap 4192 0) roomy_heap)
         (get_root roomy_heap 4096) = 4192 /\
  result_of (malloc 16 roomy_heap (SIZE_MAX - 5)) = 4192 /\
  GET_ALLOC (state_of (malloc 16 roomy_heap (SIZE_MAX - 5)) roomy_heap)
            (HDRP 4192) = 0.
Proof.
  split; [exact roomy_heap_rep |].
  split; [left; reflexivity |].
  split; [vm_compute; reflexivity |].
  split; [vm_compute; reflexivity |].
  split; [vm_compute; reflexivity |].
  split; [vm_compute; reflexivity |].
  split; [apply returned_final; vm_compute; reflexivity |].
  split; [vm_compute; reflexivity |].
  split; [vm_compute; reflexivity |].
  split; [vm_compute; reflexivity |].
  split; vm_compute; reflexivity.
Qed.

(** * Claim about [coalesce] *)

(** The insertion leaves the header and the footer of a free block as
    they are. *)
Lemma insert_keeps_tags fuel st bl fl r sz st' p sp :
  insert_ready st bl fl r sz ->
  insert_to_free_list fuel st r = Some st' ->
  In (p, (sp, false)) (layout (first_bp st) bl) ->
  load4 (mem st') (p - 4) = load4 (mem st) (p - 4) /\
  load4 (mem st') (p + sp - 8) = load4 (mem st) (p + sp - 8).
Proof.
  intros (Hrep & Hb & Hnew & _) Hins Hp.
  pose proof (rep_block _ _ _ Hrep _ _ Hp) as Bp. cbn in Bp.
  assert (forall x, p - 4 <= x < p \/ p + sp - 8 <= x < p + sp - 4 ->
                    load1 (mem st') x = load1 (mem st) x) as Hfr.
  { intros x Hx.
    apply (insert_frame _ _ _ Hrep _ _ Hb Hnew fuel st' x Hins); [lia |].
    intros q sq Hq.
    pose proof (rep_block _ _ _ Hrep _ _ Hq) as Bq. cbn in Bq.
    destruct (layout_sep _ _ _ _ _ _ (rep_wf _ _ _ Hrep) Hq Hp)
      as [[-> _] | Hd]; [| cbn [fst] in Hd]; lia. }
  split; apply load4_bytes; intros k Hk; apply Hfr; lia.
Qed.

(** What [coalesce] returns and leaves behind, given its shape. *)
Lemma coalesce_at_result fuel st bl fl bp s r bl' s' r0 st' :
  coalesce_shape_at fuel st bl fl bp s r bl' s' ->
  coalesce fuel st bp = Some (r0, st') ->
  r0 = r /\
  exists fl',
    heap_ok st' bl' fl' /\ same_globals st st' /\
    In (r, (s', false)) (layout (first_bp st') bl') /\
    In r (fl' (get_root_index s')) /\
    (s' = s -> load4 (mem st') (r - 4) = load4 (mem st) (r - 4) /\
               load4 (mem st') (r + s' - 8) = load4 (mem st) (r + s' - 8)) /\
    (s < s' -> load4 (mem st') (r + s' - 8) = load4 (mem st') (r - 4)).
Proof.
  intros (st2 & fl1 & Heq & Hready & Hs & Hg & Hpay & Hal & Hlen & Hsame & Hfoot) Hc.
  rewrite Heq in Hc.
  destruct (insert_to_free_list fuel st2 r) as [st3 |] eqn:Hins; [| discriminate].
  cbn in Hc. injection Hc as <- <-. split; [reflexivity |].
  destruct (insert_heap_ok _ _ _ _ _ _ _ Hready Hins) as (Hok & _ & Hg').
  pose proof Hready as (Hrep2 & Hin & _).
  destruct (insert_keeps_tags _ _ _ _ _ _ _ _ _ Hready Hins Hin) as [Th Tf].
  eexists. split; [exact Hok |].
  split; [exact (same_globals_trans _ _ _ Hg Hg') |].
  split; [rewrite (first_bp_same _ _ Hg'); exact Hin |].
  split; [| split].
  - destruct Hok as (_ & Hcov & _).
    rewrite <- (first_bp_same _ _ Hg') in Hin.
    destruct (Hcov _ _ Hin) as [[] | H]. exact H.
  - intros E. rewrite (Hsame E) in Th, Tf. auto.
  - intros Hlt. rewrite Th, Tf. auto.
Qed.

(** A pointer strictly inside a block of the layout is in no bucket. *)
Lemma inner_unlisted st bl fl r sr q :
  heap_rep st bl fl -> In (r, (sr, false)) (layout (first_bp st) bl) ->
  r < q < r + sr -> forall j, 0 <= j < 10 -> ~ In q (fl j).
Proof.
  intros Hrep Hr Hq j Hj Hin.
  destruct (rep_member _ _ _ Hrep j q Hj Hin) as (sq & Hb & _ & Hsq & _).
  destruct (layout_sep _ _ _ _ _ _ (rep_wf _ _ _ Hrep) Hb Hr)
    as [[E _] | Hd]; [| cbn [fst] in Hd]; lia.
Qed.

(** The bucket of a listed block is the one of its size. *)
Lemma listed_bucket st bl fl r sr j :
  heap_rep st bl fl -> In (r, (sr, false)) (layout (first_bp st) bl) ->
  0 <= j < 10 -> In r (fl j) -> j = get_root_index sr.
Proof.
  intros Hrep Hr Hj Hin.
  destruct (rep_members _ _ _ Hrep j r Hj Hin) as (s0 & Hb & <-).
  pose proof (layout_fun _ _ _ _ _ (rep_wf _ _ _ Hrep) Hb Hr) as E.
  inversion E. reflexivity.
Qed.

(** C6 (as amended): [coalesce] on a free, unlisted block [bp] of size
    [s] whose prev-alloc bit is accurate, in a heap that is otherwise in
    order.  It returns when the fuel covers the buckets.  The result [r] is
    a free block of the new layout, listed in the bucket of its size [s']
    and in no other.  Keyed on the prev-alloc bit of [bp] and the alloc bit
    of the next block: with both set nothing is merged and header and
    footer of [bp] are left as they were; with only the next block free it
    leaves its bucket, [r = bp] and [s' = s + s2]; with only the previous
    block free [r] is that block, [s' = s1 + s] and the header keeps the
    prev-alloc bit of that block; with both free [s' = s1 + s + s2].  In
    the three merging cases the footer of [r] is a copy of its new
    header. *)
Theorem coalesce_table st fl bl1 s bl2 :
  let bl := bl1 ++ (s, false) :: bl2 in
  let bp := first_bp st + span bl1 in
  heap_rep st bl fl ->
  (forall j, 0 <= j < 10 -> ~ In bp (fl j)) ->
  covered [bp] st bl fl ->
  naf true (bl1 ++ (s, true) :: bl2) ->
  (forall fuel, (forall j, 0 <= j < 10 -> (length (fl j) <= fuel)%nat) ->
     exists r st', coalesce fuel st bp = Some (r, st')) /\
  forall fuel r st', coalesce fuel st bp = Some (r, st') ->
    exists bl' fl' s',
      heap_ok st' bl' fl' /\
      In (r, (s', false)) (layout (first_bp st') bl') /\
      In r (fl' (get_root_index s')) /\
      (forall j, 0 <= j < 10 -> In r (fl' j) -> j = get_root_index s') /\
      match GET_PREV_ALLOC st (HDRP bp) =? 0,
            GET_ALLOC st (HDRP (NEXT_BLKP st bp)) =? 0 with
      | false, false =>
          r = bp /\ s' = s /\ bl' = bl /\
          GET st' (HDRP bp) = GET st (HDRP bp) /\
          GET st' (FTRP st' bp) = GET st (FTRP st bp)
      | false, true =>
          exists s2 bl2', bl2 = (s2, false) :: bl2' /\
            r = bp /\ s' = s + s2 /\ bl' = bl1 ++ (s + s2, false) :: bl2' /\
            (forall j, 0 <= j < 10 -> ~ In (bp + s) (fl' j)) /\
            GET st' (HDRP r) = hdr_word s' true false /\
            GET st' (FTRP st' r) = GET st' (HDRP r)
      | true, false =>
          exists bl1' s1, bl1 = bl1' ++ [(s1, false)] /\
            r = bp - s1 /\ s' = s1 + s /\
            bl' = bl1' ++ (s1 + s, false) :: bl2 /\
            (forall j, 0 <= j < 10 -> ~ In bp (fl' j)) /\
            GET_PREV_ALLOC st' (HDRP r) = GET_PREV_ALLOC st (HDRP r) /\
            GET st' (HDRP r) = hdr_word s' (last_alloc true bl1') false /\
            GET st' (FTRP st' r) = GET st' (HDRP r)
      | true, true =>
          exists bl1' s1 s2 bl2',
            bl1 = bl1' ++ [(s1, false)] /\ bl2 = (s2, false) :: bl2' /\
            r = bp - s1 /\ s' = s1 + s + s2 /\
            bl' = bl1' ++ (s1 + s + s2, false) :: bl2' /\
            (forall j, 0 <= j < 10 -> ~ In bp (fl' j) /\ ~ In (bp + s) (fl' j)) /\
            GET_PREV_ALLOC st' (HDRP r) = GET_PREV_ALLOC st (HDRP r) /\
            GET st' (HDRP r) = hdr_word s' (last_alloc true bl1') false /\
            GET st' (FTRP st' r) = GET st' (HDRP r)
      end.
Proof.
  intros bl bp Hrep Hun Hcov Hnaf. split.
  { intros fuel Hfuel.
    exact (coalesce_total fuel st fl bl1 bl2 s Hrep Hun Hcov Hnaf Hfuel). }
  intros fuel r st' Hc.
  pose proof (read_wf _ _ _ _ _ _ Hrep) as Wf. fold bp in Wf.
  destruct Wf as (S1 & S2 & S3 & S4 & B1 & B2 & B3 & B4 & B5 & B6 & B7).
  pose proof (read_prev_alloc _ _ _ _ _ _ Hrep) as Rpa. fold bp in Rpa.
  pose proof (read_next _ _ _ _ _ _ Hrep) as Rn. fold bp in Rn.
  pose proof (read_next_alloc _ _ _ _ _ _ Hrep) as Rna. fold bp in Rna.
  pose proof (read_ftrp _ _ _ _ _ _ Hrep) as Rf. fold bp in Rf.
  rewrite Rpa, Rn, Rna.
  assert (forall st1 bl1 fl1 r1 s1,
            heap_ok st1 bl1 fl1 ->
            In (r1, (s1, false)) (layout (first_bp st1) bl1) ->
            (forall j, 0 <= j < 10 -> In r1 (fl1 j) -> j = get_root_index s1) /\
            FTRP st1 r1 = r1 + s1 - 8 /\
            GET st1 (HDRP r1) = load4 (mem st1) (r1 - 4) /\
            forall q, r1 < q < r1 + s1 ->
                      forall j, 0 <= j < 10 -> ~ In q (fl1 j)) as Hgen.
  { intros st1 bl0 fl1 r1 s1 (Hrep1 & _) Hb. split; [| split; [| split]].
    - intros j Hj Hin. eapply listed_bucket; eassumption.
    - destruct (layout_split _ _ _ _ Hb) as (l1 & l2 & -> & ->).
      apply (read_ftrp _ _ _ _ _ _ Hrep1).
    - reflexivity.
    - intros q Hq. eapply inner_unlisted; eassumption. }
  destruct (last_alloc true bl1) eqn:Hpa, (hd_alloc bl2) eqn:Hna; cbn [Z.b2z Z.mul Z.eqb Pos.mul].
  - (* case 1 *)
    pose proof (coalesce_shape_1 fuel st fl bl1 s bl2 Hrep Hun Hcov Hnaf Hpa Hna) as Hsh.
    destruct (coalesce_at_result _ _ _ _ _ _ _ _ _ _ _ Hsh Hc)
      as (-> & fl' & Hok & Hg & Hin & Hlisted & Hsame & _).
    fold bp bl in Hin, Hok, Hlisted, Hsame.
    destruct (Hgen _ _ _ _ _ Hok Hin) as (H1 & H2 & H3 & H4).
    exists bl, fl', s. do 4 (split; [assumption |]).
    destruct (Hsame eq_refl) as [Th Tf].
    split; [reflexivity |]. split; [reflexivity |]. split; [reflexivity |].
    split; [exact Th |]. unfold bp in *. rewrite H2, Rf. exact Tf.
  - (* case 2 *)
    destruct (hd_alloc_false_split _ Hna) as (s2 & bl2' & ->).
    pose proof (coalesce_shape_2 fuel st fl bl1 s s2 bl2' Hrep Hun Hcov Hnaf Hpa) as Hsh.
    cbn [span app] in Hsh. rewrite Z.add_0_r in Hsh.
    destruct (coalesce_at_result _ _ _ _ _ _ _ _ _ _ _ Hsh Hc)
      as (-> & fl' & Hok & Hg & Hin & Hlisted & _ & Hfoot).
    fold bp in Hin, Hok, Hlisted, Hfoot.
    cbn [hd_size] in S3, S4, B7.
    assert (24 <= s2) as S5.
    { pose proof (rep_wf _ _ _ Hrep) as W. apply wf_sizes_app in W.
      destruct W as [_ W]. inversion W as [| ? ? _ W']; subst.
      inversion W' as [| ? ? [H _] _]; subst. exact H. }
    destruct (Hgen _ _ _ _ _ Hok Hin) as (H1 & H2 & H3 & H4).
    exists (bl1 ++ (s + s2, false) :: bl2'), fl', (s + s2).
    do 4 (split; [assumption |]).
    exists s2, bl2'. do 4 (split; [reflexivity |]).
    split; [apply H4; lia |].
    assert (GET st' (HDRP bp) = hdr_word (s + s2) true false) as Eh.
    { pose proof (rep_hdr_at _ _ _ _ _ _ (proj1 Hok)) as H.
      rewrite (first_bp_same _ _ Hg), Hpa in H. exact H. }
    split; [exact Eh |].
    unfold bp in *. rewrite H2, H3. unfold GET. apply Hfoot. lia.
  - (* case 3 *)
    destruct (last_alloc_false_split _ Hpa) as (bl1' & s1 & ->).
    assert (bp = first_bp st + span bl1' + s1) as Ebp
        by (unfold bp; rewrite span_app; cbn; lia).
    unfold bl in *. rewrite <- !app_assoc in *. cbn [app] in *.
    rewrite Ebp in Hun, Hcov.
    pose proof (coalesce_shape_3 fuel st fl bl1' s1 s bl2 Hrep Hun Hcov Hnaf Hna) as Hsh.
    cbn [span app] in Hsh. rewrite Z.add_0_r in Hsh.
    rewrite Ebp in Hc.
    destruct (coalesce_at_result _ _ _ _ _ _ _ _ _ _ _ Hsh Hc)
      as (-> & fl' & Hok & Hg & Hin & Hlisted & _ & Hfoot).
    pose proof (read_wf _ _ _ _ _ _ Hrep) as Wp.
    destruct (Hgen _ _ _ _ _ Hok Hin) as (H1 & H2 & H3 & H4).
    exists (bl1' ++ (s1 + s, false) :: bl2), fl', (s1 + s).
    do 4 (split; [assumption |]).
    exists bl1', s1. split; [reflexivity |].
    split; [lia |]. split; [reflexivity |]. split; [reflexivity |].
    replace (bp - s1) with (first_bp st + span bl1') by lia.
    split; [intros j Hj; rewrite Ebp; apply H4; [lia | exact Hj] |].
    assert (GET st' (HDRP (first_bp st + span bl1'))
            = hdr_word (s1 + s) (last_alloc true bl1') false) as Eh.
    { pose proof (rep_hdr_at _ _ _ _ _ _ (proj1 Hok)) as H.
      rewrite (first_bp_same _ _ Hg) in H. exact H. }
    split; [| split; [exact Eh |]].
    + destruct Wp as (P1 & P2 & _).
      assert ((s1 + s) mod 8 = 0) as P3 by zdm.
      unfold GET_PREV_ALLOC. rewrite Eh.
      rewrite (read_hdr _ _ _ _ _ _ Hrep).
      rewrite !hdr_prev_alloc by assumption. reflexivity.
    + rewrite H2, H3. unfold GET. apply Hfoot. lia.
  - (* case 4 *)
    destruct (last_alloc_false_split _ Hpa) as (bl1' & s1 & ->).
    destruct (hd_alloc_false_split _ Hna) as (s2 & bl2' & ->).
    assert (bp = first_bp st + span bl1' + s1) as Ebp
        by (unfold bp; rewrite span_app; cbn; lia).
    unfold bl in *. rewrite <- !app_assoc in *. cbn [app] in *.
    rewrite Ebp in Hun, Hcov.
    pose proof (coalesce_shape_4 fuel st fl bl1' s1 s s2 bl2' Hrep Hun Hcov Hnaf) as Hsh.
    cbn [span app] in Hsh. rewrite Z.add_0_r in Hsh.
    replace (s1 + (s + s2)) with (s1 + s + s2) in Hsh by lia.
    rewrite Ebp in Hc.
    destruct (coalesce_at_result _ _ _ _ _ _ _ _ _ _ _ Hsh Hc)
      as (-> & fl' & Hok & Hg & Hin & Hlisted & _ & Hfoot).
    pose proof (read_wf _ _ _ _ _ _ Hrep) as Wp.
    cbn [hd_size] in S3, S4, B7.
    assert (24 <= s2) as S5.
    { pose proof (rep_wf _ _ _ Hrep) as W. apply wf_sizes_app in W.
      destruct W as [_ W]. inversion W as [| ? ? _ W']; subst.
      inversion W' as [| ? ? _ W'']; subst.
      inversion W'' as [| ? ? [H _] _]; subst. exact H. }
    destruct (Hgen _ _ _ _ _ Hok Hin) as (H1 & H2 & H3 & H4).
    exists (bl1' ++ (s1 + s + s2, false) :: bl2'), fl', (s1 + s + s2).
    do 4 (split; [assumption |]).
    exists bl1', s1, s2, bl2'. split; [reflexivity |]. split; [reflexivity |].
    split; [lia |]. split; [reflexivity |]. split; [reflexivity |].
    replace (bp - s1) with (first_bp st + span bl1') by lia.
    split.
    { intros j Hj. rewrite Ebp. split; apply H4; try exact Hj; lia. }
    assert (GET st' (HDRP (first_bp st + span bl1'))
            = hdr_word (s1 + s + s2) (last_alloc true bl1') false) as Eh.
    { pose proof (rep_hdr_at _ _ _ _ _ _ (proj1 Hok)) as H.
      rewrite (first_bp_same _ _ Hg) in H. exact H. }
    split; [| split; [exact Eh |]].
    + destruct Wp as (P1 & P2 & _).
      assert ((s1 + s + s2) mod 8 = 0) as P3 by zdm.
      unfold GET_PREV_ALLOC. rewrite Eh.
      rewrite (read_hdr _ _ _ _ _ _ Hrep).
      rewrite !hdr_prev_alloc by assumption. reflexivity.
    + rewrite H2, H3. unfold GET. apply Hfoot. lia.
Qed.

Lemma unmatched_heap_rep :
  heap_rep unmatched_heap [(24, false); (24, true); (4048, false)]
           unmatched_buckets.
Proof.
  constructor.
  - by_eval.
  - by_eval.
  - by_eval.
  - by_eval.
  - by_eval.
  - by_eval.
  - by_eval.
  - split; by_eval.
  - cbn [tseg].
    split; [lia |]. split; [reflexivity |]. split; [by_eval |].
    split; [intros _; by_eval |].
    split; [lia |]. split; [reflexivity |]. split; [by_eval |].
    split; [discriminate |].
    split; [lia |]. split; [reflexivity |]. split; [by_eval |].
    split; [intros _; by_eval | exact I].
  - by_eval.
  - apply ten_cases; try (apply dll_nil; by_eval).
    exists 4240. cbn [unmatched_buckets lseg]. change (7 =? 7) with true.
    cbn [lseg].
    split; [by_eval |]. split; [lia |]. split; [by_eval |].
    split; [reflexivity | by_eval].
  - apply ten_cases; try (cbn; constructor).
    + intros [].
    + constructor.
  - intros j p Hj. revert p. pattern j. revert j Hj.
    apply ten_cases; intros p Hp; try (destruct Hp).
    + subst p. exists 4048. split; [right; right; left; by_eval | by_eval].
    + contradiction.
Qed.

Lemma coalesce_table_witness :
  exists r st', coalesce 16 unmatched_heap 4192 = Some (r, st').
Proof.
  assert (first_bp unmatched_heap + span (@nil (Z * bool)) = 4192) as E
      by (vm_compute; reflexivity).
  assert (forall j, 0 <= j < 10 -> ~ In 4192 (unmatched_buckets j)) as Hun.
  { apply ten_cases; cbn; intros H; try contradiction.
    destruct H as [H | []]. discriminate. }
  assert (covered [4192] unmatched_heap
            ([] ++ (24, false) :: [(24, true); (4048, false)])
            unmatched_buckets) as Hcov.
  { unfold covered. replace (first_bp unmatched_heap) with 4192 by by_eval.
    intros p s [Hp | [Hp | [Hp | []]]]; inversion Hp; subst.
    - left. left. reflexivity.
    - right. left. reflexivity. }
  assert (naf true ([] ++ (24, true) :: [(24, true); (4048, false)])) as Hnaf
      by (cbn; tauto).
  rewrite <- E in Hun, Hcov.
  pose proof (proj1 (coalesce_table unmatched_heap unmatched_buckets [] 24
                       [(24, true); (4048, false)] unmatched_heap_rep
                       Hun Hcov Hnaf)) as Htot.
  rewrite E in Htot. apply Htot.
  apply ten_cases; cbn; lia.
Defined.

(** With both neighbours allocated [coalesce] writes no header and no
    footer: on [unmatched_heap], whose block 4192 has a header that reports
    free with an accurate prev-alloc bit, and a footer without that bit, the
    result block 4192 has header 26 and footer 24. *)
Lemma coalesce_keeps_unmatched_footer :
  GET_ALLOC unmatched_heap (HDRP 4192) = 0 /\
  GET_PREV_ALLOC unmatched_heap (HDRP 4192) = 2 /\
  GET_ALLOC unmatched_heap (HDRP (heap_listp unmatched_heap)) = 1 /\
  GET_ALLOC unmatched_heap (HDRP (NEXT_BLKP unmatched_heap 4192)) = 1 /\
  result_of (coalesce 16 unmatched_heap 4192) = 4192 /\
  GET (state_of (coalesce 16 unmatched_heap 4192) unmatched_heap) (HDRP 4192)
  = 26 /\
  GET (state_of (coalesce 16 unmatched_heap 4192) unmatched_heap)
      (FTRP (state_of (coalesce 16 unmatched_heap 4192) unmatched_heap) 4192)
  = 24.
Proof. vm_compute. repeat split; reflexivity. Qed.

(** * Claim about [find_fit] *)

Lemma first_fit_split f asize l :
  first_fit f asize l <> 0 ->
  exists l1 l2, l = l1 ++ first_fit f asize l :: l2 /\
                (forall q, In q l1 -> f q < asize) /\
                asize <= f (first_fit f asize l).
Proof.
  induction l as [| p l IH]; cbn; intros H; [congruence |].
  destruct (Z.geb_spec (f p) asize) as [Hp | Hp].
  - exists [], l. split; [reflexivity |]. split; [intros q [] | lia].
  - destruct (IH H) as (l1 & l2 & E & Hlt & Hge).
    exists (p :: l1), l2. split; [cbn; rewrite <- E; reflexivity |].
    split; [| exact Hge]. intros q [<- | Hq]; auto.
Qed.

Lemma first_fit_ext f f' asize l :
  (forall q, In q l -> f q = f' q) ->
  first_fit f asize l = first_fit f' asize l.
Proof.
  induction l as [| p l IH]; cbn; intros H; [reflexivity |].
  rewrite (H p) by auto. rewrite IH by auto. reflexivity.
Qed.

Lemma first_fit_from_ext f f' asize fl n :
  forall i,
  (forall j q, i <= j < i + Z.of_nat n -> In q (fl j) -> f q = f' q) ->
  first_fit_from f asize fl i n = first_fit_from f' asize fl i n.
Proof.
  induction n as [| n IH]; intros i H; cbn [first_fit_from]; [reflexivity |].
  rewrite (first_fit_ext f f' asize (fl i)) by (intros q Hq; apply (H i); [lia | exact Hq]).
  rewrite (IH (i + 1)) by (intros j q Hj Hq; apply (H j); [lia | exact Hq]).
  reflexivity.
Qed.

(** C7: [find_fit] in a state whose buckets from the one of [asize] on are
    null-terminated lists [fl j] (the lower buckets are unconstrained).
    With enough fuel it returns the first fit [r] over the buckets
    [i, i+1, ..., 9], and whatever the fuel it returns nothing else.  When
    [r] is not null it lies in a bucket [j >= i], every node before it in
    that list and every node of the buckets [i..j-1] is smaller than
    [asize], and when the list is sorted by size no fitting node of the
    list is smaller than [r].  [r] is null exactly when no node of the
    buckets [i..9] fits.  A state that differs only below the root of
    bucket [i] gives the same answer. *)
Theorem find_fit_spec st fl asize :
  let i := get_root_index asize in
  let f := size_at (mem st) in
  let r := first_fit_from f asize fl i (Z.to_nat (10 - i)) in
  heap_listp st = seg_free_listp st + 88 ->
  (forall j, i <= j < 10 ->
     dll (mem st) (load8 (mem st) (seg_free_listp st + 8 * j)) (fl j)) ->
  (forall fuel, (forall j, i <= j < 10 -> (length (fl j) + 10 <= fuel)%nat) ->
     find_fit fuel st asize = Some r) /\
  (forall fuel r', find_fit fuel st asize = Some r' -> r' = r) /\
  (r <> 0 ->
   exists j l1 l2,
     i <= j < 10 /\ fl j = l1 ++ r :: l2 /\
     (forall q, In q l1 -> f q < asize) /\ asize <= f r /\
     (forall k q, i <= k < j -> In q (fl k) -> f q < asize) /\
     (sorted_by f (fl j) ->
      forall q, In q (fl j) -> asize <= f q -> f r <= f q)) /\
  (r = 0 -> forall j q, i <= j < 10 -> In q (fl j) -> f q < asize) /\
  (forall st2 fuel,
     heap_listp st2 = heap_listp st -> seg_free_listp st2 = seg_free_listp st ->
     (forall j q, i <= j < 10 -> In q (fl j) -> seg_free_listp st + 84 <= q) ->
     (forall x, seg_free_listp st + 8 * i <= x ->
                load1 (mem st2) x = load1 (mem st) x) ->
     (forall j, i <= j < 10 -> (length (fl j) + 10 <= fuel)%nat) ->
     find_fit fuel st2 asize = Some r).
Proof.
  intros i f r Hlistp Hdll.
  pose proof (get_root_index_range asize) as Hi. fold i in Hi.
  assert (i + Z.of_nat (Z.to_nat (10 - i)) = 10) as Hn by lia.
  assert (forall st', seg_free_listp st' = seg_free_listp st ->
            get_root st' asize = seg_free_listp st + 8 * i) as Hroot.
  { intros st' E. unfold get_root, DSIZE. rewrite E. fold i. lia. }
  assert (forall j q, i <= j < i + Z.of_nat (Z.to_nat (10 - i)) ->
                      In q (fl j) -> q <> 0) as Hnz.
  { intros j q Hj Hq. destruct (Hdll j) as (last & Hl); [lia |].
    eapply lseg_nonnull; eassumption. }
  split; [| split; [| split; [| split]]].
  - intros fuel Hfuel. unfold find_fit. rewrite (Hroot st eq_refl).
    apply (find_fit_roots_spec st asize fl Hlistp (Z.to_nat (10 - i)));
      try lia; try assumption.
    + intros j Hj. specialize (Hfuel j Hj). lia.
    + specialize (Hfuel 9). lia.
  - intros fuel r' Hf. unfold find_fit in Hf. rewrite (Hroot st eq_refl) in Hf.
    apply (find_fit_roots_sound st asize fl Hlistp (Z.to_nat (10 - i)) fuel i);
      try lia; assumption.
  - intros Hr.
    destruct (first_fit_from_cases st asize fl (Z.to_nat (10 - i)) i Hnz)
      as [(_ & j & Hj & Er & Hin & Hge & Hlow) | (H0 & _)];
      [| unfold r, f in Hr; contradiction].
    fold f r in Er, Hin, Hge, Hlow.
    assert (first_fit f asize (fl j) <> 0) as Hne by (rewrite <- Er; exact Hr).
    destruct (first_fit_split f asize (fl j) Hne) as (l1 & l2 & E & Hlt & Hfit).
    rewrite <- Er in E, Hfit.
    exists j, l1, l2. split; [lia |]. split; [exact E |].
    split; [exact Hlt |]. split; [exact Hfit |]. split; [exact Hlow |].
    intros Hs q Hq Hqa. rewrite Er.
    apply (first_fit_best st asize (fl j) q Hs Hne Hq). unfold f in *. lia.
  - intros Hr j q Hj Hq.
    destruct (first_fit_from_cases st asize fl (Z.to_nat (10 - i)) i Hnz)
      as [(Hne & _) | (_ & Hnone)]; [unfold r, f in Hr; contradiction |].
    apply (Hnone j q); [lia | exact Hq].
  - intros st2 fuel G1 G2 Habove Hsame Hfuel.
    unfold find_fit. rewrite (Hroot st2 G2), <- G2.
    assert (heap_listp st2 = seg_free_listp st2 + 88) as Hlistp2 by congruence.
    rewrite (find_fit_roots_spec st2 asize fl Hlistp2 (Z.to_nat (10 - i)));
      try lia.
    + f_equal. apply first_fit_from_ext. intros j q Hj Hq.
      unfold f, size_at. f_equal. apply load4_bytes. intros k Hk.
      apply Hsame. assert (seg_free_listp st + 84 <= q) by (apply (Habove j); [lia | exact Hq]).
      lia.
    + intros j Hj. rewrite G2.
      assert (load8 (mem st2) (seg_free_listp st + 8 * j)
              = load8 (mem st) (seg_free_listp st + 8 * j)) as ->.
      { apply load8_bytes. intros k Hk. apply Hsame. lia. }
      destruct (Hdll j Hj) as (last & Hl). exists last.
      eapply lseg_frame; [| exact Hl]. intros q Hq.
      specialize (Habove j q Hj Hq).
      split; apply load8_bytes; intros k Hk; apply Hsame; lia.
    + intros j Hj. specialize (Hfuel j Hj). lia.
    + specialize (Hfuel 9). lia.
Qed.

Lemma find_fit_spec_witness : find_fit 16 roomy_heap 24 = Some 4192.
Proof.
  assert (heap_listp roomy_heap = seg_free_listp roomy_heap + 88) as Hl by by_eval.
  assert (forall j, get_root_index 24 <= j < 10 ->
            dll (mem roomy_heap)
                (load8 (mem roomy_heap) (seg_free_listp roomy_heap + 8 * j))
                (roomy_buckets j)) as Hdll.
  { intros j Hj. apply (rep_lists _ _ _ roomy_heap_rep).
    pose proof (get_root_index_range 24). lia. }
  assert (first_fit_from (size_at (mem roomy_heap)) 24 roomy_buckets
            (get_root_index 24) (Z.to_nat (10 - get_root_index 24)) = 4192) as Er
      by by_eval.
  rewrite <- Er.
  apply (proj1 (find_fit_spec roomy_heap roomy_buckets 24 Hl Hdll)).
  intros j Hj. revert j Hj. change (get_root_index 24) with 0.
  apply ten_cases; cbn; lia.
Defined.
(** * The public interface on reachable states *)

Lemma reachable_two_block : reachable two_block_heap [4216; 4192].
Proof.
  apply (reach_call one_block_heap [4192] 16 (Malloc 16) 4216 two_block_heap).
  - exact reachable_one_block.
  - unfold valid_call, size_ok, SIZE_MAX. lia.
  - vm_compute. reflexivity.
  - exact I.
Qed.

(** A live pointer is an allocated block of the layout, and the code reads
    its size and its alloc bit from the header. *)
Lemma live_block st bl fl live p :
  heap_ok st bl fl -> tracks st bl live -> In p live ->
  exists s, In (p, (s, true)) (layout (first_bp st) bl) /\
            GET_SIZE st (HDRP p) = s /\ GET_ALLOC st (HDRP p) = 1.
Proof.
  intros (Hrep & _) Ht Hp. apply Ht in Hp. destruct Hp as (s & Hb).
  exists s. split; [exact Hb |]. split.
  - apply (rep_get_size _ _ _ Hrep _ _ _ Hb).
  - apply (rep_get_alloc _ _ _ Hrep _ _ _ Hb).
Qed.

(** X1: every pointer the client holds is 8-aligned, lies behind the
    prologue, and heads a block that is marked allocated, has a size that
    is a multiple of 8 and at least 24, and ends within the heap. *)
Theorem live_block_shape st live p :
  reachable st live -> In p live ->
  p mod 8 = 0 /\ GET_ALLOC st (HDRP p) = 1 /\
  MINBLOCKSIZE <= GET_SIZE st (HDRP p) /\ GET_SIZE st (HDRP p) mod 8 = 0 /\
  heap_listp st + DSIZE <= p /\ p + GET_SIZE st (HDRP p) <= mem_brk st.
Proof.
  intros Hreach Hp.
  destruct (reachable_inv _ _ Hreach) as (bl & fl & Hok & Ht).
  destruct (live_block _ _ _ _ _ Hok Ht Hp) as (s & Hb & -> & Ha).
  destruct Hok as (Hrep & _).
  pose proof (rep_block _ _ _ Hrep _ _ Hb) as B. cbn in B.
  pose proof (rep_listp _ _ _ Hrep) as L.
  unfold MINBLOCKSIZE, DSIZE. repeat split; try tauto; lia.
Qed.

Lemma live_block_shape_witness :
  In 4192 [4192] /\ 4192 mod 8 = 0 /\
  GET_ALLOC one_block_heap (HDRP 4192) = 1.
Proof.
  assert (In 4192 [4192]) as Hin by (left; reflexivity).
  split; [exact Hin |].
  pose proof (live_block_shape one_block_heap [4192] 4192
                reachable_one_block Hin) as H.
  split; [exact (proj1 H) | exact (proj1 (proj2 H))].
Defined.

(** X2: the blocks of two different live pointers do not overlap. *)
Theorem live_blocks_separate st live p q :
  reachable st live -> In p live -> In q live -> p <> q ->
  p + GET_SIZE st (HDRP p) <= q \/ q + GET_SIZE st (HDRP q) <= p.
Proof.
  intros Hreach Hp Hq Hne.
  destruct (reachable_inv _ _ Hreach) as (bl & fl & Hok & Ht).
  destruct (live_block _ _ _ _ _ Hok Ht Hp) as (s & Hb & -> & _).
  destruct (live_block _ _ _ _ _ Hok Ht Hq) as (s' & Hb' & -> & _).
  destruct Hok as (Hrep & _).
  destruct (layout_sep _ _ _ _ _ _ (rep_wf _ _ _ Hrep) Hb Hb')
    as [[E _] | H]; [contradiction | exact H].
Qed.

Lemma live_blocks_separate_witness :
  In 4192 [4216; 4192] /\ In 4216 [4216; 4192] /\
  (4192 + GET_SIZE two_block_heap (HDRP 4192) <= 4216 \/
   4216 + GET_SIZE two_block_heap (HDRP 4216) <= 4192).
Proof.
  assert (In 4192 [4216; 4192]) as H1 by (right; left; reflexivity).
  assert (In 4216 [4216; 4192]) as H2 by (left; reflexivity).
  split; [exact H1 |]. split; [exact H2 |].
  exact (live_blocks_separate two_block_heap [4216; 4192] 4192 4216
           reachable_two_block H1 H2 ltac:(lia)).
Defined.

(** ** Helper facts *)

Lemma reachable_small : reachable small_heap [].
Proof.
  apply (reach_init (raw_state 4096 (4096 + 96 + 4096)) 16).
  - unfold fresh_heap. cbn. repeat split; lia.
  - vm_compute. reflexivity.
Qed.

Lemma wf_mid (l1 : list blk) b l2 :
  wf_sizes (l1 ++ b :: l2) -> 24 <= fst b /\ fst b mod 8 = 0.
Proof.
  intros W. apply wf_sizes_app in W. destruct W as [_ W].
  inversion W; subst. assumption.
Qed.

(** A free block met by the walk is a free block of the layout. *)
Lemma walk_free_block st bl fl p :
  heap_ok st bl fl -> heap_block st p -> GET_ALLOC st (HDRP p) = 0 ->
  In (p, (GET_SIZE st (HDRP p), false)) (layout (first_bp st) bl).
Proof.
  intros (Hrep & _) Hp Ha.
  destruct (walk_cases st bl fl Hrep p Hp) as [-> | [([s al] & Hb) | ->]].
  - destruct (walk_prologue st bl fl Hrep) as (_ & E & _). lia.
  - rewrite (rep_get_alloc _ _ _ Hrep _ _ _ Hb) in Ha.
    rewrite (rep_get_size _ _ _ Hrep _ _ _ Hb).
    destruct al; [discriminate | exact Hb].
  - destruct (walk_epilogue st bl fl Hrep) as [_ E]. lia.
Qed.

(** Where the block returned by [coalesce] lies: it contains the block
    that was passed in. *)
Lemma coalesce_covers fuel st fl bl1 s bl2 r st' :
  heap_rep st (bl1 ++ (s, false) :: bl2) fl ->
  (forall j, 0 <= j < 10 -> ~ In (first_bp st + span bl1) (fl j)) ->
  covered [first_bp st + span bl1] st (bl1 ++ (s, false) :: bl2) fl ->
  naf true (bl1 ++ (s, true) :: bl2) ->
  coalesce fuel st (first_bp st + span bl1) = Some (r, st') ->
  exists bl' fl' s',
    heap_ok st' bl' fl' /\ same_globals st st' /\
    In (r, (s', false)) (layout (first_bp st') bl') /\
    In r (fl' (get_root_index s')) /\
    r <= first_bp st + span bl1 /\ first_bp st + span bl1 + s <= r + s'.
Proof.
  intros Hrep Hun Hcov Hnaf Hc.
  pose proof (rep_wf _ _ _ Hrep) as W.
  destruct (last_alloc true bl1) eqn:Hpa, (hd_alloc bl2) eqn:Hna.
  - destruct (coalesce_at_result _ _ _ _ _ _ _ _ _ _ _
                (coalesce_shape_1 fuel st fl bl1 s bl2 Hrep Hun Hcov Hnaf Hpa Hna) Hc)
      as (-> & fl' & Hok & Hg & Hin & Hl & _).
    eexists _, fl', _. split; [exact Hok |]. split; [exact Hg |].
    split; [exact Hin |]. split; [exact Hl |]. lia.
  - destruct (hd_alloc_false_split _ Hna) as (s2 & bl2' & ->).
    pose proof (wf_mid (bl1 ++ [(s, false)]) (s2, false) bl2') as W2.
    rewrite <- app_assoc in W2. specialize (W2 W). cbn in W2.
    destruct (coalesce_at_result _ _ _ _ _ _ _ _ _ _ _
                (coalesce_shape_2 fuel st fl bl1 s s2 bl2' Hrep Hun Hcov Hnaf Hpa) Hc)
      as (-> & fl' & Hok & Hg & Hin & Hl & _).
    eexists _, fl', _. split; [exact Hok |]. split; [exact Hg |].
    split; [exact Hin |]. split; [exact Hl |]. cbn. lia.
  - destruct (last_alloc_false_split _ Hpa) as (bl1' & s1 & ->).
    assert (first_bp st + span (bl1' ++ [(s1, false)])
            = first_bp st + span bl1' + s1) as E
        by (rewrite span_app; cbn; lia).
    rewrite E in *. rewrite <- !app_assoc in *. cbn [app] in *.
    pose proof (wf_mid _ _ _ W) as W1. cbn in W1.
    destruct (coalesce_at_result _ _ _ _ _ _ _ _ _ _ _
                (coalesce_shape_3 fuel st fl bl1' s1 s bl2 Hrep Hun Hcov Hnaf Hna) Hc)
      as (-> & fl' & Hok & Hg & Hin & Hl & _).
    eexists _, fl', _. split; [exact Hok |]. split; [exact Hg |].
    split; [exact Hin |]. split; [exact Hl |]. cbn. lia.
  - destruct (last_alloc_false_split _ Hpa) as (bl1' & s1 & ->).
    destruct (hd_alloc_false_split _ Hna) as (s2 & bl2' & ->).
    assert (first_bp st + span (bl1' ++ [(s1, false)])
            = first_bp st + span bl1' + s1) as E
        by (rewrite span_app; cbn; lia).
    rewrite E in *. rewrite <- !app_assoc in *. cbn [app] in *.
    pose proof (wf_mid _ _ _ W) as W1. cbn in W1.
    pose proof (wf_mid (bl1' ++ [(s1, false); (s, false)]) (s2, false) bl2') as W2.
    rewrite <- app_assoc in W2. specialize (W2 W). cbn in W2.
    destruct (coalesce_at_result _ _ _ _ _ _ _ _ _ _ _
                (coalesce_shape_4 fuel st fl bl1' s1 s s2 bl2' Hrep Hun Hcov Hnaf) Hc)
      as (-> & fl' & Hok & Hg & Hin & Hl & _).
    eexists _, fl', _. split; [exact Hok |]. split; [exact Hg |].
    split; [exact Hin |]. split; [exact Hl |]. cbn. lia.
Qed.

(** After [free] the freed block lies within a free block. *)
Lemma free_covers fuel st bl fl bp s st' :
  heap_ok st bl fl -> In (bp, (s, true)) (layout (first_bp st) bl) ->
  free fuel st bp = Some st' ->
  exists bl' fl' r s',
    heap_ok st' bl' fl' /\
    In (r, (s', false)) (layout (first_bp st') bl') /\
    r <= bp /\ bp + s <= r + s'.
Proof.
  intros (Hrep & Hcov & Hnaf) Hb Hfree.
  destruct (layout_split _ _ _ _ Hb) as (bl1 & bl2 & -> & ->).
  pose proof (read_wf _ _ _ _ _ _ Hrep) as Wf.
  rewrite free_unfold in Hfree by lia.
  set (bp := first_bp st + span bl1) in *.
  destruct (coalesce fuel (mark_free st bp) bp) as [[r st3] |] eqn:Hc;
    [| discriminate].
  cbn in Hfree. injection Hfree as <-.
  pose proof (mark_free_rep st fl bl1 bl2 s Hrep) as Hrep1. fold bp in Hrep1.
  destruct (coalesce_covers fuel (mark_free st bp) fl bl1 s bl2 r st3 Hrep1)
    as (bl' & fl' & s' & Hok & _ & Hin & _ & Hpos).
  - intros j Hj. apply (mark_free_unlisted st fl bl1 bl2 s Hrep j Hj).
  - apply (mark_free_covered st fl bl1 bl2 s Hcov).
  - exact Hnaf.
  - exact Hc.
  - exists bl', fl', r, s'. split; [exact Hok |]. split; [exact Hin |].
    change (first_bp (mark_free st bp)) with (first_bp st) in Hpos. fold bp in Hpos.
    exact Hpos.
Qed.

(** [malloc] with a fitting free block in the heap takes its block from
    the buckets: the heap is not extended. *)
Lemma malloc_fit fuel st bl fl size p s r st' :
  heap_ok st bl fl -> size_ok size -> 0 < size ->
  In (p, (s, false)) (layout (first_bp st) bl) -> adjust_size size <= s ->
  malloc fuel st size = Some (r, st') ->
  r <> 0 /\ same_globals st st'.
Proof.
  intros Hok Hsize Hpos Hb Hs Hm. pose proof Hok as (Hrep & Hcov & Hnaf).
  pose proof (rep_listp_nonzero _ _ _ Hrep) as Hl.
  rewrite malloc_unfold in Hm by (assumption || lia). cbv zeta in Hm.
  unfold size_ok in Hsize.
  destruct (adjust_size_facts size) as (A1 & A2 & A3 & A4); [lia |].
  set (asize := adjust_size size) in *.
  destruct (find_fit fuel st asize) as [bp0 |] eqn:Hf; [| discriminate].
  cbn [obind] in Hm.
  destruct (find_fit_sound _ _ _ _ _ _ Hok Hf) as [Hff Hfit].
  assert (bp0 <> 0) as Hne.
  { intros E. rewrite E in Hff. symmetry in Hff.
    pose proof (no_fit_small _ _ _ _ _ _ Hok Hff Hb). lia. }
  unfold NULL in Hm.
  destruct (Z.eqb_spec bp0 0) as [E | _]; [contradiction |]. cbn [negb] in Hm.
  destruct (Hfit Hne) as (s0 & Hb0 & Hs0).
  destruct (place fuel st bp0 asize) as [st2 |] eqn:Hp; [| discriminate].
  cbn in Hm. injection Hm as <- <-.
  destruct (place_sound' _ _ _ _ _ _ _ _ Hok Hb0 (conj A1 A2) Hs0 Hp)
    as (bl' & fl' & sa & _ & Hg & _).
  split; assumption.
Qed.

(** [malloc] of a positive size returns null only after [find_fit] found
    nothing and the heap primitive refused the extension. *)
Lemma malloc_null_inv fuel st bl fl size st' :
  heap_ok st bl fl -> size_ok size -> 0 < size ->
  malloc fuel st size = Some (0, st') ->
  st' = st /\
  mem_max_addr st < mem_brk st + Z.max (adjust_size size) CHUNKSIZE /\
  forall p s, In (p, (s, false)) (layout (first_bp st) bl) ->
              s < adjust_size size.
Proof.
  intros Hok Hsize Hpos Hm. pose proof Hok as (Hrep & Hcov & Hnaf).
  pose proof (rep_listp_nonzero _ _ _ Hrep) as Hl.
  assert (forall p s, In (p, (s, false)) (layout (first_bp st) bl) ->
                      s < adjust_size size) as Hsmall.
  { intros p s Hb. destruct (Z.lt_ge_cases s (adjust_size size)) as [H | H];
      [exact H |].
    destruct (malloc_fit _ _ _ _ _ _ _ _ _ Hok Hsize Hpos Hb H Hm) as [Hr _].
    contradiction. }
  split; [| split; [| exact Hsmall]].
  - destruct (malloc_sound _ _ _ _ _ _ _ Hok Hsize Hm)
      as (_ & _ & _ & _ & _ & _ & _ & Hz & _).
    apply Hz. reflexivity.
  - rewrite malloc_unfold in Hm by (assumption || lia). cbv zeta in Hm.
    unfold size_ok in Hsize.
    destruct (adjust_size_facts size) as (A1 & A2 & A3 & A4); [lia |].
    set (asize := adjust_size size) in *.
    destruct (find_fit fuel st asize) as [bp0 |] eqn:Hf; [| discriminate].
    cbn [obind] in Hm. unfold NULL in Hm.
    destruct (Z.eqb_spec bp0 0) as [-> | Hne]; cbn [negb] in Hm.
    + destruct (extend_heap fuel st (Z.max asize CHUNKSIZE / WSIZE))
        as [[r1 st1] |] eqn:He; [| discriminate].
      cbn [obind] in Hm.
      assert (extend_size (Z.max asize CHUNKSIZE / WSIZE) = Z.max asize CHUNKSIZE) as Es.
      { apply extend_size_even; unfold CHUNKSIZE; [norm_pow; lia |].
        destruct (Z.max_spec asize 4096) as [[_ ->] | [_ ->]]; [reflexivity | assumption]. }
      assert (24 <= Z.max asize CHUNKSIZE /\ Z.max asize CHUNKSIZE mod 8 = 0) as Hx.
      { unfold CHUNKSIZE.
        destruct (Z.max_spec asize 4096) as [[_ ->] | [_ ->]]; split; try lia;
          try assumption; reflexivity. }
      rewrite <- Es in Hx.
      destruct (extend_heap_sound fuel st bl fl _ Hok Hx r1 st1 He)
        as [(_ & _ & Hfull) | (bl1 & fl1 & s' & Hok1 & _ & _ & _ & Hin1 & _)].
      * rewrite Es in Hfull. exact Hfull.
      * exfalso. pose proof Hok1 as (Hrep1 & _).
        pose proof (rep_block _ _ _ Hrep1 _ _ Hin1) as B. cbn in B.
        pose proof (rep_pos _ _ _ Hrep1) as Hpos1.
        destruct (Z.eqb_spec r1 0) as [E | Hr1]; [lia |].
        destruct (place fuel st1 r1 asize) as [st2 |]; [| discriminate].
        cbn in Hm. injection Hm as E _. contradiction.
    + exfalso. destruct (place fuel st bp0 asize) as [st2 |]; [| discriminate].
      cbn in Hm. injection Hm as E _. contradiction.
Qed.

(** ** [malloc] *)

(** X3: a non-null result of [malloc] on a reachable state is a pointer
    the client did not hold; its block is marked allocated, has room for
    [size] bytes behind the header word, lies behind the prologue and ends
    within the heap.  Every block the client held keeps its size, does not
    overlap the new block, and keeps its payload bytes. *)
Theorem malloc_fresh_block st live fuel size r st' :
  reachable st live -> size_ok size ->
  malloc fuel st size = Some (r, st') -> r <> 0 ->
  ~ In r live /\
  GET_ALLOC st' (HDRP r) = 1 /\
  size + WSIZE <= GET_SIZE st' (HDRP r) /\
  heap_listp st' + DSIZE <= r /\ r + GET_SIZE st' (HDRP r) <= mem_brk st' /\
  forall p, In p live ->
    GET_SIZE st' (HDRP p) = GET_SIZE st (HDRP p) /\
    (p + GET_SIZE st (HDRP p) <= r \/ r + GET_SIZE st' (HDRP r) <= p) /\
    forall x, p <= x < p + GET_SIZE st (HDRP p) - WSIZE ->
              load1 (mem st') x = load1 (mem st) x.
Proof.
  intros Hreach Hsize Hm Hr.
  destruct (reachable_inv _ _ Hreach) as (bl & fl & Hok & Ht).
  destruct (malloc_sound _ _ _ _ _ _ _ Hok Hsize Hm)
    as (bl' & fl' & (Hrep' & _) & Hanch & Hpay & Hfwd & _ & _ & Hnz & _).
  destruct (Hnz Hr) as ((sa & Hin & Hsa) & Hfresh).
  pose proof (rep_block _ _ _ Hrep' _ _ Hin) as B. cbn in B.
  pose proof (rep_listp _ _ _ Hrep') as L.
  rewrite (rep_get_size _ _ _ Hrep' _ _ _ Hin).
  rewrite (rep_get_alloc _ _ _ Hrep' _ _ _ Hin).
  assert (~ In r live) as Hnew.
  { intros Hl. apply Ht in Hl. destruct Hl as (s & Hb).
    destruct (Hfresh s true) as [H | H]; [contradiction | discriminate]. }
  unfold WSIZE, DSIZE.
  split; [exact Hnew |]. split; [reflexivity |]. split; [lia |].
  split; [lia |]. split; [lia |].
  intros p Hp.
  destruct (live_block _ _ _ _ _ Hok Ht Hp) as (s & Hb & -> & _).
  pose proof (Hfwd _ _ Hb) as Hb'.
  rewrite (rep_get_size _ _ _ Hrep' _ _ _ Hb').
  split; [reflexivity |]. split.
  - destruct (layout_sep _ _ _ _ _ _ (rep_wf _ _ _ Hrep') Hb' Hin)
      as [[E _] | H]; [| exact H].
    exfalso. apply Hnew. rewrite <- E. exact Hp.
  - intros x Hx. apply (Hpay p s x Hb). exact Hx.
Qed.

Lemma malloc_fresh_block_witness :
  malloc 16 one_block_heap 16 = Some (4216, two_block_heap) /\
  ~ In 4216 [4192] /\
  16 + WSIZE <= GET_SIZE two_block_heap (HDRP 4216).
Proof.
  assert (malloc 16 one_block_heap 16 = Some (4216, two_block_heap)) as Hm
      by (vm_compute; reflexivity).
  assert (size_ok 16) as Hsz by (unfold size_ok, SIZE_MAX; lia).
  pose proof (malloc_fresh_block one_block_heap [4192] 16 16 4216 two_block_heap
                reachable_one_block Hsz Hm ltac:(lia)) as H.
  split; [exact Hm |].
  split; [exact (proj1 H) | exact (proj1 (proj2 (proj2 H)))].
Defined.

(** X4: when [malloc] of a positive size returns null on a reachable
    state, the state is unchanged, the heap primitive has no room for an
    extension by max(asize, CHUNKSIZE) bytes, and every free block the heap
    walk meets is smaller than the adjusted size. *)
Theorem malloc_null_means_full st live fuel size st' :
  reachable st live -> size_ok size -> 0 < size ->
  malloc fuel st size = Some (NULL, st') ->
  st' = st /\
  mem_max_addr st < mem_brk st + Z.max (adjust_size size) CHUNKSIZE /\
  forall p, heap_block st p -> GET_ALLOC st (HDRP p) = 0 ->
            GET_SIZE st (HDRP p) < adjust_size size.
Proof.
  intros Hreach Hsize Hpos Hm.
  destruct (reachable_inv _ _ Hreach) as (bl & fl & Hok & _).
  destruct (malloc_null_inv _ _ _ _ _ _ Hok Hsize Hpos Hm) as (E & Hfull & Hsmall).
  split; [exact E |]. split; [exact Hfull |].
  intros p Hp Ha. eapply Hsmall. apply (walk_free_block _ _ _ _ Hok Hp Ha).
Qed.

Lemma malloc_null_means_full_witness :
  result_of (malloc 16 small_heap 5000) = NULL /\
  mem_max_addr small_heap
  < mem_brk small_heap + Z.max (adjust_size 5000) CHUNKSIZE.
Proof.
  assert (result_of (malloc 16 small_heap 5000) = NULL) as Hres
      by (vm_compute; reflexivity).
  assert (malloc 16 small_heap 5000
          = Some (NULL, state_of (malloc 16 small_heap 5000) small_heap)) as Hm.
  { pose proof (run_result (malloc 16 small_heap 5000) small_heap) as H.
    rewrite Hres in H. apply H. discriminate. }
  assert (size_ok 5000) as Hsz by (unfold size_ok, SIZE_MAX; lia).
  split; [exact Hres |].
  exact (proj1 (proj2 (malloc_null_means_full small_heap [] 16 5000 _
                         reachable_small Hsz ltac:(lia) Hm))).
Defined.

(** X5: on a reachable state [malloc] of a positive size returns a
    non-null pointer, given enough fuel, whenever the heap primitive has
    room for an extension by max(asize, CHUNKSIZE) bytes or the heap walk
    meets a free block of at least the adjusted size. *)
Theorem malloc_succeeds st live size :
  reachable st live -> size_ok size -> 0 < size ->
  (mem_brk st + Z.max (adjust_size size) CHUNKSIZE <= mem_max_addr st \/
   exists p, heap_block st p /\ GET_ALLOC st (HDRP p) = 0 /\
             adjust_size size <= GET_SIZE st (HDRP p)) ->
  exists n, forall fuel, (n <= fuel)%nat ->
    exists r st', malloc fuel st size = Some (r, st') /\ r <> 0.
Proof.
  intros Hreach Hsize Hpos Hroom.
  destruct (reachable_inv _ _ Hreach) as (bl & fl & Hok & _).
  destruct (bucket_bound fl) as (n & Hn). exists n. intros fuel Hfuel.
  destruct (malloc_total fuel st bl fl size Hok Hsize) as (r & st' & Hm).
  { intros j Hj. specialize (Hn j Hj). lia. }
  exists r, st'. split; [exact Hm |]. intros ->.
  destruct (malloc_null_inv _ _ _ _ _ _ Hok Hsize Hpos Hm) as (_ & Hfull & Hsmall).
  destruct Hroom as [Hroom | (p & Hp & Ha & Hs)]; [lia |].
  pose proof (Hsmall _ _ (walk_free_block _ _ _ _ Hok Hp Ha)). lia.
Qed.

Lemma malloc_succeeds_witness :
  exists n, forall fuel, (n <= fuel)%nat ->
    exists r st', malloc fuel roomy_heap 16 = Some (r, st') /\ r <> 0.
Proof.
  assert (size_ok 16) as Hsz by (unfold size_ok, SIZE_MAX; lia).
  assert (mem_brk roomy_heap + Z.max (adjust_size 16) CHUNKSIZE
          <= mem_max_addr roomy_heap) as Hroom
      by (vm_compute; discriminate).
  exact (malloc_succeeds roomy_heap [] 16 reachable_roomy Hsz ltac:(lia)
           (or_introl Hroom)).
Defined.

(** X6: when the heap walk of a reachable state meets a free block of at
    least the adjusted size, [malloc] returns a non-null pointer without
    extending the heap: the break and both anchors are as before. *)
Theorem malloc_reuses_free_block st live fuel size p r st' :
  reachable st live -> size_ok size -> 0 < size ->
  heap_block st p -> GET_ALLOC st (HDRP p) = 0 ->
  adjust_size size <= GET_SIZE st (HDRP p) ->
  malloc fuel st size = Some (r, st') ->
  r <> 0 /\ same_globals st st'.
Proof.
  intros Hreach Hsize Hpos Hp Ha Hs Hm.
  destruct (reachable_inv _ _ Hreach) as (bl & fl & Hok & _).
  apply (malloc_fit _ _ _ _ _ _ _ _ _ Hok Hsize Hpos
           (walk_free_block _ _ _ _ Hok Hp Ha) Hs Hm).
Qed.

Lemma malloc_reuses_free_block_witness :
  heap_block roomy_heap (NEXT_BLKP roomy_heap (heap_listp roomy_heap)) /\
  malloc 16 roomy_heap 16 = Some (4192, one_block_heap) /\
  mem_brk one_block_heap = mem_brk roomy_heap.
Proof.
  assert (heap_block roomy_heap (NEXT_BLKP roomy_heap (heap_listp roomy_heap)))
    as Hb by (apply hb_next; [apply hb_first | vm_compute; reflexivity]).
  assert (GET_ALLOC roomy_heap
            (HDRP (NEXT_BLKP roomy_heap (heap_listp roomy_heap))) = 0) as Ha
      by (vm_compute; reflexivity).
  assert (adjust_size 16
          <= GET_SIZE roomy_heap
               (HDRP (NEXT_BLKP roomy_heap (heap_listp roomy_heap)))) as Hs
      by (vm_compute; discriminate).
  assert (malloc 16 roomy_heap 16 = Some (4192, one_block_heap)) as Hm
      by (vm_compute; reflexivity).
  assert (size_ok 16) as Hsz by (unfold size_ok, SIZE_MAX; lia).
  split; [exact Hb |]. split; [exact Hm |].
  destruct (malloc_reuses_free_block roomy_heap [] 16 16 _ 4192 one_block_heap
              reachable_roomy Hsz ltac:(lia) Hb Ha Hs Hm) as [_ (_ & _ & E & _)].
  exact E.
Defined.

(** ** [free] *)

(** X7: [free] of a live pointer returns when given enough fuel.  It moves
    neither the anchors nor the break; every other live block keeps its
    size, its alloc bit and its payload bytes; and the heap walk then meets
    a free block that contains the whole freed block. *)
Theorem free_keeps_others st live p :
  reachable st live -> In p live ->
  (exists n, forall fuel, (n <= fuel)%nat ->
     exists st', free fuel st p = Some st') /\
  forall fuel st', free fuel st p = Some st' ->
    same_globals st st' /\
    (forall q, In q live -> q <> p ->
       GET_SIZE st' (HDRP q) = GET_SIZE st (HDRP q) /\
       GET_ALLOC st' (HDRP q) = 1 /\
       forall x, q <= x < q + GET_SIZE st (HDRP q) - WSIZE ->
                 load1 (mem st') x = load1 (mem st) x) /\
    exists r, heap_block st' r /\ GET_ALLOC st' (HDRP r) = 0 /\
              r <= p /\
              p + GET_SIZE st (HDRP p) <= r + GET_SIZE st' (HDRP r).
Proof.
  intros Hreach Hp.
  destruct (reachable_inv _ _ Hreach) as (bl & fl & Hok & Ht).
  destruct (live_block _ _ _ _ _ Hok Ht Hp) as (s & Hb & Hgs & _).
  split.
  - destruct (bucket_bound fl) as (n & Hn). exists n. intros fuel Hfuel.
    apply (free_total fuel st bl fl p s Hok Hb).
    intros j Hj. specialize (Hn j Hj). lia.
  - intros fuel st' Hfree.
    destruct (free_sound _ _ _ _ _ _ _ Hok Hb Hfree)
      as (bl' & fl' & (Hrep' & _) & Hg & Hkeep & _).
    split; [exact Hg |]. split.
    + intros q Hq Hne.
      destruct (live_block _ _ _ _ _ Hok Ht Hq) as (sq & Hbq & -> & _).
      destruct (Hkeep _ _ Hbq Hne) as [Hbq' Hpay].
      rewrite (rep_get_size _ _ _ Hrep' _ _ _ Hbq').
      rewrite (rep_get_alloc _ _ _ Hrep' _ _ _ Hbq').
      split; [reflexivity |]. split; [reflexivity |].
      intros x Hx. apply Hpay. unfold WSIZE in Hx. exact Hx.
    + destruct (free_covers _ _ _ _ _ _ _ Hok Hb Hfree)
        as (bl2 & fl2 & r & s' & (Hrep2 & _) & Hin & Hpos).
      exists r. split; [apply (walk_reaches _ _ _ _ _ Hrep2 Hin) |].
      rewrite (rep_get_alloc _ _ _ Hrep2 _ _ _ Hin).
      rewrite (rep_get_size _ _ _ Hrep2 _ _ _ Hin). rewrite Hgs.
      split; [reflexivity | exact Hpos].
Qed.

Lemma free_keeps_others_witness :
  In 4192 [4216; 4192] /\
  returned (free 16 two_block_heap 4192) = true /\
  load1 (mem (final_state (free 16 two_block_heap 4192) two_block_heap)) 4216
  = load1 (mem two_block_heap) 4216.
Proof.
  assert (In 4192 [4216; 4192]) as H1 by (right; left; reflexivity).
  assert (In 4216 [4216; 4192]) as H2 by (left; reflexivity).
  assert (returned (free 16 two_block_heap 4192) = true) as Hret
      by (vm_compute; reflexivity).
  assert (4216 <= 4216 < 4216 + GET_SIZE two_block_heap (HDRP 4216) - WSIZE)
    as Hx by (vm_compute; split; [discriminate | reflexivity]).
  split; [exact H1 |]. split; [exact Hret |].
  destruct (free_keeps_others two_block_heap [4216; 4192] 4192
              reachable_two_block H1) as [_ H].
  destruct (H 16%nat _ (returned_final _ two_block_heap Hret)) as (_ & Hq & _).
  destruct (Hq 4216 H2 ltac:(lia)) as (_ & _ & Hpay).
  exact (Hpay 4216 Hx).
Defined.

(** X8: a block that was freed can be allocated again: after [free(p)], a
    [malloc] whose adjusted size is at most the size of the freed block
    returns a non-null pointer and leaves the break where it was before
    the [free]. *)
Theorem free_then_malloc_reuses st live fuel p size st1 r st2 :
  reachable st live -> In p live -> 0 < size -> size_ok size ->
  adjust_size size <= GET_SIZE st (HDRP p) ->
  free fuel st p = Some st1 -> malloc fuel st1 size = Some (r, st2) ->
  r <> 0 /\ mem_brk st2 = mem_brk st.
Proof.
  intros Hreach Hp Hpos Hsize Hs Hfree Hm.
  destruct (reachable_inv _ _ Hreach) as (bl & fl & Hok & Ht).
  destruct (live_block _ _ _ _ _ Hok Ht Hp) as (s & Hb & Hgs & _).
  destruct (free_sound _ _ _ _ _ _ _ Hok Hb Hfree)
    as (_ & _ & _ & (_ & _ & Hbrk & _) & _).
  destruct (free_covers _ _ _ _ _ _ _ Hok Hb Hfree)
    as (bl1 & fl1 & r0 & s' & Hok1 & Hin & Hpos0).
  destruct (malloc_fit _ _ _ _ _ _ _ _ _ Hok1 Hsize Hpos Hin ltac:(lia) Hm)
    as [Hr (_ & _ & Hbrk2 & _)].
  split; [exact Hr | lia].
Qed.

Lemma free_then_malloc_reuses_witness :
  returned (free 16 one_block_heap 4192) = true /\
  result_of (malloc 16 (final_state (free 16 one_block_heap 4192) one_block_heap)
               16) <> 0.
Proof.
  set (st1 := final_state (free 16 one_block_heap 4192) one_block_heap).
  assert (In 4192 [4192]) as H1 by (left; reflexivity).
  assert (size_ok 16) as Hsz by (unfold size_ok, SIZE_MAX; lia).
  assert (adjust_size 16 <= GET_SIZE one_block_heap (HDRP 4192)) as Hs
      by (vm_compute; discriminate).
  assert (returned (free 16 one_block_heap 4192) = true) as Hret
      by (vm_compute; reflexivity).
  assert (result_of (malloc 16 st1 16) = 4192) as Hres
      by (vm_compute; reflexivity).
  assert (malloc 16 st1 16
          = Some (result_of (malloc 16 st1 16), state_of (malloc 16 st1 16) st1))
    as Hm by (apply run_result; rewrite Hres; discriminate).
  split; [exact Hret |].
  exact (proj1 (free_then_malloc_reuses one_block_heap [4192] 16 4192 16 st1 _ _
                  reachable_one_block H1 ltac:(lia) Hsz Hs
                  (returned_final _ one_block_heap Hret) Hm)).
Defined.

(** ** [realloc] and [calloc] *)

(** The pointer [realloc] returns for a live block and a positive size
    comes from [malloc]: it was not allocated before. *)
Lemma realloc_fresh fuel st bl fl p s size q st' :
  heap_ok st bl fl -> In (p, (s, true)) (layout (first_bp st) bl) ->
  size <> 0 -> size_ok size ->
  realloc fuel st p size = Some (q, st') -> q <> 0 ->
  forall sz, ~ In (q, (sz, true)) (layout (first_bp st) bl).
Proof.
  intros Hok Hp Hnz Hsize Hr Hq sz Hin. pose proof Hok as (Hrep & _).
  pose proof (rep_block _ _ _ Hrep _ _ Hp) as Bp. cbn in Bp.
  pose proof (rep_pos _ _ _ Hrep) as Hpos.
  rewrite realloc_unfold in Hr by lia.
  destruct (malloc fuel st size) as [[q1 st1] |] eqn:Hm; [| discriminate].
  cbn [obind] in Hr.
  destruct (malloc_sound _ _ _ _ _ _ _ Hok Hsize Hm)
    as (bl1 & fl1 & _ & _ & _ & _ & _ & _ & Hnz1 & _).
  destruct (Z.eqb_spec q1 0) as [E | Hq1].
  { injection Hr as E' _. congruence. }
  cbv zeta in Hr.
  destruct (in_arena _ _ _ && in_arena _ _ _); [| discriminate].
  destruct (free fuel _ p) as [st3 |]; [| discriminate].
  cbn in Hr. injection Hr as E' _. subst q1.
  destruct (Hnz1 Hq) as (_ & Hfresh).
  destruct (Hfresh sz true) as [H | H]; [contradiction | discriminate].
Qed.

(** X9: on a reachable state, [realloc] of a live pointer [p] to a
    positive size never answers with a pointer the client already holds,
    so never with [p] itself: a non-null result heads a block that is
    marked allocated and has room for [size] bytes, and every live block
    other than [p] keeps its size, its alloc bit and its payload bytes. *)
Theorem realloc_keeps_others st live fuel p size q st' :
  reachable st live -> In p live -> 0 < size -> size_ok size ->
  realloc fuel st p size = Some (q, st') -> q <> 0 ->
  ~ In q live /\
  GET_ALLOC st' (HDRP q) = 1 /\ size + WSIZE <= GET_SIZE st' (HDRP q) /\
  forall p', In p' live -> p' <> p ->
    GET_SIZE st' (HDRP p') = GET_SIZE st (HDRP p') /\
    GET_ALLOC st' (HDRP p') = 1 /\
    forall x, p' <= x < p' + GET_SIZE st (HDRP p') - WSIZE ->
              load1 (mem st') x = load1 (mem st) x.
Proof.
  intros Hreach Hp Hpos Hsize Hr Hq.
  destruct (reachable_inv _ _ Hreach) as (bl & fl & Hok & Ht).
  destruct (live_block _ _ _ _ _ Hok Ht Hp) as (s & Hb & _).
  assert (size <> 0) as Hnz by lia.
  pose proof (realloc_fresh _ _ _ _ _ _ _ _ _ Hok Hb Hnz Hsize Hr Hq) as Hfresh.
  destruct (realloc_sound _ _ _ _ _ _ _ _ _ Hok Hb Hnz Hsize Hr)
    as [[E _] | (_ & _ & bl' & fl' & sa & (Hrep' & _) & _ & Hqa & Hsa & Hfwd & _ & _ & Hpay & _)];
    [contradiction |].
  split; [| split; [| split]].
  - intros Hl. apply Ht in Hl. destruct Hl as (sz & Hl). exact (Hfresh sz Hl).
  - apply (rep_get_alloc _ _ _ Hrep' _ _ _ Hqa).
  - rewrite (rep_get_size _ _ _ Hrep' _ _ _ Hqa). unfold WSIZE. lia.
  - intros p' Hp' Hne.
    destruct (live_block _ _ _ _ _ Hok Ht Hp') as (s' & Hb' & -> & _).
    pose proof (Hfwd _ _ Hb' Hne) as Hb2.
    rewrite (rep_get_size _ _ _ Hrep' _ _ _ Hb2).
    rewrite (rep_get_alloc _ _ _ Hrep' _ _ _ Hb2).
    split; [reflexivity |]. split; [reflexivity |].
    intros x Hx. apply (Hpay p' s' x Hb' Hne). unfold WSIZE in Hx. exact Hx.
Qed.

Lemma realloc_keeps_others_witness :
  In 4192 [4216; 4192] /\
  result_of (realloc 16 two_block_heap 4192 100) = 4240 /\
  ~ In 4240 [4216; 4192].
Proof.
  assert (In 4192 [4216; 4192]) as H1 by (right; left; reflexivity).
  assert (size_ok 100) as Hsz by (unfold size_ok, SIZE_MAX; lia).
  assert (result_of (realloc 16 two_block_heap 4192 100) = 4240) as Hres
      by (vm_compute; reflexivity).
  pose proof (run_result (realloc 16 two_block_heap 4192 100) two_block_heap) as Hr.
  rewrite Hres in Hr.
  split; [exact H1 |]. split; [exact Hres |].
  exact (proj1 (realloc_keeps_others two_block_heap [4216; 4192] 16 4192 100 4240 _
                  reachable_two_block H1 ltac:(lia) Hsz
                  (Hr ltac:(discriminate)) ltac:(discriminate))).
Defined.

(** X10: a non-null result of [calloc(n, size)] on a reachable state is a
    pointer the client did not hold, heading a block with room for
    [n * size] bytes (the product taken modulo 2^64, as the code computes
    it), and these bytes are all zero; the payload bytes of the blocks the
    client held are unchanged. *)
Theorem calloc_zero_filled st live fuel n size r st' :
  reachable st live -> valid_call live (Calloc n size) ->
  calloc fuel st n size = Some (r, st') -> r <> 0 ->
  ~ In r live /\
  wrap64 (n * size) + WSIZE <= GET_SIZE st' (HDRP r) /\
  (forall i, 0 <= i < wrap64 (n * size) -> load1 (mem st') (r + i) = 0) /\
  forall p, In p live ->
    forall x, p <= x < p + GET_SIZE st (HDRP p) - WSIZE ->
              load1 (mem st') x = load1 (mem st) x.
Proof.
  intros Hreach (_ & _ & Hsize) Hc Hr.
  destruct (reachable_inv _ _ Hreach) as (bl & fl & Hok & Ht).
  destruct (calloc_sound _ _ _ _ _ _ _ _ Hok Hsize Hc (or_introl Hr))
    as (st1 & bl' & fl' & Hm & _ & (Hrep' & _) & _ & _ & _ & _ & Hnz & Hpay & _).
  destruct (Hnz Hr) as (sa & Hqa & Hsa).
  split; [| split; [| split]].
  - intros Hl. apply Ht in Hl. destruct Hl as (sz & Hl).
    destruct (malloc_sound _ _ _ _ _ _ _ Hok Hsize Hm)
      as (bl1 & fl1 & _ & _ & _ & _ & _ & _ & Hnz1 & _).
    destruct (Hnz1 Hr) as (_ & Hfresh).
    destruct (Hfresh sz true) as [H | H]; [contradiction | discriminate].
  - rewrite (rep_get_size _ _ _ Hrep' _ _ _ Hqa). unfold WSIZE. lia.
  - intros i Hi. rewrite calloc_unfold, Hm in Hc. cbn in Hc.
    injection Hc as <-. cbn [mem set_mem]. rewrite load1_memset.
    destruct (Z.leb_spec r (r + i)); [| lia].
    destruct (Z.ltb_spec (r + i) (r + wrap64 (n * size))); [| lia].
    reflexivity.
  - intros p Hp x Hx.
    destruct (live_block _ _ _ _ _ Hok Ht Hp) as (s & Hb & Hgs & _).
    rewrite Hgs in Hx. unfold WSIZE in Hx. apply (Hpay p s x Hb Hx).
Qed.

Lemma calloc_zero_filled_witness :
  result_of (calloc 16 one_block_heap 5 8) = 4216 /\
  load1 (mem (state_of (calloc 16 one_block_heap 5 8) one_block_heap))
        (4216 + 39) = 0.
Proof.
  assert (result_of (calloc 16 one_block_heap 5 8) = 4216) as Hres
      by (vm_compute; reflexivity).
  pose proof (run_result (calloc 16 one_block_heap 5 8) one_block_heap) as Hc.
  rewrite Hres in Hc.
  assert (valid_call [4192] (Calloc 5 8)) as Hv
      by (unfold valid_call, size_ok, SIZE_MAX; cbn; lia).
  assert (0 <= 39 < wrap64 (5 * 8)) as Hi by (cbn; lia).
  split; [exact Hres |].
  destruct (calloc_zero_filled one_block_heap [4192] 16 5 8 4216 _
              reachable_one_block Hv (Hc ltac:(discriminate)) ltac:(discriminate))
    as (_ & _ & Hz & _).
  exact (Hz 39 Hi).
Defined.

(** ** Any valid call *)

Lemma free_null fuel st : free fuel st 0 = Some st.
Proof. reflexivity. Qed.

(** What a valid call leaves alone: the anchors and, for every allocated
    block that is still live afterwards, its entry in the layout and its
    payload bytes. *)
Lemma step_frame fuel st bl fl live c r st' :
  heap_ok st bl fl -> tracks st bl live -> valid_call live c ->
  run_call fuel st c = Some (r, st') -> survives c r ->
  same_anchors st st' /\
  exists bl' fl', heap_rep st' bl' fl' /\
    forall p s, In (p, (s, true)) (layout (first_bp st) bl) ->
                In p (live_after live c r) ->
                In (p, (s, true)) (layout (first_bp st') bl') /\
                forall x, p <= x < p + s - 4 ->
                          load1 (mem st') x = load1 (mem st) x.
Proof.
  intros Hok Ht Hv Hrun Hsurv. pose proof Hok as (Hrep & _).
  assert (forall st1 p0, p0 = 0 \/ In p0 live -> free fuel st p0 = Some st1 ->
            same_anchors st st1 /\
            exists bl' fl', heap_rep st1 bl' fl' /\
              forall p s, In (p, (s, true)) (layout (first_bp st) bl) ->
                          In p (remove_ptr p0 live) ->
                          In (p, (s, true)) (layout (first_bp st1) bl') /\
                          forall x, p <= x < p + s - 4 ->
                                    load1 (mem st1) x = load1 (mem st) x) as Hfree.
  { intros st1 p0 Hp0 Hf. destruct (Z.eq_dec p0 0) as [-> | Hne].
    - rewrite free_null in Hf. injection Hf as <-.
      split; [apply same_anchors_refl |]. exists bl, fl. split; [exact Hrep |].
      intros p s Hb _. split; [exact Hb | reflexivity].
    - destruct Hp0 as [-> | Hp0]; [contradiction |].
      destruct (live_block _ _ _ _ _ Hok Ht Hp0) as (s0 & Hb0 & _).
      destruct (free_sound _ _ _ _ _ _ _ Hok Hb0 Hf)
        as (bl' & fl' & (Hrep' & _) & Hg & Hkeep & _).
      split; [apply same_globals_anchors; exact Hg |].
      exists bl', fl'. split; [exact Hrep' |].
      intros p s Hb Hl. apply in_remove_ptr in Hl. destruct Hl as [_ Hl].
      apply (Hkeep _ _ Hb Hl). }
  assert (forall size, size_ok size -> malloc fuel st size = Some (r, st') ->
            same_anchors st st' /\
            exists bl' fl', heap_rep st' bl' fl' /\
              forall p s, In (p, (s, true)) (layout (first_bp st) bl) ->
                          In (p, (s, true)) (layout (first_bp st') bl') /\
                          forall x, p <= x < p + s - 4 ->
                                    load1 (mem st') x = load1 (mem st) x) as Hmalloc.
  { intros size Hsize Hm.
    destruct (malloc_sound _ _ _ _ _ _ _ Hok Hsize Hm)
      as (bl' & fl' & (Hrep' & _) & Hg & Hpay & Hfwd & _).
    split; [exact Hg |]. exists bl', fl'. split; [exact Hrep' |].
    intros p s Hb. split; [apply Hfwd; exact Hb |].
    intros x Hx. apply (Hpay p s x Hb Hx). }
  destruct c as [size | p | p size | n size];
    cbn [run_call valid_call live_after survives] in *.
  - destruct (Hmalloc size Hv Hrun) as (Hg & bl' & fl' & Hrep' & H).
    split; [exact Hg |]. exists bl', fl'. split; [exact Hrep' |].
    intros p s Hb _. apply H. exact Hb.
  - destruct (free fuel st p) as [st1 |] eqn:Hf; [| discriminate].
    cbn in Hrun. injection Hrun as <- <-. apply (Hfree _ _ Hv Hf).
  - destruct Hv as [Hp Hsize].
    destruct (Z.eqb_spec size 0) as [-> | Hnz].
    { unfold realloc in Hrun. cbn in Hrun.
      destruct (free fuel st p) as [st1 |] eqn:Hf; [| discriminate].
      cbn in Hrun. injection Hrun as <- <-. apply (Hfree _ _ Hp Hf). }
    destruct (Z.eq_dec p 0) as [-> | Hne].
    { unfold realloc, NULL in Hrun.
      destruct (Z.eqb_spec size 0); [contradiction |]. cbn in Hrun.
      destruct (Hmalloc size Hsize Hrun) as (Hg & bl' & fl' & Hrep' & H).
      split; [exact Hg |]. exists bl', fl'. split; [exact Hrep' |].
      intros p s Hb _. apply H. exact Hb. }
    destruct Hp as [-> | Hp]; [contradiction |].
    destruct (live_block _ _ _ _ _ Hok Ht Hp) as (s0 & Hb0 & _).
    pose proof (fun Hq => realloc_fresh _ _ _ _ _ _ _ _ _ Hok Hb0 Hnz Hsize Hrun Hq)
      as Hfresh.
    destruct (realloc_sound _ _ _ _ _ _ _ _ _ Hok Hb0 Hnz Hsize Hrun)
      as [[-> ->] | (Hq & Hqp & bl' & fl' & sa & (Hrep' & _) & Hg & _ & _ & Hfwd & _ & _ & Hpay & _)].
    + split; [apply same_anchors_refl |]. exists bl, fl. split; [exact Hrep |].
      intros p' s Hb _. split; [exact Hb | reflexivity].
    + split; [exact Hg |]. exists bl', fl'. split; [exact Hrep' |].
      destruct (Z.eqb_spec r 0); [contradiction |].
      intros p' s Hb Hl. destruct Hl as [<- | Hl].
      * exfalso. exact (Hfresh Hq s Hb).
      * apply in_remove_ptr in Hl. destruct Hl as [_ Hl].
        split; [apply (Hfwd _ _ Hb Hl) |].
        intros x Hx. apply (Hpay p' s x Hb Hl Hx).
  - destruct Hv as (_ & _ & Hsize).
    destruct (calloc_sound _ _ _ _ _ _ _ _ Hok Hsize Hrun Hsurv)
      as (st1 & bl' & fl' & _ & _ & (Hrep' & _) & _ & Hg & Hfwd & _ & _ & Hpay & _).
    split; [exact Hg |]. exists bl', fl'. split; [exact Hrep' |].
    intros p s Hb _. split; [apply Hfwd; exact Hb |].
    intros x Hx. apply (Hpay p s x Hb Hx).
Qed.

(** X11: a valid call on a reachable state never moves [heap_listp],
    [seg_free_listp] or the heap limit and never lowers the break; a block
    the client holds before and after the call keeps its size, stays
    marked allocated and keeps every payload byte. *)
Theorem valid_call_frame st live fuel c r st' :
  reachable st live -> valid_call live c ->
  run_call fuel st c = Some (r, st') -> survives c r ->
  same_anchors st st' /\
  forall p, In p live -> In p (live_after live c r) ->
    GET_SIZE st' (HDRP p) = GET_SIZE st (HDRP p) /\
    GET_ALLOC st' (HDRP p) = 1 /\
    forall x, p <= x < p + GET_SIZE st (HDRP p) - WSIZE ->
              load1 (mem st') x = load1 (mem st) x.
Proof.
  intros Hreach Hv Hrun Hsurv.
  destruct (reachable_inv _ _ Hreach) as (bl & fl & Hok & Ht).
  destruct (step_frame _ _ _ _ _ _ _ _ Hok Ht Hv Hrun Hsurv)
    as (Hg & bl' & fl' & Hrep' & H).
  split; [exact Hg |]. intros p Hp Hp'.
  destruct (live_block _ _ _ _ _ Hok Ht Hp) as (s & Hb & -> & _).
  destruct (H p s Hb Hp') as [Hb' Hpay].
  rewrite (rep_get_size _ _ _ Hrep' _ _ _ Hb').
  rewrite (rep_get_alloc _ _ _ Hrep' _ _ _ Hb').
  split; [reflexivity |]. split; [reflexivity |].
  intros x Hx. apply Hpay. unfold WSIZE in Hx. exact Hx.
Qed.

Lemma valid_call_frame_witness :
  valid_call [4216; 4192] (Free 4192) /\
  result_of (run_call 16 two_block_heap (Free 4192)) = NULL /\
  GET_SIZE (state_of (run_call 16 two_block_heap (Free 4192)) two_block_heap)
           (HDRP 4216)
  = GET_SIZE two_block_heap (HDRP 4216).
Proof.
  assert (valid_call [4216; 4192] (Free 4192)) as Hv
      by (right; right; left; reflexivity).
  assert (result_of (run_call 16 two_block_heap (Free 4192)) = NULL) as Hres
      by (vm_compute; reflexivity).
  pose proof (run_result (run_call 16 two_block_heap (Free 4192)) two_block_heap)
    as Hr.
  rewrite Hres in Hr.
  assert (In 4216 [4216; 4192]) as H2 by (left; reflexivity).
  assert (In 4216 (live_after [4216; 4192] (Free 4192) NULL)) as H3
      by (left; reflexivity).
  split; [exact Hv |]. split; [exact Hres |].
  destruct (valid_call_frame two_block_heap [4216; 4192] 16 (Free 4192) NULL _
              reachable_two_block Hv (Hr ltac:(discriminate)) I) as [_ H].
  exact (proj1 (H 4216 H2 H3)).
Defined.

(** X12: on a state of the client every valid call whose library copies
    stay inside blocks returns when it is given enough fuel for the bucket
    walks: every [malloc] and [free], a [realloc] that does not grow its
    block, and a [calloc] whose request the heap can serve, which then
    returns a non-null pointer. *)
Theorem valid_call_returns st live c :
  client_state st live -> valid_call live c -> copies_in_blocks st c ->
  exists n, forall fuel, (n <= fuel)%nat ->
    exists r st', run_call fuel st c = Some (r, st') /\ survives c r.
Proof.
  intros Hreach Hv Hin.
  destruct (client_inv _ _ Hreach) as (bl & fl & Hok & Ht).
  destruct (bucket_bound fl) as (n & Hn). exists n. intros fuel Hfuel.
  assert (forall j, 0 <= j < 10 -> (length (fl j) + 10 <= fuel)%nat) as Hf10.
  { intros j Hj. specialize (Hn j Hj). lia. }
  assert (forall j, 0 <= j < 10 -> (length (fl j) <= fuel)%nat) as Hf.
  { intros j Hj. specialize (Hn j Hj). lia. }
  assert (forall p, p = 0 \/ In p live -> exists st', free fuel st p = Some st')
    as Hfree.
  { intros p [-> | Hp]; [rewrite free_null; eauto |].
    destruct (live_block _ _ _ _ _ Hok Ht Hp) as (s & Hb & _).
    apply (free_total fuel st bl fl p s Hok Hb Hf). }
  destruct c as [size | p | p size | k size];
    cbn [run_call valid_call copies_in_blocks survives] in *.
  - destruct (malloc_total fuel st bl fl size Hok Hv Hf10) as (r & st' & Hm).
    eauto.
  - destruct (Hfree p Hv) as (st' & ->). cbn. eauto.
  - destruct Hv as [Hp Hsize].
    destruct (Z.eq_dec size 0) as [-> | Hnz].
    { unfold realloc. cbn. destruct (Hfree p Hp) as (st' & ->). cbn. eauto. }
    destruct (Z.eq_dec p 0) as [-> | Hne].
    { unfold realloc, NULL. destruct (Z.eqb_spec size 0); [contradiction |].
      cbn. destruct (malloc_total fuel st bl fl size Hok Hsize Hf10)
        as (r & st' & Hm). eauto. }
    destruct Hp as [-> | Hp]; [contradiction |].
    destruct Hin as [-> | Hin]; [contradiction |].
    destruct (live_block _ _ _ _ _ Hok Ht Hp) as (s & Hb & Hgs & _).
    pose proof Hok as (Hrep & _).
    pose proof (rep_block _ _ _ Hrep _ _ Hb) as Bp. cbn in Bp.
    pose proof (rep_max _ _ _ Hrep) as Hmax.
    rewrite Hgs in Hin. unfold WSIZE in Hin.
    destruct (realloc_total fuel st bl fl p s size Hok Hb Hnz Hsize) as (r & st' & Hr);
      [lia | exact Hf10 |]. eauto.
  - destruct Hv as (_ & _ & Hsize). rewrite calloc_unfold.
    destruct (malloc_total fuel st bl fl _ Hok Hsize Hf10) as (r & st' & Hm).
    rewrite Hm. cbn. eexists _, _. split; [reflexivity |].
    destruct (Z.eq_dec (wrap64 (k * size)) 0) as [E | Hnz]; [right; exact E |].
    left. intros ->.
    assert (0 < wrap64 (k * size)) as Hpos by (unfold size_ok in Hsize; lia).
    destruct (malloc_null_inv _ _ _ _ _ _ Hok Hsize Hpos Hm) as (_ & Hfull & Hsmall).
    destruct Hin as [E | [Hroom | (p & Hp & Ha & Hs)]]; [contradiction | lia |].
    pose proof (Hsmall _ _ (walk_free_block _ _ _ _ Hok Hp Ha)). lia.
Qed.

Lemma valid_call_returns_witness :
  exists n, forall fuel, (n <= fuel)%nat ->
    exists r st', run_call fuel stored_heap (Realloc 4192 16) = Some (r, st')
                  /\ survives (Realloc 4192 16) r.
Proof.
  assert (valid_call [4192] (Realloc 4192 16)) as Hv.
  { split; [right; left; reflexivity | unfold size_ok, SIZE_MAX; lia]. }
  assert (copies_in_blocks stored_heap (Realloc 4192 16)) as Hin.
  { right. vm_compute. discriminate. }
  exact (valid_call_returns stored_heap [4192] (Realloc 4192 16)
           client_stored Hv Hin).
Defined.

(** ** C9: degenerate requests *)

(** C9: in an initialised allocator ([heap_listp] set), [malloc(0)] returns
    null and the state is unchanged; [free(NULL)] leaves the state
    unchanged; [realloc(NULL, n)] is [malloc(n)]; and [realloc(p, 0)] is
    [free(p)] followed by a null result.  For a block [p] the client holds
    this means that [realloc(p, 0)] returns when given enough fuel, that
    its result is null, and that [p], allocated before, is free afterwards:
    the heap walk meets a free block that contains the whole block of [p],
    and the client is left with its other pointers. *)
Theorem degenerate_requests fuel st :
  heap_listp st <> 0 ->
  malloc fuel st 0 = Some (NULL, st) /\
  free fuel st NULL = Some st /\
  (forall n, realloc fuel st NULL n = malloc fuel st n) /\
  (forall p, realloc fuel st p 0 = (st' <- free fuel st p ;; Some (NULL, st'))) /\
  (forall live p, client_state st live -> In p live ->
     GET_ALLOC st (HDRP p) = 1 /\
     (exists n, forall fuel', (n <= fuel')%nat ->
        exists st', realloc fuel' st p 0 = Some (NULL, st')) /\
     forall r st', realloc fuel st p 0 = Some (r, st') ->
       r = NULL /\ client_state st' (remove_ptr p live) /\
       exists b, heap_block st' b /\ GET_ALLOC st' (HDRP b) = 0 /\
                 b <= p /\
                 p + GET_SIZE st (HDRP p) <= b + GET_SIZE st' (HDRP b)).
Proof.
  intros H.
  assert (malloc fuel st 0 = Some (NULL, st)) as Hm.
  { unfold malloc. destruct (Z.eqb_spec (heap_listp st) 0); [contradiction |].
    reflexivity. }
  split; [exact Hm |]. split; [reflexivity |]. split; [| split].
  - intros n. unfold realloc. destruct (Z.eqb_spec n 0) as [-> | Hn].
    + rewrite Hm. reflexivity.
    + reflexivity.
  - intros p. reflexivity.
  - intros live p Hcs Hp.
    destruct (client_inv _ _ Hcs) as (bl & fl & Hok & Ht).
    destruct (live_block _ _ _ _ _ Hok Ht Hp) as (s & Hb & Hgs & Hal).
    split; [exact Hal |]. split.
    + destruct (bucket_bound fl) as (n & Hn). exists n. intros fuel' Hfuel.
      destruct (free_total fuel' st bl fl p s Hok Hb) as (st' & Hf).
      { intros j Hj. specialize (Hn j Hj). lia. }
      exists st'. unfold realloc. cbn. rewrite Hf. reflexivity.
    + intros r st' Hr.
      assert (client_state st' (remove_ptr p live)) as Hcs'.
      { apply (client_call st live fuel (Realloc p 0) r st' Hcs).
        - split; [right; exact Hp | unfold size_ok, SIZE_MAX; lia].
        - exact Hr.
        - exact I. }
      unfold realloc in Hr. cbn in Hr.
      destruct (free fuel st p) as [st1 |] eqn:Hf; [| discriminate].
      cbn in Hr. injection Hr as <- <-.
      split; [reflexivity |]. split; [exact Hcs' |].
      destruct (free_covers _ _ _ _ _ _ _ Hok Hb Hf)
        as (bl2 & fl2 & b & s' & (Hrep2 & _) & Hin & Hpos).
      exists b. split; [apply (walk_reaches _ _ _ _ _ Hrep2 Hin) |].
      rewrite (rep_get_alloc _ _ _ Hrep2 _ _ _ Hin).
      rewrite (rep_get_size _ _ _ Hrep2 _ _ _ Hin). rewrite Hgs.
      split; [reflexivity | exact Hpos].
Qed.

Lemma degenerate_requests_witness :
  heap_listp stored_heap <> 0 /\
  GET_ALLOC stored_heap (HDRP 4192) = 1 /\
  result_of (realloc 16 stored_heap 4192 0) = NULL /\
  exists b,
    heap_block (state_of (realloc 16 stored_heap 4192 0) stored_heap) b /\
    GET_ALLOC (state_of (realloc 16 stored_heap 4192 0) stored_heap) (HDRP b)
    = 0 /\
    b <= 4192 /\
    4192 + GET_SIZE stored_heap (HDRP 4192)
    <= b + GET_SIZE (state_of (realloc 16 stored_heap 4192 0) stored_heap)
                    (HDRP b).
Proof.
  assert (heap_listp stored_heap <> 0) as H by (vm_compute; discriminate).
  assert (In 4192 [4192]) as Hin by (left; reflexivity).
  assert (result_of (realloc 16 stored_heap 4192 0) = NULL) as Hres
      by (vm_compute; reflexivity).
  assert (realloc 16 stored_heap 4192 0
          = Some (result_of (realloc 16 stored_heap 4192 0),
                  state_of (realloc 16 stored_heap 4192 0) stored_heap)) as Hr
      by (apply run_result; rewrite Hres; discriminate).
  split; [exact H |].
  destruct (degenerate_requests 16 stored_heap H) as (_ & _ & _ & _ & H5).
  destruct (H5 [4192] 4192 client_stored Hin) as (Hal & _ & Hafter).
  split; [exact Hal |]. split; [exact Hres |].
  destruct (Hafter _ _ Hr) as (_ & _ & Hb). exact Hb.
Defined.
(** * Initialisation and heap extension *)

Lemma singleton_list (l : list Z) r :
  NoDup l -> (forall q, In q l -> q = r) -> In r l -> l = [r].
Proof.
  intros Hnd Hall Hin. destruct l as [| a l]; [destruct Hin |].
  assert (a = r) as -> by (apply Hall; left; reflexivity).
  destruct l as [| b l]; [reflexivity |].
  assert (b = r) as -> by (apply Hall; right; left; reflexivity).
  inversion Hnd as [| ? ? Hn _]. exfalso. apply Hn. left. reflexivity.
Qed.

Lemma empty_list (l : list Z) : (forall q, ~ In q l) -> l = [].
Proof.
  intros H. destruct l as [| a l]; [reflexivity |].
  exfalso. apply (H a). left. reflexivity.
Qed.

Lemma roomy_heap_ok : heap_ok roomy_heap [(4096, false)] roomy_buckets.
Proof.
  split; [exact roomy_heap_rep |]. split; [| cbn; auto].
  assert (first_bp roomy_heap = 4192) as E by (vm_compute; reflexivity).
  unfold covered. rewrite E. intros p s Hp. right.
  destruct Hp as [Hp | []]. inversion Hp; subst. left. reflexivity.
Qed.

(** X13: [extend_heap] on a heap that satisfies the invariant, asked for at
    least the minimum block size.  When the primitive refuses, it returns
    null and the state is unchanged.  Otherwise the break has grown by
    exactly the requested size, and the result is a free block that starts
    at or before the old break (before it when the last block was free and
    was merged) and ends at the new break; the invariant holds again and
    the allocated blocks and their payload bytes are as before. *)
Theorem extend_heap_result fuel st bl fl words r st' :
  heap_ok st bl fl ->
  24 <= extend_size words /\ extend_size words mod 8 = 0 ->
  extend_heap fuel st words = Some (r, st') ->
  (r = NULL /\ st' = st /\
   mem_max_addr st < mem_brk st + extend_size words) \/
  (r <> NULL /\ same_anchors st st' /\
   mem_brk st' = mem_brk st + extend_size words /\
   GET_ALLOC st' (HDRP r) = 0 /\ r <= mem_brk st /\
   r + GET_SIZE st' (HDRP r) = mem_brk st' /\
   exists bl' fl', heap_ok st' bl' fl' /\ payload_kept st st' bl /\
                   same_allocated (first_bp st) bl bl').
Proof.
  intros Hok Hsize He.
  destruct (extend_heap_sound fuel st bl fl words Hok Hsize r st' He)
    as [H | (bl' & fl' & s' & Hok' & Hg & Hpay & Hal & Hin & _)]; [left; exact H |].
  right.
  destruct (Z_le_gt_dec (mem_brk st + extend_size words) (mem_max_addr st))
    as [Hroom | Hfull].
  2:{ rewrite (extend_heap_fail fuel st words) in He by lia.
      injection He as <- <-. exfalso.
      destruct Hok' as (Hrep' & _).
      pose proof (rep_block _ _ _ Hrep' _ _ Hin) as B.
      pose proof (rep_pos _ _ _ Hrep'). cbn in B. unfold NULL in B. lia. }
  rewrite (extend_heap_grow fuel st bl fl words Hok Hsize Hroom) in He.
  destruct Hok as (Hrep & Hcov & Hnaf).
  set (size := extend_size words) in *.
  set (st1 := mkState (mem st) (heap_listp st) (seg_free_listp st)
                      (mem_brk st + size) (mem_max_addr st)) in *.
  set (bp := mem_brk st) in *.
  set (st6 := carve_block st1 bp size) in *.
  pose proof (carve_rep st bl fl size Hrep Hsize Hroom) as Hrep6.
  fold st1 bp st6 in Hrep6.
  destruct (carve_bounds st bl fl size Hrep Hroom) as (B1 & B2 & B3 & B4 & B5).
  fold bp in B2, B3, B4.
  assert (first_bp st6 = first_bp st) as E6 by reflexivity.
  assert (bp = first_bp st6 + span bl) as Ebp by (rewrite E6; exact B4).
  rewrite Ebp in He.
  destruct (coalesce_covers fuel st6 fl bl size [] r st' Hrep6)
    as (bl2 & fl2 & s2 & (Hrep2 & _) & Hg2 & Hin2 & _ & Hlo & Hhi).
  - rewrite <- Ebp. intros j Hj.
    apply (carve_unlisted st bl fl size Hrep j Hj).
  - rewrite <- Ebp. intros p sp Hp. rewrite E6 in Hp.
    apply layout_app_in in Hp. destruct Hp as [Hp | Hp].
    + right. destruct (Hcov _ _ Hp) as [[] | H]. exact H.
    + rewrite <- B4 in Hp. destruct Hp as [E | []]. inversion E. left. left.
      reflexivity.
  - apply naf_app. split; [exact Hnaf |]. cbn. auto.
  - exact He.
  - rewrite <- Ebp in Hlo, Hhi.
    pose proof (rep_block _ _ _ Hrep2 _ _ Hin2) as B. cbn in B.
    pose proof (rep_pos _ _ _ Hrep2) as Hpos.
    destruct Hg2 as (_ & _ & G3 & _).
    change (mem_brk st6) with (bp + size) in G3.
    rewrite (rep_get_alloc _ _ _ Hrep2 _ _ _ Hin2).
    rewrite (rep_get_size _ _ _ Hrep2 _ _ _ Hin2).
    split; [unfold NULL; lia |]. split; [exact Hg |].
    split; [exact G3 |]. split; [reflexivity |]. split; [exact Hlo |].
    split; [lia |]. exists bl', fl'. auto.
Qed.

Lemma extend_heap_result_witness :
  result_of (extend_heap 16 roomy_heap 1024) = 4192 /\
  mem_brk (state_of (extend_heap 16 roomy_heap 1024) roomy_heap)
  = mem_brk roomy_heap + extend_size 1024.
Proof.
  assert (result_of (extend_heap 16 roomy_heap 1024) = 4192) as Hres
      by (vm_compute; reflexivity).
  pose proof (run_result (extend_heap 16 roomy_heap 1024) roomy_heap) as He.
  rewrite Hres in He.
  assert (24 <= extend_size 1024 /\ extend_size 1024 mod 8 = 0) as Hs
      by (vm_compute; split; [discriminate | reflexivity]).
  split; [exact Hres |].
  destruct (extend_heap_result 16 roomy_heap _ _ 1024 4192 _ roomy_heap_ok Hs
              (He ltac:(discriminate)))
    as [(E & _) | (_ & _ & Hb & _)]; [discriminate E | exact Hb].
Defined.

(** [mm_init] when the primitive has room for the roots and the first
    chunk. *)
Lemma mm_init_room fuel st0 :
  fresh_heap st0 -> mem_brk st0 + 96 + 4096 <= mem_max_addr st0 ->
  exists st fl, mm_init fuel st0 = Some (0, st) /\
    seg_free_listp st = mem_brk st0 /\
    heap_listp st = mem_brk st0 + 88 /\
    mem_brk st = mem_brk st0 + 96 + 4096 /\
    heap_ok st [(4096, false)] fl /\
    forall j, 0 <= j < 10 ->
              fl j = if j =? 7 then [mem_brk st0 + 96] else [].
Proof.
  intros Hfresh Hroom2. pose proof Hfresh as (F1 & F2 & F3 & F4).
  assert (24 <= extend_size (CHUNKSIZE / WSIZE)
          /\ extend_size (CHUNKSIZE / WSIZE) mod 8 = 0) as Hx
      by (vm_compute; split; [discriminate | reflexivity]).
  assert (extend_size (CHUNKSIZE / WSIZE) = 4096) as Ex by reflexivity.
  assert (mem_brk st0 + 96 <= mem_max_addr st0) as Hroom by lia.
  rewrite mm_init_unfold. rewrite (init_sbrk st0 Hroom).
  destruct (Z.eqb_spec (mem_brk st0) (-1)); [lia |].
  set (stp := init_prefix _ _).
  pose proof (init_prefix_ok st0 Hfresh Hroom) as Hok. fold stp in Hok.
  assert (mem_brk stp + extend_size (CHUNKSIZE / WSIZE) <= mem_max_addr stp)
    as Hroom' by (rewrite Ex; cbn; lia).
  rewrite (extend_heap_grow fuel stp [] _ _ Hok Hx Hroom'). rewrite Ex.
  pose proof Hok as (Hrep & Hcov & Hnaf).
  pose proof (carve_rep stp [] _ _ Hrep Hx Hroom') as Hrep6.
  rewrite Ex in Hrep6.
  set (st6 := carve_block _ _ _) in *.
  change (mem_brk stp) with (mem_brk st0 + 96) in *.
  assert (first_bp st6 = mem_brk st0 + 96) as E6 by reflexivity.
  assert (mem_brk st0 + 96 = first_bp st6 + 0) as Ebp by (rewrite E6; lia).
  assert (forall j, 0 <= j < 10 ->
            ~ In (first_bp st6 + span (@nil (Z * bool)))
                 ((fun _ : Z => @nil Z) j))
    as Hun by (intros j _ []).
  assert (covered [first_bp st6 + span (@nil (Z * bool))] st6
                  ([] ++ (4096, false) :: []) (fun _ => [])) as Hcov6.
  { intros p sp Hp. destruct Hp as [E | []]. inversion E. left. left.
    cbn. lia. }
  assert (naf true ([] ++ (4096, true) :: [])) as Hnaf6 by (cbn; auto).
  pose proof (coalesce_shape_1 fuel st6 _ [] 4096 [] Hrep6 Hun Hcov6 Hnaf6
                eq_refl eq_refl) as Hshape.
  destruct (coalesce_total fuel st6 _ [] [] 4096 Hrep6 Hun Hcov6 Hnaf6)
    as (r & st' & Hc); [intros j _; cbn; lia |].
  destruct (coalesce_at_result _ _ _ _ _ _ _ _ _ _ _ Hshape Hc)
    as (Er & fl' & Hok' & Hg & Hin & Hl & _).
  cbn [span] in Hc, Er, Hin, Hl.
  rewrite <- Ebp in Hc, Er, Hin, Hl. subst r.
  rewrite Hc. cbn [obind].
  unfold NULL. destruct (Z.eqb_spec (mem_brk st0 + 96) 0); [lia |].
  destruct Hg as (G1 & G2 & G3 & G4).
  exists st', fl'. split; [reflexivity |].
  split; [rewrite G2; reflexivity |]. split; [rewrite G1; reflexivity |].
  split; [rewrite G3; cbn; lia |]. split; [exact Hok' |].
  intros j Hj. destruct Hok' as (Hrep' & _).
  assert (forall q, In q (fl' j) -> q = mem_brk st0 + 96 /\ j = 7) as Hmem.
  { intros q Hq.
    destruct (rep_members _ _ _ Hrep' j q Hj Hq) as (s & Hb & Hs).
    assert (first_bp st' = mem_brk st0 + 96) as E'
        by (unfold first_bp; rewrite G2; reflexivity).
    rewrite E' in Hb. destruct Hb as [E | []].
    inversion E; subst. split; reflexivity. }
  destruct (Z.eqb_spec j 7) as [-> | Hne].
  + apply singleton_list.
    * apply (rep_nodup _ _ _ Hrep'). lia.
    * intros q Hq. apply (Hmem q Hq).
    * exact Hl.
  + apply empty_list. intros q Hq. destruct (Hmem q Hq) as [_ E]. contradiction.
Qed.

(** X14: [mm_init] on a fresh primitive heap returns for every fuel, and
    its result depends on the room the primitive has.  Without room for the
    96 bytes of roots, prologue and epilogue it returns -1 with memory and
    break untouched and [heap_listp] set to the failure value -1 (not to
    null).  With room for these but not for the first chunk it returns -1
    after having built an empty heap that satisfies the invariant.  With
    room for both it returns 0: the roots are at the old break, the heap
    holds one free block of [CHUNKSIZE] bytes, which is the only node of
    bucket 7, and the break has moved by 96 + [CHUNKSIZE] bytes. *)
Theorem mm_init_result fuel st0 :
  fresh_heap st0 ->
  (mem_max_addr st0 < mem_brk st0 + 12 * DSIZE ->
     mm_init fuel st0 = Some (-1, set_heap_listp st0 (-1))) /\
  (mem_brk st0 + 12 * DSIZE <= mem_max_addr st0
                            < mem_brk st0 + 12 * DSIZE + CHUNKSIZE ->
     exists st, mm_init fuel st0 = Some (-1, st) /\
       seg_free_listp st = mem_brk st0 /\
       heap_listp st = mem_brk st0 + 11 * DSIZE /\
       mem_brk st = mem_brk st0 + 12 * DSIZE /\
       heap_ok st [] (fun _ => [])) /\
  (mem_brk st0 + 12 * DSIZE + CHUNKSIZE <= mem_max_addr st0 ->
     exists st fl, mm_init fuel st0 = Some (0, st) /\
       seg_free_listp st = mem_brk st0 /\
       heap_listp st = mem_brk st0 + 11 * DSIZE /\
       mem_brk st = mem_brk st0 + 12 * DSIZE + CHUNKSIZE /\
       heap_ok st [(CHUNKSIZE, false)] fl /\
       forall j, 0 <= j < 10 ->
                 fl j = if j =? 7 then [mem_brk st0 + 12 * DSIZE] else []).
Proof.
  intros Hfresh. pose proof Hfresh as (F1 & F2 & F3 & F4).
  unfold DSIZE, CHUNKSIZE. change (12 * 8) with 96. change (11 * 8) with 88.
  assert (24 <= extend_size (CHUNKSIZE / WSIZE)
          /\ extend_size (CHUNKSIZE / WSIZE) mod 8 = 0) as Hx
      by (vm_compute; split; [discriminate | reflexivity]).
  assert (extend_size (CHUNKSIZE / WSIZE) = 4096) as Ex by reflexivity.
  split; [| split].
  - intros Hfull. rewrite mm_init_unfold.
    unfold mem_sbrk, DSIZE. change (12 * 8) with 96.
    destruct (Z.ltb_spec (mem_max_addr st0) (mem_brk st0 + 96)); [| lia].
    rewrite orb_true_r. reflexivity.
  - intros [Hroom Hfull]. rewrite mm_init_unfold.
    rewrite (init_sbrk st0 Hroom).
    destruct (Z.eqb_spec (mem_brk st0) (-1)); [lia |].
    set (stp := init_prefix _ _).
    pose proof (init_prefix_ok st0 Hfresh Hroom) as Hok. fold stp in Hok.
    rewrite (extend_heap_fail fuel stp (CHUNKSIZE / WSIZE))
      by (rewrite Ex; cbn; lia).
    cbn [obind]. exists stp. split; [reflexivity |].
    split; [reflexivity |]. split; [reflexivity |]. split; [reflexivity |].
    exact Hok.
  - intros Hroom2. exact (mm_init_room fuel st0 Hfresh Hroom2).
Qed.

Lemma mm_init_result_witness :
  fresh_heap (raw_state 4096 1048576) /\
  exists st fl, mm_init 0 (raw_state 4096 1048576) = Some (0, st) /\
    seg_free_listp st = 4096 /\ heap_listp st = 4096 + 11 * DSIZE /\
    mem_brk st = 4096 + 12 * DSIZE + CHUNKSIZE /\
    heap_ok st [(CHUNKSIZE, false)] fl /\
    forall j, 0 <= j < 10 -> fl j = if j =? 7 then [4096 + 12 * DSIZE] else [].
Proof.
  assert (fresh_heap (raw_state 4096 1048576)) as Hf
      by (unfold fresh_heap; cbn; repeat split; lia).
  split; [exact Hf |].
  apply (proj2 (proj2 (mm_init_result 0 (raw_state 4096 1048576) Hf))).
  cbn. lia.
Defined.
(** * The buckets stay sorted *)

Lemma ordered_keep st st' bl fl :
  heap_rep st bl fl -> heap_rep st' bl fl -> first_bp st' = first_bp st ->
  ordered st -> ordered st'.
Proof.
  intros H1 H2 E. apply (ordered_same _ _ _ _ _ H1 H2). intros j q Hj Hq.
  destruct (rep_members _ _ _ H1 j q Hj Hq) as (s & Hb & _).
  exists s. rewrite E. auto.
Qed.

Lemma coalesce_ordered_all fuel st fl bl1 s bl2 :
  heap_rep st (bl1 ++ (s, false) :: bl2) fl ->
  (forall j, 0 <= j < 10 -> ~ In (first_bp st + span bl1) (fl j)) ->
  covered [first_bp st + span bl1] st (bl1 ++ (s, false) :: bl2) fl ->
  naf true (bl1 ++ (s, true) :: bl2) ->
  exists r bl' s',
    coalesce_shape_ordered fuel st (bl1 ++ (s, false) :: bl2) fl
                           (first_bp st + span bl1) s r bl' s'.
Proof.
  intros Hrep Hun Hcov Hnaf.
  destruct (last_alloc true bl1) eqn:Hpa, (hd_alloc bl2) eqn:Hna.
  - eexists _, _, _. apply coalesce_ordered_1; assumption.
  - destruct (hd_alloc_false_split _ Hna) as (s2 & bl2' & ->).
    eexists _, _, _. apply coalesce_ordered_2; assumption.
  - destruct (last_alloc_false_split _ Hpa) as (bl1' & s1 & ->).
    assert (first_bp st + span (bl1' ++ [(s1, false)])
            = first_bp st + span bl1' + s1) as E
        by (rewrite span_app; cbn; lia).
    rewrite E in *. rewrite <- !app_assoc in *. cbn [app] in *.
    eexists _, _, _. apply coalesce_ordered_3; assumption.
  - destruct (last_alloc_false_split _ Hpa) as (bl1' & s1 & ->).
    destruct (hd_alloc_false_split _ Hna) as (s2 & bl2' & ->).
    assert (first_bp st + span (bl1' ++ [(s1, false)])
            = first_bp st + span bl1' + s1) as E
        by (rewrite span_app; cbn; lia).
    rewrite E in *. rewrite <- !app_assoc in *. cbn [app] in *.
    eexists _, _, _. apply coalesce_ordered_4; assumption.
Qed.

Lemma coalesce_keeps_order fuel st fl bl1 s bl2 r st' :
  heap_rep st (bl1 ++ (s, false) :: bl2) fl ->
  (forall j, 0 <= j < 10 -> ~ In (first_bp st + span bl1) (fl j)) ->
  covered [first_bp st + span bl1] st (bl1 ++ (s, false) :: bl2) fl ->
  naf true (bl1 ++ (s, true) :: bl2) ->
  ordered st ->
  coalesce fuel st (first_bp st + span bl1) = Some (r, st') -> ordered st'.
Proof.
  intros Hrep Hun Hcov Hnaf Hord Hc.
  destruct (coalesce_ordered_all fuel st fl bl1 s bl2 Hrep Hun Hcov Hnaf)
    as (r' & bl' & s' & st2 & fl1 & Heq & Hready & _ & _ & _ & _ & _ & _ & _ & Ho).
  rewrite Heq in Hc.
  destruct (insert_to_free_list fuel st2 r') as [st3 |] eqn:Hins;
    [| discriminate].
  cbn in Hc. injection Hc as _ <-.
  apply (insert_ready_ordered _ _ _ _ _ _ _ Hready (Ho Hord) Hins).
Qed.

Lemma free_ordered fuel st bl fl bp s st' :
  heap_ok st bl fl -> In (bp, (s, true)) (layout (first_bp st) bl) ->
  ordered st -> free fuel st bp = Some st' -> ordered st'.
Proof.
  intros (Hrep & Hcov & Hnaf) Hb Hord Hfree.
  destruct (layout_split _ _ _ _ Hb) as (bl1 & bl2 & -> & ->).
  pose proof (read_wf _ _ _ _ _ _ Hrep) as Wf.
  rewrite free_unfold in Hfree by lia.
  set (bp := first_bp st + span bl1) in *.
  destruct (coalesce fuel (mark_free st bp) bp) as [[r st3] |] eqn:Hc;
    [| discriminate].
  cbn in Hfree. injection Hfree as <-.
  pose proof (mark_free_rep st fl bl1 bl2 s Hrep) as Hrep1. fold bp in Hrep1.
  assert (ordered (mark_free st bp)) as Hord1.
  { apply (ordered_replace st _ fl bl1 [(s, true)] [(s, false)] bl2 Hrep Hrep1
             eq_refl eq_refl); [| exact Hord].
    intros j q b Hj Hq [E | []]. inversion E; subst.
    exact (mark_free_unlisted st fl bl1 bl2 s Hrep j Hj Hq). }
  apply (coalesce_keeps_order fuel (mark_free st bp) fl bl1 s bl2 r st3 Hrep1);
    [| | exact Hnaf | exact Hord1 | exact Hc].
  - intros j Hj. apply (mark_free_unlisted st fl bl1 bl2 s Hrep j Hj).
  - apply (mark_free_covered st fl bl1 bl2 s Hcov).
Qed.

Lemma place_ordered fuel st bl fl bp s asize st' :
  heap_ok st bl fl -> In (bp, (s, false)) (layout (first_bp st) bl) ->
  24 <= asize /\ asize mod 8 = 0 -> asize <= s ->
  ordered st -> place fuel st bp asize = Some st' -> ordered st'.
Proof.
  intros Hok Hb Ha Hfit Hord Hp.
  destruct (layout_split _ _ _ _ Hb) as (bl1 & bl2 & -> & ->).
  pose proof Hok as (Hrep & Hcov & Hnaf).
  assert (In (first_bp st + span bl1) (fl (get_root_index s))) as Hin.
  { destruct (Hcov _ _ Hb) as [[] | H]. exact H. }
  destruct (place_shape fuel st fl bl1 bl2 s asize Hok Ha Hfit)
    as (fl1 & Hrep1 & Hg1 & _ & Hgone & Hsub & Hkeep & _ & _ & _ & Heq).
  cbv zeta in Hrep1, Hg1, Heq.
  pose proof (remove_ordered st _ fl _ s Hrep Hb Hin Hord) as Hord1.
  set (bp := first_bp st + span bl1) in *.
  set (st1 := remove_from_free_list st bp) in *.
  pose proof (first_bp_same _ _ Hg1) as E1.
  assert (forall j, 0 <= j < 10 -> ~ In (first_bp st1 + span bl1) (fl1 j)) as Hun1.
  { rewrite E1. exact Hgone. }
  assert (forall j q b, 0 <= j < 10 -> In q (fl1 j) ->
            ~ In (q, b) (layout (first_bp st1 + span bl1) [(s, false)])) as Hout.
  { intros j q b Hj Hq [E | []]. inversion E; subst. exact (Hun1 j Hj Hq). }
  rewrite Heq in Hp.
  destruct (Z.geb_spec (s - asize) 24) as [Hr | Hr].
  - assert (forall j q, 0 <= j < 10 ->
              In q (fl1 j) <-> In q (fl j) /\ q <> bp) as Hmem.
    { intros j q Hj. split.
      - intros Hq. split; [apply Hsub; exact Hq |].
        intros ->. exact (Hgone j Hj Hq).
      - intros [Hq Hne]. apply Hkeep; assumption. }
    destruct (split_ready st fl bl1 bl2 s asize Hrep Ha Hfit fl1 Hrep1 Hg1 Hmem Hr)
      as (Hrep6 & Hbr & Hnew & _).
    fold bp st1 in Hrep6, Hbr, Hnew.
    set (st6 := split_block st1 bp asize (s - asize)) in *.
    assert (ordered st6) as Hord6.
    { apply (ordered_replace st1 st6 fl1 bl1 [(s, false)]
               [(asize, true); (s - asize, false)] bl2 Hrep1 Hrep6);
        [reflexivity | cbn; lia | exact Hout | exact Hord1]. }
    apply (insert_ordered fuel st6 _ fl1 _ _ st' Hrep6 Hbr Hnew Hord6 Hp).
  - injection Hp as <-.
    pose proof (take_rep st1 fl1 bl1 bl2 s Hrep1 Hun1) as Hrep3.
    rewrite E1 in Hrep3. fold bp in Hrep3.
    apply (ordered_replace st1 _ fl1 bl1 [(s, false)] [(s, true)] bl2 Hrep1 Hrep3);
      [reflexivity | reflexivity | exact Hout | exact Hord1].
Qed.

Lemma extend_ordered fuel st bl fl words r st' :
  heap_ok st bl fl ->
  24 <= extend_size words /\ extend_size words mod 8 = 0 ->
  ordered st -> extend_heap fuel st words = Some (r, st') -> ordered st'.
Proof.
  intros Hok Hsize Hord He.
  destruct (Z_le_gt_dec (mem_brk st + extend_size words) (mem_max_addr st))
    as [Hroom | Hfull].
  2:{ rewrite (extend_heap_fail fuel st words) in He by lia.
      injection He as _ <-. exact Hord. }
  rewrite (extend_heap_grow fuel st bl fl words Hok Hsize Hroom) in He.
  destruct Hok as (Hrep & Hcov & Hnaf).
  set (size := extend_size words) in *.
  set (st1 := mkState (mem st) (heap_listp st) (seg_free_listp st)
                      (mem_brk st + size) (mem_max_addr st)) in *.
  set (bp := mem_brk st) in *.
  set (st6 := carve_block st1 bp size) in *.
  pose proof (carve_rep st bl fl size Hrep Hsize Hroom) as Hrep6.
  fold st1 bp st6 in Hrep6.
  destruct (carve_bounds st bl fl size Hrep Hroom) as (B1 & B2 & B3 & B4 & B5).
  fold bp in B2, B3, B4.
  assert (first_bp st6 = first_bp st) as E6 by reflexivity.
  assert (bp = first_bp st6 + span bl) as Ebp by (rewrite E6; exact B4).
  assert (ordered st6) as Hord6.
  { apply (ordered_same st st6 bl _ fl Hrep Hrep6); [| exact Hord].
    intros j q Hj Hq. destruct (rep_members _ _ _ Hrep j q Hj Hq) as (s & Hb & _).
    exists s. split; [exact Hb |]. rewrite E6. apply layout_app_in. left. exact Hb. }
  rewrite Ebp in He.
  apply (coalesce_keeps_order fuel st6 fl bl size [] r st' Hrep6);
    [| | | exact Hord6 | exact He].
  - rewrite <- Ebp. intros j Hj.
    apply (carve_unlisted st bl fl size Hrep j Hj).
  - rewrite <- Ebp. intros p sp Hp. rewrite E6 in Hp.
    apply layout_app_in in Hp. destruct Hp as [Hp | Hp].
    + right. destruct (Hcov _ _ Hp) as [[] | H]. exact H.
    + rewrite <- B4 in Hp. destruct Hp as [E | []]. inversion E. left. left.
      reflexivity.
  - apply naf_app. split; [exact Hnaf |]. cbn. auto.
Qed.

Lemma malloc_ordered fuel st bl fl size r st' :
  heap_ok st bl fl -> size_ok size -> ordered st ->
  malloc fuel st size = Some (r, st') -> ordered st'.
Proof.
  intros Hok Hsize Hord Hm. pose proof Hok as (Hrep & Hcov & Hnaf).
  pose proof (rep_listp_nonzero _ _ _ Hrep) as Hl.
  destruct (Z.eq_dec size 0) as [-> | Hnz].
  { rewrite malloc_zero in Hm by assumption. injection Hm as _ <-. exact Hord. }
  rewrite malloc_unfold in Hm by assumption. cbv zeta in Hm.
  unfold size_ok in Hsize.
  destruct (adjust_size_facts size) as (A1 & A2 & A3 & A4); [lia |].
  set (asize := adjust_size size) in *.
  destruct (find_fit fuel st asize) as [bp0 |] eqn:Hf; [| discriminate].
  cbn [obind] in Hm.
  destruct (find_fit_sound _ _ _ _ _ _ Hok Hf) as [_ Hfit].
  unfold NULL in Hm.
  destruct (Z.eqb_spec bp0 0) as [-> | Hne]; cbn [negb] in Hm.
  - destruct (extend_heap fuel st (Z.max asize CHUNKSIZE / WSIZE))
      as [[r1 st1] |] eqn:He; [| discriminate].
    cbn [obind] in Hm.
    assert (extend_size (Z.max asize CHUNKSIZE / WSIZE) = Z.max asize CHUNKSIZE) as Es.
    { apply extend_size_even; unfold CHUNKSIZE; [norm_pow; lia |].
      destruct (Z.max_spec asize 4096) as [[_ ->] | [_ ->]]; [reflexivity | assumption]. }
    assert (24 <= Z.max asize CHUNKSIZE /\ Z.max asize CHUNKSIZE mod 8 = 0) as Hx.
    { unfold CHUNKSIZE.
      destruct (Z.max_spec asize 4096) as [[_ ->] | [_ ->]]; split; try lia;
        try assumption; reflexivity. }
    rewrite <- Es in Hx.
    pose proof (extend_ordered _ _ _ _ _ _ _ Hok Hx Hord He) as Hord1.
    destruct (extend_heap_sound fuel st bl fl _ Hok Hx r1 st1 He)
      as [(-> & -> & _) | (bl1 & fl1 & s' & Hok1 & _ & _ & _ & Hin1 & Hs1 & _)].
    + cbn in Hm. injection Hm as _ <-. exact Hord.
    + rewrite Es in Hs1. pose proof Hok1 as (Hrep1 & _).
      pose proof (rep_block _ _ _ Hrep1 _ _ Hin1) as B. cbn in B.
      pose proof (rep_pos _ _ _ Hrep1) as Hpos1.
      destruct (Z.eqb_spec r1 0) as [E | _]; [lia |].
      destruct (place fuel st1 r1 asize) as [st2 |] eqn:Hp; [| discriminate].
      cbn in Hm. injection Hm as _ <-.
      assert (asize <= s') as Hfit' by lia.
      apply (place_ordered _ _ _ _ _ _ _ _ Hok1 Hin1 (conj A1 A2) Hfit' Hord1 Hp).
  - destruct (Hfit Hne) as (s & Hb & Hs).
    destruct (place fuel st bp0 asize) as [st2 |] eqn:Hp; [| discriminate].
    cbn in Hm. injection Hm as _ <-.
    apply (place_ordered _ _ _ _ _ _ _ _ Hok Hb (conj A1 A2) Hs Hord Hp).
Qed.

Lemma realloc_ordered fuel st bl fl p s size q st' :
  heap_ok st bl fl -> In (p, (s, true)) (layout (first_bp st) bl) ->
  size <> 0 -> size_ok size -> ordered st ->
  realloc fuel st p size = Some (q, st') -> ordered st'.
Proof.
  intros Hok Hp Hnz Hsize Hord Hr. pose proof Hok as (Hrep & _).
  pose proof (rep_block _ _ _ Hrep _ _ Hp) as Bp. cbn in Bp.
  pose proof (rep_pos _ _ _ Hrep) as Hpos.
  rewrite realloc_unfold in Hr by lia.
  destruct (malloc fuel st size) as [[q1 st1] |] eqn:Hm; [| discriminate].
  cbn [obind] in Hr.
  pose proof (malloc_ordered _ _ _ _ _ _ _ Hok Hsize Hord Hm) as Hord1.
  destruct (malloc_sound _ _ _ _ _ _ _ Hok Hsize Hm)
    as (bl1 & fl1 & Hok1 & Hg1 & _ & Hfwd1 & _ & _ & Hnz1 & _).
  destruct (Z.eqb_spec q1 0) as [E | Hq].
  { injection Hr as _ <-. exact Hord1. }
  cbv zeta in Hr.
  set (n := if size <? load8 (mem st1) (SIZE_PTR p) then size
            else load8 (mem st1) (SIZE_PTR p)) in *.
  set (st2 := set_mem st1 (memcpy (mem st1) q1 p n)) in *.
  destruct (in_arena st1 q1 n && in_arena st1 p n); [| discriminate].
  destruct (free fuel st2 p) as [st3 |] eqn:Hf; [| discriminate].
  cbn in Hr. injection Hr as _ <-.
  destruct (Hnz1 Hq) as ((sa & Hqa & Hsa) & _).
  pose proof Hok1 as (Hrep1 & _).
  assert (In (p, (s, true)) (layout (first_bp st1) bl1)) as Hp1 by (apply Hfwd1; exact Hp).
  assert (n <= size) as Hn.
  { unfold n. destruct (Z.ltb_spec size (load8 (mem st1) (SIZE_PTR p))); lia. }
  assert (same_globals st1 st2) as Hg2 by (repeat split).
  destruct (payload_write st1 st2 bl1 fl1 q1 sa Hok1 Hqa Hg2) as [Hok2 _].
  { intros x Hx. unfold st2. cbn [mem set_mem]. apply load1_memcpy_out. lia. }
  pose proof Hok2 as (Hrep2 & _).
  pose proof (ordered_keep st1 st2 bl1 fl1 Hrep1 Hrep2 eq_refl Hord1) as Hord2.
  apply (free_ordered _ _ _ _ _ _ _ Hok2 Hp1 Hord2 Hf).
Qed.

Lemma step_ordered fuel st bl fl live c r st' :
  heap_ok st bl fl -> tracks st bl live -> valid_call live c ->
  run_call fuel st c = Some (r, st') -> survives c r ->
  ordered st -> ordered st'.
Proof.
  intros Hok Ht Hv Hrun Hsurv Hord.
  assert (forall st1 p0, p0 = 0 \/ In p0 live -> free fuel st p0 = Some st1 ->
            ordered st1) as Hfree.
  { intros st1 p0 Hp0 Hf. destruct (Z.eq_dec p0 0) as [-> | Hne].
    - rewrite free_null in Hf. injection Hf as <-. exact Hord.
    - destruct Hp0 as [-> | Hp0]; [contradiction |].
      destruct (live_block _ _ _ _ _ Hok Ht Hp0) as (s0 & Hb0 & _).
      apply (free_ordered _ _ _ _ _ _ _ Hok Hb0 Hord Hf). }
  destruct c as [size | p | p size | n size];
    cbn [run_call valid_call live_after survives] in *.
  - apply (malloc_ordered _ _ _ _ _ _ _ Hok Hv Hord Hrun).
  - destruct (free fuel st p) as [st1 |] eqn:Hf; [| discriminate].
    cbn in Hrun. injection Hrun as _ <-. apply (Hfree _ _ Hv Hf).
  - destruct Hv as [Hp Hsize].
    destruct (Z.eqb_spec size 0) as [-> | Hnz].
    { unfold realloc in Hrun. cbn in Hrun.
      destruct (free fuel st p) as [st1 |] eqn:Hf; [| discriminate].
      cbn in Hrun. injection Hrun as _ <-. apply (Hfree _ _ Hp Hf). }
    destruct (Z.eq_dec p 0) as [-> | Hne].
    { unfold realloc, NULL in Hrun.
      destruct (Z.eqb_spec size 0); [contradiction |]. cbn in Hrun.
      apply (malloc_ordered _ _ _ _ _ _ _ Hok Hsize Hord Hrun). }
    destruct Hp as [-> | Hp]; [contradiction |].
    destruct (live_block _ _ _ _ _ Hok Ht Hp) as (s0 & Hb0 & _).
    apply (realloc_ordered _ _ _ _ _ _ _ _ _ Hok Hb0 Hnz Hsize Hord Hrun).
  - destruct Hv as (_ & _ & Hsize).
    destruct (calloc_sound _ _ _ _ _ _ _ _ Hok Hsize Hrun Hsurv)
      as (st1 & bl' & fl' & Hm & (Hrep1 & _) & (Hrep' & _) & Hg & _).
    apply (ordered_keep st1 st' bl' fl' Hrep1 Hrep' (first_bp_same _ _ Hg)).
    apply (malloc_ordered _ _ _ _ _ _ _ Hok Hsize Hord Hm).
Qed.

Lemma init_ordered fuel st0 st :
  fresh_heap st0 -> mm_init fuel st0 = Some (0, st) -> ordered st.
Proof.
  intros Hfresh Hi. rewrite mm_init_unfold in Hi.
  destruct (Z_le_gt_dec (mem_brk st0 + 96) (mem_max_addr st0)) as [Hroom | Hfull].
  2:{ unfold mem_sbrk, DSIZE in Hi. change (12 * 8) with 96 in Hi.
      destruct (Z.ltb_spec (mem_max_addr st0) (mem_brk st0 + 96)); [| lia].
      rewrite orb_true_r in Hi. cbn in Hi. discriminate. }
  rewrite (init_sbrk st0 Hroom) in Hi.
  pose proof Hfresh as (F1 & F2 & F3 & F4).
  destruct (Z.eqb_spec (mem_brk st0) (-1)); [lia |].
  set (stp := init_prefix _ _) in Hi.
  destruct (extend_heap fuel stp (CHUNKSIZE / WSIZE)) as [[bp st2] |] eqn:He;
    [| discriminate].
  cbn [obind] in Hi. unfold NULL in Hi.
  destruct (Z.eqb_spec bp 0) as [E | Hne]; [discriminate |].
  injection Hi as <-.
  pose proof (init_prefix_ok st0 Hfresh Hroom) as Hok. fold stp in Hok.
  assert (24 <= extend_size (CHUNKSIZE / WSIZE)
          /\ extend_size (CHUNKSIZE / WSIZE) mod 8 = 0) as Hx
      by (vm_compute; split; [discriminate | reflexivity]).
  apply (extend_ordered fuel stp [] _ _ bp st2 Hok Hx); [| exact He].
  destruct Hok as (Hrep & _). apply (ordered_intro _ _ _ Hrep).
  intros j _. exact I.
Qed.

(** On every reachable state the buckets are sorted. *)
Lemma reachable_ordered st live : reachable st live -> ordered st.
Proof.
  induction 1 as [st0 fuel st Hfresh Hi | st live fuel c r st' Hreach IH Hv Hrun Hs].
  - apply (init_ordered fuel st0 st Hfresh Hi).
  - destruct (reachable_inv _ _ Hreach) as (bl & fl & Hok & Ht).
    apply (step_ordered _ _ _ _ _ _ _ _ Hok Ht Hv Hrun Hs IH).
Qed.
(** * The heap checker finds nothing to report *)

Lemma aligned_multiple p :
  p mod 8 = 0 -> 0 <= p -> p + 7 < 2 ^ 64 -> aligned p = true.
Proof.
  intros Hm H0 Hb. unfold aligned, ALIGN.
  rewrite wrap64_small by lia. rewrite land_lnot7 by lia.
  apply Z.eqb_eq. zdm.
Qed.

Lemma get_size_at st p : GET_SIZE st (HDRP p) = size_at (mem st) p.
Proof. reflexivity. Qed.

(** Back and forward links inside a list segment. *)
Lemma lseg_links m :
  forall l prev first last next p,
    lseg m prev first l last next -> In p l ->
    (load8 m (p + 8) = next \/
     (In (load8 m (p + 8)) l /\ load8 m (load8 m (p + 8)) = p)) /\
    ((p = first /\ load8 m p = prev) \/
     (In (load8 m p) l /\ load8 m (load8 m p + 8) = p)).
Proof.
  induction l as [| q l IH]; intros prev first last next p L Hp; [destruct Hp |].
  cbn in L. destruct L as (Ef & Hq & Eprev & L).
  destruct Hp as [<- | Hp].
  - split; [| left; split; congruence].
    destruct l as [| q' l'].
    + cbn in L. destruct L as [_ E]. left. congruence.
    + cbn in L. destruct L as (Ef' & _ & Ep' & _). right.
      rewrite Ef'. split; [right; left; reflexivity | exact Ep'].
  - destruct (IH _ _ _ _ p L Hp) as [Hf Hb]. split.
    + destruct Hf as [Hf | [Hf1 Hf2]]; [left; exact Hf | right].
      split; [right; exact Hf1 | exact Hf2].
    + right. destruct Hb as [[E1 E2] | [Hb1 Hb2]].
      * rewrite E2. split; [left; reflexivity | congruence].
      * split; [right; exact Hb1 | exact Hb2].
Qed.

(** A size is within the bounds the checker expects of its bucket, as
    long as it does not exceed 2^31. *)
Lemma class_bounds_index s :
  0 <= s <= 2 ^ 31 ->
  fst (class_bounds (get_root_index s)) <= s
  <= snd (class_bounds (get_root_index s)).
Proof.
  intros Hs. unfold get_root_index.
  repeat match goal with
         | |- context [?x <=? ?y] => destruct (Z.leb_spec x y)
         end; cbn [class_bounds fst snd]; lia.
Qed.

Section CheckerOk.
Variables (lo hi : state -> Z).
Variables (st : state) (bl : list blk) (fl : Z -> list Z).
Hypothesis Hok : heap_ok st bl fl.
Hypothesis Hlo : lo st <= heap_listp st.
Hypothesis Hhi : mem_brk st - 1 <= hi st.

Lemma checker_in_heap p :
  heap_listp st <= p < mem_brk st -> in_heap lo hi st p = true.
Proof.
  intros Hp. unfold in_heap.
  destruct (Z.leb_spec p (hi st)); [| lia].
  destruct (Z.geb_spec p (lo st)); [reflexivity | lia].
Qed.

Lemma check_block_prologue : check_block lo hi st (heap_listp st) = [].
Proof.
  destruct Hok as (Hrep & _).
  destruct (walk_prologue st bl fl Hrep) as (_ & Ha & _).
  pose proof (rep_listp _ _ _ Hrep) as L.
  pose proof (rep_align _ _ _ Hrep) as A.
  pose proof (rep_pos _ _ _ Hrep) as P.
  pose proof (rep_brk _ _ _ Hrep) as B.
  pose proof (rep_max _ _ _ Hrep) as M.
  pose proof (rep_addr _ _ _ Hrep) as M'.
  pose proof (span_nonneg _ (rep_wf _ _ _ Hrep)) as S. unfold first_bp in B.
  unfold check_block. rewrite Ha.
  rewrite aligned_multiple by (try lia; rewrite L; zdm).
  rewrite checker_in_heap by lia. reflexivity.
Qed.

Lemma check_block_layout p s al :
  In (p, (s, al)) (layout (first_bp st) bl) -> check_block lo hi st p = [].
Proof.
  intros Hb. pose proof Hok as (Hrep & Hcov & Hnaf).
  pose proof (rep_block _ _ _ Hrep _ _ Hb) as B. cbn in B.
  pose proof (rep_listp _ _ _ Hrep) as L.
  pose proof (rep_pos _ _ _ Hrep) as P.
  pose proof (rep_get_alloc _ _ _ Hrep _ _ _ Hb) as Ha.
  pose proof (rep_get_size _ _ _ Hrep _ _ _ Hb) as Hs.
  pose proof (walk_reaches _ _ _ _ _ Hrep Hb) as Hw.
  unfold check_block.
  rewrite aligned_multiple by lia.
  rewrite checker_in_heap by lia.
  rewrite Ha. destruct al; [reflexivity |]. cbn [Z.b2z Z.eqb negb app andb].
  assert (GET_PREV_ALLOC st (HDRP p) <> 0) as Hpa.
  { intros E. apply (walk_no_prev_free _ _ _ _ Hok Hw). split; assumption. }
  assert (GET_ALLOC st (HDRP (NEXT_BLKP st p)) <> 0) as Hna.
  { intros E. apply (walk_no_adjacent_free _ _ _ _ Hok Hw). split; assumption. }
  destruct (Z.eqb_spec (GET_PREV_ALLOC st (HDRP p)) 0); [contradiction |].
  destruct (Z.eqb_spec (GET_ALLOC st (HDRP (NEXT_BLKP st p))) 0); [contradiction |].
  cbn [app].
  assert (GET_SIZE st (FTRP st p) = s) as Hf.
  { unfold FTRP. rewrite Hs. unfold DSIZE.
    destruct (tseg_lookup _ _ _ _ _ _ _ (rep_tiling _ _ _ Hrep) Hb) as (_ & _ & F).
    apply F. reflexivity. }
  rewrite Hs, Hf, Z.eqb_refl. cbn [negb app].
  destruct (Hcov _ _ Hb) as [[] | Hin].
  pose proof (get_root_index_range s) as Hi.
  destruct (rep_lists _ _ _ Hrep _ Hi) as (last & Hl).
  destruct (lseg_links _ _ _ _ _ _ p Hl Hin) as [Hfw Hbw].
  unfold GET_NEXTP, GET_PREVP, NULL.
  destruct (Z.eqb_spec (load8 (mem st) (p + 8)) 0) as [E | Hn]; [reflexivity |].
  destruct (Z.eqb_spec (load8 (mem st) p) 0) as [E | Hp]; [reflexivity |].
  cbn [orb].
  destruct Hfw as [E | [_ E1]]; [contradiction |].
  destruct Hbw as [[_ E] | [_ E2]]; [contradiction |].
  rewrite E1, E2, Z.eqb_refl. reflexivity.
Qed.

Lemma check_blocks_from bl2 :
  forall bl1 fuel,
    bl = bl1 ++ bl2 -> (length bl2 <= fuel)%nat ->
    check_blocks lo hi fuel st (first_bp st + span bl1) = Some [].
Proof.
  destruct Hok as (Hrep & _).
  induction bl2 as [| [s al] bl2 IH]; intros bl1 fuel E Hfuel.
  - rewrite app_nil_r in E. subst bl1.
    rewrite <- (rep_brk _ _ _ Hrep).
    destruct (walk_epilogue st bl fl Hrep) as [Hs _].
    destruct fuel; cbn [check_blocks]; rewrite Hs; reflexivity.
  - pose proof Hrep as Hrep'. rewrite E in Hrep'.
    pose proof (read_size _ _ _ _ _ _ Hrep') as Rs.
    pose proof (read_next _ _ _ _ _ _ Hrep') as Rn.
    pose proof (read_wf _ _ _ _ _ _ Hrep') as Wf.
    destruct fuel as [| fuel]; [cbn in Hfuel; lia |].
    cbn [check_blocks]. rewrite Rs.
    destruct (Z.gtb_spec s 0); [| lia].
    rewrite Rn.
    assert (first_bp st + span bl1 + s = first_bp st + span (bl1 ++ [(s, al)])) as Es
        by (rewrite span_app; cbn; lia).
    rewrite Es, (IH (bl1 ++ [(s, al)]) fuel).
    + cbn [obind].
      rewrite (check_block_layout (first_bp st + span bl1) s al);
        [reflexivity |].
      rewrite E. apply layout_mid.
    + rewrite <- app_assoc. exact E.
    + cbn in Hfuel. lia.
Qed.

Lemma check_blocks_ok fuel :
  (Datatypes.S (length bl) <= fuel)%nat ->
  check_blocks lo hi fuel st (heap_listp st) = Some [].
Proof.
  intros Hfuel. destruct Hok as (Hrep & _).
  destruct (walk_prologue st bl fl Hrep) as (Hs & _ & Hn).
  destruct fuel as [| fuel]; [lia |].
  cbn [check_blocks]. rewrite Hs, Hn. cbn [Z.gtb Z.compare].
  pose proof (check_blocks_from bl [] fuel eq_refl) as H.
  cbn [span] in H. rewrite Z.add_0_r in H. rewrite H by lia.
  cbn [obind]. rewrite check_block_prologue. reflexivity.
Qed.
End CheckerOk.

Lemma check_list_ok st min max :
  forall l fuel prev first last,
    lseg (mem st) prev first l last 0 -> (length l <= fuel)%nat ->
    (forall q, In q l -> min <= size_at (mem st) q <= max) ->
    sorted_by (size_at (mem st)) l ->
    check_list fuel st min max first = Some [].
Proof.
  induction l as [| q l IH]; intros fuel prev first last L Hfuel Hb Hs.
  - cbn in L. destruct L as [_ E]. rewrite <- E.
    destruct fuel; reflexivity.
  - cbn in L. destruct L as (Ef & Hq & _ & L). subst first.
    destruct fuel as [| fuel]; [cbn in Hfuel; lia |].
    cbn [check_list]. unfold NULL.
    destruct (Z.eqb_spec q 0); [contradiction |].
    rewrite get_size_at.
    pose proof (Hb q (or_introl eq_refl)) as Bq.
    destruct (Z.gtb_spec (size_at (mem st) q) max); [lia |].
    destruct (Z.ltb_spec (size_at (mem st) q) min); [lia |].
    cbn [orb app]. unfold GET_NEXTP.
    rewrite (IH fuel q (load8 (mem st) (q + 8)) last L).
    + cbn [obind].
      destruct (Z.eqb_spec (load8 (mem st) (q + 8)) 0) as [E | Hn];
        [reflexivity |].
      cbn [negb]. rewrite get_size_at.
      destruct l as [| q' l'].
      * cbn in L. destruct L as [_ E]. congruence.
      * cbn in L. destruct L as (Ef' & _). rewrite Ef'.
        destruct Hs as [Hs _]. specialize (Hs q' (or_introl eq_refl)).
        destruct (Z.gtb_spec (size_at (mem st) q) (size_at (mem st) q'));
          [lia | reflexivity].
    + cbn in Hfuel. lia.
    + intros x Hx. apply Hb. right. exact Hx.
    + destruct Hs as [_ Hs]. exact Hs.
Qed.

Lemma check_classes_ok st bl fl fuel :
  heap_rep st bl fl -> sorted_buckets st fl ->
  mem_brk st - heap_listp st <= 2 ^ 31 ->
  (forall j, 0 <= j < 10 -> (length (fl j) <= fuel)%nat) ->
  forall n i, 0 <= i -> i + Z.of_nat n = 10 ->
              check_classes fuel st i n = Some [].
Proof.
  intros Hrep Hsorted Hsmall Hfuel.
  induction n as [| n IH]; intros i Hi Hn; [reflexivity |].
  cbn [check_classes].
  destruct (class_bounds i) as [min max] eqn:Ec.
  assert (0 <= i < 10) as Hi' by lia.
  destruct (rep_lists _ _ _ Hrep i Hi') as (last & Hl).
  unfold GET_8B, DSIZE. replace (i * 8) with (8 * i) by lia.
  rewrite (check_list_ok st min max (fl i) fuel 0 _ last Hl).
  - cbn [obind]. rewrite IH by lia. reflexivity.
  - apply Hfuel. exact Hi'.
  - intros q Hq.
    destruct (rep_members _ _ _ Hrep i q Hi' Hq) as (s & Hb & Hs).
    rewrite (size_at_block _ _ _ _ _ _ _ (rep_tiling _ _ _ Hrep) Hb).
    pose proof (rep_block _ _ _ Hrep _ _ Hb) as B. cbn in B.
    pose proof (rep_listp _ _ _ Hrep) as L.
    pose proof (class_bounds_index s ltac:(lia)) as Hc.
    rewrite Hs, Ec in Hc. exact Hc.
  - apply Hsorted. exact Hi'.
Qed.
(** ** What the checker reports *)

(** The heap loop reaches every block of the walk and runs its checks
    there. *)
Lemma check_blocks_visits lo hi st p :
  heap_block st p ->
  forall fuel out,
    check_blocks lo hi fuel st (heap_listp st) = Some out ->
    exists fuel' out',
      check_blocks lo hi fuel' st p = Some out' /\ incl out' out.
Proof.
  induction 1 as [| q Hq IH Hs]; intros fuel out Hc.
  - exists fuel, out. split; [exact Hc | apply incl_refl].
  - destruct (IH fuel out Hc) as (fuel' & out' & Hc' & Hincl).
    destruct fuel' as [| fuel']; cbn [check_blocks] in Hc';
      destruct (Z.gtb_spec (GET_SIZE st (HDRP q)) 0); try lia;
      [discriminate |].
    destruct (check_blocks lo hi fuel' st (NEXT_BLKP st q)) as [out'' |] eqn:Hn;
      [| discriminate].
    cbn in Hc'. injection Hc' as <-.
    exists fuel', out''. split; [exact Hn |].
    intros x Hx. apply Hincl. apply in_or_app. right. exact Hx.
Qed.

Lemma check_blocks_runs lo hi st p fuel out :
  heap_block st p -> GET_SIZE st (HDRP p) > 0 ->
  check_blocks lo hi fuel st (heap_listp st) = Some out ->
  incl (check_block lo hi st p) out.
Proof.
  intros Hp Hs Hc.
  destruct (check_blocks_visits lo hi st p Hp fuel out Hc)
    as (fuel' & out' & Hc' & Hincl).
  destruct fuel' as [| fuel']; cbn [check_blocks] in Hc';
    destruct (Z.gtb_spec (GET_SIZE st (HDRP p)) 0); try lia;
    [discriminate |].
  destruct (check_blocks lo hi fuel' st (NEXT_BLKP st p)) as [out'' |];
    [| discriminate].
  cbn in Hc'. injection Hc' as <-.
  intros x Hx. apply Hincl. apply in_or_app. left. exact Hx.
Qed.

(** X15: whatever the state of the heap, when [mm_checkheap] returns, its
    output names, among the blocks of non-zero size that the heap walk
    meets, every block that is free and followed by a free block, every
    free block whose prev-alloc bit is clear, and every free block whose
    footer holds another size than its header.  The walk ends at the first
    header of size 0, and that block is not checked. *)
Theorem checkheap_reports lo hi fuel st lineno out p :
  mm_checkheap lo hi fuel st lineno = Some out ->
  heap_block st p -> GET_SIZE st (HDRP p) > 0 ->
  (both_free st p -> In (NextBothFree p) out) /\
  (prev_both_free st p -> In (PrevBothFree p) out) /\
  (GET_ALLOC st (HDRP p) = 0 ->
   GET_SIZE st (HDRP p) <> GET_SIZE st (FTRP st p) ->
   In (SizeMismatch p) out).
Proof.
  intros Hc Hp Hs. unfold mm_checkheap in Hc.
  destruct (check_blocks lo hi fuel st (heap_listp st)) as [out1 |] eqn:H1;
    [| discriminate].
  cbn [obind] in Hc.
  destruct (check_classes fuel st 0 10) as [out2 |]; [| discriminate].
  cbn in Hc. injection Hc as <-.
  pose proof (check_blocks_runs lo hi st p fuel out1 Hp Hs H1) as Hincl.
  assert (forall c, In c (check_block lo hi st p) -> In c (out1 ++ out2)) as Hin.
  { intros c Hc. apply in_or_app. left. apply Hincl. exact Hc. }
  split; [| split].
  - intros [F1 F2]. apply Hin. unfold check_block. rewrite F1, F2.
    apply in_or_app; right. apply in_or_app; right. apply in_or_app; right.
    apply in_or_app; left. left. reflexivity.
  - intros [F1 F2]. apply Hin. unfold check_block. rewrite F1, F2.
    apply in_or_app; right. apply in_or_app; right.
    apply in_or_app; left. left. reflexivity.
  - intros F1 F2. apply Hin. unfold check_block. rewrite F1.
    apply in_or_app; right. apply in_or_app; right. apply in_or_app; right.
    apply in_or_app; right. cbn [Z.eqb]. apply in_or_app; left.
    destruct (Z.eqb_spec (GET_SIZE st (HDRP p)) (GET_SIZE st (FTRP st p)));
      [contradiction |].
    left. reflexivity.
Qed.

Lemma checkheap_reports_witness :
  mm_checkheap seg_free_listp (fun st => mem_brk st - 1) 16 wrapped_freed_heap 0
  = Some [NextBothFree 4192; SizeMismatch 4192; WrongClass 4200] /\
  both_free wrapped_freed_heap 4192 /\
  In (NextBothFree 4192)
     [NextBothFree 4192; SizeMismatch 4192; WrongClass 4200].
Proof.
  assert (mm_checkheap seg_free_listp (fun st => mem_brk st - 1) 16
            wrapped_freed_heap 0
          = Some [NextBothFree 4192; SizeMismatch 4192; WrongClass 4200]) as Hc
      by (vm_compute; reflexivity).
  assert (heap_block wrapped_freed_heap 4192) as Hb.
  { assert (NEXT_BLKP wrapped_freed_heap (heap_listp wrapped_freed_heap) = 4192)
      as E by (vm_compute; reflexivity).
    rewrite <- E. apply hb_next; [apply hb_first | vm_compute; reflexivity]. }
  assert (GET_SIZE wrapped_freed_heap (HDRP 4192) > 0) as Hs
      by (vm_compute; reflexivity).
  assert (both_free wrapped_freed_heap 4192) as Hf
      by (split; vm_compute; reflexivity).
  split; [exact Hc |]. split; [exact Hf |].
  exact (proj1 (checkheap_reports _ _ 16 wrapped_freed_heap 0 _ 4192 Hc Hb Hs) Hf).
Defined.

(** X16: on a reachable state whose heap spans at most 2^31 bytes,
    [mm_checkheap] returns when given enough fuel and prints nothing,
    whatever heap bounds [in_heap] uses as long as they enclose the
    addresses from [heap_listp] to the break: every block is aligned and
    in the heap, no free block has a free neighbour, header and footer
    sizes of free blocks agree, the links of neighbouring list nodes point
    at each other, every listed block is in the bucket of its size, and
    every bucket is in non-decreasing size order. *)
Theorem checkheap_silent lo hi st live lineno :
  reachable st live ->
  lo st <= heap_listp st -> mem_brk st - 1 <= hi st ->
  mem_brk st - heap_listp st <= 2 ^ 31 ->
  exists n, forall fuel, (n <= fuel)%nat ->
    mm_checkheap lo hi fuel st lineno = Some [].
Proof.
  intros Hreach Hlo Hhi Hsmall.
  destruct (reachable_inv _ _ Hreach) as (bl & fl & Hok & _).
  pose proof (reachable_ordered _ _ Hreach) as Hord.
  pose proof Hok as (Hrep & _).
  destruct (bucket_bound fl) as (n & Hn).
  exists (n + Datatypes.S (length bl))%nat. intros fuel Hfuel.
  unfold mm_checkheap.
  rewrite (check_blocks_ok lo hi st bl fl Hok Hlo Hhi fuel) by lia.
  cbn [obind].
  rewrite (check_classes_ok st bl fl fuel Hrep (Hord _ _ Hrep) Hsmall);
    [reflexivity | | lia | reflexivity].
  intros j Hj. specialize (Hn j Hj). lia.
Qed.

Lemma checkheap_silent_witness :
  exists n, forall fuel, (n <= fuel)%nat ->
    mm_checkheap seg_free_listp (fun st => mem_brk st - 1) fuel two_block_heap 0
    = Some [].
Proof.
  assert (seg_free_listp two_block_heap <= heap_listp two_block_heap) as Hlo
      by (vm_compute; discriminate).
  assert (mem_brk two_block_heap - 1 <= mem_brk two_block_heap - 1) as Hhi
      by lia.
  assert (mem_brk two_block_heap - heap_listp two_block_heap <= 2 ^ 31) as Hs
      by (vm_compute; discriminate).
  exact (checkheap_silent seg_free_listp (fun st => mem_brk st - 1)
           two_block_heap [4216; 4192] 0 reachable_two_block Hlo Hhi Hs).
Defined.
(** * The buckets on reachable states *)

Lemma lseg_next_of m l1 q p l2 :
  forall prev first last next,
    lseg m prev first (l1 ++ q :: p :: l2) last next -> load8 m (q + 8) = p.
Proof.
  induction l1 as [| a l1 IH]; intros prev first last next L.
  - cbn in L. destruct L as (_ & _ & _ & E & _). exact E.
  - cbn [app lseg] in L. destruct L as (_ & _ & _ & L). eapply IH. exact L.
Qed.

(** The nodes the walk of bucket [i] meets are the members of its list. *)
Lemma bucket_node_in st bl fl i p :
  heap_rep st bl fl -> 0 <= i < 10 -> (bucket_node st i p <-> In p (fl i)).
Proof.
  intros Hrep Hi. destruct (rep_lists _ _ _ Hrep i Hi) as (last & Hl).
  assert (GET_8B st (seg_free_listp st + i * DSIZE)
          = load8 (mem st) (seg_free_listp st + 8 * i)) as Er
      by (unfold GET_8B, DSIZE; f_equal; lia).
  split.
  - induction 1 as [Hne | q Hq IH Hne].
    + rewrite Er in *. pose proof (lseg_first _ _ _ _ _ _ Hl) as Ef.
      unfold NULL in Hne.
      destruct (fl i) as [| a l]; cbn [hd] in Ef; [contradiction |].
      left. congruence.
    + destruct (lseg_links _ _ _ _ _ _ q Hl IH) as [[E | [H _]] _];
        [contradiction | exact H].
  - intros Hp. apply in_split in Hp. destruct Hp as (l1 & l2 & E).
    revert p l2 E. induction l1 as [| q l1 IH] using rev_ind; intros p l2 E.
    + rewrite E in Hl. cbn [app lseg] in Hl. destruct Hl as (Ef & Hp & _).
      rewrite <- Ef, <- Er. apply bn_first. rewrite Er, Ef. exact Hp.
    + rewrite <- app_assoc in E. cbn [app] in E.
      pose proof (IH q (p :: l2) E) as Hq.
      rewrite E in Hl.
      pose proof (lseg_next_of _ _ _ _ _ _ _ _ _ Hl) as En.
      assert (p <> 0) as Hp.
      { apply (lseg_nonnull _ _ _ _ _ _ p Hl).
        apply in_or_app. right. right. left. reflexivity. }
      unfold GET_NEXTP in *. rewrite <- En. apply bn_next; [exact Hq |].
      unfold GET_NEXTP. rewrite En. exact Hp.
Qed.

(** X17: on a reachable state the buckets hold exactly the free blocks of
    the heap, each in the bucket of its size: the walk of bucket [i] meets
    [p] if and only if the heap walk meets [p] as a free block whose size
    belongs to class [i]. *)
Theorem buckets_hold_free_blocks st live i p :
  reachable st live -> 0 <= i < 10 ->
  (bucket_node st i p <->
   heap_block st p /\ GET_ALLOC st (HDRP p) = 0 /\
   get_root_index (GET_SIZE st (HDRP p)) = i).
Proof.
  intros Hreach Hi.
  destruct (reachable_inv _ _ Hreach) as (bl & fl & Hok & _).
  pose proof Hok as (Hrep & Hcov & _).
  rewrite (bucket_node_in _ _ _ _ _ Hrep Hi). split.
  - intros Hp. destruct (rep_members _ _ _ Hrep i p Hi Hp) as (s & Hb & Hs).
    rewrite (rep_get_alloc _ _ _ Hrep _ _ _ Hb).
    rewrite (rep_get_size _ _ _ Hrep _ _ _ Hb).
    split; [apply (walk_reaches _ _ _ _ _ Hrep Hb) | split; [reflexivity | exact Hs]].
  - intros (Hp & Ha & Hs).
    pose proof (walk_free_block _ _ _ _ Hok Hp Ha) as Hb.
    destruct (Hcov _ _ Hb) as [[] | Hin]. rewrite Hs in Hin. exact Hin.
Qed.

Lemma buckets_hold_free_blocks_witness :
  bucket_node two_block_heap 7
    (GET_8B two_block_heap (seg_free_listp two_block_heap + 7 * DSIZE)) /\
  GET_ALLOC two_block_heap
    (HDRP (GET_8B two_block_heap (seg_free_listp two_block_heap + 7 * DSIZE)))
  = 0.
Proof.
  assert (bucket_node two_block_heap 7
            (GET_8B two_block_heap (seg_free_listp two_block_heap + 7 * DSIZE)))
    as Hn by (apply bn_first; vm_compute; discriminate).
  split; [exact Hn |].
  exact (proj1 (proj2 (proj1 (buckets_hold_free_blocks two_block_heap [4216; 4192]
                                7 _ reachable_two_block ltac:(lia)) Hn))).
Defined.

(** X18: on a reachable state every bucket is a sorted, doubly linked
    list: a node is never larger than its successor, the successor's back
    link points at the node, and the first node of a bucket has a null
    back link. *)
Theorem buckets_sorted_and_linked st live i p :
  reachable st live -> 0 <= i < 10 -> bucket_node st i p ->
  (GET_NEXTP st p <> NULL ->
   GET_SIZE st (HDRP p) <= GET_SIZE st (HDRP (GET_NEXTP st p)) /\
   GET_PREVP st (GET_NEXTP st p) = p) /\
  (GET_PREVP st p <> NULL -> GET_NEXTP st (GET_PREVP st p) = p) /\
  (p = GET_8B st (seg_free_listp st + i * DSIZE) -> GET_PREVP st p = NULL).
Proof.
  intros Hreach Hi Hn.
  destruct (reachable_inv _ _ Hreach) as (bl & fl & Hok & _).
  pose proof (reachable_ordered _ _ Hreach) as Hord.
  pose proof Hok as (Hrep & _).
  apply (bucket_node_in _ _ _ _ _ Hrep Hi) in Hn.
  destruct (rep_lists _ _ _ Hrep i Hi) as (last & Hl).
  pose proof (Hord _ _ Hrep i Hi) as Hs.
  destruct (lseg_links _ _ _ _ _ _ p Hl Hn) as [Hfw Hbw].
  unfold GET_NEXTP, GET_PREVP, NULL. rewrite !get_size_at.
  split; [| split].
  - intros Hne. destruct Hfw as [E | [_ E]]; [contradiction |].
    split; [| exact E].
    apply in_split in Hn. destruct Hn as (l1 & l2 & E').
    rewrite E' in Hl, Hs. destruct l2 as [| q l2].
    + exfalso. apply lseg_app in Hl. destruct Hl as (ml & mid & _ & L2).
      cbn in L2. destruct L2 as (_ & _ & _ & _ & E2). congruence.
    + rewrite (lseg_next_of _ _ _ _ _ _ _ _ _ Hl).
      clear - Hs. induction l1 as [| a l1 IH]; cbn in Hs.
      * destruct Hs as [H _]. apply H. left. reflexivity.
      * destruct Hs as [_ Hs]. apply IH. exact Hs.
  - intros Hne. destruct Hbw as [[_ E] | [_ E]]; [contradiction | exact E].
  - intros Ep. unfold GET_8B, DSIZE in Ep.
    replace (seg_free_listp st + i * 8) with (seg_free_listp st + 8 * i) in Ep
      by lia.
    pose proof (lseg_first _ _ _ _ _ _ Hl) as Ef.
    destruct (fl i) as [| a l]; [destruct Hn |].
    cbn [hd lseg] in Ef, Hl. destruct Hl as (_ & _ & E0 & _). congruence.
Qed.

Lemma buckets_sorted_and_linked_witness :
  bucket_node two_block_heap 7
    (GET_8B two_block_heap (seg_free_listp two_block_heap + 7 * DSIZE)) /\
  GET_PREVP two_block_heap
    (GET_8B two_block_heap (seg_free_listp two_block_heap + 7 * DSIZE)) = NULL.
Proof.
  assert (bucket_node two_block_heap 7
            (GET_8B two_block_heap (seg_free_listp two_block_heap + 7 * DSIZE)))
    as Hn by (apply bn_first; vm_compute; discriminate).
  split; [exact Hn |].
  exact (proj2 (proj2 (buckets_sorted_and_linked two_block_heap [4216; 4192]
                         7 _ reachable_two_block ltac:(lia) Hn)) eq_refl).
Defined.

(** X19: on a reachable state [find_fit] is a best-fit search over the
    whole heap.  A null result means that no free block of the heap walk
    has [asize] bytes; a non-null result is a free block of the walk with
    at least [asize] bytes, and no free block that fits is smaller. *)
Theorem find_fit_best st live fuel asize r :
  reachable st live -> find_fit fuel st asize = Some r ->
  (r = NULL ->
   forall p, heap_block st p -> GET_ALLOC st (HDRP p) = 0 ->
             GET_SIZE st (HDRP p) < asize) /\
  (r <> NULL ->
   heap_block st r /\ GET_ALLOC st (HDRP r) = 0 /\
   asize <= GET_SIZE st (HDRP r) /\
   forall p, heap_block st p -> GET_ALLOC st (HDRP p) = 0 ->
             asize <= GET_SIZE st (HDRP p) ->
             GET_SIZE st (HDRP r) <= GET_SIZE st (HDRP p)).
Proof.
  intros Hreach Hf.
  destruct (reachable_inv _ _ Hreach) as (bl & fl & Hok & _).
  pose proof (reachable_ordered _ _ Hreach) as Hord.
  pose proof Hok as (Hrep & Hcov & _).
  destruct (find_fit_sound _ _ _ _ _ _ Hok Hf) as [Hff Hfit].
  pose proof (get_root_index_range asize) as Hi.
  unfold NULL. split.
  - intros ->. intros p Hp Ha. symmetry in Hff.
    apply (no_fit_small _ _ _ _ _ _ Hok Hff (walk_free_block _ _ _ _ Hok Hp Ha)).
  - intros Hr. destruct (Hfit Hr) as (sr & Hbr & Hsr).
    rewrite (rep_get_alloc _ _ _ Hrep _ _ _ Hbr).
    rewrite (rep_get_size _ _ _ Hrep _ _ _ Hbr).
    split; [apply (walk_reaches _ _ _ _ _ Hrep Hbr) |].
    split; [reflexivity |]. split; [exact Hsr |].
    intros p Hp Ha Hs.
    pose proof (walk_free_block _ _ _ _ Hok Hp Ha) as Hbp.
    set (sp := GET_SIZE st (HDRP p)) in *.
    destruct (Hcov _ _ Hbp) as [[] | Hinp].
    pose proof (get_root_index_range sp) as Hip.
    pose proof (get_root_index_mono _ _ Hs) as Hm.
    destruct (first_fit_from_cases st asize fl (Z.to_nat (10 - get_root_index asize))
                (get_root_index asize))
      as [(_ & j & Hj & Er & Hin & Hge & Hlow) | (E0 & _)].
    + intros k q Hk Hq.
      destruct (rep_member _ _ _ Hrep k q) as (s0 & _ & _ & _ & _ & _ & Hq0);
        [lia | exact Hq | lia].
    + rewrite <- Hff in Er, Hin, Hge.
      assert (get_root_index sr = j) as Ej.
      { symmetry. eapply listed_bucket; [exact Hrep | exact Hbr | lia | exact Hin]. }
      assert (size_at (mem st) p = sp) as Fp
          by (apply (size_at_block _ _ _ _ _ _ _ (rep_tiling _ _ _ Hrep) Hbp)).
      assert (size_at (mem st) r = sr) as Fr
          by (apply (size_at_block _ _ _ _ _ _ _ (rep_tiling _ _ _ Hrep) Hbr)).
      destruct (Z.lt_trichotomy (get_root_index sp) j) as [Hlt | [Heq | Hgt]].
      * specialize (Hlow (get_root_index sp) p ltac:(lia) Hinp). lia.
      * rewrite Heq in Hinp.
        pose proof (first_fit_best st asize (fl j) p (Hord _ _ Hrep j ltac:(lia)))
          as Hbest.
        rewrite <- Er in Hbest. rewrite Fr, Fp in Hbest.
        apply Hbest; [exact Hr | exact Hinp | lia].
      * destruct (Z.le_gt_cases sr sp) as [H | H]; [exact H |].
        pose proof (get_root_index_mono sp sr ltac:(lia)). lia.
    + congruence.
Qed.

Lemma find_fit_best_witness :
  find_fit 16 two_block_heap 24 = Some 4240 /\
  heap_block two_block_heap 4240 /\
  24 <= GET_SIZE two_block_heap (HDRP 4240).
Proof.
  assert (find_fit 16 two_block_heap 24 = Some 4240) as Hf
      by (vm_compute; reflexivity).
  split; [exact Hf |].
  destruct (proj2 (find_fit_best two_block_heap [4216; 4192] 16 24 4240
                     reachable_two_block Hf) ltac:(discriminate))
    as (Hb & _ & Hs & _).
  split; [exact Hb | exact Hs].
Defined.
(** * The two list operations *)

Section RemoveClears.
Variables (st : state) (r p : Z) (l1 l2 : list Z).
Let m := mem st.

Hypothesis Hdll : dll m (load8 m r) (l1 ++ p :: l2).
Hypothesis Hsep : sep_list (l1 ++ p :: l2).
Hypothesis Hroot : forall q, In q (l1 ++ p :: l2) -> r + 8 <= q.
Hypothesis Hfree : GET_ALLOC st (HDRP p) = 0.
Hypothesis Hr : get_root st (GET_SIZE st (HDRP p)) = r.

(** The unlinked node is left with two null links. *)
Lemma remove_clears :
  load8 (mem (remove_from_free_list st p)) p = 0 /\
  load8 (mem (remove_from_free_list st p)) (p + 8) = 0.
Proof.
  destruct (remove_links st r p l1 l2 Hdll) as (Hprev & Hnext & Hp).
  fold m in Hprev, Hnext.
  apply sep_list_app in Hsep. destruct Hsep as (Hs1 & Hs2 & Hs12).
  cbn in Hs2. destruct Hs2 as (Hsp & Hs2).
  assert (r + 8 <= p) as Hrp.
  { apply Hroot. apply in_or_app. right. left. reflexivity. }
  assert (List.last l1 0 <> 0 ->
          List.last l1 0 + 16 <= p \/ p + 16 <= List.last l1 0) as Hinprev.
  { intros Hne. apply Hs12; [| left; reflexivity].
    destruct l1 as [| a l]; [cbn in Hne; congruence |].
    destruct (exists_last (l := a :: l)) as (l' & z & E); [discriminate |].
    rewrite E. rewrite last_last. apply in_or_app. right. left. reflexivity. }
  assert (hd 0 l2 <> 0 -> p + 16 <= hd 0 l2 \/ hd 0 l2 + 16 <= p) as Hinnext.
  { intros Hne. apply Hsp.
    destruct l2; [cbn in Hne; congruence | left; reflexivity]. }
  unfold remove_from_free_list.
  destruct (Z.eqb_spec p NULL) as [E | _]; [contradiction |].
  rewrite Hfree, Hr. cbn [orb negb Z.eqb].
  unfold GET_PREVP, GET_NEXTP, SET_PREVP, SET_NEXTP, PUT_8B, NULL.
  cbn [mem set_mem]. fold m. rewrite Hprev, Hnext.
  destruct (Z.eqb_spec (List.last l1 0) 0) as [E1 | E1],
           (Z.eqb_spec (hd 0 l2) 0) as [E2 | E2];
    cbn [andb negb mem set_mem];
    try specialize (Hinprev E1); try specialize (Hinnext E2);
    split; mem_simp; reflexivity.
Qed.
End RemoveClears.

Lemma rep_remove_clears st bl fl p s :
  heap_rep st bl fl -> In (p, (s, false)) (layout (first_bp st) bl) ->
  In p (fl (get_root_index s)) ->
  GET_PREVP (remove_from_free_list st p) p = NULL /\
  GET_NEXTP (remove_from_free_list st p) p = NULL.
Proof.
  intros Hrep Hb Hin. set (i := get_root_index s) in *.
  pose proof (get_root_index_range s) as Hi. fold i in Hi.
  destruct (in_split _ _ Hin) as (l1 & l2 & E).
  pose proof (rep_bucket_sep _ _ _ Hrep i Hi) as Hsep.
  rewrite E in Hsep.
  assert (dll (mem st) (load8 (mem st) (seg_free_listp st + 8 * i)) (l1 ++ p :: l2))
    as Hdll.
  { rewrite <- E. apply (rep_lists _ _ _ Hrep i Hi). }
  assert (forall q, In q (l1 ++ p :: l2) -> seg_free_listp st + 8 * i + 8 <= q)
    as Hroot.
  { intros q Hq. rewrite <- E in Hq. apply (rep_bucket_root _ _ _ Hrep); assumption. }
  assert (GET_ALLOC st (HDRP p) = 0) as Hfree
      by (apply (rep_get_alloc _ _ _ Hrep _ _ _ Hb)).
  assert (get_root st (GET_SIZE st (HDRP p)) = seg_free_listp st + 8 * i) as Hr.
  { rewrite (rep_get_size _ _ _ Hrep _ _ _ Hb). apply rep_get_root. }
  exact (remove_clears st _ p l1 l2 Hdll Hsep Hroot Hfree Hr).
Qed.

Lemma heap_rep_ext st bl fl fl' :
  (forall j, 0 <= j < 10 -> fl' j = fl j) ->
  heap_rep st bl fl -> heap_rep st bl fl'.
Proof.
  intros E H. destruct H. constructor; try assumption.
  - intros i Hi. rewrite E by assumption. auto.
  - intros i Hi. rewrite E by assumption. auto.
  - intros i p Hi Hp. rewrite E in Hp by assumption. auto.
Qed.

Lemma remove_insert_sorted f s bp l :
  ~ In bp l -> remove_one bp (insert_sorted f s bp l) = l.
Proof.
  induction l as [| p l IH]; intros Hn; cbn.
  - rewrite Z.eqb_refl. reflexivity.
  - destruct (f p >=? s); cbn.
    + rewrite Z.eqb_refl. reflexivity.
    + destruct (Z.eqb_spec p bp) as [-> | _]; [exfalso; apply Hn; left; reflexivity |].
      rewrite IH; [reflexivity |]. intros H. apply Hn. right. exact H.
Qed.

(** X20: [insert_to_free_list] on a free block [bp] of size [s] that is in
    no bucket.  It returns when the fuel covers the bucket of [s]; then
    [bp] is in that bucket, in front of the first node of at least its
    size ([insert_sorted]), the other buckets are as before, a sorted heap
    stays sorted, and the only bytes written are bucket roots and link
    fields of free blocks. *)
Theorem insert_to_free_list_spec fuel st bl fl bp s :
  heap_rep st bl fl -> In (bp, (s, false)) (layout (first_bp st) bl) ->
  ~ In bp (fl (get_root_index s)) ->
  ((length (fl (get_root_index s)) <= fuel)%nat ->
   exists st', insert_to_free_list fuel st bp = Some st') /\
  forall st', insert_to_free_list fuel st bp = Some st' ->
    heap_rep st' bl
      (set_bucket fl (get_root_index s)
         (insert_sorted (size_at (mem st)) s bp (fl (get_root_index s)))) /\
    same_globals st st' /\ (ordered st -> ordered st') /\
    forall x, seg_free_listp st + 80 <= x ->
      (forall q sq, In (q, (sq, false)) (layout (first_bp st) bl) ->
                    x < q \/ q + 16 <= x) ->
      load1 (mem st') x = load1 (mem st) x.
Proof.
  intros Hrep Hb Hnew. split.
  - intros Hfuel. eapply insert_total; eassumption.
  - intros st' Hins.
    destruct (rep_insert st bl fl Hrep bp s Hb Hnew fuel st' Hins)
      as (Hrep' & _ & Hg).
    split; [exact Hrep' |]. split; [exact Hg |]. split.
    + intros Hord. apply (insert_ordered fuel st bl fl bp s st' Hrep Hb Hnew Hord Hins).
    + intros x Hx Hout.
      apply (insert_frame st bl fl Hrep bp s Hb Hnew fuel st' x Hins Hx Hout).
Qed.

Lemma insert_to_free_list_spec_witness :
  exists st', insert_to_free_list 16 unmatched_heap 4192 = Some st'.
Proof.
  assert (In (4192, (24, false))
             (layout (first_bp unmatched_heap)
                     [(24, false); (24, true); (4048, false)])) as Hb.
  { replace (first_bp unmatched_heap) with 4192 by by_eval. left. reflexivity. }
  assert (~ In 4192 (unmatched_buckets (get_root_index 24))) as Hnew
      by (intros []).
  apply (proj1 (insert_to_free_list_spec 16 unmatched_heap _ _ 4192 24
                  unmatched_heap_rep Hb Hnew)).
  cbn. lia.
Defined.

(** X21: [remove_from_free_list] on a listed free block [bp] of size [s]:
    [bp] leaves the bucket of [s], the order of the remaining nodes and
    the other buckets are as before, [bp] is left with two null links, and
    neither the anchors nor any allocated payload change; a sorted heap
    stays sorted. *)
Theorem remove_from_free_list_spec st bl fl bp s :
  heap_rep st bl fl -> In (bp, (s, false)) (layout (first_bp st) bl) ->
  In bp (fl (get_root_index s)) ->
  heap_rep (remove_from_free_list st bp) bl
    (set_bucket fl (get_root_index s) (remove_one bp (fl (get_root_index s)))) /\
  ~ In bp (remove_one bp (fl (get_root_index s))) /\
  GET_PREVP (remove_from_free_list st bp) bp = NULL /\
  GET_NEXTP (remove_from_free_list st bp) bp = NULL /\
  same_globals st (remove_from_free_list st bp) /\
  payload_kept st (remove_from_free_list st bp) bl /\
  (ordered st -> ordered (remove_from_free_list st bp)).
Proof.
  intros Hrep Hb Hin.
  destruct (rep_remove st bl fl Hrep bp s Hb Hin) as [Hrep' Hpay].
  destruct (rep_remove_clears st bl fl bp s Hrep Hb Hin) as [C1 C2].
  split; [exact Hrep' |]. split.
  { apply remove_one_gone. apply (rep_nodup _ _ _ Hrep).
    apply get_root_index_range. }
  split; [exact C1 |]. split; [exact C2 |].
  split; [apply remove_globals |]. split; [exact Hpay |].
  intros Hord. apply (remove_ordered st bl fl bp s Hrep Hb Hin Hord).
Qed.

Lemma remove_from_free_list_spec_witness :
  GET_NEXTP (remove_from_free_list roomy_heap 4192) 4192 = NULL.
Proof.
  assert (In (4192, (4096, false))
             (layout (first_bp roomy_heap) [(4096, false)])) as Hb.
  { replace (first_bp roomy_heap) with 4192 by by_eval. left. reflexivity. }
  assert (In 4192 (roomy_buckets (get_root_index 4096))) as Hin
      by (left; reflexivity).
  exact (proj1 (proj2 (proj2 (proj2
           (remove_from_free_list_spec roomy_heap _ _ 4192 4096
              roomy_heap_rep Hb Hin))))).
Defined.

(** X22: inserting an unlisted free block and removing it again restores
    every bucket list: the state after the two calls is represented by the
    lists it had before, with the same anchors and allocated payloads. *)
Theorem insert_then_remove fuel st bl fl bp s st1 :
  heap_rep st bl fl -> In (bp, (s, false)) (layout (first_bp st) bl) ->
  ~ In bp (fl (get_root_index s)) ->
  insert_to_free_list fuel st bp = Some st1 ->
  heap_rep (remove_from_free_list st1 bp) bl fl /\
  same_globals st (remove_from_free_list st1 bp) /\
  payload_kept st (remove_from_free_list st1 bp) bl.
Proof.
  intros Hrep Hb Hnew Hins.
  destruct (rep_insert st bl fl Hrep bp s Hb Hnew fuel st1 Hins)
    as (Hrep1 & Hpay1 & Hg1).
  pose proof (first_bp_same _ _ Hg1) as E1.
  set (i := get_root_index s) in *.
  set (fl1 := set_bucket fl i (insert_sorted (size_at (mem st)) s bp (fl i))) in *.
  assert (In (bp, (s, false)) (layout (first_bp st1) bl)) as Hb1
      by (rewrite E1; exact Hb).
  assert (In bp (fl1 i)) as Hin1.
  { unfold fl1. rewrite set_bucket_same. apply insert_sorted_in. left. reflexivity. }
  destruct (rep_remove st1 bl fl1 Hrep1 bp s Hb1 Hin1) as [Hrep2 Hpay2].
  fold i in Hrep2.
  split; [| split].
  - eapply heap_rep_ext; [| exact Hrep2].
    intros j Hj. unfold fl1, set_bucket.
    destruct (Z.eqb_spec j i) as [-> | _]; [| reflexivity].
    rewrite Z.eqb_refl. symmetry. apply remove_insert_sorted. exact Hnew.
  - eapply same_globals_trans; [exact Hg1 | apply remove_globals].
  - eapply payload_kept_same; [exact Hpay1 | exact Hg1 | exact Hpay2].
Qed.

Lemma insert_then_remove_witness :
  returned (insert_to_free_list 16 unmatched_heap 4192) = true /\
  heap_rep (remove_from_free_list
              (final_state (insert_to_free_list 16 unmatched_heap 4192)
                           unmatched_heap) 4192)
           [(24, false); (24, true); (4048, false)] unmatched_buckets.
Proof.
  assert (In (4192, (24, false))
             (layout (first_bp unmatched_heap)
                     [(24, false); (24, true); (4048, false)])) as Hb.
  { replace (first_bp unmatched_heap) with 4192 by by_eval. left. reflexivity. }
  assert (~ In 4192 (unmatched_buckets (get_root_index 24))) as Hnew
      by (intros []).
  assert (returned (insert_to_free_list 16 unmatched_heap 4192) = true) as Hret
      by (vm_compute; reflexivity).
  split; [exact Hret |].
  exact (proj1 (insert_then_remove 16 unmatched_heap _ _ 4192 24 _
                  unmatched_heap_rep Hb Hnew
                  (returned_final _ unmatched_heap Hret))).
Defined.

(** * Size classes *)

(** X23: the class [get_root] computes for a size and the range the
    checker expects in that bucket agree for sizes up to 2^31: the size is
    in class [i] exactly when it lies within the checker's bounds for
    bucket [i].  The class index never decreases when the size grows, and
    [get_root] is the address of that root in the array. *)
Theorem size_class_table st size i :
  0 <= size <= 2 ^ 31 -> 0 <= i < 10 ->
  (get_root_index size = i <->
   fst (class_bounds i) <= size <= snd (class_bounds i)) /\
  (forall size', size <= size' -> get_root_index size <= get_root_index size') /\
  get_root st size = seg_free_listp st + get_root_index size * DSIZE /\
  seg_free_listp st <= get_root st size <= seg_free_listp st + 9 * DSIZE.
Proof.
  intros Hs Hi. split; [| split; [| split]].
  - split.
    + intros <-. apply class_bounds_index. exact Hs.
    + intros Hb.
      assert (i = 0 \/ i = 1 \/ i = 2 \/ i = 3 \/ i = 4 \/ i = 5 \/ i = 6
              \/ i = 7 \/ i = 8 \/ i = 9) as Hc by lia.
      unfold get_root_index.
      destruct Hc as [-> | [-> | [-> | [-> | [-> | [-> | [-> | [-> | [-> | ->]]]]]]]]];
        cbn [class_bounds fst snd] in Hb;
        repeat match goal with
               | |- context [?x <=? ?y] => destruct (Z.leb_spec x y)
               end; lia.
  - intros size' H. apply get_root_index_mono. exact H.
  - reflexivity.
  - pose proof (get_root_index_range size). unfold get_root, DSIZE. lia.
Qed.

Lemma size_class_table_witness :
  0 <= 4096 <= 2 ^ 31 /\ get_root_index 4096 = 7.
Proof.
  assert (0 <= 4096 <= 2 ^ 31) as Hs by lia.
  split; [exact Hs |].
  apply (proj2 (proj1 (size_class_table roomy_heap 4096 7 Hs ltac:(lia)))).
  cbn. lia.
Defined.
(** * The first call of [malloc] *)

(** The block [malloc] takes from the buckets is a free block of the heap
    of at least the adjusted size. *)
Lemma malloc_fit_block fuel st bl fl size p s r st' :
  heap_ok st bl fl -> size_ok size -> 0 < size ->
  In (p, (s, false)) (layout (first_bp st) bl) -> adjust_size size <= s ->
  malloc fuel st size = Some (r, st') ->
  exists s0, In (r, (s0, false)) (layout (first_bp st) bl)
             /\ adjust_size size <= s0.
Proof.
  intros Hok Hsize Hpos Hb Hs Hm. pose proof Hok as (Hrep & Hcov & Hnaf).
  pose proof (rep_listp_nonzero _ _ _ Hrep) as Hl.
  rewrite malloc_unfold in Hm by (assumption || lia). cbv zeta in Hm.
  set (asize := adjust_size size) in *.
  destruct (find_fit fuel st asize) as [bp0 |] eqn:Hf; [| discriminate].
  cbn [obind] in Hm.
  destruct (find_fit_sound _ _ _ _ _ _ Hok Hf) as [Hff Hfit].
  assert (bp0 <> 0) as Hne.
  { intros E. rewrite E in Hff. symmetry in Hff.
    pose proof (no_fit_small _ _ _ _ _ _ Hok Hff Hb). lia. }
  unfold NULL in Hm.
  destruct (Z.eqb_spec bp0 0) as [E | _]; [contradiction |]. cbn [negb] in Hm.
  destruct (place fuel st bp0 asize) as [st2 |] eqn:Hp; [| discriminate].
  cbn in Hm. injection Hm as <- <-. exact (Hfit Hne).
Qed.

(** X24: [malloc] on an allocator that was never initialised calls
    [mm_init] first.  When the primitive has room for the roots and the
    first chunk, the first [malloc] of 1 to 4092 bytes returns, given fuel
    11, the payload address 96 bytes above the initial break, and leaves a
    reachable state whose one live pointer is that address. *)
Theorem malloc_first_call fuel st0 size :
  fresh_heap st0 -> heap_listp st0 = 0 ->
  mem_brk st0 + 12 * DSIZE + CHUNKSIZE <= mem_max_addr st0 ->
  0 < size <= CHUNKSIZE - WSIZE -> (11 <= fuel)%nat ->
  exists st', malloc fuel st0 size = Some (mem_brk st0 + 12 * DSIZE, st') /\
              reachable st' [mem_brk st0 + 12 * DSIZE].
Proof.
  intros Hfresh Hl Hroom Hsz Hfuel. unfold CHUNKSIZE, WSIZE in Hsz.
  destruct (mm_init_room fuel st0 Hfresh Hroom)
    as (st1 & fl & Hi & Hs1 & Hl1 & _ & Hok & Hfl).
  assert (reachable st1 []) as Hreach
      by apply (reach_init st0 fuel st1 Hfresh Hi).
  assert (size_ok size) as Hso by (unfold size_ok, SIZE_MAX; lia).
  assert (malloc fuel st0 size = malloc fuel st1 size) as Em.
  { destruct Hfresh as (F1 & _).
    unfold malloc. rewrite Hl, Hi. cbn [Z.eqb obind].
    destruct (Z.eqb_spec (heap_listp st1) 0) as [E | _]; [lia |].
    reflexivity. }
  destruct (malloc_total fuel st1 _ fl size Hok Hso) as (r & st' & Hm).
  { intros j Hj. rewrite (Hfl j Hj). destruct (j =? 7); cbn [length]; lia. }
  assert (adjust_size size <= 4096) as Ha.
  { destruct (Z_le_gt_dec size 16) as [Hs | Hs].
    - rewrite adjust_size_small by lia. lia.
    - rewrite adjust_size_large by (unfold SIZE_MAX; lia). zdm. }
  assert (In (first_bp st1, (4096, false))
             (layout (first_bp st1) [(4096, false)])) as Hb
      by (left; reflexivity).
  destruct (malloc_fit_block _ _ _ _ _ _ _ _ _ Hok Hso (proj1 Hsz) Hb Ha Hm)
    as (s0 & [E | []] & _).
  injection E as Er _. unfold first_bp in Er. rewrite Hs1 in Er.
  assert (r = mem_brk st0 + 12 * DSIZE) as -> by (unfold DSIZE; lia).
  exists st'. split; [rewrite Em; exact Hm |].
  pose proof (reach_call st1 [] fuel (Malloc size) _ st' Hreach Hso Hm I)
    as Hr.
  cbn [live_after] in Hr.
  destruct (Z.eqb_spec (mem_brk st0 + 12 * DSIZE) 0) as [E | _];
    [| exact Hr].
  destruct Hfresh as (F1 & _). unfold DSIZE in E. lia.
Qed.

Lemma malloc_first_call_witness :
  fresh_heap (raw_state 4096 1048576) /\
  exists st', malloc 16 (raw_state 4096 1048576) 16
              = Some (mem_brk (raw_state 4096 1048576) + 12 * DSIZE, st') /\
              reachable st' [mem_brk (raw_state 4096 1048576) + 12 * DSIZE].
Proof.
  assert (fresh_heap (raw_state 4096 1048576)) as Hf
      by (unfold fresh_heap; cbn; repeat split; lia).
  split; [exact Hf |].
  apply (malloc_first_call 16 (raw_state 4096 1048576) 16 Hf eq_refl).
  - cbn. lia.
  - unfold CHUNKSIZE, WSIZE. lia.
  - lia.
Defined.



